(* ===== verification/_CoqProject ===== *)
-Q . S2P
Prelude.v
Bytes.v
Crc32.v
DiskFormat.v
Blockdev.v
DiskOps.v
Journal.v
JournalLog.v
JournalCommit.v
JournalInv.v
JournalRecover.v
JournalReplay.v
JournalSafety.v
JournalTorn.v
JournalProps.v
Txn.v
TxnInv.v
TxnSafety.v
TxnCommit.v
TxnTorn.v
TxnView.v
TxnApi.v
TxnStore.v
TxnThreads.v
TxnThreadsInv.v
TxnThreadsTurn.v
TxnProps.v
TxnThreadsProps.v
FsFormat.v
Inode.v
InodeBits.v
InodeSpec.v
InodeDir.v
InodeDirSpec.v
InodeDirAdd.v
InodeWalk.v
Fs.v
FsOps.v
FsTree.v
FsNewDir.v
FsImage.v
FsStep.v
FsPath.v
FsChange.v
FsCalls.v
FsCreate.v
FsRemove.v
FsFile.v
FsWrite.v
FsTruncate.v
FsListing.v
FsOpsSpec.v
FsMachine.v
FsLayout.v
FsMkfs.v
FsMount.v
FsRemount.v
FsDemo.v
FsProps.v
InodeProps.v
FsOpsProps.v
FsRunProps.v
Tools.v
ToolsProps.v
