(* ===== verification/Prelude.v ===== *)
(** * logfs: a verification development of the journaling file system under src/

    logfs is a small FUSE file system with an ext3-style journal.  Its parts,
    bottom up, and the files that model them:

    - [src/src/crc32.c]: the CRC-32 of the journal and the superblock -
      [Crc32];
    - [src/src/disk_format.h]: constants, structs and their byte images -
      [DiskFormat] for the journal, [FsFormat] for the file system (over the
      byte encodings of [Bytes]);
    - [src/src/blockdev.c]: the block device over a backing file, with a
      volatile cache in front of the medium - [Blockdev];
    - [src/src/journal.c]: descriptor / data / commit sequencing over a
      circular log, the persistent oldest-valid pointer, two-pass recovery -
      [Journal];
    - [src/src/txn.c]: the transaction manager - staging table, commit
      thread, checkpoint list, the three data modes, the writeback queue -
      [Txn], and as threads that interleave, [TxnThreads];
    - [src/src/inode.c]: inode table, allocation bitmaps, flat directories,
      path lookup - [Inode];
    - [src/src/fs.c]: mkfs, mount with recovery, unmount - [Fs] (the recovery
      part of mount, [recover_install] and [recover_journal], in
      [JournalReplay] and [JournalSafety]);
    - [src/src/fs_ops.c]: the FUSE operations - [FsOps];
    - [src/src/mkfs.c], [src/src/main.c]: the command line tools - [Tools].

    [fs_ops.c] and [inode.c] reach the disk through [txn.h] only; that
    interface is the class [TxnApi] with its laws [TxnLaws], against which
    their theorems are proved, and [TxnStore] shows that the model of [txn.c]
    is an instance.  [txn.c] uses the journal through the invariant
    [log_inv], and the journal the device through the operations of [DiskOps].

    ** How code becomes definitions

    A C function that may fail and works on state behind pointers is a
    function in the monad [M S A] below: it returns [Ok] or the negative
    return code [Err rc], and the state it leaves either way.  Definitions
    keep the names of the source; a struct is a [Record], less pointers that
    the state already stands for ([jst] is a [logfs_journal_t] with its
    device, [tst] a [logfs_txn_mgr_t] with its device; [on_dev], [on_bdev]
    and [on_journal] run an operation of the part inside the whole).
    [uint32_t] and [uint64_t] are [Z]; results stored into one are reduced by
    [u32] / [u64].  A block is a list of 4096 bytes.  A loop that is not
    structural takes fuel.

    The operating system is state too ([Blockdev.bdev]): [sys] lists the
    answers of the next system calls - short transfers, [EINTR], errors,
    power loss - and [heap] those of the next allocations; empty lists mean
    that everything succeeds.  Writes are pending until an [fsync] moves them
    to durable storage, and [crash_image] is any combination of durable and
    pending contents, block by block.  So a theorem for all [sys] covers every
    error path and every crash point, under arbitrary reordering in the cache.

    ** Files and what their theorems show

    - [Prelude], [Bytes]: machine integers, the monad, list lemmas, tactics;
      little-endian encodings and their round trips.
    - [Crc32]: the table-driven update equals the bitwise definition of the
      polynomial; two messages that differ within four consecutive bytes have
      different checksums.
    - [DiskFormat], [FsFormat]: encode / decode round trips of the structs.
    - [Blockdev]: [full_pread] and [full_pwrite] against every sequence of
      kernel answers.
    - [DiskOps]: [performs], the logic used for the crash-safety proofs: the
      operations a run executes, a prefix of them when it fails or the power
      goes, whatever the kernel answers.
    - [Journal]: the model of [journal.c].  [JournalLog]: the log as data -
      [parse_image] is the recovery scan as a function of an image,
      [recovered] the contents recovery brings back, [ltxn] and [log_blocks]
      the abstract log.  [JournalCommit], [JournalInv]: the operations of a
      commit and the invariant [log_inv], which says that the region holds
      exactly a list of transactions, whichever part of the cache survives.
      [JournalRecover], [JournalReplay]: the scan against a real device
      refines [parse_image] and ends; recovery performs the installs and then
      the truncation, or a prefix.  [JournalSafety]: crash lemmas and the
      preservation of [log_inv] by every operation; [JournalTorn]: what a
      failure inside an operation leaves is a log that mounts.  [JournalProps]: the
      theorems - commits are atomic and durable across a power failure and a
      remount, failed calls change nothing, truncation loses nothing,
      recovery can be interrupted, corrupted transactions are refused, a
      formatted journal mounts - and runs where the code breaks a promise.
    - [Txn]: the model of [txn.c].  [TxnInv]: the staging table as a map, the
      reader's [view] over the three tiers (staged, committed, device), and
      the invariant [mgr_inv] that ties them to [log_inv].  [TxnSafety]:
      [crash_safe], a logic for runs whose crash images all satisfy a
      predicate, and checkpointing in it.  [TxnCommit]: a whole turn of the
      commit thread ([turn_done]); [TxnTorn]: a turn cut short.  [TxnView]: what handles do to the view.
      [TxnProps]: the theorems - a turn is atomic, durable when nothing
      fails, and invisible to readers; staging and reading have the
      three-tier view as specification; the loops end; shutdown empties the
      log - and runs where the manager breaks a promise.
    - [TxnThreads]: the same critical sections as steps of the commit thread
      and of any number of clients.  [TxnThreadsInv]: the invariant of every
      schedule.  [TxnThreadsTurn]: the thread's steps taken alone are
      [commit_cycle], and what others do meanwhile does not change what a
      turn commits.  [TxnThreadsProps]: handles keep their buffers, the
      assertion of the manager, the interleaved turn, the release of a caller
      of [logfs_txn_commit_sync], and the schedule in which it returns too
      early.
    - [TxnApi]: the interface and its laws on abstract [contents].
      [TxnStore]: the manager satisfies them, under any kernel that does not
      end the backing file and any allocator.
    - [Inode]: the model of [inode.c].  [InodeBits], [InodeSpec]: the bitmaps
      as sets, the table as a function.  [InodeDir], [InodeDirSpec],
      [InodeDirAdd]: directories as finite maps, and the operations on them.
      [InodeWalk]: emptiness and path lookup.  [InodeProps]: the theorems.
    - [FsOps]: the model of [fs_ops.c].  [FsTree]: the abstract tree of
      names; [FsImage]: the invariant [wf_image] of a mounted file system.
      [FsNewDir], [FsStep], [FsPath], [FsChange], [FsCalls]: the steps the
      operations share, each with the inodes it leaves alone.  [FsCreate],
      [FsRemove], [FsFile], [FsWrite], [FsTruncate], [FsListing],
      [FsOpsSpec]: one operation or two each.  [FsOpsProps]: every operation
      against the tree and the bytes of files, on every branch, and runs
      where a failed operation leaves the tree broken.
    - [Fs]: the model of [fs.c].  [FsLayout], [FsMkfs], [FsMount]: what mkfs
      lays out and that it mounts.  [FsProps]: the theorems about mkfs and
      mount, and the layouts and failures where they break a promise.
    - [FsMachine]: the mounted file system in journal mode under calls and
      commit turns, while nothing fails; [FsRemount]: under power failures and mounts as well
      ([life]).  [FsRunProps]: every state of a life is a well-formed image
      and mounts again after a power failure with exactly what was committed,
      or, within a turn, with that or exactly what the clients saw;
      [fsync] sleeps until a turn has made what its caller saw survive, and
      runs where it does not, or where a failed call breaks a directory.  [FsDemo]: a formatted
      device for the runs of the witnesses.
    - [Tools]: both programs from [argv] to the exit code.  [ToolsProps]:
      what mkfs writes the mount command serves; bad command lines change
      nothing; and a journal size that is not checked.

    The abstract specifications: contents as a function from block numbers to
    blocks, for the journal and the manager - [recovered] and [view] are the
    abstraction functions, [overlay] applies a transaction's writes to such a
    function, and their theorems are refinements to "nothing, or all of the
    transaction, is applied"; a finite map per directory, and the tree of
    names with the bytes of each file, for the file system.

    ** Fuel

    The scan of recovery runs with [scan_fuel], the log length plus the
    number of kernel answers left, plus one: every turn that goes on moves
    past at least two log blocks with a fresh sequence number, and
    [scan_terminates] shows that the fuel is never exhausted, for any image
    and kernel.  The checkpoint loops run with the length of the checkpoint
    list plus one, since a turn that goes on shortens it
    ([checkpoint_loops_end]).  A path is walked with its length plus one
    as fuel, each turn that goes on consuming a component
    ([path_lookup_resolves]); the loops of read and write run with
    [copy_fuel], a turn for each block they can touch and one to stop
    ([read_slices], [write_splices]); numbers are printed with
    twenty digits, enough for 64 bits ([strtoull_print]).  [OUT_OF_FUEL],
    [TXN_OUT_OF_FUEL], [PATH_OUT_OF_FUEL], [OPS_OUT_OF_FUEL], [BLOCKED],
    [ASSERT_FAILED] and [NULL_DEREF] are positive, so never return codes of
    the source.

    ** Not modelled

    - The inside of mutexes, condition variables and timers: a critical
      section is one step, a wait is a step that cannot be taken or changes
      nothing, so any wake-up is allowed.  The writeback thread is the step
      [writeback_step] and the drain at shutdown; it shares only the device
      with the others and is not interleaved with them.
    - The steps of [client_step] are whole calls: [logfs_txn_read_block] gives
      up the lock before it reads the device, and [logfs_txn_write_data] before
      it takes it again to note the block, and other threads' steps in between
      are not among the schedules.
    - Accesses the C code makes out of bounds: a block index of twelve or more
      in [read_loop] and [write_loop] is a hole, and [logfs_bdev_read] and
      [logfs_bdev_write] do not wrap the byte offset of a block from 2^52 up.
      The hypotheses of the theorems on sizes exclude both.
    - The FUSE library, which is the argument [fuse_main] of [logfs_main], and
      its dispatch; the lock of [fs_ops.c] makes each call one step.
    - The invariants over whole runs ([FsMachine], [FsRemount]) are about
      journal mode; in the other modes data bypasses the log by design, and
      the manager's theorems say what still holds.  In these runs no call
      fails before the power does, each [create] and [mkdir] finds a slot in
      the inode table ([table_room]: images like those of the README have
      slots for 63 of 64 inodes, see [FsProps.inode_past_table]), and power
      fails between two calls or within a turn; a call of [fs_ops.c] changes
      only memory in journal mode.  They leave out the failures after which the
      code does not find its log again: in a turn on an empty log or one
      that has to empty it first ([TxnTorn.roomy]), and after one when the
      emptied log was used before ([FsRemount.numbered], with the run
      [JournalProps.stale_txn_replayed]); what recovery of the image finds
      is known then too ([commit_crash_consistent]).
    - Freeing memory and closing the descriptor, the text of messages
      ([Tools.message] keeps their contents), and the tests. *)

From stdpp Require Export base gmap list strings.
From Stdlib Require Export ZArith Lia.

#[global] Open Scope Z_scope.

(** ** Machine-width integers

    A C [uint32_t] / [uint64_t] is a [Z] in range; every arithmetic result
    the source stores back into one is reduced explicitly. *)

Definition u8 (z : Z) : Z := z mod 2 ^ 8.

Definition u32 (z : Z) : Z := z mod 2 ^ 32.

Definition u64 (z : Z) : Z := z mod 2 ^ 64.

Lemma u32_range z : 0 <= u32 z < 2 ^ 32.
Proof. apply Z.mod_pos_bound; lia. Qed.

Lemma u64_range z : 0 <= u64 z < 2 ^ 64.
Proof. apply Z.mod_pos_bound; lia. Qed.

Lemma u32_small z : 0 <= z < 2 ^ 32 -> u32 z = z.
Proof. apply Z.mod_small. Qed.

Lemma u64_small z : 0 <= z < 2 ^ 64 -> u64 z = z.
Proof. apply Z.mod_small. Qed.

(** ** Error numbers (Linux [errno.h])

    Functions return them negated. *)

Definition ENOENT : Z := 2.
Definition EINTR : Z := 4.
Definition EIO : Z := 5.
Definition EAGAIN : Z := 11.
Definition ENOMEM : Z := 12.
Definition EEXIST : Z := 17.
Definition ENOTDIR : Z := 20.
Definition EINVAL : Z := 22.
Definition EFBIG : Z := 27.
Definition ENOSPC : Z := 28.
Definition ENAMETOOLONG : Z := 36.
Definition ENOTEMPTY : Z := 39.
Definition EUCLEAN : Z := 117.

(** ** The error monad with state

    Every fallible function of the source returns [0] or [-errno] and works
    on state behind pointers.  [M S A] is that shape: a run from a state ends
    with [Ok a] or with [Err rc] (the negative return code), and with the
    state as the function leaves it, on the error paths too. *)

Inductive result (A : Type) :=
  | Ok (a : A)
  | Err (rc : Z).

Arguments Ok {A} a.
Arguments Err {A} rc.

Definition M (S A : Type) := S -> result A * S.

#[global] Instance M_ret S : MRet (M S) := fun A a s => (Ok a, s).

#[global] Instance M_bind S : MBind (M S) := fun A B f m s =>
  match m s with
  | (Ok a, s') => f a s'
  | (Err rc, s') => (Err rc, s')
  end.

Definition fail {S A} (rc : Z) : M S A := fun s => (Err rc, s).

Definition gets {S A} (f : S -> A) : M S A := fun s => (Ok (f s), s).

Definition modify {S} (f : S -> S) : M S unit := fun s => (Ok tt, f s).

(** [attempt m] runs [m] and hands its return code to the caller instead of
    returning early: the source's [if (f(...) != 0) ...] that goes on. *)
Definition attempt {S A} (m : M S A) : M S (result A) := fun s =>
  let (r, s') := m s in (Ok r, s').

(** Running an operation of a component inside a larger state. *)
Definition zoom {S T A} (get : S -> T) (set : T -> S -> S) (m : M T A) : M S A :=
  fun s => let (r, t) := m (get s) in (r, set t s).

Definition is_ok {A} (r : result A) : bool :=
  match r with Ok _ => true | Err _ => false end.

Section monad_laws.
Context {S A B : Type}.
Implicit Types (m : M S A) (f : A -> M S B).

Lemma bind_ok m f s a s' : m s = (Ok a, s') -> (m ≫= f) s = f a s'.
Proof. intros H. unfold mbind, M_bind. by rewrite H. Qed.

Lemma bind_err m f s rc s' : m s = (Err rc, s') -> (m ≫= f) s = (Err rc, s').
Proof. intros H. unfold mbind, M_bind. by rewrite H. Qed.

Lemma bind_ok_inv m f s b s' :
  (m ≫= f) s = (Ok b, s') -> exists a s1, m s = (Ok a, s1) /\ f a s1 = (Ok b, s').
Proof.
  unfold mbind, M_bind. destruct (m s) as [[a|rc] s1] eqn:E; [|congruence].
  intros H. by exists a, s1.
Qed.
End monad_laws.

(** ** How operations move the state *)

Section moves.
Context {S : Type} (R : relation S) `{!PreOrder R}.

(** Whatever the outcome, the state moves along [R]. *)
Definition moves {A} (m : M S A) : Prop := forall s, R s (m s).2.

Lemma moves_ret {A} (x : A) : moves (mret x).
Proof. by intros s. Qed.

Lemma moves_fail {A} rc : moves (fail (A := A) rc).
Proof. by intros s. Qed.

Lemma moves_modify f : (forall s, R s (f s)) -> moves (modify f).
Proof. intros H s. apply H. Qed.

Lemma moves_bind {A B} (m : M S A) (f : A -> M S B) :
  moves m -> (forall x, moves (f x)) -> moves (m ≫= f).
Proof.
  intros Hm Hf s. unfold mbind, M_bind. specialize (Hm s).
  destruct (m s) as [[x|rc] s1]; cbn [snd] in *; [|exact Hm]. etrans; [exact Hm|apply Hf].
Qed.

(** After a look at the state. *)
Lemma moves_look {A B} (f : S -> A) (k : A -> M S B) :
  (forall x, moves (k x)) -> moves (gets f ≫= k).
Proof. intros Hk s. apply Hk. Qed.

Lemma moves_attempt {A} (m : M S A) : moves m -> moves (attempt m).
Proof. intros Hm s. unfold attempt. specialize (Hm s). destruct (m s). exact Hm. Qed.
End moves.

Lemma moves_zoom {S T A} (R : relation S) (Q : relation T) get set (m : M T A) :
  moves Q m -> (forall s t, Q (get s) t -> R s (set t s)) -> moves R (zoom get set m).
Proof.
  intros Hm HR s. unfold zoom. specialize (Hm (get s)). destruct (m (get s)). by apply HR.
Qed.

Create HintDb moves.

(** Every path through an operation, by its outermost call; [moves] has the
    calls that have been done. *)
Ltac moves_step :=
  lazymatch goal with
  | |- moves _ (mbind _ (gets _)) => apply moves_look; intros ?
  | |- moves _ (mbind _ _) => apply moves_bind; [typeclasses eauto| |intros ?]
  | |- moves _ (mret _) => apply moves_ret; typeclasses eauto
  | |- moves _ (fail _) => apply moves_fail; typeclasses eauto
  | |- moves _ (attempt _) => apply moves_attempt
  | |- moves _ (if ?b then _ else _) => destruct b
  | |- moves _ (match ?x with _ => _ end) => destruct x
  | |- _ => solve [auto with moves nocore]
  end.

Ltac moves_steps := repeat moves_step.

(** ** Lists *)

Lemma prefix_app_inv {A} (l l1 l2 : list A) :
  l `prefix_of` l1 ++ l2 ->
  l `prefix_of` l1 \/ exists l', l = l1 ++ l' /\ l' `prefix_of` l2.
Proof.
  revert l. induction l1 as [|x l1 IH]; intros l H; simpl in *.
  - right. by exists l.
  - destruct l as [|y l]; [left; apply prefix_nil|].
    apply prefix_cons_inv_1 in H as Hx. subst y.
    apply prefix_cons_inv_2 in H. destruct (IH l H) as [?|(l' & -> & ?)].
    + left. by apply prefix_cons.
    + right. by exists l'.
Qed.

Lemma length_concat_map {A B} (f : A -> list B) (l : list A) :
  length (concat (map f l)) = sum_list (map (fun x => length (f x)) l).
Proof. induction l as [|x l IH]; simpl; [done|]. by rewrite length_app, IH. Qed.

(** Rewriting facts about the sizes of encoded structures; the component
    files add theirs. *)
Create Rewrite HintDb layout.

#[export] Hint Rewrite @length_app @length_map @length_replicate @length_take
  @length_drop @length_nil @length_cons : layout.

(** Case analysis on every boolean test of the context and the goal. *)
Ltac case_bool :=
  match goal with
  | |- context [if ?b then _ else _] => destruct b eqn:?
  | H : context [if ?b then _ else _] |- _ => destruct b eqn:?
  end.

(** Booleans of [Z] comparisons as propositions. *)
Ltac zify_bool :=
  repeat match goal with
  | H : (_ && _) = true |- _ => apply andb_true_iff in H; destruct H
  | H : (_ || _) = false |- _ => apply orb_false_iff in H; destruct H
  | H : (_ =? _)%Z = true |- _ => apply Z.eqb_eq in H
  | H : (_ =? _)%Z = false |- _ => apply Z.eqb_neq in H
  | H : (_ <? _)%Z = true |- _ => apply Z.ltb_lt in H
  | H : (_ <? _)%Z = false |- _ => apply Z.ltb_ge in H
  | H : (_ <=? _)%Z = true |- _ => apply Z.leb_le in H
  | H : (_ <=? _)%Z = false |- _ => apply Z.leb_gt in H
  end.
