(* ===== verification/Bytes.v ===== *)
(** Bytes in memory: the little-endian representation of C integers and the
    access to a field of a struct at its offset.  The source moves its on-disk
    structs with [memcpy]; on the LP64 little-endian targets it is written for
    (Linux, [disk_format.h] compares sizes with [_Static_assert]) a field is
    the [le_bytes] of its value at the offset the ABI gives it. *)

From S2P Require Import Prelude.
From Stdlib Require Import Init.Byte Strings.Byte.

Abbreviation byte := Byte.byte.

Definition Z_of_byte (b : byte) : Z := Z.of_N (Byte.to_N b).

Definition byte_of_Z (z : Z) : byte :=
  match Byte.of_N (Z.to_N (z mod 256)) with Some b => b | None => Byte.x00 end.

#[global] Instance byte_eq_dec : EqDecision byte := Byte.byte_eq_dec.

Lemma Z_of_byte_range b : 0 <= Z_of_byte b < 256.
Proof. unfold Z_of_byte. pose proof (Byte.to_N_bounded b). lia. Qed.

Lemma Z_of_byte_of_Z z : Z_of_byte (byte_of_Z z) = z mod 256.
Proof.
  unfold byte_of_Z, Z_of_byte. pose proof (Z.mod_pos_bound z 256 ltac:(lia)) as H.
  destruct (Byte.of_N (Z.to_N (z mod 256))) as [b|] eqn:E.
  - apply Byte.to_of_N in E. rewrite E. lia.
  - apply Byte.of_N_None_iff in E. lia.
Qed.

Lemma byte_of_Z_of_byte b : byte_of_Z (Z_of_byte b) = b.
Proof.
  unfold byte_of_Z. rewrite Z.mod_small by apply Z_of_byte_range.
  unfold Z_of_byte. by rewrite N2Z.id, Byte.of_to_N.
Qed.

Lemma Z_of_byte_inj b c : Z_of_byte b = Z_of_byte c -> b = c.
Proof. intros H. by rewrite <-(byte_of_Z_of_byte b), H, byte_of_Z_of_byte. Qed.

(** ** Little-endian integers *)

Fixpoint le_bytes (n : nat) (z : Z) : list byte :=
  match n with
  | O => []
  | S n => byte_of_Z z :: le_bytes n (z / 256)
  end.

Fixpoint le_num (l : list byte) : Z :=
  match l with
  | [] => 0
  | b :: l => Z_of_byte b + 256 * le_num l
  end.

Lemma length_le_bytes n z : length (le_bytes n z) = n.
Proof. revert z. induction n; simpl; auto. Qed.

#[export] Hint Rewrite length_le_bytes : layout.

Lemma le_num_range l : 0 <= le_num l < 256 ^ Z.of_nat (length l).
Proof.
  induction l as [|b l IH]; simpl length; [simpl; lia|].
  rewrite Nat2Z.inj_succ, Z.pow_succ_r by lia. cbn [le_num].
  pose proof (Z_of_byte_range b). lia.
Qed.

Lemma le_num_bytes n z : le_num (le_bytes n z) = z mod 256 ^ Z.of_nat n.
Proof.
  revert z. induction n as [|n IH]; intros z; cbn [le_bytes le_num].
  - by rewrite Z.mod_1_r.
  - rewrite IH, Z_of_byte_of_Z, Nat2Z.inj_succ, Z.pow_succ_r by lia.
    rewrite Z.rem_mul_r by (try apply Z.pow_pos_nonneg; lia). lia.
Qed.

Lemma le_bytes_num l : le_bytes (length l) (le_num l) = l.
Proof.
  induction l as [|b l IH]; [done|]. cbn [length le_bytes le_num].
  pose proof (Z_of_byte_range b) as Hb. f_equal.
  - apply Z_of_byte_inj. rewrite Z_of_byte_of_Z.
    rewrite Z.mul_comm, Z_mod_plus_full. by apply Z.mod_small.
  - replace ((Z_of_byte b + 256 * le_num l) / 256) with (le_num l); [done|].
    rewrite Z.mul_comm, Z.div_add, Z.div_small; lia.
Qed.

Lemma le_num_app l1 l2 :
  le_num (l1 ++ l2) = le_num l1 + 256 ^ Z.of_nat (length l1) * le_num l2.
Proof.
  induction l1 as [|b l1 IH]; cbn [app le_num length]; [lia|].
  rewrite IH, Nat2Z.inj_succ, Z.pow_succ_r by lia. lia.
Qed.

Lemma le_num_zeros n : le_num (replicate n Byte.x00) = 0.
Proof. induction n as [|n IH]; [done|]. cbn [replicate le_num]. by rewrite IH. Qed.

(** ** Fields of a struct *)

Definition get (w off : nat) (l : list byte) : Z := le_num (take w (drop off l)).

Definition get8 := get 1.
Definition get32 := get 4.
Definition get64 := get 8.

Definition put8 (z : Z) : list byte := le_bytes 1 z.
Definition put16 (z : Z) : list byte := le_bytes 2 z.
Definition put32 (z : Z) : list byte := le_bytes 4 z.
Definition put64 (z : Z) : list byte := le_bytes 8 z.

Lemma get_skip w off l1 l2 :
  (length l1 <= off)%nat -> get w off (l1 ++ l2) = get w (off - length l1) l2.
Proof. intros H. unfold get. by rewrite drop_app_ge. Qed.

Lemma get_here w l1 l2 :
  length l1 = w -> get w 0 (l1 ++ l2) = le_num l1.
Proof. intros <-. unfold get. by rewrite drop_0, take_app_length. Qed.

Lemma get_range w off l : 0 <= get w off l < 256 ^ Z.of_nat w.
Proof.
  unfold get. pose proof (le_num_range (take w (drop off l))) as H.
  split; [lia|]. eapply Z.lt_le_trans; [apply H|].
  apply Z.pow_le_mono_r; [lia|]. rewrite length_take. lia.
Qed.

Lemma get_zeros w off n : get w off (replicate n Byte.x00) = 0.
Proof. unfold get. rewrite drop_replicate, take_replicate. apply le_num_zeros. Qed.

Lemma get_beyond w off l : (length l <= off)%nat -> get w off l = 0.
Proof. intros H. unfold get. rewrite drop_ge by done. by rewrite take_nil. Qed.

Lemma length_put8 z : length (put8 z) = 1%nat.
Proof. apply length_le_bytes. Qed.
Lemma length_put16 z : length (put16 z) = 2%nat.
Proof. apply length_le_bytes. Qed.
Lemma length_put32 z : length (put32 z) = 4%nat.
Proof. apply length_le_bytes. Qed.
Lemma length_put64 z : length (put64 z) = 8%nat.
Proof. apply length_le_bytes. Qed.

#[export] Hint Rewrite length_put8 length_put16 length_put32 length_put64 : layout.

Lemma le_num_put32 z : le_num (put32 z) = u32 z.
Proof. apply le_num_bytes. Qed.

Lemma le_num_put64 z : le_num (put64 z) = u64 z.
Proof. apply le_num_bytes. Qed.

(** [field] evaluates one [get] on a struct built from [put]s: it walks over
    the fields before the offset, then reads the one at the offset. *)
Ltac field_step :=
  first
    [ rewrite get_here by (autorewrite with layout; reflexivity)
    | rewrite get_skip by (autorewrite with layout; lia) ];
  autorewrite with layout.

Ltac field :=
  unfold get8, get32, get64; repeat field_step; cbn [Nat.sub];
  repeat (field_step; cbn [Nat.sub]).
