(* ===== verification/Crc32.v ===== *)
(** [src/crc32.c]: the CRC-32 the journal and the superblock are checked with.

    [crc32_build_table] is the table the C code builds under [pthread_once];
    [logfs_crc32_update] is the table-driven loop.  The theorems relate it to
    the bit-serial definition of the code ([crc32_bitwise]), and show what
    the checksum buys recovery: any corruption confined to four consecutive
    bytes changes it. *)

From S2P Require Import Prelude.
From S2P Require Import Bytes.

(** ** The code *)

Definition CRC32_POLY : Z := 0xEDB88320.

(** One turn of the inner loop: [(c & 1) ? (0xEDB88320u ^ (c >> 1)) : (c >> 1)]. *)
Definition crc32_shift (c : Z) : Z :=
  if Z.land c 1 =? 0 then Z.shiftr c 1 else Z.lxor CRC32_POLY (Z.shiftr c 1).

Definition crc32_table_entry (i : Z) : Z := Nat.iter 8 crc32_shift i.

Definition crc32_build_table : list Z :=
  map (fun i => crc32_table_entry (Z.of_nat i)) (seq 0 256).

Definition crc32_table : list Z := Eval vm_compute in crc32_build_table.

Definition logfs_crc32_init : Z := 0xFFFFFFFF.

(** [crc = crc32_table[(crc ^ p[i]) & 0xFFu] ^ (crc >> 8)] *)
Definition crc32_update_byte (crc : Z) (p : byte) : Z :=
  Z.lxor (nth (Z.to_nat (Z.land (Z.lxor crc (Z_of_byte p)) 0xFF)) crc32_table 0)
         (Z.shiftr crc 8).

Fixpoint logfs_crc32_update (crc : Z) (buf : list byte) : Z :=
  match buf with
  | [] => crc
  | p :: buf => logfs_crc32_update (crc32_update_byte crc p) buf
  end.

Definition logfs_crc32_final (crc : Z) : Z := Z.lxor crc 0xFFFFFFFF.

Definition logfs_crc32 (buf : list byte) : Z :=
  logfs_crc32_final (logfs_crc32_update logfs_crc32_init buf).

(** ** Reference: the bit-serial CRC *)

Fixpoint crc32_bitwise (crc : Z) (buf : list byte) : Z :=
  match buf with
  | [] => crc
  | p :: buf => crc32_bitwise (Nat.iter 8 crc32_shift (Z.lxor crc (Z_of_byte p))) buf
  end.

(** ** The shift register is linear and loses no information *)

Lemma crc32_table_built : crc32_table = crc32_build_table.
Proof. vm_compute. reflexivity. Qed.

Lemma crc32_shift_spec c :
  crc32_shift c = if Z.testbit c 0 then Z.lxor CRC32_POLY (Z.shiftr c 1) else Z.shiftr c 1.
Proof.
  unfold crc32_shift. change 1 with (Z.ones 1) at 1.
  rewrite Z.land_ones, Z.bit0_odd by lia. change (2 ^ 1) with 2.
  rewrite Zmod_odd. by destruct (Z.odd c).
Qed.

Lemma crc32_shift_lxor a b :
  crc32_shift (Z.lxor a b) = Z.lxor (crc32_shift a) (crc32_shift b).
Proof.
  rewrite !crc32_shift_spec, Z.lxor_spec, Z.shiftr_lxor.
  destruct (Z.testbit a 0), (Z.testbit b 0); cbn [xorb].
  - rewrite <-!Z.lxor_assoc, (Z.lxor_comm _ CRC32_POLY), <-!Z.lxor_assoc.
    by rewrite Z.lxor_nilpotent, Z.lxor_0_l.
  - by rewrite Z.lxor_assoc.
  - by rewrite <-!Z.lxor_assoc, (Z.lxor_comm CRC32_POLY).
  - done.
Qed.

Lemma lxor_range n a b :
  0 <= n -> 0 <= a < 2 ^ n -> 0 <= b < 2 ^ n -> 0 <= Z.lxor a b < 2 ^ n.
Proof.
  intros Hn Ha Hb. split; [by apply Z.lxor_nonneg; lia|].
  destruct (Z.eq_dec (Z.lxor a b) 0) as [->|Hnz]; [lia|].
  assert (0 <= Z.lxor a b) by (apply Z.lxor_nonneg; lia).
  apply Z.log2_lt_pow2; [lia|]. eapply Z.le_lt_trans; [apply Z.log2_lxor; lia|].
  destruct (Z.eq_dec a 0) as [->|Ha0], (Z.eq_dec b 0) as [->|Hb0];
    [rewrite Z.lxor_nilpotent in Hnz; lia| | |]; apply Z.max_lub_lt;
    try (apply Z.log2_lt_pow2; lia);
    (change (Z.log2 0) with 0; destruct (Z.eq_dec n 0) as [->|]; lia).
Qed.

Lemma shiftr1_range c : 0 <= c < 2 ^ 32 -> 0 <= Z.shiftr c 1 < 2 ^ 31.
Proof.
  intros Hc. rewrite Z.shiftr_div_pow2 by lia. change (2 ^ 1) with 2.
  split; [apply Z.div_pos; lia|apply Z.div_lt_upper_bound; lia].
Qed.

Lemma crc32_shift_range c : 0 <= c < 2 ^ 32 -> 0 <= crc32_shift c < 2 ^ 32.
Proof.
  intros Hc. pose proof (shiftr1_range c Hc) as Hs.
  rewrite crc32_shift_spec. destruct (Z.testbit c 0); [|lia].
  apply lxor_range; unfold CRC32_POLY; lia.
Qed.

(** Only the zero register shifts to zero: the feedback polynomial sets bit 31. *)
Lemma crc32_shift_kernel c : 0 <= c < 2 ^ 32 -> crc32_shift c = 0 -> c = 0.
Proof.
  intros Hc. pose proof (shiftr1_range c Hc) as Hs.
  rewrite crc32_shift_spec. destruct (Z.testbit c 0) eqn:Hb; intros H0.
  - apply Z.lxor_eq in H0. unfold CRC32_POLY in H0. lia.
  - rewrite Z.shiftr_div_pow2 in H0 by lia. change (2 ^ 1) with 2 in H0.
    rewrite Z.bit0_odd in Hb. rewrite (Z.div_mod c 2), H0, Zmod_odd, Hb; lia.
Qed.

Section iterated.
#[local] Abbreviation shifts n := (Nat.iter n crc32_shift).

Lemma shifts_lxor n a b : shifts n (Z.lxor a b) = Z.lxor (shifts n a) (shifts n b).
Proof. induction n as [|n IH]; simpl; [done|]. by rewrite IH, crc32_shift_lxor. Qed.

Lemma shifts_range n c : 0 <= c < 2 ^ 32 -> 0 <= shifts n c < 2 ^ 32.
Proof. intros Hc. induction n; simpl; [done|]. by apply crc32_shift_range. Qed.

Lemma shifts_inj n a b :
  0 <= a < 2 ^ 32 -> 0 <= b < 2 ^ 32 -> shifts n a = shifts n b -> a = b.
Proof.
  intros Ha Hb H. apply Z.lxor_eq.
  assert (Hr : 0 <= Z.lxor a b < 2 ^ 32) by (apply lxor_range; lia).
  assert (H0 : shifts n (Z.lxor a b) = 0).
  { by rewrite shifts_lxor, H, Z.lxor_nilpotent. }
  clear H. induction n as [|n IH]; simpl in H0; [done|].
  apply IH, crc32_shift_kernel; [by apply shifts_range|done].
Qed.

Lemma shifts_0 n : shifts n 0 = 0.
Proof. induction n as [|n IH]; simpl; [done|]. by rewrite IH. Qed.

Lemma shifts_double n x : shifts n (x * 2 ^ Z.of_nat n) = x.
Proof.
  revert x. induction n as [|n IH]; intros x; [simpl; lia|].
  rewrite Nat.iter_succ_r.
  replace (crc32_shift (x * 2 ^ Z.of_nat (S n))) with (x * 2 ^ Z.of_nat n); [done|].
  rewrite Nat2Z.inj_succ, Z.pow_succ_r, crc32_shift_spec by lia.
  replace (x * (2 * 2 ^ Z.of_nat n)) with (2 * (x * 2 ^ Z.of_nat n)) by lia.
  rewrite Z.bit0_odd, Z.odd_mul; cbn [Z.odd andb].
  rewrite Z.shiftr_div_pow2 by lia. change (2 ^ 1) with 2.
  by rewrite (Z.mul_comm 2), Z.div_mul.
Qed.
End iterated.

(** ** The table computes eight turns of the shift register *)

Lemma crc32_table_nth i :
  0 <= i < 256 -> nth (Z.to_nat i) crc32_table 0 = Nat.iter 8 crc32_shift i.
Proof.
  intros Hi. rewrite crc32_table_built. unfold crc32_build_table.
  rewrite (nth_indep _ 0 (crc32_table_entry (Z.of_nat 0)))
    by (rewrite length_map, length_seq; lia).
  rewrite (map_nth (fun i => crc32_table_entry (Z.of_nat i))).
  rewrite seq_nth by lia. unfold crc32_table_entry. f_equal. lia.
Qed.

Lemma low_byte_split c :
  0 <= c -> c = Z.lxor (Z.land c 0xFF) (Z.shiftr c 8 * 2 ^ 8).
Proof.
  intros Hc. rewrite <-Z.shiftl_mul_pow2 by lia. change 0xFF with (Z.ones 8).
  apply Z.bits_inj'. intros n Hn.
  rewrite Z.lxor_spec, Z.land_spec, Z.shiftl_spec by done.
  destruct (Z.ltb_spec n 8).
  - rewrite Z.ones_spec_low by lia. rewrite (Z.testbit_neg_r _ (n - 8)) by lia.
    by rewrite andb_true_r, xorb_false_r.
  - rewrite Z.ones_spec_high, Z.shiftr_spec by lia.
    by rewrite andb_false_r, xorb_false_l, Z.sub_add.
Qed.

Lemma land_ff_range c : 0 <= Z.land c 0xFF < 256.
Proof.
  change 0xFF with (Z.ones 8). rewrite Z.land_ones by lia. apply Z.mod_pos_bound. lia.
Qed.

Lemma crc32_update_byte_bitwise crc p :
  0 <= crc < 2 ^ 32 ->
  crc32_update_byte crc p = Nat.iter 8 crc32_shift (Z.lxor crc (Z_of_byte p)).
Proof.
  intros Hc. pose proof (Z_of_byte_range p) as Hp. unfold crc32_update_byte.
  set (x := Z.lxor crc (Z_of_byte p)).
  assert (Hx : 0 <= x) by (apply Z.lxor_nonneg; lia).
  rewrite crc32_table_nth by apply land_ff_range.
  rewrite (low_byte_split x Hx) at 2. rewrite shifts_lxor. f_equal.
  rewrite (shifts_double 8). unfold x. rewrite Z.shiftr_lxor.
  rewrite (Z.shiftr_div_pow2 (Z_of_byte p)), (Z.div_small (Z_of_byte p)) by lia.
  by rewrite Z.lxor_0_r.
Qed.

Lemma crc32_update_byte_range crc p :
  0 <= crc < 2 ^ 32 -> 0 <= crc32_update_byte crc p < 2 ^ 32.
Proof.
  intros Hc. rewrite crc32_update_byte_bitwise by done. apply shifts_range.
  pose proof (Z_of_byte_range p). apply lxor_range; lia.
Qed.

Lemma logfs_crc32_update_range crc buf :
  0 <= crc < 2 ^ 32 -> 0 <= logfs_crc32_update crc buf < 2 ^ 32.
Proof.
  revert crc. induction buf as [|p buf IH]; intros crc Hc; simpl; [done|].
  by apply IH, crc32_update_byte_range.
Qed.

Lemma logfs_crc32_final_range crc : 0 <= crc < 2 ^ 32 -> 0 <= logfs_crc32_final crc < 2 ^ 32.
Proof. intros Hc. apply lxor_range; lia. Qed.

Lemma logfs_crc32_final_inj a b : logfs_crc32_final a = logfs_crc32_final b -> a = b.
Proof.
  unfold logfs_crc32_final. intros H.
  rewrite <-(Z.lxor_0_r a), <-(Z.lxor_0_r b), <-(Z.lxor_nilpotent 0xFFFFFFFF).
  by rewrite <-!Z.lxor_assoc, H.
Qed.

Lemma logfs_crc32_update_app crc a b :
  logfs_crc32_update crc (a ++ b) = logfs_crc32_update (logfs_crc32_update crc a) b.
Proof. revert crc. induction a as [|p a IH]; intros crc; simpl; [done|apply IH]. Qed.

(** Different registers stay different whatever is fed to both. *)
Lemma logfs_crc32_update_inj a b buf :
  0 <= a < 2 ^ 32 -> 0 <= b < 2 ^ 32 ->
  logfs_crc32_update a buf = logfs_crc32_update b buf -> a = b.
Proof.
  revert a b. induction buf as [|p buf IH]; intros a b Ha Hb H; simpl in H; [done|].
  apply IH in H; [|by apply crc32_update_byte_range..].
  rewrite !crc32_update_byte_bitwise in H by done.
  pose proof (Z_of_byte_range p) as Hp.
  apply shifts_inj in H; [|apply lxor_range; lia..].
  rewrite <-(Z.lxor_0_r a), <-(Z.lxor_0_r b), <-(Z.lxor_nilpotent (Z_of_byte p)).
  by rewrite <-!Z.lxor_assoc, H.
Qed.

(** Feeding [n] bytes is [8 * n] turns on the register xored with them. *)
Lemma logfs_crc32_update_word crc buf :
  0 <= crc < 2 ^ 32 -> (length buf <= 4)%nat ->
  logfs_crc32_update crc buf = Nat.iter (8 * length buf) crc32_shift (Z.lxor crc (le_num buf)).
Proof.
  revert crc. induction buf as [|p buf IH]; intros crc Hc Hl; cbn [logfs_crc32_update le_num].
  { by rewrite Z.lxor_0_r. }
  simpl length in *. rewrite IH by (by (apply crc32_update_byte_range || lia)).
  rewrite crc32_update_byte_bitwise by done.
  replace (8 * S (length buf))%nat with (8 * length buf + 8)%nat by lia.
  rewrite Nat.iter_add. f_equal.
  replace (Z_of_byte p + 256 * le_num buf)
    with (Z.lxor (Z_of_byte p) (le_num buf * 2 ^ 8)).
  { by rewrite <-Z.lxor_assoc, (shifts_lxor 8 (Z.lxor crc _)), (shifts_double 8). }
  rewrite <-Z.add_nocarry_lxor; [change (2 ^ 8) with 256; lia|].
  rewrite <-Z.shiftl_mul_pow2 by lia. pose proof (Z_of_byte_range p) as Hp.
  apply Z.bits_inj'. intros n Hn. rewrite Z.land_spec, Z.bits_0.
  destruct (Z.ltb_spec n 8).
  - rewrite Z.shiftl_spec_low by done. apply andb_false_r.
  - rewrite (Z.bits_above_log2 (Z_of_byte p)); [done|lia|].
    destruct (Z.eq_dec (Z_of_byte p) 0) as [->|]; [simpl; lia|].
    apply Z.log2_lt_pow2; [lia|]. eapply Z.lt_le_trans; [apply Hp|].
    change 256 with (2 ^ 8). apply Z.pow_le_mono_r; lia.
Qed.

(** ** Properties *)

(** C40: the table-driven loop computes the bit-serial CRC. *)
Theorem logfs_crc32_update_bitwise crc buf :
  0 <= crc < 2 ^ 32 -> logfs_crc32_update crc buf = crc32_bitwise crc buf.
Proof.
  revert crc. induction buf as [|p buf IH]; intros crc Hc; [done|].
  cbn [logfs_crc32_update crc32_bitwise]. rewrite <-crc32_update_byte_bitwise by done. by apply IH, crc32_update_byte_range.
Qed.

Lemma logfs_crc32_update_bitwise_witness :
  0 <= logfs_crc32_init < 2 ^ 32 /\
  logfs_crc32_update logfs_crc32_init [Byte.x61; Byte.x62]
  = crc32_bitwise logfs_crc32_init [Byte.x61; Byte.x62].
Proof. split; [vm_compute; split; congruence|]. apply logfs_crc32_update_bitwise. vm_compute. split; congruence. Defined.

Lemma logfs_crc32_burst pre x y post :
  length x = length y -> (length x <= 4)%nat -> x <> y ->
  logfs_crc32 (pre ++ x ++ post) <> logfs_crc32 (pre ++ y ++ post).
Proof.
  intros Hl H4 Hne. unfold logfs_crc32. intros H%logfs_crc32_final_inj.
  rewrite !logfs_crc32_update_app in H.
  assert (Hi : 0 <= logfs_crc32_init < 2 ^ 32) by (unfold logfs_crc32_init; lia).
  set (c := logfs_crc32_update logfs_crc32_init pre) in *.
  assert (Hc : 0 <= c < 2 ^ 32) by (by apply logfs_crc32_update_range).
  apply logfs_crc32_update_inj in H; [|by apply logfs_crc32_update_range..].
  rewrite !logfs_crc32_update_word, Hl in H by (done || lia).
  assert (Hr : forall z, length z = length y -> 0 <= Z.lxor c (le_num z) < 2 ^ 32).
  { intros z Hz. pose proof (le_num_range z) as [Hz1 Hz2]. apply lxor_range; [lia..|].
    split; [done|]. eapply Z.lt_le_trans; [apply Hz2|].
    change (2 ^ 32) with (256 ^ 4). apply Z.pow_le_mono_r; lia. }
  apply shifts_inj in H; [|by apply Hr..]. apply Hne.
  rewrite <-(le_bytes_num x), <-(le_bytes_num y), Hl. f_equal.
  rewrite <-(Z.lxor_0_l (le_num x)), <-(Z.lxor_0_l (le_num y)), <-(Z.lxor_nilpotent c).
  by rewrite !Z.lxor_assoc, H.
Qed.

(** Two messages of the same length that differ only inside a window of
    at most four consecutive bytes have different checksums. *)
Theorem logfs_crc32_detects_burst pre x y post :
  length x = length y -> (length x <= 4)%nat -> x <> y ->
  logfs_crc32 (pre ++ x ++ post) <> logfs_crc32 (pre ++ y ++ post).
Proof. apply logfs_crc32_burst. Qed.

Lemma logfs_crc32_detects_burst_witness :
  logfs_crc32 ([Byte.x31] ++ [Byte.x32; Byte.x33] ++ [Byte.x34])
  <> logfs_crc32 ([Byte.x31] ++ [Byte.x32; Byte.x34] ++ [Byte.x34]).
Proof. apply logfs_crc32_detects_burst; [reflexivity|simpl; lia|congruence]. Defined.

(** The standard check value of CRC-32/ISO-HDLC: the checksum of "123456789". *)
Example logfs_crc32_check_value :
  logfs_crc32 (map (fun i => byte_of_Z (49 + Z.of_nat i)) (seq 0 9)) = 0xCBF43926.
Proof. vm_compute. reflexivity. Qed.
