(* ===== verification/DiskFormat.v ===== *)
(** [src/disk_format.h]: the constants and structs of the on-disk format, and
    their byte images.  A struct is encoded as the source does it - cleared
    with [memset], filled, copied into a cleared block - and decoded by the
    [memcpy] of a block back into it.  Offsets are those of the LP64 ABI; no
    struct has interior padding except [logfs_commit_block], whose four
    trailing bytes are zero. *)

From S2P Require Import Prelude.
From S2P Require Import Bytes.

Definition LOGFS_BLOCK_SIZE : Z := 4096.

Definition LOGFS_SUPER_MAGIC : Z := 0x4C4F4746.
Definition LOGFS_JOURNAL_MAGIC : Z := 0x4C4A524E.
Definition LOGFS_DESC_MAGIC : Z := 0x4C444352.
Definition LOGFS_COMMIT_MAGIC : Z := 0x4C434D54.
Definition LOGFS_REVOKE_MAGIC : Z := 0x4C52564B.

Definition LOGFS_SUPER_BLOCKNO : Z := 1.
Definition LOGFS_JSUPER_BLOCKNO : Z := 2.
Definition LOGFS_ROOT_INO : Z := 1.
Definition LOGFS_FORMAT_VERSION : Z := 1.

Definition LOGFS_JOURNAL_EMPTY : Z := 2 ^ 64 - 1.

Definition LOGFS_MAX_TAGS_PER_DESC : Z := (LOGFS_BLOCK_SIZE - 16) / 8.
Definition LOGFS_MAX_REVOKES_PER_BLOCK : Z := (LOGFS_BLOCK_SIZE - 16) / 8.

Inductive logfs_data_mode :=
  | LOGFS_MODE_WRITEBACK
  | LOGFS_MODE_ORDERED
  | LOGFS_MODE_JOURNAL
  | LOGFS_MODE_OTHER (n : Z).   (* the enum holding any other number *)

#[global] Instance logfs_data_mode_eq_dec : EqDecision logfs_data_mode.
Proof. solve_decision. Defined.

(** ** Blocks *)

Abbreviation block := (list byte).

Definition block_len : nat := Z.to_nat LOGFS_BLOCK_SIZE.

#[global] Arguments block_len : simpl never.

Lemma block_len_Z : Z.of_nat block_len = 4096.
Proof. reflexivity. Qed.

#[global] Opaque block_len.

(** [lia] knowing how long a block is. *)
Ltac blia := pose proof block_len_Z; lia.

Definition zero_block : block := replicate block_len Byte.x00.

(** [memset(block, 0, LOGFS_BLOCK_SIZE); memcpy(block, &s, sizeof(s))] *)
Definition pad_block (l : list byte) : block :=
  l ++ replicate (block_len - length l) Byte.x00.

Lemma length_zero_block : length zero_block = block_len.
Proof. apply length_replicate. Qed.

Lemma length_pad_block l : (length l <= block_len)%nat -> length (pad_block l) = block_len.
Proof. intros H. unfold pad_block. autorewrite with layout. lia. Qed.

(** ** Arrays of 64-bit words inside a block *)

Definition words (l : list Z) : list byte := concat (map put64 l).

Definition get_words (n off : nat) (b : list byte) : list Z :=
  map (fun i => get64 (off + 8 * i) b) (seq 0 n).

Lemma length_words l : length (words l) = (8 * length l)%nat.
Proof.
  unfold words. induction l as [|x l IH]; [done|]. cbn [map concat length].
  rewrite length_app, IH, length_put64. lia.
Qed.

#[export] Hint Rewrite length_words : layout.

Lemma words_cons x l : words (x :: l) = put64 x ++ words l.
Proof. done. Qed.

Lemma get_words_nth l i rest x :
  l !! i = Some x -> get64 (8 * i) (words l ++ rest) = u64 x.
Proof.
  revert i. induction l as [|y l IH]; intros [|i] Hi;
    [done|done|injection Hi as ->|change (l !! i = Some x) in Hi].
  - unfold get64. rewrite words_cons, <-app_assoc. cbn [Nat.mul].
    rewrite get_here by apply length_put64. apply le_num_put64.
  - unfold get64 in *. rewrite words_cons, <-app_assoc.
    rewrite get_skip by (rewrite length_put64; lia). rewrite length_put64.
    replace (8 * S i - 8)%nat with (8 * i)%nat by lia. by apply IH.
Qed.

Lemma get_words_words pre l rest :
  Forall (fun x => 0 <= x < 2 ^ 64) l ->
  get_words (length l) (length pre) (pre ++ words l ++ rest) = l.
Proof.
  intros Hl. unfold get_words. apply list_eq. intros i.
  rewrite list_lookup_fmap. destruct (l !! i) as [x|] eqn:Hi.
  - pose proof (lookup_lt_Some _ _ _ Hi) as Hlt. rewrite lookup_seq_lt by done.
    cbn [fmap option_fmap option_map Nat.add].
    unfold get64. rewrite get_skip by lia.
    replace (length pre + 8 * i - length pre)%nat with (8 * i)%nat by lia.
    pose proof (get_words_nth l i rest x Hi) as E. unfold get64 in E. rewrite E. f_equal.
    apply u64_small. by apply (Forall_lookup_1 _ _ _ _ Hl Hi).
  - apply lookup_ge_None in Hi. by rewrite lookup_seq_ge by done.
Qed.

Lemma take_get_words m n off b :
  (m <= n)%nat -> take m (get_words n off b) = get_words m off b.
Proof.
  intros H. unfold get_words. rewrite firstn_map. f_equal.
  replace n with (m + (n - m))%nat by lia. rewrite seq_app.
  by rewrite take_app_length' by (by rewrite length_seq).
Qed.

(** ** The journal superblock *)

Record logfs_journal_super := mkJsuper {
  js_magic : Z;
  js_block_size : Z;
  js_maxlen : Z;
  js_first : Z;
  js_sequence : Z;
  js_start : Z;
}.

Definition encode_jsuper (js : logfs_journal_super) : block :=
  pad_block (put32 (js_magic js) ++ put32 (js_block_size js) ++ put64 (js_maxlen js)
    ++ put64 (js_first js) ++ put64 (js_sequence js) ++ put64 (js_start js)).

Definition decode_jsuper (b : block) : logfs_journal_super :=
  mkJsuper (get32 0 b) (get32 4 b) (get64 8 b) (get64 16 b) (get64 24 b) (get64 32 b).

(** ** Descriptor, commit and revoke blocks *)

Record logfs_desc_block := mkDesc {
  desc_magic : Z;
  desc_ntags : Z;
  desc_sequence : Z;
  desc_tags : list Z;   (* the target_block of each tag *)
}.

Definition encode_desc (d : logfs_desc_block) : block :=
  pad_block (put32 (desc_magic d) ++ put32 (desc_ntags d) ++ put64 (desc_sequence d)
    ++ words (desc_tags d)).

Definition decode_desc (b : block) : logfs_desc_block :=
  mkDesc (get32 0 b) (get32 4 b) (get64 8 b)
    (get_words (Z.to_nat LOGFS_MAX_TAGS_PER_DESC) 16 b).

Record logfs_commit_block := mkCommit {
  cb_magic : Z;
  cb_reserved : Z;
  cb_sequence : Z;
  cb_checksum : Z;
}.

Definition encode_commit (cb : logfs_commit_block) : block :=
  pad_block (put32 (cb_magic cb) ++ put32 (cb_reserved cb) ++ put64 (cb_sequence cb)
    ++ put32 (cb_checksum cb)).

Definition decode_commit (b : block) : logfs_commit_block :=
  mkCommit (get32 0 b) (get32 4 b) (get64 8 b) (get32 16 b).

Record logfs_revoke_block := mkRevoke {
  rv_magic : Z;
  rv_nblocks : Z;
  rv_sequence : Z;
  rv_blocks : list Z;
}.

Definition encode_revoke (rv : logfs_revoke_block) : block :=
  pad_block (put32 (rv_magic rv) ++ put32 (rv_nblocks rv) ++ put64 (rv_sequence rv)
    ++ words (rv_blocks rv)).

Definition decode_revoke (b : block) : logfs_revoke_block :=
  mkRevoke (get32 0 b) (get32 4 b) (get64 8 b)
    (get_words (Z.to_nat LOGFS_MAX_REVOKES_PER_BLOCK) 16 b).

(** ** Sizes and round trips *)

Lemma get_here_padded w l n : length l = w -> get w 0 (l ++ replicate n Byte.x00) = le_num l.
Proof. apply get_here. Qed.

Lemma length_encode_jsuper js : length (encode_jsuper js) = block_len.
Proof. apply length_pad_block. autorewrite with layout. blia. Qed.

Lemma length_encode_commit cb : length (encode_commit cb) = block_len.
Proof. apply length_pad_block. autorewrite with layout. blia. Qed.

Lemma length_encode_desc d :
  Z.of_nat (length (desc_tags d)) <= LOGFS_MAX_TAGS_PER_DESC ->
  length (encode_desc d) = block_len.
Proof.
  change LOGFS_MAX_TAGS_PER_DESC with 510. intros H.
  apply length_pad_block. autorewrite with layout. blia.
Qed.

Lemma length_encode_revoke rv :
  Z.of_nat (length (rv_blocks rv)) <= LOGFS_MAX_REVOKES_PER_BLOCK ->
  length (encode_revoke rv) = block_len.
Proof.
  change LOGFS_MAX_REVOKES_PER_BLOCK with 510. intros H.
  apply length_pad_block. autorewrite with layout. blia.
Qed.

(** [decode] of an encoded struct gives the struct back, each field at its
    C width. *)
Lemma decode_encode_jsuper js :
  decode_jsuper (encode_jsuper js)
  = mkJsuper (u32 (js_magic js)) (u32 (js_block_size js)) (u64 (js_maxlen js))
      (u64 (js_first js)) (u64 (js_sequence js)) (u64 (js_start js)).
Proof.
  unfold decode_jsuper, encode_jsuper, pad_block. rewrite <-!app_assoc.
  f_equal; field; by rewrite ?le_num_put32, ?le_num_put64.
Qed.

Lemma decode_encode_commit cb :
  decode_commit (encode_commit cb)
  = mkCommit (u32 (cb_magic cb)) (u32 (cb_reserved cb)) (u64 (cb_sequence cb))
      (u32 (cb_checksum cb)).
Proof.
  unfold decode_commit, encode_commit, pad_block. rewrite <-!app_assoc.
  f_equal; field; by rewrite ?le_num_put32, ?le_num_put64.
Qed.

Section desc.
Context (d : logfs_desc_block).
Hypothesis Hn : Z.of_nat (length (desc_tags d)) <= LOGFS_MAX_TAGS_PER_DESC.
Hypothesis Htags : Forall (fun x => 0 <= x < 2 ^ 64) (desc_tags d).

Lemma decode_encode_desc_header :
  desc_magic (decode_desc (encode_desc d)) = u32 (desc_magic d) /\
  desc_ntags (decode_desc (encode_desc d)) = u32 (desc_ntags d) /\
  desc_sequence (decode_desc (encode_desc d)) = u64 (desc_sequence d).
Proof.
  unfold decode_desc, encode_desc, pad_block. rewrite <-!app_assoc.
  cbn [desc_magic desc_ntags desc_sequence].
  split_and!; field; by rewrite ?le_num_put32, ?le_num_put64.
Qed.

Lemma decode_encode_desc_tags :
  take (length (desc_tags d)) (desc_tags (decode_desc (encode_desc d))) = desc_tags d.
Proof.
  change LOGFS_MAX_TAGS_PER_DESC with 510 in Hn.
  unfold decode_desc, encode_desc, pad_block. cbn [desc_tags].
  rewrite take_get_words by (change LOGFS_MAX_TAGS_PER_DESC with 510; lia).
  rewrite !(app_assoc (put32 _)), !(app_assoc (_ ++ put32 _)), <-!(app_assoc _ (words _)).
  by apply (get_words_words ((put32 _ ++ put32 _) ++ put64 _)).
Qed.
End desc.

Section revoke.
Context (rv : logfs_revoke_block).
Hypothesis Hn : Z.of_nat (length (rv_blocks rv)) <= LOGFS_MAX_REVOKES_PER_BLOCK.
Hypothesis Hblocks : Forall (fun x => 0 <= x < 2 ^ 64) (rv_blocks rv).

Lemma decode_encode_revoke_header :
  rv_magic (decode_revoke (encode_revoke rv)) = u32 (rv_magic rv) /\
  rv_nblocks (decode_revoke (encode_revoke rv)) = u32 (rv_nblocks rv) /\
  rv_sequence (decode_revoke (encode_revoke rv)) = u64 (rv_sequence rv).
Proof.
  unfold decode_revoke, encode_revoke, pad_block. rewrite <-!app_assoc.
  cbn [rv_magic rv_nblocks rv_sequence].
  split_and!; field; by rewrite ?le_num_put32, ?le_num_put64.
Qed.

Lemma decode_encode_revoke_blocks :
  take (length (rv_blocks rv)) (rv_blocks (decode_revoke (encode_revoke rv))) = rv_blocks rv.
Proof.
  change LOGFS_MAX_REVOKES_PER_BLOCK with 510 in Hn.
  unfold decode_revoke, encode_revoke, pad_block. cbn [rv_blocks].
  rewrite take_get_words by (change LOGFS_MAX_REVOKES_PER_BLOCK with 510; lia).
  rewrite !(app_assoc (put32 _)), !(app_assoc (_ ++ put32 _)), <-!(app_assoc _ (words _)).
  by apply (get_words_words ((put32 _ ++ put32 _) ++ put64 _)).
Qed.
End revoke.
