(* ===== verification/Blockdev.v ===== *)
(** [src/blockdev.c]: the block device over a backing file.

    The operating system is part of the model's state.  [sys] is the list of
    answers the kernel will give to the next system calls (an empty list: all
    of them succeed in full), [heap] the answers of the next allocations, and
    [SCrash] is a power failure: that call and every later one of the run
    fail without an effect.  Writes sit in [pending] (the volatile cache)
    until [fsync] moves them to [durable]; after a crash each block holds its
    durable content or any content still pending for it, in any combination
    ([crash_image]). *)

From S2P Require Import Prelude.
From S2P Require Import Bytes.
From S2P Require Import DiskFormat.

(** ** State *)

Inductive sysret :=
  | SRet (n : nat)       (* the call transfers at most [n] bytes (I/O), or succeeds *)
  | SErr (e : positive)  (* the call returns -1 with this errno *)
  | SCrash.              (* power is lost at this call *)

Record disk := mkDisk {
  nblocks : Z;                    (* dev->nblocks *)
  durable : gmap Z block;         (* on stable storage; absent = never written, zeros *)
  pending : list (Z * block);     (* written, not yet fsynced, oldest first *)
}.

Record bdev := mkBdev {
  b_disk : disk;
  sys : list sysret;
  heap : list bool;
}.

Definition set_disk (f : disk -> disk) (d : bdev) : bdev := mkBdev (f (b_disk d)) (sys d) (heap d).

Definition set_sys (l : list sysret) (d : bdev) : bdev := mkBdev (b_disk d) l (heap d).

(** ** Contents *)

Fixpoint latest (ws : list (Z * block)) (b : Z) : option block :=
  match ws with
  | [] => None
  | (b', c) :: ws =>
      match latest ws b with
      | Some c' => Some c'
      | None => if b' =? b then Some c else None
      end
  end.

Definition persisted (k : disk) (b : Z) : block := default zero_block (durable k !! b).

Definition content (k : disk) (b : Z) : block := default (persisted k b) (latest (pending k) b).

Definition push_write (b : Z) (c : block) (k : disk) : disk :=
  mkDisk (nblocks k) (durable k) (pending k ++ [(b, c)]).

Definition apply_writes (ws : list (Z * block)) (m : gmap Z block) : gmap Z block :=
  foldl (fun m w => <[w.1 := w.2]> m) m ws.

Definition disk_flush (k : disk) : disk :=
  mkDisk (nblocks k) (apply_writes (pending k) (durable k)) [].

(** What the device may hold after losing power in state [k]. *)
Definition crash_image (k : disk) (img : Z -> block) : Prop :=
  forall b, img b = persisted k b \/ (b, img b) ∈ pending k.

(** ** The code *)

(** [memcpy(file + off, data, len)] *)
Definition splice (file : block) (off : nat) (data : list byte) : block :=
  take off file ++ data ++ drop (off + length data) file.

(** The loop of [full_pwrite] over one block: [file] is the block of the
    backing file at [off], [done] the bytes written so far.  Result: return
    code, the block, [done], the remaining answers. *)
Fixpoint full_pwrite (answers : list sysret) (buf file : block) (done : nat)
    : Z * block * nat * list sysret :=
  if (block_len <=? done)%nat then (0, file, done, answers) else
  match answers with
  | [] => (0, splice file done (drop done buf), block_len, [])
  | SErr e :: rest =>
      if Zpos e =? EINTR then full_pwrite rest buf file done
      else (- Zpos e, file, done, rest)
  | SCrash :: _ => (- EIO, file, done, answers)
  | SRet O :: rest => (- EIO, file, done, rest)
  | SRet n :: rest =>
      let n := Nat.min n (block_len - done) in
      full_pwrite rest buf (splice file done (take n (drop done buf))) (done + n)
  end.

(** The loop of [full_pread]; a call that transfers nothing is the end of a
    short file, whose unread tail reads as zeros. *)
Fixpoint full_pread (answers : list sysret) (buf file : block) (done : nat)
    : Z * block * list sysret :=
  if (block_len <=? done)%nat then (0, buf, answers) else
  match answers with
  | [] => (0, splice buf done (drop done file), [])
  | SErr e :: rest =>
      if Zpos e =? EINTR then full_pread rest buf file done
      else (- Zpos e, buf, rest)
  | SCrash :: _ => (- EIO, buf, answers)
  | SRet O :: rest => (0, splice buf done (replicate (block_len - done) Byte.x00), rest)
  | SRet n :: rest =>
      let n := Nat.min n (block_len - done) in
      full_pread rest (splice buf done (take n (drop done file))) file (done + n)
  end.

Definition logfs_bdev_read (blockno : Z) : M bdev block := fun d =>
  if nblocks (b_disk d) <=? blockno then (Err (- EINVAL), d) else
  let '(rc, buf, rest) := full_pread (sys d) zero_block (content (b_disk d) blockno) 0 in
  (if rc =? 0 then Ok buf else Err rc, set_sys rest d).

Definition logfs_bdev_write (blockno : Z) (buf : block) : M bdev unit := fun d =>
  if nblocks (b_disk d) <=? blockno then (Err (- EINVAL), d) else
  let '(rc, file, done, rest) := full_pwrite (sys d) buf (content (b_disk d) blockno) 0 in
  let d' := set_sys rest (if (done =? 0)%nat then d else set_disk (push_write blockno file) d) in
  (if rc =? 0 then Ok tt else Err rc, d').

(** A system call that moves no data: its answer only. *)
Definition syscall : M bdev unit := fun d =>
  match sys d with
  | [] => (Ok tt, d)
  | SRet _ :: rest => (Ok tt, set_sys rest d)
  | SErr e :: rest => (Err (- Zpos e), set_sys rest d)
  | SCrash :: _ => (Err (- EIO), d)
  end.

Definition logfs_bdev_flush : M bdev unit :=
  syscall ;; modify (set_disk disk_flush).

Definition logfs_bdev_write_fua (blockno : Z) (buf : block) : M bdev unit :=
  logfs_bdev_write blockno buf ;; logfs_bdev_flush.

(** ** Opening *)

(** [ftruncate] to [size] bytes, a multiple of the block size: blocks past the
    end are gone. *)
Definition disk_resize (n size : Z) (k : disk) : disk :=
  mkDisk n (filter (fun p => p.1 * LOGFS_BLOCK_SIZE < size) (durable k))
    (filter (fun p => p.1 * LOGFS_BLOCK_SIZE < size) (pending k)).

Definition set_nblocks (n : Z) (k : disk) : disk := mkDisk n (durable k) (pending k).

(** [logfs_bdev_open] of a path whose file has [size] bytes, if there is one;
    the device's contents are the file's.  The file descriptor is not part of
    the state, so [logfs_bdev_close] changes nothing. *)
Definition logfs_bdev_open (size : option Z) (n : Z) (create : bool) : M bdev unit :=
  if negb create && bool_decide (size = None) then fail (- ENOENT) else
  syscall ;;
  if create then
    if n =? 0 then fail (- EINVAL) else
    let len := u64 (n * LOGFS_BLOCK_SIZE) in
    if 2 ^ 63 <=? len then fail (- EINVAL) else (* a negative [off_t] *)
    syscall ;;
    modify (set_disk (disk_resize n len))
  else
    syscall ;;
    modify (set_disk (set_nblocks (default 0 size / LOGFS_BLOCK_SIZE))).

(** [malloc] / [calloc] / [realloc]: [false] is a NULL return. *)
Definition malloc : M bdev bool := fun d =>
  match heap d with
  | [] => (Ok true, d)
  | ok :: rest => (Ok ok, mkBdev (b_disk d) (sys d) rest)
  end.

(** ** The transfer loops *)

Lemma splice_prefix buf file done n :
  length buf = block_len -> length file = block_len -> (done + n <= block_len)%nat ->
  splice (take done buf ++ drop done file) done (take n (drop done buf))
  = take (done + n) buf ++ drop (done + n) file.
Proof.
  intros Hb Hf Hn. unfold splice. autorewrite with layout.
  rewrite take_app_le, take_take, Nat.min_id by (rewrite length_take; lia).
  rewrite drop_app_ge by (rewrite length_take; lia).
  rewrite length_take, drop_drop, app_assoc. f_equal.
  - by rewrite take_take_drop.
  - f_equal. lia.
Qed.

Section transfers.
Context (buf file0 : block).
Hypothesis Hbuf : length buf = block_len.
Hypothesis Hfile : length file0 = block_len.

Lemma full_pwrite_from answers done rc file' done' rest :
  (done <= block_len)%nat ->
  full_pwrite answers buf (take done buf ++ drop done file0) done = (rc, file', done', rest) ->
  file' = take done' buf ++ drop done' file0 /\ (done' <= block_len)%nat /\
  (rc = 0 <-> done' = block_len) /\ rc <= 0.
Proof.
  revert done. induction answers as [|a answers IH]; intros done Hd; cbn [full_pwrite full_pread].
  all: destruct (Nat.leb_spec block_len done) as [Hle|Hlt]; intros H;
    [simplify_eq; split_and!; auto; lia|].
  { simplify_eq. split_and!; [|lia|lia|lia].
    rewrite <-(take_ge (drop done buf) (block_len - done)) by (rewrite length_drop; lia).
    rewrite splice_prefix by (done || lia).
    by replace (done + (block_len - done))%nat with block_len by lia. }
  destruct a as [[|n]|e|]; cbv beta iota zeta in H.
  - simplify_eq. unfold EIO. split_and!; auto; lia.
  - rewrite splice_prefix in H by (done || lia). by apply IH in H; [|lia].
  - destruct (Z.pos e =? EINTR); [by eauto|]. simplify_eq. split_and!; auto; lia.
  - simplify_eq. unfold EIO. split_and!; auto; lia.
Qed.

Lemma full_pread_from answers done rc buf' rest :
  (done <= block_len)%nat ->
  full_pread answers (take done file0 ++ drop done buf) file0 done = (rc, buf', rest) ->
  rc = 0 ->
  exists k, (k <= block_len)%nat /\
    buf' = take k file0 ++ replicate (block_len - k) Byte.x00 /\
    (SRet O ∉ answers -> k = block_len).
Proof.
  intros Hd H Hrc. revert done Hd H.
  induction answers as [|a answers IH]; intros done Hd; cbn [full_pwrite full_pread].
  all: destruct (Nat.leb_spec block_len done) as [Hle|Hlt]; intros H.
  1,3: assert (done = block_len) by lia; subst; simplify_eq;
       exists block_len; split_and!; auto; f_equal;
       rewrite drop_ge by lia; by rewrite Nat.sub_diag.
  { simplify_eq. exists block_len. split_and!; auto.
    rewrite <-(take_ge (drop done file0) (block_len - done)) by (rewrite length_drop; lia).
    rewrite splice_prefix by (done || lia).
    replace (done + (block_len - done))%nat with block_len by lia. f_equal. rewrite drop_ge by lia. by rewrite Nat.sub_diag. }
  destruct a as [[|n]|e|]; cbv beta iota zeta in H.
  - simplify_eq. exists done. split_and!; [lia| |set_solver].
    unfold splice. autorewrite with layout.
    rewrite take_app_le, take_take, Nat.min_id by (rewrite length_take; lia). f_equal.
    rewrite <-(app_nil_r (replicate _ _)) at 2. f_equal. apply drop_ge.
    autorewrite with layout. lia.
  - rewrite splice_prefix in H by (done || lia).
    apply IH in H as (k & ? & ? & Hk); [|lia]. exists k. set_solver.
  - destruct (Z.pos e =? EINTR); [|simplify_eq; lia].
    apply IH in H as (k & ? & ? & Hk); [|lia]. exists k. set_solver.
  - unfold EIO in H. by simplify_eq.
Qed.
End transfers.

(** [full_pwrite] under any sequence of short transfers, interruptions,
    errors and a power failure leaves the block with a prefix of the buffer
    over the old bytes, and returns 0 exactly when that prefix is everything. *)
Theorem full_pwrite_spec answers buf file rc file' done' rest :
  length buf = block_len -> length file = block_len ->
  full_pwrite answers buf file 0 = (rc, file', done', rest) ->
  file' = take done' buf ++ drop done' file /\
  (rc = 0 <-> done' = block_len) /\ (rc = 0 -> file' = buf).
Proof.
  intros Hb Hf H. change file with (take 0 buf ++ drop 0 file) in H.
  apply full_pwrite_from in H as (-> & Hd & Hrc & _); [|done..|lia].
  split_and!; [done|done|]. intros ->%Hrc.
  rewrite take_ge, drop_ge by lia. apply app_nil_r.
Qed.

Lemma full_pwrite_spec_witness :
  exists rc file' done' rest,
    full_pwrite [SRet 100; SErr 4; SRet 5000] zero_block (replicate block_len Byte.xff) 0
    = (rc, file', done', rest) /\
    file' = take done' zero_block ++ drop done' (replicate block_len Byte.xff) /\
    (rc = 0 <-> done' = block_len) /\ (rc = 0 -> file' = zero_block).
Proof.
  destruct (full_pwrite [SRet 100; SErr 4; SRet 5000] zero_block
              (replicate block_len Byte.xff) 0) as [[[rc file'] done'] rest] eqn:E.
  exists rc, file', done', rest. split; [reflexivity|].
  eapply full_pwrite_spec; [apply length_zero_block|apply length_replicate|exact E].
Defined.

(** A [full_pread] that returns 0 delivers the bytes of the block up to
    the end of the file and zeros after it; without an end of file, the
    block. *)
Theorem full_pread_spec answers buf file buf' rest :
  length buf = block_len -> length file = block_len ->
  full_pread answers buf file 0 = (0, buf', rest) ->
  (exists k, buf' = take k file ++ replicate (block_len - k) Byte.x00) /\
  (SRet O ∉ answers -> buf' = file).
Proof.
  intros Hb Hf H. change buf with (take 0 file ++ drop 0 buf) in H.
  eapply full_pread_from in H as (k & Hk & -> & Hall); [|done..|lia|done].
  split; [by exists k|]. intros ->%Hall.
  rewrite Nat.sub_diag, take_ge by lia. apply app_nil_r.
Qed.

Lemma full_pread_spec_witness :
  exists buf' rest,
    full_pread [SErr 4; SRet 10; SRet 0] zero_block (replicate block_len Byte.xff) 0
    = (0, buf', rest) /\
    (exists k, buf' = take k (replicate block_len Byte.xff)
                      ++ replicate (block_len - k) Byte.x00).
Proof.
  assert (H0 : (full_pread [SErr 4; SRet 10; SRet 0] zero_block
                  (replicate block_len Byte.xff) 0).1.1 = 0) by (vm_compute; reflexivity).
  destruct (full_pread [SErr 4; SRet 10; SRet 0] zero_block
              (replicate block_len Byte.xff) 0) as [[rc buf'] rest] eqn:E.
  simpl in H0. subst rc. exists buf', rest. split; [reflexivity|].
  eapply full_pread_spec; [apply length_zero_block|apply length_replicate|exact E].
Defined.
