(* ===== verification/DiskOps.v ===== *)
(** Reasoning about programs that drive the block device.

    A run of the source against the kernel is summarised by the list of
    device operations it performs ([dop]).  [performs dev m s ops Q] says:
    if [m] returns normally it has executed exactly [ops], and otherwise -
    an I/O error or a power failure at any point - a prefix of [ops].  So one
    proof covers the normal path, every error path and every crash point, and
    crash-safety becomes a statement about the prefixes of a list. *)

From S2P Require Import Prelude.
From S2P Require Import Bytes.
From S2P Require Import DiskFormat.
From S2P Require Import Blockdev.

(** ** Device operations *)

Inductive dop :=
  | DWrite (b : Z) (c : block)
  | DFlush.

Definition run_dop (k : disk) (o : dop) : disk :=
  match o with
  | DWrite b c => push_write b c k
  | DFlush => disk_flush k
  end.

Definition run (ops : list dop) (k : disk) : disk := foldl run_dop k ops.

Lemma run_app ops1 ops2 k : run (ops1 ++ ops2) k = run ops2 (run ops1 k).
Proof. apply foldl_app. Qed.

Definition dwrites (ws : list (Z * block)) : list dop := map (fun w => DWrite w.1 w.2) ws.

Lemma run_dwrites ws k :
  run (dwrites ws) k = mkDisk (nblocks k) (durable k) (pending k ++ ws).
Proof.
  revert k. induction ws as [|[b c] ws IH]; intros k.
  - destruct k; simpl. by rewrite app_nil_r.
  - change (run (dwrites ((b, c) :: ws)) k) with (run (dwrites ws) (push_write b c k)).
    rewrite IH. simpl. by rewrite <-app_assoc.
Qed.

Lemma nblocks_run ops k : nblocks (run ops k) = nblocks k.
Proof.
  revert k. induction ops as [|o ops IH]; intros k; [done|].
  change (nblocks (run ops (run_dop k o)) = nblocks k). rewrite IH. by destruct o.
Qed.

(** The prefixes of a batch of writes, flushed by the operation after it. *)
Lemma prefix_dwrites done ws :
  done `prefix_of` dwrites ws -> exists ws', done = dwrites ws' /\ ws' `prefix_of` ws.
Proof.
  intros [l H]. unfold dwrites in *. apply map_eq_app in H as (a & b & -> & <- & _).
  exists a. split; [done|]. by exists b.
Qed.

(** ** Contents *)

Lemma latest_app ws1 ws2 b :
  latest (ws1 ++ ws2) b = match latest ws2 b with Some c => Some c | None => latest ws1 b end.
Proof.
  induction ws1 as [|[b' c'] ws1 IH]; simpl; [by destruct (latest ws2 b)|].
  rewrite IH. by destruct (latest ws2 b).
Qed.

Lemma latest_in ws b c : latest ws b = Some c -> (b, c) ∈ ws.
Proof.
  induction ws as [|[b' c'] ws IH]; simpl; [done|].
  destruct (latest ws b) as [c''|]; [set_solver|].
  destruct (Z.eqb_spec b' b) as [->|]; [|done]. intros [= ->]. set_solver.
Qed.

Lemma latest_none ws b : latest ws b = None <-> forall c, (b, c) ∉ ws.
Proof.
  induction ws as [|[b' c'] ws IH]; simpl; [set_solver|].
  destruct (latest ws b) as [c''|] eqn:E.
  - split; [done|]. intros H. apply latest_in in E. specialize (H c''). set_solver.
  - destruct (Z.eqb_spec b' b) as [->|].
    + split; [done|]. intros H. specialize (H c'). set_solver.
    + split; [|done]. intros _ c. apply proj1 in IH. specialize (IH eq_refl c). set_solver.
Qed.

Lemma lookup_apply_writes ws m b :
  apply_writes ws m !! b = match latest ws b with Some c => Some c | None => m !! b end.
Proof.
  revert m. induction ws as [|[b' c'] ws IH]; intros m; [done|].
  change (apply_writes ((b', c') :: ws) m) with (apply_writes ws (<[b' := c']> m)).
  rewrite IH. simpl. destruct (latest ws b); [done|].
  destruct (Z.eqb_spec b' b) as [->|]; [apply lookup_insert_eq|by apply lookup_insert_ne].
Qed.

Lemma persisted_flush k b : persisted (disk_flush k) b = content k b.
Proof.
  unfold persisted, content. simpl. rewrite lookup_apply_writes.
  by destruct (latest (pending k) b).
Qed.

Lemma content_flush k b : content (disk_flush k) b = content k b.
Proof. unfold content at 1. simpl. apply persisted_flush. Qed.

Lemma content_push b c k b' :
  content (push_write b c k) b' = if b =? b' then c else content k b'.
Proof.
  unfold content. simpl. rewrite latest_app. simpl. by destruct (b =? b').
Qed.

Lemma content_clean k b : pending k = [] -> content k b = persisted k b.
Proof. unfold content. by intros ->. Qed.

Lemma content_dwrites ws k b :
  content (run (dwrites ws) k) b = default (content k b) (latest ws b).
Proof.
  rewrite run_dwrites. unfold content, persisted. simpl. rewrite latest_app.
  by destruct (latest ws b).
Qed.

(** ** Crash images *)

Lemma crash_image_clean k img :
  pending k = [] -> crash_image k img -> forall b, img b = persisted k b.
Proof. intros Hp H b. destruct (H b) as [?|Hin]; [done|]. rewrite Hp in Hin. set_solver. Qed.

(** A block with nothing pending is what was last made durable. *)
Lemma crash_image_stable k img b :
  crash_image k img -> (forall c, (b, c) ∉ pending k) -> img b = content k b.
Proof.
  intros H Hn. destruct (H b) as [->|Hin]; [|by apply Hn in Hin].
  unfold content. by rewrite (proj2 (latest_none _ _) Hn).
Qed.

(** The machine after power comes back on [img]. *)
Definition reboot (m : gmap Z block) (k : disk) : disk := mkDisk (nblocks k) m [].

(** ** Well-formed devices: whole blocks only *)

Definition wf_disk (k : disk) : Prop :=
  map_Forall (fun _ c => length c = block_len) (durable k) /\
  Forall (fun w => length w.2 = block_len) (pending k).

Definition wf_op (o : dop) : Prop :=
  match o with DWrite _ c => length c = block_len | DFlush => True end.

Lemma wf_content k b : wf_disk k -> length (content k b) = block_len.
Proof.
  intros [Hd Hp]. unfold content. destruct (latest (pending k) b) as [c|] eqn:E; simpl.
  - apply latest_in in E. rewrite Forall_forall in Hp. by apply (Hp _ E).
  - unfold persisted. destruct (durable k !! b) as [c|] eqn:Ed; simpl.
    + by apply (Hd _ _ Ed).
    + apply length_zero_block.
Qed.

Lemma wf_run_dop k o : wf_disk k -> wf_op o -> wf_disk (run_dop k o).
Proof.
  intros [Hd Hp] Ho. destruct o as [b c|]; split; simpl; auto.
  - apply Forall_app_2; [done|]. by repeat constructor.
  - intros b c. rewrite lookup_apply_writes.
    destruct (latest (pending k) b) as [c'|] eqn:E; [|apply Hd].
    intros [= ->]. apply latest_in in E. rewrite Forall_forall in Hp. by apply (Hp _ E).
Qed.

Lemma wf_run ops k : wf_disk k -> Forall wf_op ops -> wf_disk (run ops k).
Proof.
  revert k. induction ops as [|o ops IH]; intros k Hk Ho; [done|].
  inversion_clear Ho. apply IH; [by apply wf_run_dop|done].
Qed.

(** ** Kernels that transfer whole blocks

    Block writes are the atomic unit of the device (docs/DESIGN.md §6), so
    the crash theorems assume that a transfer either moves the whole block or
    fails; it may be interrupted, fail or lose power at any call. *)
Definition whole_answer (a : sysret) : Prop :=
  match a with SRet n => (block_len <= n)%nat | SErr _ | SCrash => True end.

Definition whole_io (d : bdev) : Prop := Forall whole_answer (sys d).

(** ** What one call does under such a kernel *)

(** Why a transfer can fail: a real error among the answers, or power loss. *)
Definition io_failure (answers rest : list sysret) : Prop :=
  (exists l, rest = SCrash :: l) \/ (exists e, SErr e ∈ answers).

Lemma io_failure_suffix answers answers' rest :
  answers' `suffix_of` answers -> io_failure answers' rest -> io_failure answers rest.
Proof.
  intros [k ->] [?|[e He]]; [by left|right]. exists e. apply elem_of_app. by right.
Qed.

Lemma io_failure_nonempty answers rest :
  rest `suffix_of` answers -> io_failure answers rest -> answers <> [].
Proof.
  intros Hsuf [[l ->]|(e & He)] ->; [by apply suffix_nil_inv in Hsuf|by apply elem_of_nil in He].
Qed.

Lemma whole_splice (buf file : block) :
  length buf = block_len -> length file = block_len -> splice file 0 buf = buf.
Proof. intros Hb Hf. unfold splice. simpl. rewrite drop_ge by lia. apply app_nil_r. Qed.

Lemma full_pwrite_whole answers buf file :
  length buf = block_len -> length file = block_len -> Forall whole_answer answers ->
  exists rc file' done rest,
    full_pwrite answers buf file 0 = (rc, file', done, rest) /\ rest `suffix_of` answers /\
    ((rc = 0 /\ done = block_len /\ file' = buf)
     \/ (rc < 0 /\ done = 0%nat /\ io_failure answers rest)).
Proof.
  intros Hb Hf. assert (Hz : (block_len <=? 0)%nat = false) by (apply Nat.leb_gt; blia).
  pose proof (whole_splice buf file Hb Hf) as Hfull.
  induction answers as [|a answers IH]; intros Hw; cbn [full_pwrite]; rewrite Hz.
  - eexists _, _, _, _. split_and!; [done..|]. left. by rewrite drop_0.
  - apply Forall_cons in Hw as [Ha Hw].
    assert (Hsuf : answers `suffix_of` a :: answers) by by apply suffix_cons_r.
    destruct a as [[|n]|e|]; cbn [whole_answer] in Ha.
    + exfalso. blia.
    + cbv zeta. rewrite Nat.sub_0_r, Nat.min_r, drop_0, (take_ge buf), Hfull by lia.
      destruct answers; cbn [full_pwrite Nat.add]; rewrite Nat.leb_refl;
        eexists _, _, _, _; split_and!; try done; by left.
    + destruct (Z.eqb_spec (Zpos e) EINTR).
      * destruct (IH Hw) as (rc & f & dn & rest & -> & Hr & Hc).
        eexists _, _, _, _. split_and!; [done|by etrans|].
        destruct Hc as [?|(? & ? & ?)]; [by left|right]. by split_and!; [| |eapply io_failure_suffix].
      * eexists _, _, _, _. split_and!; [done..|]. right. split_and!; [lia|done|].
        right. exists e. apply list_elem_of_here.
    + eexists _, _, _, _. split_and!; [done..|]. right. split_and!; [unfold EIO; lia|done|].
      left. by eexists.
Qed.

Lemma full_pread_whole answers file :
  length file = block_len -> Forall whole_answer answers ->
  exists rc buf rest,
    full_pread answers zero_block file 0 = (rc, buf, rest) /\ rest `suffix_of` answers /\
    ((rc = 0 /\ buf = file) \/ (rc < 0 /\ io_failure answers rest)).
Proof.
  intros Hf. assert (Hz : (block_len <=? 0)%nat = false) by (apply Nat.leb_gt; blia).
  pose proof (whole_splice file zero_block Hf length_zero_block) as Hfull.
  induction answers as [|a answers IH]; intros Hw; cbn [full_pread]; rewrite Hz.
  - eexists _, _, _. split_and!; [done..|]. left. by rewrite drop_0, Hfull.
  - apply Forall_cons in Hw as [Ha Hw].
    assert (Hsuf : answers `suffix_of` a :: answers) by by apply suffix_cons_r.
    destruct a as [[|n]|e|]; cbn [whole_answer] in Ha.
    + exfalso. blia.
    + cbv zeta. rewrite Nat.sub_0_r, Nat.min_r, drop_0, (take_ge file), Hfull by lia.
      destruct answers; cbn [full_pread Nat.add]; rewrite Nat.leb_refl;
        eexists _, _, _; split_and!; try done; by left.
    + destruct (Z.eqb_spec (Zpos e) EINTR).
      * destruct (IH Hw) as (rc & f & rest & -> & Hr & Hc).
        eexists _, _, _. split_and!; [done|by etrans|].
        destruct Hc as [?|(? & ?)]; [by left|right]. by split; [|eapply io_failure_suffix].
      * eexists _, _, _. split_and!; [done..|]. right. split; [lia|].
        right. exists e. apply list_elem_of_here.
    + eexists _, _, _. split_and!; [done..|]. right. split; [unfold EIO; lia|]. left. by eexists.
Qed.

Lemma Forall_suffix {A} (P : A -> Prop) (l l' : list A) :
  l' `suffix_of` l -> Forall P l -> Forall P l'.
Proof. intros [k ->] H. by apply Forall_app in H as [_ ?]. Qed.

(** ** The logic *)

(** [d'] comes after [d]: answers of the kernel and of the allocator were
    used, none appeared. *)
Record later (d d' : bdev) : Prop := {
  later_sys : sys d' `suffix_of` sys d;
  later_heap : heap d' `suffix_of` heap d;
}.

#[global] Instance later_refl : Reflexive later.
Proof. by split. Qed.

#[global] Instance later_trans : Transitive later.
Proof. intros d1 d2 d3 [] []. split; by etrans. Qed.

Lemma later_nil d d' : later d d' -> sys d = [] -> sys d' = [].
Proof. intros [Hs _] H. rewrite H in Hs. by apply suffix_nil_inv. Qed.

Definition performs {S A} (dev : S -> bdev) (m : M S A) (s : S)
    (ops : list dop) (Q : A -> S -> Prop) : Prop :=
  let '(r, s') := m s in
  whole_io (dev s') /\ later (dev s) (dev s') /\
  match r with
  | Ok a => b_disk (dev s') = run ops (b_disk (dev s)) /\ Q a s'
  | Err rc => rc < 0 /\ io_failure (sys (dev s)) (sys (dev s')) /\
      exists done, done `prefix_of` ops /\ b_disk (dev s') = run done (b_disk (dev s))
  end.

Section performs.
Context {S : Type} (dev : S -> bdev).

Lemma performs_ret {A} (a : A) s (Q : A -> S -> Prop) :
  whole_io (dev s) -> Q a s -> performs dev (mret a) s [] Q.
Proof. intros Hw HQ. by split_and!. Qed.

Lemma performs_bind {A B} (m : M S A) (f : A -> M S B) s ops1 ops2 Q1 Q2 :
  performs dev m s ops1 Q1 ->
  (forall a s1, Q1 a s1 -> whole_io (dev s1) ->
     b_disk (dev s1) = run ops1 (b_disk (dev s)) -> performs dev (f a) s1 ops2 Q2) ->
  performs dev (m ≫= f) s (ops1 ++ ops2) Q2.
Proof.
  unfold performs, mbind, M_bind. intros Hm Hf. destruct (m s) as [[a|rc] s1].
  - destruct Hm as (Hw1 & Hs1 & Hd1 & HQ). specialize (Hf a s1 HQ Hw1 Hd1).
    destruct (f a s1) as [[b|rc] s2].
    + destruct Hf as (? & ? & Hd2 & ?). split_and!; [done|by etrans| |done].
      by rewrite run_app, Hd2, Hd1.
    + destruct Hf as (? & ? & ? & Hne & done & Hp & Hd2).
      split_and!; [assumption|by etrans|assumption|eapply io_failure_suffix; [apply Hs1|exact Hne]|].
      exists (ops1 ++ done). split; [by apply prefix_app|]. by rewrite run_app, Hd2, Hd1.
  - destruct Hm as (? & ? & ? & ? & done & Hp & ?). split_and!; auto.
    exists done. split; [by apply prefix_app_r|done].
Qed.

Lemma performs_wand {A} (m : M S A) s ops (Q1 Q2 : A -> S -> Prop) :
  performs dev m s ops Q1 -> (forall a s', Q1 a s' -> Q2 a s') -> performs dev m s ops Q2.
Proof.
  unfold performs. intros H HQ. destruct (m s) as [[a|rc] s1]; [|done].
  destruct H as (? & ? & ? & ?). split_and!; auto.
Qed.

(** A step that leaves the device alone, then the rest. *)
Lemma performs_skip {A B} (m : M S A) (f : A -> M S B) s a s1 ops Q :
  m s = (Ok a, s1) -> dev s1 = dev s ->
  performs dev (f a) s1 ops Q -> performs dev (m ≫= f) s ops Q.
Proof.
  unfold performs, mbind, M_bind. intros -> Hd. by destruct (f a s1) as [[b|rc] s2]; rewrite Hd.
Qed.
End performs.

Lemma performs_write b c d :
  b < nblocks (b_disk d) -> length c = block_len -> wf_disk (b_disk d) -> whole_io d ->
  performs (fun d => d) (logfs_bdev_write b c) d [DWrite b c] (fun _ d' => heap d' = heap d).
Proof.
  intros Hb Hc Hk Hw. unfold performs, logfs_bdev_write.
  rewrite (proj2 (Z.leb_gt _ _)) by lia.
  destruct (full_pwrite_whole (sys d) c (content (b_disk d) b) Hc (wf_content _ _ Hk) Hw)
    as (rc & f & dn & rest & -> & Hr & [(-> & -> & ->)|(Hrc & -> & Hne)]).
  - rewrite (proj2 (Nat.eqb_neq _ _)) by blia. split_and!; try done. by eapply Forall_suffix.
  - rewrite (proj2 (Z.eqb_neq _ _)) by lia. simpl. split_and!; try done.
    { by eapply Forall_suffix. }
    exists []. split; [apply prefix_nil|done].
Qed.

Lemma performs_syscall d :
  whole_io d -> performs (fun d => d) syscall d [] (fun _ d' => heap d' = heap d).
Proof.
  unfold performs, syscall, whole_io. intros Hw.
  destruct (sys d) as [|a l] eqn:E; [rewrite E; by split_and!|].
  apply Forall_cons in Hw as [Ha Hl].
  assert (Hlater : later d (set_sys l d)) by (split; [rewrite E; by apply suffix_cons_r|done]).
  assert (Hpre : exists done, done `prefix_of` [] /\ b_disk d = run done (b_disk d)).
  { exists []. split; [apply prefix_nil|done]. }
  destruct a as [n|e|]; cbn [sys set_sys]; rewrite ?E.
  - by split_and!.
  - split_and!; [done|done|lia| |exact Hpre]. right. exists e. apply list_elem_of_here.
  - split_and!; [by constructor|done|unfold EIO; lia|left; by eexists|exact Hpre].
Qed.

Lemma performs_flush d :
  whole_io d ->
  performs (fun d => d) logfs_bdev_flush d [DFlush] (fun _ d' => heap d' = heap d).
Proof.
  intros Hw. unfold logfs_bdev_flush. change [DFlush] with ([] ++ [DFlush]).
  eapply performs_bind; [by apply performs_syscall|]. simpl. intros _ d1 Hh Hw1 _. by split_and!.
Qed.

Lemma performs_write_fua b c d :
  b < nblocks (b_disk d) -> length c = block_len -> wf_disk (b_disk d) -> whole_io d ->
  performs (fun d => d) (logfs_bdev_write_fua b c) d [DWrite b c; DFlush]
    (fun _ d' => heap d' = heap d).
Proof.
  intros Hb Hc Hk Hw. unfold logfs_bdev_write_fua.
  change [DWrite b c; DFlush] with ([DWrite b c] ++ [DFlush]).
  eapply performs_bind; [by apply performs_write|]. simpl. intros _ d1 Hh Hw1 _.
  eapply performs_wand; [by apply performs_flush|]. simpl. congruence.
Qed.

Lemma performs_read b d :
  b < nblocks (b_disk d) -> wf_disk (b_disk d) -> whole_io d ->
  performs (fun d => d) (logfs_bdev_read b) d []
    (fun c d' => c = content (b_disk d) b /\ heap d' = heap d).
Proof.
  intros Hb Hk Hw. unfold performs, logfs_bdev_read.
  rewrite (proj2 (Z.leb_gt _ _)) by lia.
  destruct (full_pread_whole (sys d) (content (b_disk d) b) (wf_content _ _ Hk) Hw)
    as (rc & f & rest & -> & Hr & [(-> & ->)|(Hrc & Hne)]).
  - split_and!; try done. by eapply Forall_suffix.
  - rewrite (proj2 (Z.eqb_neq _ _)) by lia. simpl. split_and!; try done.
    { by eapply Forall_suffix. }
    exists []. split; [apply prefix_nil|done].
Qed.
