(* ===== verification/Journal.v ===== *)
(** [src/journal.c]: descriptor / revoke / data / commit sequencing over the
    circular log, the persistent "oldest valid" pointer, and the two-pass
    recovery.  Definitions only; the theorems are in the files after this one.

    A function that only uses the [dev] pointer of [logfs_journal_t] is an
    operation on the device; one that updates the struct works on [jst], the
    struct with its device. *)

From S2P Require Import Prelude.
From S2P Require Import Bytes.
From S2P Require Import Crc32.
From S2P Require Import DiskFormat.
From S2P Require Import Blockdev.

(** [logfs_journal_t], less its [dev] pointer. *)
Record logfs_journal := mkJournal {
  j_first : Z;
  j_maxlen : Z;
  j_head : Z;
  j_tail : Z;
  j_next_sequence : Z;
}.

Record jst := mkJst { jr : logfs_journal; jd : bdev }.

Definition on_dev {A} : M bdev A -> M jst A := zoom jd (fun d s => mkJst (jr s) d).

Definition set_jr (f : logfs_journal -> logfs_journal) (s : jst) : jst := mkJst (f (jr s)) (jd s).

(** ** Logical and physical offsets *)

Definition phys_of (j : logfs_journal) (logical_off : Z) : Z :=
  u64 (j_first j + logical_off mod j_maxlen j).

Definition read_logical (j : logfs_journal) (off : Z) : M bdev block :=
  logfs_bdev_read (phys_of j off).

Definition write_logical (j : logfs_journal) (off : Z) (buf : block) : M bdev unit :=
  logfs_bdev_write (phys_of j off) buf.

(** ** The journal superblock *)

Definition jsuper_encode (j : logfs_journal) (start_off start_seq : Z) : block :=
  encode_jsuper (mkJsuper LOGFS_JOURNAL_MAGIC LOGFS_BLOCK_SIZE (j_maxlen j) (j_first j)
                   start_seq start_off).

Definition jsuper_write (j : logfs_journal) (start_off start_seq : Z) : M bdev unit :=
  logfs_bdev_write_fua LOGFS_JSUPER_BLOCKNO (jsuper_encode j start_off start_seq).

Definition logfs_journal_format (first maxlen : Z) : M bdev unit :=
  jsuper_write (mkJournal first maxlen 0 0 0) LOGFS_JOURNAL_EMPTY 0.

Definition logfs_journal_open (first maxlen : Z) : M bdev logfs_journal :=
  b ← logfs_bdev_read LOGFS_JSUPER_BLOCKNO;
  let js := decode_jsuper b in
  if negb (js_magic js =? LOGFS_JOURNAL_MAGIC) then fail (- EINVAL)
  else if js_start js =? LOGFS_JOURNAL_EMPTY then mret (mkJournal first maxlen 0 0 1)
  else mret (mkJournal first maxlen (js_start js) (js_start js) (js_sequence js)).

(** ** Space accounting *)

Definition logfs_journal_free_space (j : logfs_journal) : Z :=
  u64 (j_maxlen j - u64 (j_head j - j_tail j)).

Definition logfs_journal_space_needed (ndata nrevoke : Z) : Z :=
  if (LOGFS_MAX_TAGS_PER_DESC <? ndata) || (LOGFS_MAX_REVOKES_PER_BLOCK <? nrevoke) then 0
  else 1 + ndata + (if 0 <? nrevoke then 1 else 0) + 1.

(** ** Checksum of a transaction *)

Definition checksum_transaction (desc_block : block) (revoke_block : option block)
    (data : list block) : Z :=
  let crc := logfs_crc32_init in
  let crc := logfs_crc32_update crc desc_block in
  let crc := match revoke_block with Some r => logfs_crc32_update crc r | None => crc end in
  logfs_crc32_final (foldl logfs_crc32_update crc data).

(** ** Commit *)

(** [struct logfs_pending_block]: home block number and content. *)
Abbreviation pending_block := (Z * block)%type.

Definition build_desc (sequence : Z) (data : list pending_block) : block :=
  encode_desc (mkDesc LOGFS_DESC_MAGIC (u32 (Z.of_nat (length data))) sequence data.*1).

Definition build_revoke (sequence : Z) (revoke : list Z) : block :=
  encode_revoke (mkRevoke LOGFS_REVOKE_MAGIC (u32 (Z.of_nat (length revoke))) sequence revoke).

Definition build_commit (sequence checksum : Z) : block :=
  encode_commit (mkCommit LOGFS_COMMIT_MAGIC 0 sequence checksum).

(** The loop over the data blocks; returns the cursor after the last one. *)
Fixpoint write_data_blocks (j : logfs_journal) (cursor : Z) (data : list pending_block) : M bdev Z :=
  match data with
  | [] => mret cursor
  | w :: data => write_logical j cursor w.2 ;; write_data_blocks j (u64 (cursor + 1)) data
  end.

(** Everything before the flush: descriptor, revoke block if any, data.
    Returns the cursor, where the commit block goes. *)
Definition write_body (j : logfs_journal) (desc_buf : block) (revoke_buf : option block)
    (data : list pending_block) : M bdev Z :=
  write_logical j (j_head j) desc_buf ;;
  let cursor := u64 (j_head j + 1) in
  cursor ← match revoke_buf with
           | Some buf => write_logical j cursor buf ;; mret (u64 (cursor + 1))
           | None => mret cursor
           end;
  write_data_blocks j cursor data.

(** PREFLUSH, the commit block, FUA. *)
Definition write_commit (j : logfs_journal) (cursor : Z) (commit_buf : block) : M bdev unit :=
  logfs_bdev_flush ;; write_logical j cursor commit_buf ;; logfs_bdev_flush.

Definition logfs_journal_commit (data : list pending_block) (revoke : list Z) : M jst (Z * Z) :=
  j ← gets jr;
  let needed := logfs_journal_space_needed (Z.of_nat (length data)) (Z.of_nat (length revoke)) in
  if needed =? 0 then fail (- EINVAL) else
  if logfs_journal_free_space j <? needed then fail (- ENOSPC) else
  let sequence := j_next_sequence j in
  let desc_offset := j_head j in
  let was_empty := j_tail j =? j_head j in
  let desc_buf := build_desc sequence data in
  let revoke_buf := if 0 <? Z.of_nat (length revoke)
                    then Some (build_revoke sequence revoke) else None in
  cursor ← on_dev (write_body j desc_buf revoke_buf data);
  on_dev (write_commit j cursor
    (build_commit sequence (checksum_transaction desc_buf revoke_buf data.*2))) ;;
  modify (set_jr (fun j =>
    mkJournal (j_first j) (j_maxlen j) (u64 (cursor + 1)) (j_tail j) (u64 (sequence + 1)))) ;;
  (if was_empty then on_dev (jsuper_write j desc_offset sequence) else mret tt) ;;
  mret (sequence, desc_offset).

Definition logfs_journal_advance_tail (new_tail_offset new_tail_sequence : Z) : M jst unit :=
  j ← gets jr;
  let start := if new_tail_offset =? j_head j then LOGFS_JOURNAL_EMPTY else new_tail_offset in
  on_dev (jsuper_write j start new_tail_sequence) ;;
  modify (set_jr (fun j =>
    mkJournal (j_first j) (j_maxlen j) (j_head j) new_tail_offset (j_next_sequence j))).

(** ** Recovery *)

Record recovered_txn := mkRtxn {
  rt_sequence : Z;
  rt_target_blocks : list Z;
  rt_data_offsets : list Z;
}.

Record revoke_entry := mkRevokeEntry {
  re_target_block : Z;
  re_sequence : Z;
}.

(** The locals the scan loop carries from one turn to the next. *)
Record scan_state := mkScan {
  sc_scan : Z;
  sc_expect_seq : Z;
  sc_last_valid_seq : Z;
  sc_txns : list recovered_txn;
  sc_revokes : list revoke_entry;
}.

(** The data blocks of a transaction, re-read into fresh buffers; [None] is
    [data_ok = 0]: an allocation or a read failed. *)
Fixpoint read_data_blocks (j : logfs_journal) (cursor : Z) (n : nat) : M bdev (option (list block)) :=
  match n with
  | O => mret (Some [])
  | S n =>
      buf ← malloc;
      if negb buf then mret None else
      r ← attempt (read_logical j cursor);
      match r with
      | Err _ => mret None
      | Ok b =>
          rest ← read_data_blocks j (u64 (cursor + 1)) n;
          mret (option_map (cons b) rest)
      end
  end.

(** One [grow] per revoked block. *)
Fixpoint grow_revokes (seq : Z) (blocks : list Z) (acc : list revoke_entry)
    : M bdev (list revoke_entry) :=
  match blocks with
  | [] => mret acc
  | b :: blocks =>
      ok ← malloc;
      if negb ok then fail (- ENOMEM)
      else grow_revokes seq blocks (acc ++ [mkRevokeEntry b seq])
  end.

(** The header checks on a would-be descriptor. *)
Definition valid_desc (desc : logfs_desc_block) (expect_seq : Z) : bool :=
  (desc_magic desc =? LOGFS_DESC_MAGIC) && (desc_sequence desc =? expect_seq)
  && (desc_ntags desc <=? LOGFS_MAX_TAGS_PER_DESC).

Definition valid_commit (cb : logfs_commit_block) (desc : logfs_desc_block) : bool :=
  (cb_magic cb =? LOGFS_COMMIT_MAGIC) && (cb_sequence cb =? desc_sequence desc).

Definition is_revoke_block (peek : block) : bool := get32 0 peek =? LOGFS_REVOKE_MAGIC.

(** The block after the data, when it carries the revoke magic. *)
Definition peek_revoke (j : logfs_journal) (off : Z) : M bdev (option block) :=
  r ← attempt (read_logical j off);
  match r with
  | Ok peek => mret (if is_revoke_block peek then Some peek else None)
  | Err _ => mret None
  end.

Definition data_offsets (cursor : Z) (n : nat) : list Z :=
  map (fun i => u64 (cursor + Z.of_nat i)) (seq 0 n).

(** The transaction found at [sc_scan], appended to what the scan has. *)
Definition record_txn (st : scan_state) (desc : logfs_desc_block) (cursor commit_off : Z)
    (revokes : list revoke_entry) : scan_state :=
  let n := Z.to_nat (desc_ntags desc) in
  mkScan (u64 (commit_off + 1)) (u64 (desc_sequence desc + 1)) (desc_sequence desc)
    (sc_txns st ++ [mkRtxn (desc_sequence desc) (take n (desc_tags desc)) (data_offsets cursor n)])
    revokes.

(** [have_revoke ? 1 : 0] *)
Definition revoke_blocks (rv : option block) : Z := match rv with Some _ => 1 | None => 0 end.

(** One turn of the scan: [None] is a [break] (end of the committed range). *)
Definition scan_once (j : logfs_journal) (st : scan_state) : M bdev (option scan_state) :=
  r ← attempt (read_logical j (sc_scan st));
  match r with
  | Err _ => mret None
  | Ok desc_buf =>
    let desc := decode_desc desc_buf in
    if negb (valid_desc desc (sc_expect_seq st)) then mret None else
    let cursor := u64 (sc_scan st + 1) in
    rv ← peek_revoke j (u64 (cursor + desc_ntags desc));
    let commit_off := u64 (cursor + desc_ntags desc + revoke_blocks rv) in
    r ← attempt (read_logical j commit_off);
    match r with
    | Err _ => mret None
    | Ok commit_buf =>
      let cb := decode_commit commit_buf in
      if negb (valid_commit cb desc) then mret None else
      arrays ← (if 0 <? desc_ntags desc
                then a ← malloc; b ← malloc; mret (a && b) else mret true);
      if negb arrays then fail (- ENOMEM) else
      data ← read_data_blocks j cursor (Z.to_nat (desc_ntags desc));
      match data with
      | None => mret None
      | Some data =>
        if negb (checksum_transaction desc_buf rv data =? cb_checksum cb) then mret None else
        t ← malloc;
        if negb t then fail (- ENOMEM) else
        tb ← malloc; off ← malloc;
        if (0 <? desc_ntags desc) && negb (tb && off) then fail (- ENOMEM) else
        revokes ← match rv with
                  | Some b =>
                      let rv := decode_revoke b in
                      grow_revokes (rv_sequence rv)
                        (take (Z.to_nat (rv_nblocks rv)) (rv_blocks rv)) (sc_revokes st)
                  | None => mret (sc_revokes st)
                  end;
        mret (Some (record_txn st desc cursor commit_off revokes))
      end
    end
  end.

(** Never a return code of the source: the scan ran out of fuel. *)
Definition OUT_OF_FUEL : Z := 1.

Fixpoint scan_loop (fuel : nat) (j : logfs_journal) (st : scan_state) : M bdev scan_state :=
  match fuel with
  | O => fail OUT_OF_FUEL
  | S fuel =>
      r ← scan_once j st;
      match r with
      | None => mret st
      | Some st' => scan_loop fuel j st'
      end
  end.

Definition is_revoked (revokes : list revoke_entry) (target seq : Z) : bool :=
  existsb (fun r => (re_target_block r =? target) && (seq <? re_sequence r)) revokes.

Section recovery.
(** The caller's callback, [logfs_journal_install_fn]. *)
Variable install : Z -> block -> M bdev unit.

Fixpoint replay_blocks (j : logfs_journal) (revokes : list revoke_entry) (seq : Z)
    (blocks : list (Z * Z)) : M bdev unit :=
  match blocks with
  | [] => mret tt
  | (target, off) :: blocks =>
      if is_revoked revokes target seq then replay_blocks j revokes seq blocks else
      r ← attempt (read_logical j off);
      match r with
      | Err _ => fail (- EIO)
      | Ok data => install target data ;; replay_blocks j revokes seq blocks
      end
  end.

Fixpoint replay_txns (j : logfs_journal) (revokes : list revoke_entry)
    (txns : list recovered_txn) : M bdev unit :=
  match txns with
  | [] => mret tt
  | t :: txns =>
      replay_blocks j revokes (rt_sequence t) (zip (rt_target_blocks t) (rt_data_offsets t)) ;;
      replay_txns j revokes txns
  end.

(** Enough turns for any log: see [scan_terminates]. *)
Definition scan_fuel (j : logfs_journal) (d : bdev) : nat :=
  S (Z.to_nat (j_maxlen j) + length (sys d)).

Definition logfs_journal_recover : M jst unit :=
  j ← gets jr;
  b ← on_dev (logfs_bdev_read LOGFS_JSUPER_BLOCKNO);
  let js := decode_jsuper b in
  if negb (js_magic js =? LOGFS_JOURNAL_MAGIC) then fail (- EINVAL) else
  if js_start js =? LOGFS_JOURNAL_EMPTY then
    modify (set_jr (fun j => mkJournal (j_first j) (j_maxlen j) 0 0 1))
  else
  let st := mkScan (js_start js) (js_sequence js)
              (if js_sequence js =? 0 then 0 else js_sequence js - 1) [] [] in
  fuel ← gets (fun s => scan_fuel j (jd s));
  st ← on_dev (scan_loop fuel j st);
  on_dev (replay_txns j (sc_revokes st) (sc_txns st)) ;;
  modify (set_jr (fun j => mkJournal (j_first j) (j_maxlen j) (sc_scan st) (sc_scan st)
                             (u64 (sc_last_valid_seq st + 1)))) ;;
  on_dev (jsuper_write j LOGFS_JOURNAL_EMPTY 0).
End recovery.
