(* ===== verification/JournalLog.v ===== *)
(** The log as data: what recovery reads out of a disk image, and the image of
    a sequence of committed transactions.

    [parse_step] / [parse_log] are the scan of [logfs_journal_recover] as a
    function of the image alone, [recovered] the file system contents recovery
    leaves.  [ltxn] is a committed transaction, [txn_blocks] the log blocks
    [logfs_journal_commit] writes for it (without revokes, which is how
    [txn.c] always calls it). *)

From S2P Require Import Prelude.
From S2P Require Import Bytes.
From S2P Require Import Crc32.
From S2P Require Import DiskFormat.
From S2P Require Import Blockdev.
From S2P Require Import DiskOps.
From S2P Require Import Journal.

Abbreviation image := (Z -> block).

(** ** Reading an image *)

Definition revokes_in (rv : option block) : list revoke_entry :=
  match rv with
  | Some b =>
      let rv := decode_revoke b in
      map (fun t => mkRevokeEntry t (rv_sequence rv))
        (take (Z.to_nat (rv_nblocks rv)) (rv_blocks rv))
  | None => []
  end.

Definition peek_image (j : logfs_journal) (img : image) (off : Z) : option block :=
  let peek := img (phys_of j off) in if is_revoke_block peek then Some peek else None.

Definition parse_step (j : logfs_journal) (img : image) (st : scan_state) : option scan_state :=
  let desc_buf := img (phys_of j (sc_scan st)) in
  let desc := decode_desc desc_buf in
  if negb (valid_desc desc (sc_expect_seq st)) then None else
  let cursor := u64 (sc_scan st + 1) in
  let rv := peek_image j img (u64 (cursor + desc_ntags desc)) in
  let commit_off := u64 (cursor + desc_ntags desc + revoke_blocks rv) in
  let cb := decode_commit (img (phys_of j commit_off)) in
  if negb (valid_commit cb desc) then None else
  let data := map (fun off => img (phys_of j off))
                (data_offsets cursor (Z.to_nat (desc_ntags desc))) in
  if negb (checksum_transaction desc_buf rv data =? cb_checksum cb) then None else
  Some (record_txn st desc cursor commit_off (sc_revokes st ++ revokes_in rv)).

Fixpoint parse_log (fuel : nat) (j : logfs_journal) (img : image) (st : scan_state) : scan_state :=
  match fuel with
  | O => st
  | S fuel =>
      match parse_step j img st with
      | None => st
      | Some st' => parse_log fuel j img st'
      end
  end.

Definition scan_start (js : logfs_journal_super) : scan_state :=
  mkScan (js_start js) (js_sequence js)
    (if js_sequence js =? 0 then 0 else js_sequence js - 1) [] [].

Definition parse_fuel (j : logfs_journal) : nat := S (Z.to_nat (j_maxlen j)).

(** The transactions (and revokes) recovery finds in an image. *)
Definition parse_image (j : logfs_journal) (img : image) : scan_state :=
  let js := decode_jsuper (img LOGFS_JSUPER_BLOCKNO) in
  if js_start js =? LOGFS_JOURNAL_EMPTY then mkScan 0 1 0 [] []
  else parse_log (parse_fuel j) j img (scan_start js).

(** The installs of pass 2, in order. *)
Definition txn_installs (j : logfs_journal) (img : image) (revokes : list revoke_entry)
    (t : recovered_txn) : list (Z * block) :=
  map (fun p => (p.1, img (phys_of j p.2)))
    (base.filter (fun p => is_revoked revokes p.1 (rt_sequence t) = false)
       (zip (rt_target_blocks t) (rt_data_offsets t))).

Definition installs (j : logfs_journal) (img : image) (st : scan_state) : list (Z * block) :=
  concat (map (txn_installs j img (sc_revokes st)) (sc_txns st)).

Definition overlay (ws : list (Z * block)) (img : image) : image :=
  fun b => default (img b) (latest ws b).

Definition recovered (j : logfs_journal) (img : image) : image :=
  overlay (installs j img (parse_image j img)) img.

(** ** Geometry *)

(** The journal region lies inside the device, after the two superblocks. *)
Record wf_geometry (j : logfs_journal) (nb : Z) : Prop := {
  geo_first : 2 < j_first j;
  geo_maxlen : 0 < j_maxlen j;
  geo_end : j_first j + j_maxlen j <= nb;
  geo_nblocks : nb < 2 ^ 63;
}.

Definition in_log (j : logfs_journal) (b : Z) : Prop :=
  j_first j <= b < j_first j + j_maxlen j.

(** Everything the journal owns: its region and its superblock. *)
Definition journal_block (j : logfs_journal) (b : Z) : Prop :=
  b = LOGFS_JSUPER_BLOCKNO \/ in_log j b.

#[global] Instance journal_block_dec j b : Decision (journal_block j b).
Proof. unfold journal_block, in_log. apply _. Defined.

Section geometry.
Context {j : logfs_journal} {nb : Z} (Hj : wf_geometry j nb).

Lemma phys_of_eq off : phys_of j off = j_first j + off mod j_maxlen j.
Proof.
  destruct Hj. unfold phys_of. apply u64_small.
  pose proof (Z.mod_pos_bound off (j_maxlen j)). lia.
Qed.

Lemma phys_of_in_log off : in_log j (phys_of j off).
Proof.
  rewrite phys_of_eq. destruct Hj. unfold in_log.
  pose proof (Z.mod_pos_bound off (j_maxlen j)). lia.
Qed.

Lemma phys_of_lt off : 2 < phys_of j off < nb.
Proof. pose proof (phys_of_in_log off) as H. destruct Hj. unfold in_log in H. lia. Qed.

(** Offsets less than a full turn apart are different blocks. *)
Lemma phys_of_inj a b :
  phys_of j a = phys_of j b -> Z.abs (a - b) < j_maxlen j -> a = b.
Proof.
  rewrite !phys_of_eq. destruct Hj as [? Hm ? ?]. intros H Hd.
  assert (Hmod : (a - b) mod j_maxlen j = 0).
  { rewrite Zminus_mod. replace (a mod j_maxlen j) with (b mod j_maxlen j) by lia.
    by rewrite Z.sub_diag, Zmod_0_l. }
  apply Z.mod_divide in Hmod as [q Hq]; [|lia]. assert (q = 0) by nia. lia.
Qed.
End geometry.

(** ** The image of a committed transaction *)

Record ltxn := mkLtxn { l_seq : Z; l_data : list pending_block }.

Definition txn_desc (t : ltxn) : block := build_desc (l_seq t) (l_data t).

Definition txn_commit (t : ltxn) : block :=
  build_commit (l_seq t) (checksum_transaction (txn_desc t) None (l_data t).*2).

Definition txn_blocks (t : ltxn) : list block := txn_desc t :: (l_data t).*2 ++ [txn_commit t].

Definition log_blocks (ts : list ltxn) : list block := concat (map txn_blocks ts).

Definition blocks_at (j : logfs_journal) (img : image) (off : Z) (bs : list block) : Prop :=
  forall i c, bs !! i = Some c -> img (phys_of j (off + Z.of_nat i)) = c.

Record wf_txn (t : ltxn) : Prop := {
  wft_len : Z.of_nat (length (l_data t)) <= LOGFS_MAX_TAGS_PER_DESC;
  wft_seq : 0 <= l_seq t < 2 ^ 64 - 1;
  wft_data : Forall (fun w => 0 <= w.1 < 2 ^ 64 /\ length w.2 = block_len) (l_data t);
}.

(** Sequence numbers increase by one along the log. *)
Fixpoint seqs_from (s : Z) (ts : list ltxn) : Prop :=
  match ts with
  | [] => True
  | t :: ts => l_seq t = s /\ seqs_from (s + 1) ts
  end.

Definition all_writes (ts : list ltxn) : list (Z * block) := concat (map l_data ts).

Lemma length_txn_blocks t : length (txn_blocks t) = (length (l_data t) + 2)%nat.
Proof. unfold txn_blocks. autorewrite with layout. simpl. lia. Qed.

Lemma blocks_at_app j img off bs1 bs2 :
  blocks_at j img off (bs1 ++ bs2) <->
  blocks_at j img off bs1 /\ blocks_at j img (off + Z.of_nat (length bs1)) bs2.
Proof.
  split.
  - intros H. split; intros i c Hi.
    + apply H. by apply lookup_app_l_Some.
    + replace (off + Z.of_nat (length bs1) + Z.of_nat i)
        with (off + Z.of_nat (length bs1 + i)) by lia.
      apply H. rewrite lookup_app_r by lia. by replace (_ + i - _)%nat with i by lia.
  - intros [H1 H2] i c [Hi|[Hl Hi]]%lookup_app_Some; [by apply H1|].
    apply H2 in Hi. by replace (off + Z.of_nat i)
      with (off + Z.of_nat (length bs1) + Z.of_nat (i - length bs1)) by lia.
Qed.

Lemma blocks_at_cons j img off c bs :
  blocks_at j img off (c :: bs) <-> img (phys_of j off) = c /\ blocks_at j img (off + 1) bs.
Proof.
  change (c :: bs) with ([c] ++ bs). rewrite blocks_at_app. simpl.
  split; intros [H1 H2]; split; try done.
  - specialize (H1 O c eq_refl). by rewrite Z.add_0_r in H1.
  - intros [|i] c' Hi; simplify_eq/=. by rewrite Z.add_0_r.
Qed.

Lemma checksum_transaction_range d r bs : 0 <= checksum_transaction d r bs < 2 ^ 32.
Proof.
  unfold checksum_transaction. apply logfs_crc32_final_range.
  assert (H : forall bs c, 0 <= c < 2 ^ 32 -> 0 <= foldl logfs_crc32_update c bs < 2 ^ 32).
  { clear. induction bs as [|b bs IH]; intros c Hc; [done|]. by apply IH, logfs_crc32_update_range. }
  apply H. assert (Hi : 0 <= logfs_crc32_init < 2 ^ 32) by (unfold logfs_crc32_init; lia).
  destruct r; by repeat apply logfs_crc32_update_range.
Qed.

(** Block by block or all at once, the checksum is the same. *)
Lemma checksum_concat d bs : checksum_transaction d None bs = logfs_crc32 (d ++ concat bs).
Proof.
  unfold checksum_transaction, logfs_crc32. rewrite logfs_crc32_update_app. f_equal.
  generalize (logfs_crc32_update logfs_crc32_init d). induction bs as [|b bs IH]; intros c; [done|].
  cbn [foldl concat]. by rewrite logfs_crc32_update_app, IH.
Qed.

(** ** Headers of the blocks a commit writes *)

Lemma desc_header_of seq data :
  desc_magic (decode_desc (build_desc seq data)) = LOGFS_DESC_MAGIC /\
  desc_ntags (decode_desc (build_desc seq data)) = u32 (Z.of_nat (length data)) /\
  desc_sequence (decode_desc (build_desc seq data)) = u64 seq.
Proof.
  unfold build_desc. edestruct decode_encode_desc_header as (-> & -> & ->).
  cbn [desc_magic desc_ntags desc_sequence]. split_and!; try done.
  unfold u32. by rewrite Z.mod_mod.
Qed.

Lemma desc_tags_of seq (data : list pending_block) :
  Z.of_nat (length data) <= LOGFS_MAX_TAGS_PER_DESC ->
  Forall (fun w => 0 <= w.1 < 2 ^ 64 /\ length w.2 = block_len) data ->
  take (length data) (desc_tags (decode_desc (build_desc seq data))) = data.*1.
Proof.
  intros Hl Hd. rewrite <-(length_fmap fst data).
  set (d := mkDesc LOGFS_DESC_MAGIC (u32 (Z.of_nat (length data))) seq data.*1).
  apply (decode_encode_desc_tags d); cbn [desc_tags d].
  - by rewrite length_fmap.
  - apply Forall_fmap. eapply Forall_impl; [exact Hd|]. simpl. tauto.
Qed.

Lemma commit_header_of seq sum :
  0 <= seq < 2 ^ 64 -> 0 <= sum < 2 ^ 32 ->
  decode_commit (build_commit seq sum) = mkCommit LOGFS_COMMIT_MAGIC 0 seq sum.
Proof.
  intros Hs Hc. unfold build_commit. rewrite decode_encode_commit.
  cbn [cb_magic cb_reserved cb_sequence cb_checksum].
  by rewrite (u64_small seq), (u32_small sum) by done.
Qed.

Lemma commit_not_revoke seq sum : is_revoke_block (build_commit seq sum) = false.
Proof.
  unfold is_revoke_block. pose proof (decode_encode_commit (mkCommit LOGFS_COMMIT_MAGIC 0 seq sum)) as H.
  apply (f_equal cb_magic) in H. cbn [cb_magic decode_commit] in H.
  unfold build_commit. by rewrite H.
Qed.

Lemma length_build_desc seq (data : list pending_block) :
  Z.of_nat (length data) <= LOGFS_MAX_TAGS_PER_DESC -> length (build_desc seq data) = block_len.
Proof. intros H. apply length_encode_desc. cbn [desc_tags]. by rewrite length_fmap. Qed.

Lemma data_offsets_blocks j img off bs :
  0 <= off -> off + Z.of_nat (length bs) < 2 ^ 64 -> blocks_at j img off bs ->
  map (fun o => img (phys_of j o)) (data_offsets off (length bs)) = bs.
Proof.
  intros H0 Hb H. unfold data_offsets. rewrite map_map. apply list_eq. intros i.
  rewrite list_lookup_fmap. destruct (bs !! i) as [c|] eqn:Hi.
  - pose proof (lookup_lt_Some _ _ _ Hi). rewrite lookup_seq_lt by done.
    cbn [fmap option_fmap option_map Nat.add]. rewrite u64_small by lia. by rewrite (H i c).
  - apply lookup_ge_None in Hi. by rewrite lookup_seq_ge by done.
Qed.

(** ** The scan reads a transaction back as it was committed *)

Definition rtxn_of (off : Z) (t : ltxn) : recovered_txn :=
  mkRtxn (l_seq t) (l_data t).*1 (data_offsets (off + 1) (length (l_data t))).

Lemma txn_desc_header t :
  wf_txn t ->
  let desc := decode_desc (txn_desc t) in
  desc_magic desc = LOGFS_DESC_MAGIC /\
  desc_ntags desc = Z.of_nat (length (l_data t)) /\
  desc_sequence desc = l_seq t /\
  take (length (l_data t)) (desc_tags desc) = (l_data t).*1.
Proof.
  intros [Hlen Hseq Hdata]. pose proof Hlen as Hlen'.
  change LOGFS_MAX_TAGS_PER_DESC with 510 in Hlen'.
  destruct (desc_header_of (l_seq t) (l_data t)) as (Hm & Hn & Hs).
  rewrite u32_small in Hn by lia. rewrite u64_small in Hs by lia.
  split_and!; [done..|]. by apply desc_tags_of.
Qed.

Lemma txn_commit_header t :
  wf_txn t ->
  decode_commit (txn_commit t)
  = mkCommit LOGFS_COMMIT_MAGIC 0 (l_seq t)
      (checksum_transaction (txn_desc t) None (l_data t).*2).
Proof.
  intros [Hlen Hseq Hdata]. apply commit_header_of; [lia|apply checksum_transaction_range].
Qed.

Lemma valid_desc_txn t : wf_txn t -> valid_desc (decode_desc (txn_desc t)) (l_seq t) = true.
Proof.
  intros Ht. destruct (txn_desc_header t Ht) as (Hm & Hn & Hs & _).
  unfold valid_desc. rewrite Hm, Hn, Hs, !Z.eqb_refl. apply Z.leb_le. apply Ht.
Qed.

Lemma blocks_at_txn j img off t :
  blocks_at j img off (txn_blocks t) <->
  img (phys_of j off) = txn_desc t /\
  blocks_at j img (off + 1) (l_data t).*2 /\
  img (phys_of j (off + 1 + Z.of_nat (length (l_data t)))) = txn_commit t.
Proof.
  unfold txn_blocks. rewrite blocks_at_cons, blocks_at_app, blocks_at_cons, length_fmap.
  split; [tauto|]. intros (H1 & H2 & H3). by split_and!.
Qed.

Lemma parse_step_txn j img st t :
  wf_txn t -> l_seq t = sc_expect_seq st ->
  0 <= sc_scan st -> sc_scan st + Z.of_nat (length (txn_blocks t)) < 2 ^ 64 ->
  blocks_at j img (sc_scan st) (txn_blocks t) ->
  parse_step j img st
  = Some (mkScan (sc_scan st + Z.of_nat (length (txn_blocks t))) (l_seq t + 1) (l_seq t)
            (sc_txns st ++ [rtxn_of (sc_scan st) t]) (sc_revokes st)).
Proof.
  intros Ht Hexp H0 Hmax (Hdesc & Hbs & Hcommit)%blocks_at_txn. rewrite length_txn_blocks in *.
  destruct (txn_desc_header t Ht) as (_ & Hn & Hs & Htags).
  pose proof (wft_seq _ Ht) as Hseq.
  unfold parse_step. rewrite Hdesc, <-Hexp, valid_desc_txn by done. cbn [negb].
  unfold record_txn. rewrite Hn, Hs, Nat2Z.id, Htags.
  rewrite (u64_small (sc_scan st + 1)) by lia.
  rewrite (u64_small (sc_scan st + 1 + _)) by lia.
  unfold peek_image. rewrite Hcommit, (commit_not_revoke _ _ : is_revoke_block (txn_commit t) = false).
  cbn [revoke_blocks revokes_in]. rewrite Z.add_0_r, u64_small, Hcommit by lia.
  rewrite txn_commit_header by done. unfold valid_commit.
  cbn [cb_magic cb_sequence cb_checksum]. rewrite Hs, !Z.eqb_refl. cbn [andb negb].
  rewrite <-(length_fmap snd (l_data t)) at 1.
  rewrite data_offsets_blocks; [|lia|rewrite length_fmap; lia|done].
  rewrite Z.eqb_refl. cbn [negb]. rewrite app_nil_r, !u64_small by lia.
  do 2 f_equal. lia.
Qed.

(** ** A whole log *)

Fixpoint rtxns (off : Z) (ts : list ltxn) : list recovered_txn :=
  match ts with
  | [] => []
  | t :: ts => rtxn_of off t :: rtxns (off + Z.of_nat (length (txn_blocks t))) ts
  end.

(** The scan state after the transactions [ts]. *)
Definition after_txns (st : scan_state) (ts : list ltxn) : scan_state :=
  mkScan (sc_scan st + Z.of_nat (length (log_blocks ts)))
    (sc_expect_seq st + Z.of_nat (length ts))
    (match ts with [] => sc_last_valid_seq st | _ => sc_expect_seq st + Z.of_nat (length ts) - 1 end)
    (sc_txns st ++ rtxns (sc_scan st) ts) (sc_revokes st).

Lemma length_log_blocks_cons t ts :
  length (log_blocks (t :: ts)) = (length (txn_blocks t) + length (log_blocks ts))%nat.
Proof. unfold log_blocks. cbn [map concat]. apply length_app. Qed.

Lemma log_blocks_app ts1 ts2 : log_blocks (ts1 ++ ts2) = log_blocks ts1 ++ log_blocks ts2.
Proof. unfold log_blocks. by rewrite map_app, concat_app. Qed.

Lemma log_blocks_length ts : (2 * length ts <= length (log_blocks ts))%nat.
Proof.
  induction ts as [|t ts IH]; [simpl; lia|].
  rewrite length_log_blocks_cons, length_txn_blocks. simpl. lia.
Qed.

Lemma after_txns_nil st : after_txns st [] = st.
Proof.
  destruct st. unfold after_txns. simpl. rewrite !Z.add_0_r. f_equal. apply app_nil_r.
Qed.

Lemma parse_log_txns fuel j img st ts :
  Forall wf_txn ts -> seqs_from (sc_expect_seq st) ts ->
  0 <= sc_scan st -> sc_scan st + Z.of_nat (length (log_blocks ts)) < 2 ^ 64 ->
  blocks_at j img (sc_scan st) (log_blocks ts) ->
  parse_log (length ts + fuel) j img st = parse_log fuel j img (after_txns st ts).
Proof.
  revert st. induction ts as [|t ts IH]; intros st Hwf Hseq H0 Hmax Hat.
  { by rewrite after_txns_nil. }
  apply Forall_cons in Hwf as [Ht Hwf]. destruct Hseq as [Hs Hseq].
  rewrite length_log_blocks_cons in Hmax.
  change (log_blocks (t :: ts)) with (txn_blocks t ++ log_blocks ts) in Hat.
  apply blocks_at_app in Hat as [Hat1 Hat2].
  cbn [length Nat.add parse_log]. rewrite (parse_step_txn j img st t) by (done || lia).
  rewrite IH; cbn [sc_scan sc_expect_seq]; [|done| |lia|lia|done].
  - f_equal. unfold after_txns. cbn [sc_scan sc_expect_seq sc_last_valid_seq sc_txns sc_revokes].
    rewrite length_log_blocks_cons, <-app_assoc. cbn [rtxns app length].
    destruct ts; f_equal; simpl; lia.
  - by rewrite Hs.
Qed.

(** ** Where the scan stops *)

(** Not a commit block, or one numbered before [s]. *)
Definition old_block (s : Z) (c : block) : Prop :=
  get32 0 c = LOGFS_COMMIT_MAGIC -> get64 8 c < s.

#[global] Instance old_block_dec s c : Decision (old_block s c).
Proof. unfold old_block. apply _. Defined.

Definition commit_numbered (s : Z) (c : block) : Prop :=
  get32 0 c = LOGFS_COMMIT_MAGIC /\ get64 8 c = s.

Lemma old_block_mono s s' c : s <= s' -> old_block s c -> old_block s' c.
Proof. unfold old_block. intros Hs H Hm. specialize (H Hm). lia. Qed.

Lemma old_not_commit s c : old_block s c -> ~ commit_numbered s c.
Proof. intros H [Hm Hs]. specialize (H Hm). lia. Qed.

(** Without a commit block of the expected number there is no transaction. *)
Lemma parse_step_no_commit j nb img st :
  wf_geometry j nb ->
  (forall b, in_log j b -> ~ commit_numbered (sc_expect_seq st) (img b)) ->
  parse_step j img st = None.
Proof.
  intros Hj Hno. unfold parse_step. set (desc := decode_desc _).
  destruct (valid_desc desc (sc_expect_seq st)) eqn:Hd; [cbn [negb]|done].
  set (off := u64 (_ + revoke_blocks _)).
  destruct (valid_commit (decode_commit (img (phys_of j off))) desc) eqn:Hc; [|done].
  exfalso. apply (Hno (phys_of j off)); [by eapply phys_of_in_log|].
  unfold valid_desc in Hd. unfold valid_commit in Hc. zify_bool.
  split; [done|]. cbn [decode_commit cb_sequence] in *. congruence.
Qed.

Lemma parse_log_stop fuel j img st : parse_step j img st = None -> parse_log fuel j img st = st.
Proof. intros H. destruct fuel; [done|]. cbn [parse_log]. by rewrite H. Qed.

(** ** What recovery installs for such a log *)

Lemma overlay_app ws1 ws2 img b : overlay (ws1 ++ ws2) img b = overlay ws2 (overlay ws1 img) b.
Proof. unfold overlay. rewrite latest_app. by destruct (latest ws2 b). Qed.

Lemma txn_installs_rtxn j img off t :
  0 <= off -> off + Z.of_nat (length (txn_blocks t)) < 2 ^ 64 ->
  blocks_at j img off (txn_blocks t) ->
  txn_installs j img [] (rtxn_of off t) = l_data t.
Proof.
  intros H0 Hmax (_ & Hbs & _)%blocks_at_txn. rewrite length_txn_blocks in Hmax.
  unfold txn_installs, rtxn_of. cbn [rt_target_blocks rt_data_offsets rt_sequence].
  assert (Hf : forall l : list (Z * Z),
    base.filter (fun p => is_revoked [] p.1 (l_seq t) = false) l = l).
  { intros l. induction l as [|x l IH]; [done|]. rewrite filter_cons_True by done. by rewrite IH. }
  rewrite Hf. apply list_eq. intros i. rewrite list_lookup_fmap.
  destruct (l_data t !! i) as [[b c]|] eqn:Hi.
  - pose proof (lookup_lt_Some _ _ _ Hi) as Hlt.
    assert (Hz : zip (l_data t).*1 (data_offsets (off + 1) (length (l_data t))) !! i
                 = Some (b, u64 (off + 1 + Z.of_nat i))).
    { apply lookup_zip_Some. split; [by rewrite list_lookup_fmap, Hi|].
      unfold data_offsets. rewrite list_lookup_fmap, lookup_seq_lt by done. done. }
    rewrite Hz. cbn [fmap option_fmap option_map fst snd]. rewrite u64_small by lia.
    rewrite (Hbs i c); [done|]. by rewrite list_lookup_fmap, Hi.
  - apply lookup_ge_None in Hi. rewrite (lookup_ge_None_2 _ i); [done|].
    rewrite length_zip_with, length_fmap. lia.
Qed.

Lemma installs_rtxns j img off ts :
  0 <= off -> off + Z.of_nat (length (log_blocks ts)) < 2 ^ 64 ->
  blocks_at j img off (log_blocks ts) ->
  concat (map (txn_installs j img []) (rtxns off ts)) = all_writes ts.
Proof.
  revert off. induction ts as [|t ts IH]; intros off H0 Hmax Hat; [done|].
  rewrite length_log_blocks_cons in Hmax.
  change (log_blocks (t :: ts)) with (txn_blocks t ++ log_blocks ts) in Hat.
  apply blocks_at_app in Hat as [Hat1 Hat2]. cbn [rtxns map concat].
  rewrite txn_installs_rtxn by (done || lia).
  unfold all_writes. cbn [map concat]. f_equal. apply IH; [lia|lia|done].
Qed.
