(* ===== verification/JournalCommit.v ===== *)
(** [logfs_journal_commit]: the device operations of a commit, its effect on
    the log, and its atomicity under power failure at every point. *)

From S2P Require Import Prelude.
From S2P Require Import Bytes.
From S2P Require Import Crc32.
From S2P Require Import DiskFormat.
From S2P Require Import Blockdev.
From S2P Require Import DiskOps.
From S2P Require Import Journal.
From S2P Require Import JournalLog.

(** ** The operations a commit performs *)

(** The writes that put [bs] at logical offset [off]. *)
Fixpoint place (j : logfs_journal) (off : Z) (bs : list block) : list (Z * block) :=
  match bs with
  | [] => []
  | c :: bs => (phys_of j off, c) :: place j (off + 1) bs
  end.

(** Descriptor, optional revoke block, data: what precedes the commit block. *)
Definition body_blocks (seq : Z) (data : list pending_block) (revoke : list Z) : list block :=
  build_desc seq data
    :: (if 0 <? Z.of_nat (length revoke) then [build_revoke seq revoke] else []) ++ data.*2.

Definition commit_block (seq : Z) (data : list pending_block) (revoke : list Z) : block :=
  build_commit seq
    (checksum_transaction (build_desc seq data)
       (if 0 <? Z.of_nat (length revoke) then Some (build_revoke seq revoke) else None) data.*2).

Definition commit_offset (j : logfs_journal) (data : list pending_block) (revoke : list Z) : Z :=
  j_head j + Z.of_nat (length (body_blocks (j_next_sequence j) data revoke)).

Definition commit_ops (j : logfs_journal) (data : list pending_block) (revoke : list Z) : list dop :=
  let seq := j_next_sequence j in
  dwrites (place j (j_head j) (body_blocks seq data revoke)) ++ [DFlush]
    ++ [DWrite (phys_of j (commit_offset j data revoke)) (commit_block seq data revoke); DFlush]
    ++ (if j_tail j =? j_head j
        then [DWrite LOGFS_JSUPER_BLOCKNO (jsuper_encode j (j_head j) seq); DFlush] else []).

Definition after_commit (j : logfs_journal) (data : list pending_block) (revoke : list Z)
    : logfs_journal :=
  mkJournal (j_first j) (j_maxlen j) (commit_offset j data revoke + 1) (j_tail j)
    (j_next_sequence j + 1).

Lemma place_app j off bs1 bs2 :
  place j off (bs1 ++ bs2) = place j off bs1 ++ place j (off + Z.of_nat (length bs1)) bs2.
Proof.
  revert off. induction bs1 as [|c bs1 IH]; intros off; simpl; [by rewrite Z.add_0_r|].
  rewrite IH. do 3 f_equal. lia.
Qed.

Lemma length_place j off bs : length (place j off bs) = length bs.
Proof. revert off. induction bs; intros off; simpl; auto. Qed.

Lemma place_snd j off bs : (place j off bs).*2 = bs.
Proof. revert off. induction bs as [|c bs IH]; intros off; simpl; [done|]. by rewrite IH. Qed.

Lemma elem_of_place j off bs b c :
  (b, c) ∈ place j off bs ->
  exists i, bs !! i = Some c /\ b = phys_of j (off + Z.of_nat i).
Proof.
  revert off. induction bs as [|c' bs IH]; intros off; simpl; [set_solver|].
  intros [[= -> ->]|Hin]%elem_of_cons.
  - exists O. by rewrite Z.add_0_r.
  - apply IH in Hin as (i & Hi & ->). exists (S i). split; [done|]. f_equal. lia.
Qed.

(** Placing at most a turn of the log puts every block where it belongs. *)
Lemma latest_place j nb off bs i c :
  wf_geometry j nb -> Z.of_nat (length bs) <= j_maxlen j -> bs !! i = Some c ->
  latest (place j off bs) (phys_of j (off + Z.of_nat i)) = Some c.
Proof.
  intros Hj. revert off i. induction bs as [|c' bs IH]; intros off i Hl Hi; [done|].
  pose proof (lookup_lt_Some _ _ _ Hi) as Hlt. simpl in Hl, Hlt. cbn [place latest].
  destruct i as [|i].
  - injection Hi as ->. replace (latest _ _) with (@None block).
    { by rewrite Z.add_0_r, Z.eqb_refl. }
    symmetry. apply latest_none. intros c' Hin. apply elem_of_place in Hin as (i & Hi & Heq).
    apply lookup_lt_Some in Hi. apply (phys_of_inj Hj) in Heq; lia.
  - replace (off + Z.of_nat (S i)) with (off + 1 + Z.of_nat i) by lia.
    rewrite IH; [done|lia|done].
Qed.

Lemma latest_place_other j nb off bs o :
  wf_geometry j nb -> off <= o + j_maxlen j - Z.of_nat (length bs) -> o < off ->
  latest (place j off bs) (phys_of j o) = None.
Proof.
  intros Hj H1 H2. apply latest_none. intros c Hin.
  apply elem_of_place in Hin as (i & Hi & Heq). apply lookup_lt_Some in Hi.
  apply (phys_of_inj Hj) in Heq; lia.
Qed.

Lemma latest_place_outside j nb off bs b :
  wf_geometry j nb -> ~ in_log j b -> latest (place j off bs) b = None.
Proof.
  intros Hj Hb. apply latest_none. intros c Hin.
  apply elem_of_place in Hin as (i & _ & ->). by apply Hb, (phys_of_in_log Hj).
Qed.

(** ** The code performs them *)

Lemma performs_on_dev {A} (m : M bdev A) s ops Q :
  performs (fun d => d) m (jd s) ops Q ->
  performs jd (on_dev m) s ops (fun a s' => Q a (jd s') /\ jr s' = jr s).
Proof.
  unfold performs, on_dev, zoom. destruct (m (jd s)) as [[a|rc] d]; simpl; tauto.
Qed.

Lemma performs_write_logical j off c d :
  wf_geometry j (nblocks (b_disk d)) -> length c = block_len -> wf_disk (b_disk d) -> whole_io d ->
  performs (fun d => d) (write_logical j off c) d (dwrites (place j off [c]))
    (fun _ d' => heap d' = heap d).
Proof.
  intros Hj Hc Hk Hw. apply performs_write; [|done..]. pose proof (phys_of_lt Hj off). lia.
Qed.

Lemma wf_dwrites_place j off bs :
  Forall (fun c => length c = block_len) bs -> Forall wf_op (dwrites (place j off bs)).
Proof.
  intros H. revert off. induction H as [|c bs Hc Hbs IH]; intros off; [constructor|].
  constructor; [done|apply IH].
Qed.

Lemma performs_write_data_blocks j cursor data d :
  wf_geometry j (nblocks (b_disk d)) -> 0 <= cursor ->
  cursor + Z.of_nat (length data) < 2 ^ 64 ->
  Forall (fun c => length c = block_len) data.*2 -> wf_disk (b_disk d) -> whole_io d ->
  performs (fun d => d) (write_data_blocks j cursor data) d (dwrites (place j cursor data.*2))
    (fun c d' => c = cursor + Z.of_nat (length data) /\ heap d' = heap d).
Proof.
  intros Hj H0 Hmax Hl Hk Hw. revert cursor d Hj H0 Hmax Hk Hw.
  induction data as [|[b c] data IH]; intros cursor d Hj H0 Hmax Hk Hw; cbn [write_data_blocks].
  { apply performs_ret; [done|]. split; [simpl; lia|done]. }
  apply Forall_cons in Hl as [Hc Hl]. cbn [length] in Hmax.
  change (dwrites (place j cursor ((b, c) :: data).*2))
    with (dwrites (place j cursor [c]) ++ dwrites (place j (cursor + 1) data.*2)).
  eapply performs_bind; [by apply performs_write_logical|]. simpl. intros _ d1 Hh Hw1 Hd1.
  rewrite u64_small by lia. eapply performs_wand.
  - apply IH; [done|..]; rewrite ?Hd1; try done; [lia|lia|].
    by apply (wf_run_dop _ (DWrite _ c)).
  - simpl. intros c' d' [-> ->]. split; [lia|done].
Qed.

Lemma performs_jsuper_write j start seq d :
  wf_geometry j (nblocks (b_disk d)) -> wf_disk (b_disk d) -> whole_io d ->
  performs (fun d => d) (jsuper_write j start seq) d
    [DWrite LOGFS_JSUPER_BLOCKNO (jsuper_encode j start seq); DFlush] (fun _ d' => heap d' = heap d).
Proof.
  intros Hj Hk Hw. apply performs_write_fua; [|apply length_encode_jsuper|done..].
  destruct Hj. unfold LOGFS_JSUPER_BLOCKNO. lia.
Qed.

Lemma space_needed_pos ndata nrevoke :
  0 <= ndata -> logfs_journal_space_needed ndata nrevoke <> 0 ->
  ndata <= LOGFS_MAX_TAGS_PER_DESC /\ nrevoke <= LOGFS_MAX_REVOKES_PER_BLOCK /\
  logfs_journal_space_needed ndata nrevoke = ndata + 2 + (if 0 <? nrevoke then 1 else 0).
Proof.
  intros H0. unfold logfs_journal_space_needed. case_bool; [done|]. zify_bool.
  intros _. split_and!; [done..|]. destruct (0 <? nrevoke); lia.
Qed.

Lemma length_body_blocks seq data revoke :
  Z.of_nat (length (body_blocks seq data revoke))
  = 1 + (if 0 <? Z.of_nat (length revoke) then 1 else 0) + Z.of_nat (length data).
Proof.
  unfold body_blocks. cbn [length]. rewrite length_app, length_fmap.
  destruct (0 <? _); cbn [length]; lia.
Qed.

(** The conditions under which the code's own checks let a commit start. *)
Record commit_ready (s : jst) (data : list pending_block) (revoke : list Z) : Prop := {
  cr_geo : wf_geometry (jr s) (nblocks (b_disk (jd s)));
  cr_disk : wf_disk (b_disk (jd s));
  cr_io : whole_io (jd s);
  cr_head : 0 <= j_tail (jr s) <= j_head (jr s);
  cr_used : j_head (jr s) - j_tail (jr s) <= j_maxlen (jr s);
  cr_nowrap : j_head (jr s) + j_maxlen (jr s) < 2 ^ 63;
  cr_seq : 0 <= j_next_sequence (jr s) < 2 ^ 63;
  cr_len : Forall (fun w => length w.2 = block_len) data;
  cr_size : logfs_journal_space_needed (Z.of_nat (length data)) (Z.of_nat (length revoke)) <> 0;
  cr_space : logfs_journal_space_needed (Z.of_nat (length data)) (Z.of_nat (length revoke))
             <= j_maxlen (jr s) - (j_head (jr s) - j_tail (jr s));
}.

Lemma free_space_eq j :
  0 <= j_tail j <= j_head j -> j_head j - j_tail j <= j_maxlen j -> j_maxlen j < 2 ^ 64 ->
  logfs_journal_free_space j = j_maxlen j - (j_head j - j_tail j).
Proof. intros. unfold logfs_journal_free_space. by rewrite (u64_small (j_head j - _)), u64_small by lia. Qed.

(** The step lemma after a bind, for a piece of code whose operations are known. *)
Ltac perform lem := eapply performs_bind; [by apply lem|]; cbn beta.

Lemma performs_write_body j data revoke d :
  wf_geometry j (nblocks (b_disk d)) -> wf_disk (b_disk d) -> whole_io d ->
  0 <= j_head j -> j_head j + Z.of_nat (length data) + 2 < 2 ^ 64 ->
  Z.of_nat (length data) <= LOGFS_MAX_TAGS_PER_DESC ->
  Z.of_nat (length revoke) <= LOGFS_MAX_REVOKES_PER_BLOCK ->
  Forall (fun c : block => length c = block_len) data.*2 ->
  let seq := j_next_sequence j in
  performs (fun d => d)
    (write_body j (build_desc seq data)
       (if 0 <? Z.of_nat (length revoke) then Some (build_revoke seq revoke) else None) data) d
    (dwrites (place j (j_head j) (body_blocks seq data revoke)))
    (fun c d' => c = commit_offset j data revoke /\ heap d' = heap d).
Proof.
  intros Hj Hk Hw H0 Hmax Hn Hr Hl seq. unfold commit_offset. rewrite length_body_blocks.
  unfold write_body, body_blocks.
  change (build_desc seq data :: ?l) with ([build_desc seq data] ++ l).
  assert (Hd : length (build_desc seq data) = block_len) by by apply length_build_desc.
  rewrite place_app. unfold dwrites at 1. rewrite map_app.
  perform performs_write_logical. intros _ d1 Hh1 Hw1 Hd1.
  assert (Hk1 : wf_disk (b_disk d1)) by (rewrite Hd1; by apply wf_run; [|apply wf_dwrites_place; constructor]).
  assert (Hj1 : wf_geometry j (nblocks (b_disk d1))) by by rewrite Hd1, nblocks_run.
  rewrite (u64_small (j_head j + 1)) by lia. cbn [length].
  destruct (0 <? Z.of_nat (length revoke)).
  - rewrite place_app, map_app.
    assert (Hrv : length (build_revoke seq revoke) = block_len) by by apply length_encode_revoke.
    cbn [app length]. eapply performs_bind.
    { rewrite <-(app_nil_r (map _ (place j _ [_]))).
      perform performs_write_logical. intros _ d2 Hh2 Hw2 Hd2.
      apply performs_ret with (Q := fun c d' => c = j_head j + 2 /\ heap d' = heap d); [done|].
      rewrite u64_small by lia. split; [lia|congruence]. }
    cbn beta. intros c d2 [-> Hh2] Hw2 Hd2. change (Z.of_nat 1) with 1.
    replace (j_head j + 1 + 1) with (j_head j + 2) by lia.
    eapply performs_wand; [apply performs_write_data_blocks; try done; try lia|].
    + by rewrite Hd2, nblocks_run.
    + rewrite Hd2. by apply wf_run; [|apply wf_dwrites_place; constructor].
    + cbn beta. intros c d' [-> Hh']. split; [lia|congruence].
  - change ([] ++ data.*2) with data.*2.
    eapply performs_skip; [reflexivity|done|].
    eapply performs_wand; [apply performs_write_data_blocks; try done; lia|].
    cbn beta. intros c d' [-> Hh']. split; [lia|congruence].
Qed.

Lemma performs_write_commit j cursor c d :
  wf_geometry j (nblocks (b_disk d)) -> wf_disk (b_disk d) -> whole_io d ->
  length c = block_len ->
  performs (fun d => d) (write_commit j cursor c) d
    ([DFlush] ++ [DWrite (phys_of j cursor) c; DFlush]) (fun _ d' => heap d' = heap d).
Proof.
  intros Hj Hk Hw Hc. unfold write_commit.
  perform performs_flush. intros _ d1 Hh1 Hw1 Hd1.
  change [DWrite (phys_of j cursor) c; DFlush] with (dwrites (place j cursor [c]) ++ [DFlush]).
  eapply performs_bind.
  { apply performs_write_logical; [by rewrite Hd1, nblocks_run|done| |done].
    rewrite Hd1. by apply wf_run; [|repeat constructor]. }
  cbn beta. intros _ d2 Hh2 Hw2 Hd2.
  eapply performs_wand; [by apply performs_flush|]. cbn beta. congruence.
Qed.

Lemma wf_body_ops j off seq data revoke :
  Z.of_nat (length data) <= LOGFS_MAX_TAGS_PER_DESC ->
  Z.of_nat (length revoke) <= LOGFS_MAX_REVOKES_PER_BLOCK ->
  Forall (fun w => length w.2 = block_len) data ->
  Forall wf_op (dwrites (place j off (body_blocks seq data revoke))).
Proof.
  intros Hn Hr Hl. apply wf_dwrites_place. unfold body_blocks.
  constructor; [by apply length_build_desc|]. apply Forall_app_2; [|by apply Forall_fmap].
  destruct (0 <? _); [|constructor]. constructor; [by apply length_encode_revoke|constructor].
Qed.

Lemma performs_commit data revoke s :
  commit_ready s data revoke ->
  performs jd (logfs_journal_commit data revoke) s (commit_ops (jr s) data revoke)
    (fun r s' => r = (j_next_sequence (jr s), j_head (jr s))
                 /\ jr s' = after_commit (jr s) data revoke).
Proof.
  intros [Hj Hk Hw Hhead Hused Hnw Hseq Hlen Hsize Hspace].
  destruct (space_needed_pos _ _ (Nat2Z.is_nonneg _) Hsize) as (Htags & Hrev & Hneed).
  pose proof Hj as [? ? ? ?]. set (j := jr s) in *.
  assert (Hdata : Forall (fun c : block => length c = block_len) data.*2) by by apply Forall_fmap.
  unfold logfs_journal_commit. eapply performs_skip; [reflexivity|done|]. fold j.
  rewrite (proj2 (Z.eqb_neq _ _) Hsize), free_space_eq, (proj2 (Z.ltb_ge _ _) Hspace) by lia.
  assert (Hroom : j_head j + Z.of_nat (length data) + 2 < 2 ^ 64) by (destruct (0 <? _); lia).
  assert (Hcoff : commit_offset j data revoke + 1 < 2 ^ 64).
  { unfold commit_offset. rewrite length_body_blocks. destruct (0 <? _); lia. }
  unfold commit_ops. eapply performs_bind.
  { apply performs_on_dev, performs_write_body; (done || lia). }
  cbn beta. intros c s1 [[-> _] Hj1] Hw1 Hd1.
  rewrite app_assoc. eapply performs_bind.
  { apply performs_on_dev, performs_write_commit; rewrite ?Hd1.
    - by rewrite nblocks_run.
    - by apply wf_run; [|apply wf_body_ops].
    - done.
    - apply length_encode_commit. }
  cbn beta. intros _ s2 [_ Hj2] Hw2 Hd2.
  eapply performs_skip; [reflexivity|done|].
  set (s3 := set_jr _ s2).
  assert (Hj3 : jr s3 = after_commit j data revoke).
  { unfold s3, set_jr, after_commit. cbn [jr]. rewrite Hj2, Hj1. fold j.
    assert (0 <= commit_offset j data revoke) by (unfold commit_offset; lia).
    by rewrite !u64_small by lia. }
  assert (Hk2 : wf_disk (b_disk (jd s2))).
  { rewrite Hd2, Hd1. apply wf_run.
    - by apply wf_run; [|apply wf_body_ops].
    - by repeat constructor. }
  fold j in Hd2. destruct (j_tail j =? j_head j).
  - rewrite <-(app_nil_r [_; _]). eapply performs_bind.
    { apply performs_on_dev, performs_jsuper_write; [|done..].
      change (jd s3) with (jd s2). by rewrite Hd2, Hd1, !nblocks_run. }
    cbn beta. intros _ s4 [_ Hj4] Hw4 _. apply performs_ret; [done|].
    split; [done|]. by rewrite Hj4.
  - eapply performs_skip; [reflexivity|done|]. by apply performs_ret.
Qed.
