(* ===== verification/JournalInv.v ===== *)
(** The invariant of the log, and what it promises: from any state that has
    it, a crash at any point of a commit leaves the transactions before it,
    or those and the new one, never anything else. *)

From S2P Require Import Prelude.
From S2P Require Import Bytes.
From S2P Require Import Crc32.
From S2P Require Import DiskFormat.
From S2P Require Import Blockdev.
From S2P Require Import DiskOps.
From S2P Require Import Journal.
From S2P Require Import JournalLog.
From S2P Require Import JournalCommit.

(** ** Abstract view: an image recovers to a list of transactions *)

Definition recovers_to (j : logfs_journal) (img : image) (ts : list ltxn) : Prop :=
  installs j img (parse_image j img) = all_writes ts.

(** The journal superblock for a log that starts at [tail] with number [s]. *)
Definition jsuper_ok (tail s : Z) (ts : list ltxn) (c : block) : Prop :=
  let js := decode_jsuper c in
  js_magic js = LOGFS_JOURNAL_MAGIC /\
  match ts with
  | [] => js_start js = LOGFS_JOURNAL_EMPTY
  | _ => js_start js = tail /\ js_sequence js = s
  end.

Lemma jsuper_ok_cases tail s ts c :
  jsuper_ok tail s ts c ->
  (ts = [] /\ js_start (decode_jsuper c) = LOGFS_JOURNAL_EMPTY) \/
  (js_start (decode_jsuper c) = tail /\ js_sequence (decode_jsuper c) = s).
Proof. intros [_ H]. destruct ts; [by left|by right]. Qed.

(** The sequence number of the oldest transaction still in the log. *)
Definition first_seq (j : logfs_journal) (ts : list ltxn) : Z :=
  j_next_sequence j - Z.of_nat (length ts).

Lemma first_seq_next j ts : first_seq j ts + Z.of_nat (length ts) = j_next_sequence j.
Proof. unfold first_seq. lia. Qed.

Record log_inv (j : logfs_journal) (k : disk) (ts : list ltxn) : Prop := {
  li_geo : wf_geometry j (nblocks k);
  li_disk : wf_disk k;
  li_quiet : forall b c, (b, c) ∈ pending k -> ~ journal_block j b;
  li_tail : 0 <= j_tail j;
  li_head : j_head j = j_tail j + Z.of_nat (length (log_blocks ts));
  li_fits : Z.of_nat (length (log_blocks ts)) <= j_maxlen j;
  li_nowrap : j_head j < 2 ^ 63;
  li_txns : Forall wf_txn ts;
  li_seqs : seqs_from (first_seq j ts) ts;
  li_seq_range : 0 <= first_seq j ts /\ j_next_sequence j <= 2 ^ 63;
  li_blocks : blocks_at j (content k) (j_tail j) (log_blocks ts);
  li_old : forall b, in_log j b -> old_block (j_next_sequence j) (content k b);
  li_super : jsuper_ok (j_tail j) (first_seq j ts) ts (content k LOGFS_JSUPER_BLOCKNO);
}.

(** ** Reading a log back *)

Lemma parse_image_log j nb img ts off s :
  wf_geometry j nb -> Forall wf_txn ts -> seqs_from s ts ->
  0 <= off -> off + Z.of_nat (length (log_blocks ts)) < 2 ^ 64 - 1 ->
  Z.of_nat (length (log_blocks ts)) <= j_maxlen j ->
  blocks_at j img off (log_blocks ts) ->
  (forall b, in_log j b -> ~ commit_numbered (s + Z.of_nat (length ts)) (img b)) ->
  js_start (decode_jsuper (img LOGFS_JSUPER_BLOCKNO)) = off ->
  js_sequence (decode_jsuper (img LOGFS_JSUPER_BLOCKNO)) = s ->
  parse_image j img
  = after_txns (scan_start (decode_jsuper (img LOGFS_JSUPER_BLOCKNO))) ts.
Proof.
  intros Hj Hwf Hseq H0 Hmax Hfit Hat Hno Hstart Hs. unfold parse_image.
  rewrite (proj2 (Z.eqb_neq _ _)) by (rewrite Hstart; unfold LOGFS_JOURNAL_EMPTY; lia).
  pose proof (log_blocks_length ts) as Hlen.
  replace (parse_fuel j) with (length ts + (parse_fuel j - length ts))%nat
    by (unfold parse_fuel; lia).
  rewrite parse_log_txns; unfold scan_start; cbn [sc_scan sc_expect_seq];
    rewrite ?Hstart, ?Hs; try done; [|lia].
  apply parse_log_stop. apply (parse_step_no_commit _ _ _ _ Hj).
  by cbn [after_txns sc_expect_seq].
Qed.

Lemma recovers_to_log j nb img ts off s :
  wf_geometry j nb -> Forall wf_txn ts -> seqs_from s ts ->
  0 <= off -> off + Z.of_nat (length (log_blocks ts)) < 2 ^ 64 - 1 ->
  Z.of_nat (length (log_blocks ts)) <= j_maxlen j ->
  blocks_at j img off (log_blocks ts) ->
  (forall b, in_log j b -> ~ commit_numbered (s + Z.of_nat (length ts)) (img b)) ->
  js_start (decode_jsuper (img LOGFS_JSUPER_BLOCKNO)) = off ->
  js_sequence (decode_jsuper (img LOGFS_JSUPER_BLOCKNO)) = s ->
  recovers_to j img ts.
Proof.
  intros Hj Hwf Hseq H0 Hmax Hfit Hat Hno Hstart Hs. unfold recovers_to.
  rewrite (parse_image_log j nb img ts off s) by done.
  unfold installs, after_txns, scan_start. cbn [sc_txns sc_revokes sc_scan app].
  rewrite Hstart. apply installs_rtxns; [done|lia|done].
Qed.

(** An empty log recovers nothing, whatever else the region holds. *)
Lemma recovers_to_empty j img :
  js_start (decode_jsuper (img LOGFS_JSUPER_BLOCKNO)) = LOGFS_JOURNAL_EMPTY ->
  recovers_to j img [].
Proof. intros H. unfold recovers_to, parse_image. by rewrite H, Z.eqb_refl. Qed.

(** ** Crash images of a run *)

Definition op_write (o : dop) : option (Z * block) :=
  match o with DWrite b c => Some (b, c) | DFlush => None end.

Definition op_writes (ops : list dop) : list (Z * block) := omap op_write ops.

Lemma op_writes_dwrites ws : op_writes (dwrites ws) = ws.
Proof. unfold op_writes. induction ws as [|[b c] ws IH]; [done|]. cbn. by f_equal. Qed.

Lemma op_writes_app o1 o2 : op_writes (o1 ++ o2) = op_writes o1 ++ op_writes o2.
Proof. apply omap_app. Qed.

(** After any run, a block holds what it might have held before, or one of
    the contents the run wrote to it. *)
Lemma crash_image_run ops k img b :
  crash_image (run ops k) img ->
  img b = persisted k b \/ (b, img b) ∈ pending k \/ (b, img b) ∈ op_writes ops.
Proof.
  revert k. induction ops as [|o ops IH]; intros k H.
  - destruct (H b); auto.
  - apply (IH (run_dop k o)) in H. destruct o as [b' c|]; cbn [run_dop op_writes] in *.
    + change (op_writes (DWrite b' c :: ops)) with ((b', c) :: op_writes ops).
      destruct H as [H|[H|H]]; [by left| |set_solver].
      cbn [push_write pending] in H. set_solver.
    + change (op_writes (DFlush :: ops)) with (op_writes ops).
      destruct H as [H|[H|H]]; [|set_solver|auto].
      rewrite persisted_flush in H. unfold content in H.
      destruct (latest (pending k) b) eqn:E; simpl in H; [|auto].
      apply latest_in in E. right; left. by rewrite H.
Qed.

(** On a block with nothing pending the run starts from a known content. *)
Lemma crash_image_run_quiet ops k img b :
  crash_image (run ops k) img -> (forall c, (b, c) ∉ pending k) ->
  img b = content k b \/ (b, img b) ∈ op_writes ops.
Proof.
  intros H Hn. apply (crash_image_run _ _ _ b) in H as [H|[H|H]]; [|by apply Hn in H|auto].
  left. rewrite H. unfold content. by rewrite (proj2 (latest_none _ _) Hn).
Qed.

Lemma pending_flush_run ops k : pending (run (ops ++ [DFlush]) k) = [].
Proof. rewrite run_app. done. Qed.

Lemma content_run ops k b :
  content (run ops k) b = default (content k b) (latest (op_writes ops) b).
Proof.
  revert k. induction ops as [|o ops IH]; intros k; [done|].
  change (run (o :: ops) k) with (run ops (run_dop k o)). rewrite IH. destruct o as [b' c|].
  - change (op_writes (DWrite b' c :: ops)) with ((b', c) :: op_writes ops).
    cbn [latest run_dop]. rewrite content_push. destruct (latest (op_writes ops) b); [done|].
    by destruct (b' =? b).
  - cbn [run_dop]. by rewrite content_flush.
Qed.

(** With nothing pending, a crash loses nothing. *)
Lemma crash_image_content k : pending k = [] -> crash_image k (content k).
Proof. intros H b. left. by apply content_clean. Qed.

Lemma op_writes_prefix done ops w :
  done `prefix_of` ops -> w ∈ op_writes done -> w ∈ op_writes ops.
Proof. intros [l ->] H. rewrite op_writes_app. set_solver. Qed.

(** An image with the log's blocks recovers to exactly its transactions. *)
Lemma log_inv_image j k ts img :
  log_inv j k ts -> (forall b, journal_block j b -> img b = content k b) -> recovers_to j img ts.
Proof.
  intros [Hj Hk Hq Ht Hh Hf Hnw Hwf Hseq Hr Hb Ho Hs] Himg.
  assert (Hjs : journal_block j LOGFS_JSUPER_BLOCKNO) by by left.
  rewrite <-(Himg _ Hjs) in Hs. destruct Hs as [_ Hs].
  destruct ts as [|t ts]; [by apply recovers_to_empty|]. destruct Hs as [Hst Hsq].
  eapply recovers_to_log; [exact Hj|exact Hwf|exact Hseq|exact Ht| |exact Hf| | |exact Hst|exact Hsq].
  - lia.
  - intros i c Hi. rewrite Himg; [by apply Hb|]. right. by eapply phys_of_in_log.
  - intros b Hin. rewrite Himg by by right. apply old_not_commit.
    rewrite first_seq_next. by apply Ho.
Qed.

(** Whatever the device caches, that is what a power failure leaves. *)
Lemma log_inv_recovers j k ts img :
  log_inv j k ts -> crash_image k img -> recovers_to j img ts.
Proof.
  intros Hinv Hc. apply (log_inv_image _ _ _ _ Hinv). intros b Hb.
  apply (crash_image_stable _ _ _ Hc). intros c Hin. by eapply (li_quiet _ _ _ Hinv).
Qed.

(** ** A commit onto a log with the invariant *)

(** What the caller hands to a commit: block images with valid targets, at
    most a descriptor's worth, none of which imitates a commit block with the
    current or a later sequence number. *)
Record loggable (j : logfs_journal) (data : list pending_block) : Prop := {
  lg_len : Z.of_nat (length data) <= LOGFS_MAX_TAGS_PER_DESC;
  lg_data : Forall (fun w => 0 <= w.1 < 2 ^ 64 /\ length w.2 = block_len) data;
  lg_plain : Forall (fun w => old_block (j_next_sequence j) w.2) data;
}.

(** Room in the log, and in the 64-bit counters. *)
Record log_room (j : logfs_journal) (ts : list ltxn) (data : list pending_block) : Prop := {
  lr_space : Z.of_nat (length (log_blocks ts)) + Z.of_nat (length data) + 2 <= j_maxlen j;
  lr_nowrap : j_head j + j_maxlen j < 2 ^ 63;
  lr_seq : j_next_sequence j < 2 ^ 63;
}.

Lemma txn_blocks_body t :
  txn_blocks t = body_blocks (l_seq t) (l_data t) [] ++ [txn_commit t].
Proof. done. Qed.

Lemma decode_jsuper_encode j start seq :
  0 <= start < 2 ^ 64 -> 0 <= seq < 2 ^ 64 ->
  js_magic (decode_jsuper (jsuper_encode j start seq)) = LOGFS_JOURNAL_MAGIC /\
  js_start (decode_jsuper (jsuper_encode j start seq)) = start /\
  js_sequence (decode_jsuper (jsuper_encode j start seq)) = seq.
Proof.
  intros Hst Hsq. unfold jsuper_encode. rewrite decode_encode_jsuper.
  cbn [js_magic js_start js_sequence]. by rewrite !u64_small by done.
Qed.

Lemma seqs_from_app s ts1 ts2 :
  seqs_from s (ts1 ++ ts2) <-> seqs_from s ts1 /\ seqs_from (s + Z.of_nat (length ts1)) ts2.
Proof.
  revert s. induction ts1 as [|t1 ts1 IH]; intros s; cbn [app seqs_from length].
  - rewrite Z.add_0_r. tauto.
  - rewrite IH. replace (s + 1 + _) with (s + Z.of_nat (S (length ts1))) by lia. tauto.
Qed.

Section commit.
Context (j : logfs_journal) (k : disk) (ts : list ltxn) (data : list pending_block).
Hypothesis Hinv : log_inv j k ts.
Hypothesis Hlog : loggable j data.
Hypothesis Hroom : log_room j ts data.

Let t := mkLtxn (j_next_sequence j) data.
Let pos := phys_of j (commit_offset j data []).

Lemma wf_new_txn : wf_txn t.
Proof.
  destruct Hinv, Hlog, Hroom. split; [done| |done].
  cbn [l_seq t]. unfold first_seq in *. lia.
Qed.

Lemma seqs_new : seqs_from (first_seq j ts) (ts ++ [t]).
Proof.
  apply seqs_from_app. split; [apply Hinv|]. split; [|done]. cbn [l_seq t].
  unfold first_seq. lia.
Qed.

Lemma wf_all : Forall wf_txn (ts ++ [t]).
Proof.
  apply Forall_app_2; [apply Hinv|]. constructor; [apply wf_new_txn|constructor].
Qed.

Lemma length_new_log :
  Z.of_nat (length (log_blocks (ts ++ [t])))
  = Z.of_nat (length (log_blocks ts)) + Z.of_nat (length data) + 2.
Proof.
  rewrite log_blocks_app, length_app. unfold log_blocks at 2. cbn [map concat].
  rewrite app_nil_r, length_txn_blocks. cbn [l_data t]. lia.
Qed.

Lemma length_body : Z.of_nat (length (body_blocks (j_next_sequence j) data []))
  = Z.of_nat (length data) + 1.
Proof. rewrite length_body_blocks. change (0 <? Z.of_nat (@length Z [])) with false. lia. Qed.

Lemma commit_ops_writes :
  op_writes (commit_ops j data [])
  = place j (j_head j) (txn_blocks t)
    ++ (if j_tail j =? j_head j
        then [(LOGFS_JSUPER_BLOCKNO, jsuper_encode j (j_head j) (j_next_sequence j))] else []).
Proof.
  unfold commit_ops. rewrite !op_writes_app, op_writes_dwrites.
  rewrite txn_blocks_body, place_app, <-app_assoc. cbn [l_seq l_data t]. f_equal.
  by destruct (j_tail j =? j_head j).
Qed.

(** Where the new blocks go: not over a live block, not on block 2. *)
Lemma place_new_fresh i c :
  (i < length (log_blocks ts))%nat ->
  (phys_of j (j_tail j + Z.of_nat i), c) ∉ place j (j_head j) (txn_blocks t).
Proof.
  intros Hi Hin. apply elem_of_place in Hin as (i' & Hi' & Heq).
  apply lookup_lt_Some in Hi'. rewrite length_txn_blocks in Hi'. cbn [l_data t] in Hi'.
  destruct Hinv, Hroom. apply (phys_of_inj li_geo0) in Heq; lia.
Qed.

Lemma place_in_log b c off bs : (b, c) ∈ place j off bs -> in_log j b.
Proof.
  intros (i & _ & ->)%elem_of_place. by eapply phys_of_in_log, Hinv.
Qed.

Lemma super_not_in_log : ~ in_log j LOGFS_JSUPER_BLOCKNO.
Proof. destruct Hinv as [[]]. unfold in_log, LOGFS_JSUPER_BLOCKNO. lia. Qed.

Lemma ts_empty_iff : (j_tail j =? j_head j) = true <-> ts = [].
Proof.
  destruct Hinv. rewrite Z.eqb_eq. split; [|intros ->; simpl in *; lia].
  intros Heq. pose proof (log_blocks_length ts). destruct ts; [done|]. simpl in *. lia.
Qed.

Lemma log_quiet b : journal_block j b -> forall c, (b, c) ∉ pending k.
Proof. intros Hb c Hin. exact (li_quiet _ _ _ Hinv b c Hin Hb). Qed.

(** What a crash anywhere in the commit leaves in the log region. *)
Lemma crash_region done img b :
  done `prefix_of` commit_ops j data [] -> crash_image (run done k) img -> in_log j b ->
  img b = content k b \/ (b, img b) ∈ place j (j_head j) (txn_blocks t).
Proof.
  intros Hp Hc Hb.
  destruct (crash_image_run_quiet _ _ _ b Hc) as [?|Hin]; [by apply log_quiet; right|auto|].
  apply (op_writes_prefix _ _ _ Hp) in Hin. rewrite commit_ops_writes in Hin.
  apply elem_of_app in Hin as [Hin|Hin]; [auto|]. exfalso.
  destruct (j_tail j =? j_head j); [|set_solver]. apply list_elem_of_singleton in Hin.
  injection Hin as -> _. by apply super_not_in_log.
Qed.

Lemma crash_super done img :
  done `prefix_of` commit_ops j data [] -> crash_image (run done k) img ->
  img LOGFS_JSUPER_BLOCKNO = content k LOGFS_JSUPER_BLOCKNO \/
  (ts = [] /\ img LOGFS_JSUPER_BLOCKNO = jsuper_encode j (j_head j) (j_next_sequence j)).
Proof.
  intros Hp Hc.
  destruct (crash_image_run_quiet _ _ _ LOGFS_JSUPER_BLOCKNO Hc) as [?|Hin];
    [by apply log_quiet; left|auto|].
  apply (op_writes_prefix _ _ _ Hp) in Hin. rewrite commit_ops_writes in Hin.
  apply elem_of_app in Hin as [Hin|Hin].
  - exfalso. by apply super_not_in_log, (place_in_log _ _ _ _ Hin).
  - destruct (j_tail j =? j_head j) eqn:E; [|set_solver]. apply list_elem_of_singleton in Hin.
    injection Hin as Hin. right. split; [by apply ts_empty_iff|done].
Qed.

Lemma crash_old_blocks done img :
  done `prefix_of` commit_ops j data [] -> crash_image (run done k) img ->
  blocks_at j img (j_tail j) (log_blocks ts).
Proof.
  intros Hp Hc i c Hi. pose proof (lookup_lt_Some _ _ _ Hi) as Hlt.
  destruct (crash_region done img (phys_of j (j_tail j + Z.of_nat i))) as [->|Hin]; try done.
  - by eapply phys_of_in_log, Hinv.
  - by apply Hinv.
  - by apply place_new_fresh in Hin.
Qed.

(** The only block that can carry the new number and the commit magic is
    the commit block of this transaction, at its place. *)
Lemma place_commit_numbered b c :
  (b, c) ∈ place j (j_head j) (txn_blocks t) -> commit_numbered (j_next_sequence j) c ->
  b = pos /\ c = txn_commit t.
Proof.
  rewrite txn_blocks_body, place_app. cbn [l_seq l_data t].
  intros [Hin|Hin]%elem_of_app Hc.
  - exfalso. apply elem_of_place in Hin as (i & Hi & _). destruct i as [|i].
    + injection Hi as <-. destruct Hc as [Hm _].
      destruct (txn_desc_header t wf_new_txn) as (Hm' & _).
      unfold txn_desc in Hm'. cbn [l_seq l_data t decode_desc desc_magic] in Hm'.
      rewrite Hm in Hm'. done.
    + change (data.*2 !! i = Some c) in Hi. rewrite list_lookup_fmap in Hi.
      apply fmap_Some in Hi as (w & Hw & ->). apply (old_not_commit _ _) in Hc; [done|].
      apply (Forall_lookup_1 _ _ _ _ (lg_plain _ _ Hlog) Hw).
  - cbn [place] in Hin. apply list_elem_of_singleton in Hin. injection Hin as -> ->. done.
Qed.

Lemma crash_without_commit done img :
  done `prefix_of` commit_ops j data [] -> crash_image (run done k) img ->
  img pos <> txn_commit t -> recovers_to j img ts.
Proof.
  intros Hp Hc Hpos. destruct Hinv as [Hj Hk Hq Ht Hh Hf Hnw Hwf Hseq Hr Hb Ho Hs].
  assert (Hno : forall b, in_log j b -> ~ commit_numbered (j_next_sequence j) (img b)).
  { intros b Hin Hn. destruct (crash_region _ _ _ Hp Hc Hin) as [H|H].
    - rewrite H in Hn. by apply (old_not_commit _ _ (Ho b Hin)).
    - apply place_commit_numbered in H as [-> H]; done. }
  destruct (crash_super _ _ Hp Hc) as [Heq|[-> Heq]].
  - rewrite <-Heq in Hs. apply jsuper_ok_cases in Hs as [[-> Hst]|[Hst Hsq]];
      [by apply recovers_to_empty|].
    eapply recovers_to_log; try done; [lia|by eapply crash_old_blocks|].
    intros b Hin. rewrite first_seq_next. by apply Hno.
  - destruct (decode_jsuper_encode j (j_head j) (j_next_sequence j)) as (_ & Hst & Hsq);
      [unfold first_seq in *; simpl in *; lia..|]. rewrite <-Heq in Hst, Hsq.
    eapply (recovers_to_log _ _ _ [] (j_head j) (j_next_sequence j)); try done; simpl in *; try lia.
    intros b Hin. rewrite Z.add_0_r. by apply Hno.
Qed.

(** The device once everything before the commit block is flushed. *)
Let k1 := run (dwrites (place j (j_head j) (body_blocks (j_next_sequence j) data [])) ++ [DFlush]) k.

Lemma content_body_flushed b :
  content k1 b
  = default (content k b) (latest (place j (j_head j) (body_blocks (j_next_sequence j) data [])) b).
Proof.
  unfold k1. rewrite run_app. cbn [run foldl run_dop].
  by rewrite content_flush, content_dwrites.
Qed.

(** A new commit block on the device means the flush before it was done. *)
Lemma crash_with_commit done img :
  done `prefix_of` commit_ops j data [] -> crash_image (run done k) img ->
  img pos = txn_commit t ->
  forall b, img b = content k1 b \/ (b = pos /\ img b = txn_commit t) \/ b = LOGFS_JSUPER_BLOCKNO.
Proof.
  intros Hp Hc Hpos b.
  assert (Hposlog : in_log j pos) by by eapply phys_of_in_log, Hinv.
  unfold commit_ops in Hp. rewrite app_assoc in Hp.
  apply prefix_app_inv in Hp as [Hp|(l & -> & Hp)].
  { exfalso. destruct (crash_image_run_quiet _ _ _ pos Hc) as [H|Hin];
      [by apply log_quiet; right| |].
    - apply (old_not_commit (j_next_sequence j) (txn_commit t)).
      + rewrite <-Hpos, H. by apply Hinv.
      + pose proof (txn_commit_header t wf_new_txn) as H'. split.
        * apply (f_equal cb_magic H').
        * apply (f_equal cb_sequence H').
    - apply (op_writes_prefix _ _ _ Hp) in Hin.
      rewrite op_writes_app, op_writes_dwrites, app_nil_r in Hin.
      apply elem_of_place in Hin as (i & Hi & Heq). apply lookup_lt_Some in Hi.
      apply (phys_of_inj (li_geo _ _ _ Hinv)) in Heq; unfold commit_offset in *;
        pose proof length_body; destruct Hroom; lia. }
  rewrite run_app in Hc. fold k1 in Hc.
  assert (Hclean : pending k1 = []) by apply pending_flush_run.
  destruct (crash_image_run_quiet _ _ _ b Hc) as [H|Hin]; [rewrite Hclean; set_solver|auto|].
  right. apply (op_writes_prefix _ _ _ Hp) in Hin. rewrite op_writes_app in Hin.
  apply elem_of_app in Hin as [Hin|Hin].
  - left. apply list_elem_of_singleton in Hin. by injection Hin as -> ->.
  - right. destruct (j_tail j =? j_head j); [|set_solver].
    apply list_elem_of_singleton in Hin. by injection Hin as -> _.
Qed.

Lemma body_block_placed i c :
  body_blocks (j_next_sequence j) data [] !! i = Some c ->
  content k1 (phys_of j (j_head j + Z.of_nat i)) = c /\
  phys_of j (j_head j + Z.of_nat i) <> pos /\
  phys_of j (j_head j + Z.of_nat i) <> LOGFS_JSUPER_BLOCKNO.
Proof.
  intros Hi. pose proof (li_geo _ _ _ Hinv) as Hj. pose proof length_body as Hl.
  pose proof (lookup_lt_Some _ _ _ Hi) as Hlt.
  rewrite content_body_flushed, (latest_place j _ _ _ _ c Hj);
    [|destruct Hroom; lia|done].
  split_and!; [done| |].
  - intros Heq. apply (phys_of_inj Hj) in Heq; unfold commit_offset in *; destruct Hroom; lia.
  - pose proof (phys_of_lt Hj (j_head j + Z.of_nat i)). unfold LOGFS_JSUPER_BLOCKNO. lia.
Qed.

Lemma crash_new_blocks done img :
  done `prefix_of` commit_ops j data [] -> crash_image (run done k) img ->
  img pos = txn_commit t -> blocks_at j img (j_head j) (txn_blocks t).
Proof.
  intros Hp Hc Hpos. rewrite txn_blocks_body. apply blocks_at_app. split.
  - intros i c Hi. destruct (body_block_placed i c Hi) as (Hk1 & Hne & Hsup).
    destruct (crash_with_commit _ _ Hp Hc Hpos (phys_of j (j_head j + Z.of_nat i)))
      as [->|[[? _]|?]]; done.
  - apply blocks_at_cons. by split.
Qed.

Lemma place_old b c :
  (b, c) ∈ place j (j_head j) (txn_blocks t) -> old_block (j_next_sequence j + 1) c.
Proof.
  intros (i & Hi & _)%elem_of_place. destruct i as [|i].
  - injection Hi as <-. destruct (txn_desc_header t wf_new_txn) as (_ & _ & Hs & _).
    intros _. cbn [decode_desc desc_sequence l_seq t] in Hs. lia.
  - change ((data.*2 ++ [txn_commit t]) !! i = Some c) in Hi.
    apply lookup_app_Some in Hi as [Hi|[_ Hi]].
    + rewrite list_lookup_fmap in Hi. apply fmap_Some in Hi as (w & Hw & ->).
      eapply old_block_mono; [|by apply (Forall_lookup_1 _ _ _ _ (lg_plain _ _ Hlog) Hw)]. lia.
    + apply list_lookup_singleton_Some in Hi as [_ <-].
      pose proof (f_equal cb_sequence (txn_commit_header t wf_new_txn)) as Hs.
      intros _. cbn [decode_commit cb_sequence l_seq t] in Hs. lia.
Qed.

Lemma crash_region_old done img b :
  done `prefix_of` commit_ops j data [] -> crash_image (run done k) img -> in_log j b ->
  old_block (j_next_sequence j + 1) (img b).
Proof.
  intros Hp Hc Hb. destruct (crash_region _ _ b Hp Hc Hb) as [->|Hin]; [|by eapply place_old].
  eapply old_block_mono; [|by apply Hinv]. lia.
Qed.

Lemma crash_all_blocks done img :
  done `prefix_of` commit_ops j data [] -> crash_image (run done k) img ->
  img pos = txn_commit t -> blocks_at j img (j_tail j) (log_blocks (ts ++ [t])).
Proof.
  intros Hp Hc Hpos. rewrite log_blocks_app. apply blocks_at_app. split.
  - by eapply crash_old_blocks.
  - rewrite <-(li_head _ _ _ Hinv). unfold log_blocks. cbn [map concat]. rewrite app_nil_r.
    by eapply crash_new_blocks.
Qed.

Lemma commit_crash_cases done img :
  done `prefix_of` commit_ops j data [] -> crash_image (run done k) img ->
  recovers_to j img ts \/
  (recovers_to j img (ts ++ [t]) /\ forall b, ~ journal_block j b -> img b = content k b).
Proof.
  intros Hp Hc. destruct (decide (img pos = txn_commit t)) as [Hpos|Hpos];
    [|left; by eapply crash_without_commit].
  pose proof (crash_with_commit _ _ Hp Hc Hpos) as Hall.
  assert (Hhome : forall b, ~ journal_block j b -> img b = content k b).
  { intros b Hb. destruct (Hall b) as [->|[[-> _]| -> ]].
    - rewrite content_body_flushed. erewrite latest_place_outside; [done|apply Hinv|].
      intros H. apply Hb. by right.
    - exfalso. apply Hb. right. by eapply phys_of_in_log, Hinv.
    - exfalso. apply Hb. by left. }
  pose proof (fun b => crash_region_old _ _ b Hp Hc) as Hold.
  pose proof length_new_log as Hlen. destruct Hroom as [Hsp Hnw Hsq].
  assert (Hlog' : js_start (decode_jsuper (img LOGFS_JSUPER_BLOCKNO)) = j_tail j ->
    js_sequence (decode_jsuper (img LOGFS_JSUPER_BLOCKNO)) = first_seq j ts ->
    recovers_to j img (ts ++ [t])).
  { intros Hst Hs. pose proof (li_tail _ _ _ Hinv). pose proof (li_head _ _ _ Hinv).
    eapply (recovers_to_log j _ _ _ _ _ (li_geo _ _ _ Hinv) wf_all seqs_new);
      try done; [lia|lia|by eapply crash_all_blocks|].
    intros b Hb. rewrite length_app. cbn [length].
    replace (first_seq j ts + _) with (j_next_sequence j + 1) by (unfold first_seq; lia).
    by apply old_not_commit, Hold. }
  destruct (crash_super _ _ Hp Hc) as [Heq|[Hts Heq]].
  - pose proof (li_super _ _ _ Hinv) as Hs. rewrite <-Heq in Hs.
    apply jsuper_ok_cases in Hs as [[Hts Hst]|[Hst Hs]].
    + left. rewrite Hts. by apply recovers_to_empty.
    + right. split; [by apply Hlog'|done].
  - right. split; [|done]. pose proof (li_head _ _ _ Hinv) as Hh. rewrite Hts in Hh.
    cbn [log_blocks map concat length] in Hh. pose proof (li_seq_range _ _ _ Hinv) as Hr.
    pose proof (li_tail _ _ _ Hinv). unfold first_seq in *. rewrite Hts in *. simpl in Hr.
    destruct (decode_jsuper_encode j (j_head j) (j_next_sequence j)) as (_ & Hst & Hs); [lia..|].
    rewrite <-Heq in Hst, Hs. apply Hlog'; [rewrite Hst; lia|rewrite Hs; cbn [length]; lia].
Qed.

Lemma commit_ops_clean : pending (run (commit_ops j data []) k) = [].
Proof.
  unfold commit_ops. rewrite !run_app. by destruct (j_tail j =? j_head j).
Qed.

Lemma commit_ops_wf : Forall wf_op (commit_ops j data []).
Proof.
  unfold commit_ops. destruct Hlog as [Hn Hd _]. apply Forall_app_2.
  - apply wf_body_ops; [done|done|]. eapply Forall_impl; [exact Hd|]. simpl. tauto.
  - destruct (j_tail j =? j_head j); repeat constructor;
      try apply length_encode_commit; apply length_encode_jsuper.
Qed.

Lemma super_part_none b :
  in_log j b ->
  latest (if j_tail j =? j_head j
          then [(LOGFS_JSUPER_BLOCKNO, jsuper_encode j (j_head j) (j_next_sequence j))]
          else []) b = None.
Proof.
  intros Hb. destruct (j_tail j =? j_head j); [|done]. cbn [latest].
  destruct (Z.eqb_spec LOGFS_JSUPER_BLOCKNO b) as [<-|]; [|done].
  by apply super_not_in_log in Hb.
Qed.

Lemma commit_block_written : content (run (commit_ops j data []) k) pos = txn_commit t.
Proof.
  assert (Hpos : in_log j pos) by by eapply phys_of_in_log, Hinv.
  rewrite content_run, commit_ops_writes, latest_app, super_part_none by done.
  unfold pos, commit_offset.
  rewrite (latest_place j _ _ _ _ (txn_commit t) (li_geo _ _ _ Hinv)); [done| |].
  - rewrite length_txn_blocks. cbn [l_data t]. destruct Hroom; lia.
  - rewrite txn_blocks_body, lookup_app_r, Nat.sub_diag by (cbn [l_seq l_data t]; lia). done.
Qed.

Lemma super_written :
  content (run (commit_ops j data []) k) LOGFS_JSUPER_BLOCKNO
  = if j_tail j =? j_head j then jsuper_encode j (j_head j) (j_next_sequence j)
    else content k LOGFS_JSUPER_BLOCKNO.
Proof.
  rewrite content_run, commit_ops_writes, latest_app.
  erewrite latest_place_outside; [|apply Hinv|apply super_not_in_log].
  by destruct (j_tail j =? j_head j).
Qed.

Lemma commit_keeps_home b :
  ~ journal_block j b -> content (run (commit_ops j data []) k) b = content k b.
Proof.
  intros Hb. rewrite content_run, commit_ops_writes, latest_app.
  erewrite latest_place_outside; [|apply Hinv|intros H; apply Hb; by right].
  destruct (j_tail j =? j_head j); [|done]. cbn [latest].
  destruct (Z.eqb_spec LOGFS_JSUPER_BLOCKNO b) as [<-|]; [|done]. destruct Hb. by left.
Qed.

Lemma commit_crash_magic done img :
  done `prefix_of` commit_ops j data [] -> crash_image (run done k) img ->
  js_magic (decode_jsuper (img LOGFS_JSUPER_BLOCKNO)) = LOGFS_JOURNAL_MAGIC.
Proof.
  intros Hp Hc. pose proof (li_seq_range _ _ _ Hinv) as Hr. unfold first_seq in Hr.
  pose proof (li_head _ _ _ Hinv). pose proof (li_tail _ _ _ Hinv). destruct Hroom.
  destruct (crash_super _ _ Hp Hc) as [->|[_ ->]]; [apply Hinv|].
  destruct (decode_jsuper_encode j (j_head j) (j_next_sequence j)) as (Hm & _); [lia|lia|exact Hm].
Qed.

Lemma log_inv_after_commit :
  log_inv (after_commit j data []) (run (commit_ops j data []) k) (ts ++ [t]).
Proof.
  pose proof (crash_image_content _ commit_ops_clean) as Hc.
  pose proof (reflexivity (R := prefix) (commit_ops j data [])) as Hp.
  pose proof commit_block_written as Hpos. pose proof length_new_log as Hlen.
  pose proof length_body as Hbody. destruct Hroom as [Hsp Hnw Hsq].
  pose proof (li_head _ _ _ Hinv) as Hhead. pose proof (li_tail _ _ _ Hinv) as Htail.
  pose proof (li_seq_range _ _ _ Hinv) as Hr. unfold first_seq in Hr.
  assert (Hfs : first_seq (after_commit j data []) (ts ++ [t]) = first_seq j ts).
  { unfold first_seq. rewrite length_app. simpl. lia. }
  split; cbn [after_commit j_tail j_head j_maxlen j_next_sequence]; rewrite ?Hfs;
    unfold commit_offset in *; try lia.
  - rewrite nblocks_run. destruct (li_geo _ _ _ Hinv). by split.
  - apply wf_run; [apply Hinv|apply commit_ops_wf].
  - rewrite commit_ops_clean. set_solver.
  - apply wf_all.
  - apply seqs_new.
  - unfold first_seq. lia.
  - by eapply crash_all_blocks.
  - intros b Hb. by eapply crash_region_old.
  - rewrite super_written. pose proof ts_empty_iff as Hemp.
    destruct (j_tail j =? j_head j).
    + apply proj1 in Hemp. specialize (Hemp eq_refl). rewrite Hemp in Hhead, Hr |- *.
      simpl in Hhead, Hr. unfold first_seq.
      destruct (decode_jsuper_encode j (j_head j) (j_next_sequence j)) as (Hm & Hst & Hs); [lia..|].
      split; [done|]. cbn [app length]. rewrite Hst, Hs. lia.
    + pose proof (li_super _ _ _ Hinv) as Hs.
      assert (Hne : ts <> []) by (intros H%Hemp; done).
      clear -Hs Hne. destruct ts; [done|exact Hs].
Qed.

(** The blocks of the log after a crash that kept the commit block out. *)
Lemma crash_region_old_without done img b :
  done `prefix_of` commit_ops j data [] -> crash_image (run done k) img ->
  img pos <> txn_commit t -> in_log j b -> old_block (j_next_sequence j) (img b).
Proof.
  intros Hp Hc Hpos Hb Hm.
  destruct (crash_region _ _ b Hp Hc Hb) as [Heq|Hin].
  - rewrite Heq in *. by apply (li_old _ _ _ Hinv b Hb).
  - pose proof (place_old _ _ Hin Hm) as Hlt.
    destruct (Z.eq_dec (get64 8 (img b)) (j_next_sequence j)) as [Heq|]; [|lia].
    exfalso. destruct (place_commit_numbered b (img b) Hin) as [-> ?]; [by split|done].
Qed.

Lemma crash_super_nonempty done img :
  ts <> [] -> done `prefix_of` commit_ops j data [] -> crash_image (run done k) img ->
  jsuper_ok (j_tail j) (first_seq j ts) ts (img LOGFS_JSUPER_BLOCKNO).
Proof.
  intros Hne Hp Hc. destruct (crash_super _ _ Hp Hc) as [->|[? _]]; [apply Hinv|done].
Qed.

(** Back from a crash in a commit onto a log that was not empty, the log
    has the invariant again, without or with the new transaction. *)
Lemma commit_crash_inv done img k' :
  ts <> [] -> done `prefix_of` commit_ops j data [] -> crash_image (run done k) img ->
  wf_disk k' -> nblocks k' = nblocks k -> pending k' = [] -> (forall b, content k' b = img b) ->
  log_inv j k' ts \/ log_inv (after_commit j data []) k' (ts ++ [t]).
Proof.
  intros Hne Hp Hc Hk' Hnb Hpend Himg.
  pose proof (crash_super_nonempty _ _ Hne Hp Hc) as Hsup. rewrite <-Himg in Hsup.
  pose proof (li_geo _ _ _ Hinv) as Hgeo. rewrite <-Hnb in Hgeo.
  destruct (decide (img pos = txn_commit t)) as [Hpos|Hpos].
  - right. pose proof log_inv_after_commit as [_ _ _ Ht Hh Hf Hnw Hwf Hseq Hr _ _ _].
    assert (Hfs : first_seq (after_commit j data []) (ts ++ [t]) = first_seq j ts).
    { unfold first_seq. rewrite length_app. simpl. lia. }
    split; try done; [by destruct Hgeo|rewrite Hpend; set_solver| | |].
    + intros i c Hi. rewrite Himg. by apply (crash_all_blocks _ _ Hp Hc Hpos).
    + intros b Hb. rewrite Himg. by eapply crash_region_old.
    + rewrite Hfs. cbn [after_commit j_tail]. destruct Hsup as [Hm Hsup]. split; [done|].
      clear -Hsup Hne. destruct ts; [done|]. exact Hsup.
  - left. pose proof Hinv as [_ _ _ Ht Hh Hf Hnw Hwf Hseq Hr _ _ _].
    split; try done; [rewrite Hpend; set_solver| |].
    + intros i c Hi. rewrite Himg. by apply (crash_old_blocks _ _ Hp Hc).
    + intros b Hb. rewrite Himg. by apply (crash_region_old_without _ _ _ Hp Hc Hpos).
Qed.
End commit.
