(* ===== verification/JournalRecover.v ===== *)
(** [logfs_journal_recover]: the scan reads exactly the log ([parse_image]),
    terminates, and the whole routine performs the installs and then the
    write that empties the log - also when power fails during recovery. *)

From S2P Require Import Prelude.
From S2P Require Import Bytes.
From S2P Require Import Crc32.
From S2P Require Import DiskFormat.
From S2P Require Import Blockdev.
From S2P Require Import DiskOps.
From S2P Require Import Journal.
From S2P Require Import JournalLog.
From S2P Require Import JournalCommit.
From S2P Require Import JournalInv.

(** ** Kernels whose only failure is the loss of power

    No call returns an error.  (Under real read errors recovery is not exact: the scan
    takes an unreadable block for the end of the log.) *)

Definition live_answer (a : sysret) : Prop :=
  match a with
  | SRet n => (block_len <= n)%nat
  | SErr _ => False
  | SCrash => True
  end.

Definition live_io (d : bdev) : Prop := Forall live_answer (sys d).

Definition dead (d : bdev) : Prop := exists rest, sys d = SCrash :: rest.

Lemma live_whole d : live_io d -> whole_io d.
Proof. intros H. eapply Forall_impl; [exact H|]. by intros [n|e|]. Qed.

(** ** Without power nothing happens *)

Definition inert {A} (m : M bdev A) : Prop :=
  forall d, dead d ->
    b_disk (m d).2 = b_disk d /\ sys (m d).2 = sys d /\ (heap d = [] -> heap (m d).2 = []).

Create HintDb inert.

Lemma inert_ret {A} (a : A) : inert (mret a).
Proof. by intros d H. Qed.

Lemma inert_fail {A} rc : inert (fail (A := A) rc).
Proof. by intros d H. Qed.

Lemma inert_bind {A B} (m : M bdev A) (f : A -> M bdev B) :
  inert m -> (forall a, inert (f a)) -> inert (m ≫= f).
Proof.
  intros Hm Hf d Hd. unfold mbind, M_bind. specialize (Hm d Hd).
  destruct (m d) as [[a|rc] d1]; [|done]. destruct Hm as (H1 & H2 & H3). simpl in *.
  destruct Hd as [rest Hd]. destruct (Hf a d1) as (H4 & H5 & H6); [exists rest; congruence|].
  split_and!; [congruence|congruence|auto].
Qed.

Lemma inert_attempt {A} (m : M bdev A) : inert m -> inert (attempt m).
Proof. intros Hm d Hd. unfold attempt. specialize (Hm d Hd). by destruct (m d). Qed.

Lemma inert_malloc : inert malloc.
Proof. intros d Hd. unfold malloc. destruct (heap d) eqn:E; split_and!; simpl; congruence. Qed.

Lemma inert_syscall : inert syscall.
Proof. intros d [rest Hd]. unfold syscall. by rewrite Hd. Qed.

Lemma inert_flush : inert logfs_bdev_flush.
Proof. intros d [rest Hd]. unfold logfs_bdev_flush, mbind, M_bind, syscall. by rewrite Hd. Qed.

Lemma inert_read b : inert (logfs_bdev_read b).
Proof.
  intros d [rest Hd]. unfold logfs_bdev_read. destruct (_ <=? _); [done|].
  assert (Hz : (block_len <=? 0)%nat = false) by (apply Nat.leb_gt; blia).
  rewrite Hd. cbn [full_pread]. by rewrite Hz.
Qed.

Lemma inert_write b c : inert (logfs_bdev_write b c).
Proof.
  intros d [rest Hd]. unfold logfs_bdev_write. destruct (_ <=? _); [done|].
  assert (Hz : (block_len <=? 0)%nat = false) by (apply Nat.leb_gt; blia).
  rewrite Hd. cbn [full_pwrite]. by rewrite Hz.
Qed.

#[export] Hint Resolve inert_ret inert_fail inert_bind inert_attempt inert_malloc inert_syscall
  inert_flush inert_read inert_write : inert.

(** Structural: [inert] of any program built from the above. *)
Ltac solve_inert :=
  repeat first
    [ progress intros
    | solve [auto with inert]
    | apply inert_bind
    | match goal with
      | |- inert (match ?x with _ => _ end) => destruct x
      | |- inert (if ?b then _ else _) => destruct b
      | |- inert (let '_ := _ in _) => cbv zeta
      end ].

Lemma inert_read_data_blocks j cursor n : inert (read_data_blocks j cursor n).
Proof. revert cursor. induction n; intros cursor; cbn [read_data_blocks]; unfold read_logical; solve_inert. Qed.

Lemma inert_grow_revokes seq blocks acc : inert (grow_revokes seq blocks acc).
Proof. revert acc. induction blocks; intros acc; cbn [grow_revokes]; solve_inert. Qed.

#[export] Hint Resolve inert_read_data_blocks inert_grow_revokes : inert.

Lemma inert_peek_revoke j off : inert (peek_revoke j off).
Proof. unfold peek_revoke, read_logical. solve_inert. Qed.

#[export] Hint Resolve inert_peek_revoke : inert.

Lemma inert_scan_once j st : inert (scan_once j st).
Proof. unfold scan_once, read_logical. solve_inert. Qed.

#[export] Hint Resolve inert_scan_once : inert.

Lemma inert_scan_loop fuel j st : inert (scan_loop fuel j st).
Proof. revert st. induction fuel; intros st; cbn [scan_loop]; solve_inert. Qed.

#[export] Hint Resolve inert_scan_loop : inert.

(** ** Programs that read: the value they compute while the power is on *)

Definition reads {A} (m : M bdev A) (d : bdev) (v : A) : Prop :=
  let '(r, d') := m d in
  live_io d' /\ b_disk d' = b_disk d /\ heap d' = [] /\ (sys d = [] -> sys d' = []) /\
  (dead d' \/ r = Ok v).

Lemma reads_ret {A} (a : A) d : live_io d -> heap d = [] -> reads (mret a) d a.
Proof. intros Hl Hh. split_and!; auto. Qed.

Lemma reads_bind {A B} (m : M bdev A) (f : A -> M bdev B) d v w :
  reads m d v ->
  (forall d', live_io d' -> b_disk d' = b_disk d -> heap d' = [] -> reads (f v) d' w) ->
  (forall a, inert (f a)) ->
  reads (m ≫= f) d w.
Proof.
  unfold reads, mbind, M_bind. intros Hm Hf Hi.
  destruct (m d) as [[a|rc] d1]; destruct Hm as (Hl & Hd & Hhp & Hs & Hc).
  - destruct Hc as [Hdead|[= ->]].
    + destruct (Hi a d1 Hdead) as (H1 & H2 & H3). destruct (f a d1) as [r d2]. simpl in *.
      unfold live_io, dead in *. rewrite H2. split_and!; auto. congruence.
    + specialize (Hf d1 Hl Hd Hhp). destruct (f v d1) as [r d2].
      destruct Hf as (? & ? & ? & ? & ?). split_and!; auto. congruence.
  - destruct Hc as [Hdead|[=]]. split_and!; auto.
Qed.

Lemma reads_malloc d : live_io d -> heap d = [] -> reads malloc d true.
Proof. intros Hl Hh. unfold reads, malloc. rewrite Hh. split_and!; auto. Qed.

Lemma reads_read b d :
  b < nblocks (b_disk d) -> wf_disk (b_disk d) -> live_io d -> heap d = [] ->
  reads (logfs_bdev_read b) d (content (b_disk d) b).
Proof.
  intros Hb Hk Hl Hh. unfold reads, logfs_bdev_read. rewrite (proj2 (Z.leb_gt _ _)) by lia.
  destruct (full_pread_whole (sys d) (content (b_disk d) b) (wf_content _ _ Hk) (live_whole _ Hl))
    as (rc & buf & rest & -> & Hr & Hc). cbn [set_sys].
  assert (Hlr : Forall live_answer rest) by (by eapply Forall_suffix).
  split_and!; try done.
  - cbn [sys]. intros Hs. rewrite Hs in Hr. by apply suffix_nil_inv.
  - destruct Hc as [[-> ->]|[Hrc [[l ->]|(e & He)]]]; [by right|left; by exists l|].
    exfalso. unfold live_io in Hl. rewrite Forall_forall in Hl. by apply Hl in He.
Qed.

Lemma reads_attempt {A} (m : M bdev A) d v : reads m d v -> reads (attempt m) d (Ok v).
Proof.
  unfold reads, attempt. destruct (m d) as [r d1]. intros (? & ? & ? & ? & Hc).
  split_and!; auto. destruct Hc as [?| ->]; auto.
Qed.

Section scan.
Context (j : logfs_journal) (k : disk).
Hypothesis Hj : wf_geometry j (nblocks k).
Hypothesis Hk : wf_disk k.

(** The power is on or gone, memory is plentiful, the device is [k]. *)
Definition scanning (d : bdev) : Prop := live_io d /\ heap d = [] /\ b_disk d = k.

Lemma reads_step {A B} (m : M bdev A) (f : A -> M bdev B) d v w :
  scanning d -> reads m d v ->
  (forall d', scanning d' -> reads (f v) d' w) -> (forall a, inert (f a)) ->
  reads (m ≫= f) d w.
Proof.
  intros (Hl & Hh & Hd) Hm Hf Hi. eapply reads_bind; [exact Hm| |exact Hi].
  intros d' Hl' Hd' Hh'. apply Hf. split_and!; congruence.
Qed.

Lemma reads_done {A} (a : A) d : scanning d -> reads (mret a) d a.
Proof. intros (Hl & Hh & Hd). by apply reads_ret. Qed.

Lemma reads_alloc d : scanning d -> reads malloc d true.
Proof. intros (Hl & Hh & Hd). by apply reads_malloc. Qed.

Lemma reads_logical off d :
  scanning d -> reads (read_logical j off) d (content k (phys_of j off)).
Proof.
  intros (Hl & Hh & <-). apply reads_read; try done. pose proof (phys_of_lt Hj off). lia.
Qed.

Lemma reads_peek off d :
  scanning d -> reads (peek_revoke j off) d (peek_image j (content k) off).
Proof.
  intros Hd. unfold peek_revoke. eapply reads_step; [done|by apply reads_attempt, reads_logical| |].
  - intros d' Hd'. by apply reads_done.
  - solve_inert.
Qed.

Lemma data_offsets_S cursor n :
  data_offsets cursor (S n) = u64 cursor :: data_offsets (u64 (cursor + 1)) n.
Proof.
  unfold data_offsets. cbn [seq map]. rewrite Z.add_0_r. f_equal.
  rewrite <-seq_shift, map_map. apply map_ext. intros i.
  unfold u64. rewrite Zplus_mod_idemp_l. f_equal. lia.
Qed.

Lemma reads_data cursor n d :
  scanning d -> u64 cursor = cursor ->
  reads (read_data_blocks j cursor n) d
    (Some (map (fun off => content k (phys_of j off)) (data_offsets cursor n))).
Proof.
  revert cursor d. induction n as [|n IH]; intros cursor d Hd Hc; cbn [read_data_blocks].
  { by apply reads_done. }
  rewrite data_offsets_S, Hc. cbn [map].
  eapply reads_step; [done|by apply reads_alloc| |solve_inert; unfold read_logical; solve_inert].
  intros d1 Hd1. cbn [negb].
  eapply reads_step; [done|by apply reads_attempt, reads_logical| |solve_inert].
  intros d2 Hd2. cbv beta iota. eapply reads_step; [done|apply IH; [done|]| |solve_inert].
  - unfold u64. by rewrite Z.mod_mod.
  - intros d3 Hd3. by apply reads_done.
Qed.

Lemma reads_grow seq blocks acc d :
  scanning d ->
  reads (grow_revokes seq blocks acc) d (acc ++ map (fun b => mkRevokeEntry b seq) blocks).
Proof.
  revert acc d. induction blocks as [|b blocks IH]; intros acc d Hd; cbn [grow_revokes map].
  { rewrite app_nil_r. by apply reads_done. }
  eapply reads_step; [done|by apply reads_alloc| |solve_inert]. intros d1 Hd1. cbn [negb].
  specialize (IH (acc ++ [mkRevokeEntry b seq]) d1 Hd1). by rewrite <-app_assoc in IH.
Qed.

Lemma reads_scan_once st d :
  scanning d -> reads (scan_once j st) d (parse_step j (content k) st).
Proof.
  intros Hd. unfold scan_once, parse_step. set (img := content k).
  eapply reads_step; [done|by apply reads_attempt, reads_logical| |
    solve_inert; unfold read_logical; solve_inert].
  intros d1 Hd1. cbv beta iota zeta. fold img.
  set (desc := decode_desc (img (phys_of j (sc_scan st)))).
  destruct (valid_desc desc (sc_expect_seq st)); cbn [negb]; [|by apply reads_done].
  eapply reads_step; [done|by apply reads_peek| |solve_inert; unfold read_logical; solve_inert].
  intros d2 Hd2. fold img. set (rv := peek_image j img _).
  eapply reads_step; [done|by apply reads_attempt, reads_logical| |solve_inert].
  intros d3 Hd3. cbv beta iota zeta. fold img.
  destruct (valid_commit _ _); cbn [negb]; [|by apply reads_done].
  eapply reads_step with (v := true); [done| | |solve_inert].
  { destruct (0 <? desc_ntags desc); [|by apply reads_done].
    eapply reads_step; [done|by apply reads_alloc| |solve_inert]. intros d4 Hd4.
    eapply reads_step; [done|by apply reads_alloc| |solve_inert]. intros d5 Hd5.
    by apply reads_done. }
  intros d4 Hd4. cbn [negb].
  eapply reads_step; [done|apply reads_data; [done|unfold u64; by rewrite Z.mod_mod]| |solve_inert].
  intros d5 Hd5. cbv beta iota. fold img.
  destruct (_ =? _); cbn [negb]; [|by apply reads_done].
  eapply reads_step; [done|by apply reads_alloc| |solve_inert]. intros d6 Hd6. cbn [negb].
  eapply reads_step; [done|by apply reads_alloc| |solve_inert]. intros d7 Hd7.
  eapply reads_step; [done|by apply reads_alloc| |solve_inert]. intros d8 Hd8.
  rewrite andb_false_r.
  eapply reads_step with (v := sc_revokes st ++ revokes_in rv); [done| | |solve_inert].
  { unfold revokes_in. destruct rv; [by apply reads_grow|]. rewrite app_nil_r. by apply reads_done. }
  intros d9 Hd9. by apply reads_done.
Qed.
End scan.

(** ** The scan terminates

    A turn that goes on has found a descriptor with the expected sequence
    number; the numbers of different turns differ, so do the descriptors'
    blocks, and the region has only [maxlen] of them. *)

Lemma parse_step_next j img st st' :
  parse_step j img st = Some st' ->
  sc_expect_seq st' = u64 (sc_expect_seq st + 1) /\
  get64 8 (img (phys_of j (sc_scan st))) = sc_expect_seq st.
Proof.
  unfold parse_step. destruct (valid_desc _ _) eqn:Hv; [|done].
  destruct (valid_commit _ _); [|done]. destruct (_ =? _)%Z; [|done].
  cbn [negb]. intros [= <-]. cbn [record_txn sc_expect_seq].
  unfold valid_desc in Hv. zify_bool. split; [congruence|done].
Qed.

(** The log blocks visited so far, each with the number it was found by. *)
Record visited (j : logfs_journal) (img : image) (e0 : Z) (vis : list Z) : Prop := {
  vis_nodup : NoDup vis;
  vis_spec : forall p, p ∈ vis -> in_log j p /\
    exists i, 0 <= i < Z.of_nat (length vis) /\ get64 8 (img p) = u64 (e0 + i);
}.

Lemma visited_bound j nb img e0 vis :
  wf_geometry j nb -> visited j img e0 vis -> Z.of_nat (length vis) <= j_maxlen j.
Proof.
  intros Hj [Hnd Hin]. destruct Hj.
  assert (Hsub : vis ⊆+ map (fun i => j_first j + Z.of_nat i) (seq 0 (Z.to_nat (j_maxlen j)))).
  { apply NoDup_submseteq; [done|]. intros p Hp. apply Hin in Hp as [Hp _]. unfold in_log in Hp.
    apply list_elem_of_fmap. exists (Z.to_nat (p - j_first j)). split; [lia|].
    apply elem_of_seq. lia. }
  apply submseteq_length in Hsub. rewrite length_map, length_seq in Hsub. lia.
Qed.

Lemma visited_cons j nb img e0 vis scan :
  wf_geometry j nb -> visited j img e0 vis ->
  get64 8 (img (phys_of j scan)) = u64 (e0 + Z.of_nat (length vis)) ->
  visited j img e0 (phys_of j scan :: vis).
Proof.
  intros Hj Hv Hp. pose proof (visited_bound _ _ _ _ _ Hj Hv) as Hb.
  destruct Hv as [Hnd Hin]. pose proof (geo_nblocks _ _ Hj). pose proof (geo_end _ _ Hj).
  pose proof (geo_first _ _ Hj). split.
  - apply NoDup_cons_2; [|done]. intros Hp'. apply Hin in Hp' as (_ & i & Hi & Heq).
    rewrite Heq in Hp. unfold u64 in Hp.
    assert (Hd : (Z.of_nat (length vis) - i) mod 2 ^ 64 = 0).
    { replace (Z.of_nat (length vis) - i) with (e0 + Z.of_nat (length vis) - (e0 + i)) by lia.
      by rewrite Zminus_mod, Hp, Z.sub_diag. }
    rewrite Z.mod_small in Hd; lia.
  - intros p [->|Hp']%elem_of_cons.
    + split; [by eapply phys_of_in_log|]. exists (Z.of_nat (length vis)).
      split; [simpl; lia|done].
    + apply Hin in Hp' as (? & i & ? & ?). split; [done|]. exists i. split; [simpl; lia|done].
Qed.

Lemma visited_nil j img e0 : visited j img e0 [].
Proof. split; [constructor|set_solver]. Qed.

Lemma parse_log_ends_from j nb img fuel st e0 vis :
  wf_geometry j nb -> visited j img e0 vis ->
  sc_expect_seq st = u64 (e0 + Z.of_nat (length vis)) ->
  j_maxlen j <= Z.of_nat (length vis + fuel) ->
  parse_step j img (parse_log fuel j img st) = None.
Proof.
  intros Hj. revert st vis. induction fuel as [|fuel IH]; intros st vis Hv Hs Hf;
    cbn [parse_log]; destruct (parse_step j img st) as [st'|] eqn:E; try done;
    apply parse_step_next in E as [Hs' Hp]; rewrite Hs in Hp.
  - apply (visited_cons _ _ _ _ _ _ Hj Hv), (visited_bound _ _ _ _ _ Hj) in Hp. simpl in Hp. lia.
  - eapply IH; [by eapply visited_cons| |simpl; lia].
    rewrite Hs', Hs. unfold u64. rewrite Zplus_mod_idemp_l. f_equal. simpl. lia.
Qed.

(** Enough fuel for every image: the scan has stopped by itself. *)
Lemma parse_log_ends j nb img fuel st :
  wf_geometry j nb -> 0 <= sc_expect_seq st < 2 ^ 64 -> j_maxlen j <= Z.of_nat fuel ->
  parse_step j img (parse_log fuel j img st) = None.
Proof.
  intros Hj Hs Hf.
  eapply (parse_log_ends_from _ _ _ _ _ (sc_expect_seq st) []); [done|apply visited_nil| |done].
  simpl. rewrite Z.add_0_r. symmetry. by apply u64_small.
Qed.

Lemma parse_log_add n m j img st :
  parse_step j img (parse_log n j img st) = None ->
  parse_log (n + m) j img st = parse_log n j img st.
Proof.
  revert st. induction n as [|n IH]; intros st H; cbn [Nat.add parse_log] in *.
  - by apply parse_log_stop.
  - destruct (parse_step j img st); [by apply IH|done].
Qed.

(** *** Programs that leave the device alone

    They may use up answers of the kernel; their errors are negative. *)

Definition quiet {A} (m : M bdev A) : Prop :=
  forall d, b_disk (m d).2 = b_disk d /\ sys (m d).2 `suffix_of` sys d /\
    match (m d).1 with Ok _ => True | Err rc => rc < 0 end.

Create HintDb quiet.

Lemma quiet_ret {A} (a : A) : quiet (mret a).
Proof. by intros d. Qed.

Lemma quiet_fail {A} rc : rc < 0 -> quiet (fail (A := A) rc).
Proof. by intros H d. Qed.

Lemma quiet_bind {A B} (m : M bdev A) (f : A -> M bdev B) :
  quiet m -> (forall a, quiet (f a)) -> quiet (m ≫= f).
Proof.
  intros Hm Hf d. unfold mbind, M_bind. specialize (Hm d).
  destruct (m d) as [[a|rc] d1]; [|done].
  destruct Hm as (H1 & H2 & _), (Hf a d1) as (H3 & H4 & H5).
  simpl in *. split_and!; [congruence|by etrans|done].
Qed.

Lemma quiet_attempt {A} (m : M bdev A) : quiet m -> quiet (attempt m).
Proof. intros Hm d. unfold attempt. specialize (Hm d). destruct (m d); naive_solver. Qed.

Lemma quiet_malloc : quiet malloc.
Proof. intros d. unfold malloc. by destruct (heap d). Qed.

Lemma full_pwrite_suffix answers buf file n0 rc file' n rest :
  full_pwrite answers buf file n0 = (rc, file', n, rest) -> rest `suffix_of` answers.
Proof.
  revert file n0. induction answers as [|a answers IH]; intros file n0; cbn [full_pwrite];
    (destruct (Nat.leb_spec block_len n0); [by intros [= _ _ _ <-]|]).
  { by intros [= _ _ _ <-]. }
  assert (Hsuf : answers `suffix_of` a :: answers) by by apply suffix_cons_r.
  destruct a as [[|k]|e|]; [by intros [= _ _ _ <-]| | |by intros [= _ _ _ <-]].
  - cbv zeta. intros Hk%IH. by etrans.
  - destruct (_ =? EINTR); [intros Hk%IH; by etrans|by intros [= _ _ _ <-]].
Qed.

Lemma full_pread_suffix answers buf file n0 rc buf' rest :
  full_pread answers buf file n0 = (rc, buf', rest) ->
  rest `suffix_of` answers /\ rc <= 0 /\
  ((n0 < block_len)%nat -> answers <> [] -> rc = 0 -> (length rest < length answers)%nat).
Proof.
  revert buf n0. induction answers as [|a answers IH]; intros buf n0; cbn [full_pread];
    (destruct (Nat.leb_spec block_len n0); [intros [= <- _ <-]; split_and!; [done|lia|lia]|]).
  { by intros [= <- _ <-]. }
  assert (Hsuf : answers `suffix_of` a :: answers) by by apply suffix_cons_r.
  assert (Hrec : forall buf n0, full_pread answers buf file n0 = (rc, buf', rest) ->
    rest `suffix_of` a :: answers /\ rc <= 0 /\ (length rest < length (a :: answers))%nat).
  { intros buf1 n1 (H1 & H2 & _)%IH. apply suffix_length in H1 as Hl.
    split_and!; [by etrans|done|simpl; lia]. }
  destruct a as [[|n]|e|]; cbv zeta.
  - intros [= <- _ <-]. split_and!; [done|lia|simpl; lia].
  - intros (? & ? & ?)%Hrec. by split_and!.
  - destruct (_ =? _); [intros (? & ? & ?)%Hrec; by split_and!|].
    intros [= <- _ <-]. split_and!; [done|lia|lia].
  - intros [= <- _ <-]. unfold EIO. split_and!; [done|lia|lia].
Qed.

Lemma quiet_read b : quiet (logfs_bdev_read b).
Proof.
  intros d. unfold logfs_bdev_read. destruct (_ <=? _); [by unfold EINVAL|].
  destruct (full_pread _ _ _ _) as [[rc buf] rest] eqn:E.
  apply full_pread_suffix in E as (Hs & Hrc & _). cbn [fst snd].
  split_and!; [done|done|]. destruct (Z.eqb_spec rc 0); [done|lia].
Qed.

Lemma quiet_enomem {A} : quiet (fail (A := A) (- ENOMEM)).
Proof. by apply quiet_fail. Qed.

#[export] Hint Resolve quiet_ret quiet_enomem quiet_bind quiet_attempt quiet_malloc quiet_read : quiet.

Ltac solve_quiet :=
  repeat first
    [ progress intros
    | solve [auto with quiet]
    | apply quiet_bind
    | match goal with
      | |- quiet (match ?x with _ => _ end) => destruct x
      | |- quiet (if ?b then _ else _) => destruct b
      | |- quiet (let '_ := _ in _) => cbv zeta
      end ].

Lemma quiet_read_data_blocks j cursor n : quiet (read_data_blocks j cursor n).
Proof. revert cursor. induction n; intros cursor; cbn [read_data_blocks]; unfold read_logical; solve_quiet. Qed.

Lemma quiet_grow_revokes seq blocks acc : quiet (grow_revokes seq blocks acc).
Proof. revert acc. induction blocks; intros acc; cbn [grow_revokes]; solve_quiet. Qed.

#[export] Hint Resolve quiet_read_data_blocks quiet_grow_revokes : quiet.

Lemma quiet_peek_revoke j off : quiet (peek_revoke j off).
Proof. unfold peek_revoke, read_logical. solve_quiet. Qed.

#[export] Hint Resolve quiet_peek_revoke : quiet.

Lemma quiet_scan_once j st : quiet (scan_once j st).
Proof. unfold scan_once, read_logical. solve_quiet. Qed.

#[export] Hint Resolve quiet_scan_once : quiet.

(** *** The scan stops under every kernel and allocator

    A turn that goes on has read a block that looks like the expected
    descriptor. *)

Lemma scan_once_next j st d st' d' :
  scan_once j st d = (Ok (Some st'), d') ->
  exists buf d1, read_logical j (sc_scan st) d = (Ok buf, d1) /\
    sys d' `suffix_of` sys d1 /\
    get64 8 buf = sc_expect_seq st /\ sc_expect_seq st' = u64 (sc_expect_seq st + 1).
Proof.
  unfold scan_once. intros (r & d1 & Hr & H)%bind_ok_inv.
  unfold attempt in Hr. destruct (read_logical j (sc_scan st) d) as [[buf|rc] d2]; simplify_eq.
  exists buf, d1. split; [done|]. cbv beta iota zeta in H.
  match type of H with ?m d1 = _ =>
    assert (Hq : quiet m) by (unfold read_logical; solve_quiet) end.
  specialize (Hq d1). rewrite H in Hq. split; [apply Hq|]. clear Hq.
  destruct (valid_desc (decode_desc buf) (sc_expect_seq st)) eqn:Hv; cbn [negb] in H; [|done].
  assert (Hs : get64 8 buf = sc_expect_seq st) by (unfold valid_desc in Hv; by zify_bool).
  split; [done|]. clear Hv.
  repeat match type of H with
  | (mret _) _ = _ => injection H as <- _
  | (fail _) _ = _ => done
  | (_ ≫= _) _ = _ => apply bind_ok_inv in H as (? & ? & _ & H)
  | (match ?x with _ => _ end) _ = _ => destruct x; try done
  end.
  all: cbn [record_txn sc_expect_seq decode_desc desc_sequence]; by rewrite Hs.
Qed.

(** What a read delivers once the kernel only succeeds. *)
Definition seen (k : disk) : image := fun b => splice zero_block 0 (content k b).

Lemma read_logical_ok j off d buf d1 :
  read_logical j off d = (Ok buf, d1) ->
  if decide (sys d = []) then buf = seen (b_disk d) (phys_of j off) /\ sys d1 = []
  else (length (sys d1) < length (sys d))%nat.
Proof.
  unfold read_logical, logfs_bdev_read, seen. destruct (_ <=? _); [done|].
  destruct (full_pread _ _ _ _) as [[rc b] rest] eqn:E. destruct (Z.eqb_spec rc 0); [|done].
  intros [= <- <-]. cbn [set_sys sys]. destruct (decide (sys d = [])) as [Hs|Hs].
  - rewrite Hs in E. cbn [full_pread] in E.
    rewrite (proj2 (Nat.leb_gt _ _)) in E by blia. rewrite drop_0 in E. by simplify_eq.
  - apply full_pread_suffix in E as (_ & _ & H). apply H; [blia|done|done].
Qed.

Lemma scan_loop_step fuel j st d rc d' :
  scan_loop (S fuel) j st d = (Err rc, d') ->
  rc < 0 \/ exists st1 d1, scan_once j st d = (Ok (Some st1), d1) /\
    scan_loop fuel j st1 d1 = (Err rc, d').
Proof.
  cbn [scan_loop]. unfold mbind, M_bind. pose proof (quiet_scan_once j st d) as (_ & _ & Hrc).
  destruct (scan_once j st d) as [[[st1|]|rc1] d1]; [|done|].
  - intros H. right. by exists st1, d1.
  - intros [= <- _]. by left.
Qed.

Lemma scan_loop_quiescent j nb fuel st d e0 vis rc d' :
  wf_geometry j nb -> sys d = [] -> visited j (seen (b_disk d)) e0 vis ->
  sc_expect_seq st = u64 (e0 + Z.of_nat (length vis)) ->
  j_maxlen j < Z.of_nat (length vis + fuel) ->
  scan_loop fuel j st d = (Err rc, d') -> rc < 0.
Proof.
  intros Hj. revert st d vis. induction fuel as [|fuel IH]; intros st d vis Hs Hv He Hf H.
  { apply (visited_bound _ _ _ _ _ Hj) in Hv. lia. }
  apply scan_loop_step in H as [?|(st1 & d1 & H1 & H)]; [done|].
  pose proof (quiet_scan_once j st d) as (Hk & Hsuf & _). rewrite H1 in Hk, Hsuf. cbn [snd] in *.
  rewrite Hs in Hsuf. apply suffix_nil_inv in Hsuf.
  apply scan_once_next in H1 as (buf & d2 & Hr & _ & Hb & He').
  apply read_logical_ok in Hr. rewrite decide_True in Hr by done. destruct Hr as [-> _].
  apply (IH st1 d1 (phys_of j (sc_scan st) :: vis)); [done| | | |done].
  - rewrite Hk. eapply visited_cons; [done|done|]. by rewrite <-He.
  - rewrite He', He. unfold u64. rewrite Zplus_mod_idemp_l. f_equal. simpl. lia.
  - simpl. lia.
Qed.

Lemma scan_loop_ends j nb fuel st d rc d' :
  wf_geometry j nb -> 0 <= sc_expect_seq st < 2 ^ 64 ->
  j_maxlen j + Z.of_nat (length (sys d)) < Z.of_nat fuel ->
  scan_loop fuel j st d = (Err rc, d') -> rc < 0.
Proof.
  intros Hj. revert st d. induction fuel as [|fuel IH]; intros st d Hs Hf H.
  { pose proof (geo_maxlen _ _ Hj). lia. }
  destruct (decide (sys d = [])) as [Hsys|Hsys].
  - eapply (scan_loop_quiescent j nb (S fuel) st d (sc_expect_seq st) []); try done.
    + apply visited_nil.
    + simpl. rewrite Z.add_0_r. symmetry. by apply u64_small.
    + rewrite Hsys in Hf. simpl in *. lia.
  - apply scan_loop_step in H as [?|(st1 & d1 & H1 & H)]; [done|].
    apply scan_once_next in H1 as (buf & d2 & Hr & Hsuf & _ & He').
    apply read_logical_ok in Hr. rewrite decide_False in Hr by done.
    apply suffix_length in Hsuf. apply (IH st1 d1); [|lia|done].
    rewrite He'. apply u64_range.
Qed.
