(* ===== verification/JournalReplay.v ===== *)
(** [logfs_journal_recover] as a whole: with the power on it performs the
    installs of the log it parses and then the write that empties the log;
    with a power failure, a prefix of that; and recovery after a crash inside
    recovery ends where the first one would have. *)

From S2P Require Import Prelude.
From S2P Require Import Bytes.
From S2P Require Import Crc32.
From S2P Require Import DiskFormat.
From S2P Require Import Blockdev.
From S2P Require Import DiskOps.
From S2P Require Import Journal.
From S2P Require Import JournalLog.
From S2P Require Import JournalCommit.
From S2P Require Import JournalInv.
From S2P Require Import JournalRecover.

(** [fs.c]'s callback, the one installer of the program. *)
Definition recover_install (target_block : Z) (data : block) : M bdev unit :=
  logfs_bdev_write target_block data.

(** ** Programs that act until the power goes

    Like [performs], for kernels that only ever fail by losing power, and
    with the converse: while the power is on, everything is done. *)

Definition still {S A} (dev : S -> bdev) (m : M S A) : Prop :=
  forall s, dead (dev s) ->
    b_disk (dev (m s).2) = b_disk (dev s) /\ sys (dev (m s).2) = sys (dev s) /\
    (heap (dev s) = [] -> heap (dev (m s).2) = []).

Definition acts {S A} (dev : S -> bdev) (m : M S A) (s : S) (ops : list dop)
    (Q : A -> S -> Prop) : Prop :=
  let '(r, s') := m s in
  live_io (dev s') /\ heap (dev s') = [] /\ (sys (dev s) = [] -> sys (dev s') = []) /\
  ((exists a, r = Ok a /\ Q a s' /\ b_disk (dev s') = run ops (b_disk (dev s))) \/
   (dead (dev s') /\ exists done, done `prefix_of` ops /\
      b_disk (dev s') = run done (b_disk (dev s)))).

Section acts.
Context {S : Type} (dev : S -> bdev).

Lemma acts_ret {A} (a : A) s (Q : A -> S -> Prop) :
  live_io (dev s) -> heap (dev s) = [] -> Q a s -> acts dev (mret a) s [] Q.
Proof. intros. split_and!; auto. left. by exists a. Qed.

Lemma acts_bind {A B} (m : M S A) (f : A -> M S B) s ops1 ops2 Q1 Q2 :
  acts dev m s ops1 Q1 ->
  (forall a s1, Q1 a s1 -> live_io (dev s1) -> heap (dev s1) = [] ->
     b_disk (dev s1) = run ops1 (b_disk (dev s)) -> acts dev (f a) s1 ops2 Q2) ->
  (forall a, still dev (f a)) ->
  acts dev (m ≫= f) s (ops1 ++ ops2) Q2.
Proof.
  unfold acts, mbind, M_bind. intros Hm Hf Hst. destruct (m s) as [[a|rc] s1].
  - destruct Hm as (Hl & Hh & Hs & [(a' & [= <-] & HQ & Hd)|(Hdead & l & Hl1 & Hd)]).
    + specialize (Hf a s1 HQ Hl Hh Hd). destruct (f a s1) as [r s2].
      destruct Hf as (? & ? & ? & Hc). split_and!; auto.
      destruct Hc as [(b & ? & ? & Hd2)|(? & l & Hl2 & Hd2)].
      * left. exists b. split_and!; auto. by rewrite run_app, Hd2, Hd.
      * right. split; [done|]. exists (ops1 ++ l). split; [by apply prefix_app|].
        by rewrite run_app, Hd2, Hd.
    + destruct (Hst a s1 Hdead) as (H1 & H2 & H3). destruct (f a s1) as [r s2]. simpl in *.
      unfold live_io, dead in *. rewrite H2. split_and!; auto. right. split; [done|].
      exists l. split; [by apply prefix_app_r|congruence].
  - destruct Hm as (? & ? & ? & [(a' & ? & _)|(? & l & ? & ?)]); [done|].
    split_and!; auto. right. split; [done|]. exists l. by split; [apply prefix_app_r|].
Qed.

Lemma acts_wand {A} (m : M S A) s ops (Q1 Q2 : A -> S -> Prop) :
  acts dev m s ops Q1 -> (forall a s', Q1 a s' -> Q2 a s') -> acts dev m s ops Q2.
Proof. unfold acts. intros H HQ. destruct (m s) as [r s1]. naive_solver. Qed.

(** A step that leaves the device alone, then the rest. *)
Lemma acts_skip {A B} (m : M S A) (f : A -> M S B) s a s1 ops Q :
  m s = (Ok a, s1) -> dev s1 = dev s ->
  acts dev (f a) s1 ops Q -> acts dev (m ≫= f) s ops Q.
Proof. unfold acts, mbind, M_bind. intros -> Hd. destruct (f a s1). by rewrite Hd. Qed.

Lemma still_bind {A B} (m : M S A) (f : A -> M S B) :
  still dev m -> (forall a, still dev (f a)) -> still dev (m ≫= f).
Proof.
  intros Hm Hf s Hs. unfold mbind, M_bind. specialize (Hm s Hs).
  destruct (m s) as [[a|rc] s1]; [|done]. destruct Hm as (H1 & H2 & H3). simpl in *.
  destruct (Hf a s1) as (H4 & H5 & H6); [unfold dead in *; by rewrite H2|].
  split_and!; [congruence|congruence|auto].
Qed.
End acts.

Lemma reads_acts {A} (m : M bdev A) d v :
  reads m d v -> acts (fun d => d) m d [] (fun a _ => a = v).
Proof.
  unfold reads, acts. destruct (m d) as [r d']. intros (? & ? & ? & ? & [?| ->]); split_and!; auto.
  - right. split; [done|]. exists []. by split; [apply prefix_nil|].
  - left. by exists v.
Qed.

(** Under such a kernel the two logics meet: an error is the loss of power. *)
Lemma performs_acts {S A} (dev : S -> bdev) (m : M S A) s ops Q :
  performs dev m s ops Q -> live_io (dev s) -> heap (dev s) = [] -> acts dev m s ops Q.
Proof.
  unfold performs, acts, live_io. destruct (m s) as [r s']. intros (_ & [Hs Hh] & Hr) Hl Hn.
  rewrite Hn in Hh. split_and!; [by eapply Forall_suffix|by apply suffix_nil_inv| |].
  - intros Hnil. rewrite Hnil in Hs. by apply suffix_nil_inv.
  - destruct r as [a|rc]; [left; exists a; naive_solver|right].
    destruct Hr as (_ & [[l Hd]|[e He]] & Hdone); [by split; [exists l|]|].
    rewrite Forall_forall in Hl. by apply Hl in He.
Qed.

Lemma acts_write b c d :
  b < nblocks (b_disk d) -> length c = block_len -> wf_disk (b_disk d) ->
  live_io d -> heap d = [] ->
  acts (fun d => d) (logfs_bdev_write b c) d [DWrite b c] (fun _ _ => True).
Proof.
  intros Hb Hc Hk Hl Hh. apply performs_acts; [|done..].
  eapply performs_wand; [apply performs_write; auto using live_whole|done].
Qed.

Lemma acts_flush d :
  live_io d -> heap d = [] -> acts (fun d => d) logfs_bdev_flush d [DFlush] (fun _ _ => True).
Proof.
  intros Hl Hh. apply performs_acts; [|done..].
  eapply performs_wand; [apply performs_flush; auto using live_whole|done].
Qed.

Lemma acts_write_fua b c d :
  b < nblocks (b_disk d) -> length c = block_len -> wf_disk (b_disk d) ->
  live_io d -> heap d = [] ->
  acts (fun d => d) (logfs_bdev_write_fua b c) d [DWrite b c; DFlush] (fun _ _ => True).
Proof.
  intros Hb Hc Hk Hl Hh. apply performs_acts; [|done..].
  eapply performs_wand; [apply performs_write_fua; auto using live_whole|done].
Qed.

(** ** The scan loop *)

Lemma inert_replay_blocks j revokes seq blocks :
  inert (replay_blocks recover_install j revokes seq blocks).
Proof.
  induction blocks as [|[target off] blocks IH]; cbn [replay_blocks]; unfold read_logical;
    solve_inert.
Qed.

Lemma inert_replay_txns j revokes txns : inert (replay_txns recover_install j revokes txns).
Proof.
  induction txns as [|t txns IH]; cbn [replay_txns]; [solve_inert|].
  apply inert_bind; [apply inert_replay_blocks|done].
Qed.


Section recovery.
Context (j : logfs_journal) (k : disk).
Hypothesis Hj : wf_geometry j (nblocks k).
Hypothesis Hk : wf_disk k.

Lemma reads_scan_loop fuel st d :
  scanning k d -> parse_step j (content k) (parse_log fuel j (content k) st) = None ->
  reads (scan_loop (S fuel) j st) d (parse_log fuel j (content k) st).
Proof.
  revert st d. induction fuel as [|fuel IH]; intros st d Hd Hend.
  - cbn [scan_loop parse_log] in *. eapply reads_step; [done|by apply reads_scan_once| |].
    + intros d1 Hd1. rewrite Hend. by apply (reads_done k).
    + intros [st1|]; [apply inert_fail|apply inert_ret].
  - cbn [parse_log] in *. change (scan_loop (S (S fuel)) j st) with
      (r ← scan_once j st; match r with None => mret st | Some st' => scan_loop (S fuel) j st' end).
    eapply reads_step; [done|by apply reads_scan_once| |].
    + intros d1 Hd1. destruct (parse_step j (content k) st) as [st1|]; [by apply IH|].
      by apply (reads_done k).
    + intros [st1|]; [apply inert_scan_loop|apply inert_ret].
Qed.

Lemma reads_scan st d :
  scanning k d -> 0 <= sc_expect_seq st < 2 ^ 64 ->
  reads (scan_loop (scan_fuel j d) j st) d (parse_log (parse_fuel j) j (content k) st).
Proof.
  intros Hd Hs. unfold scan_fuel.
  assert (Hend : forall n, (Z.to_nat (j_maxlen j) <= n)%nat ->
    parse_log n j (content k) st = parse_log (Z.to_nat (j_maxlen j)) j (content k) st).
  { intros n Hn. replace n with (Z.to_nat (j_maxlen j) + (n - Z.to_nat (j_maxlen j)))%nat by lia.
    apply parse_log_add. eapply parse_log_ends; [done|done|]. destruct Hj. lia. }
  rewrite (Hend (parse_fuel j)), <-(Hend (Z.to_nat (j_maxlen j) + length (sys d))%nat)
    by (unfold parse_fuel; lia).
  apply reads_scan_loop; [done|]. eapply parse_log_ends; [done|done|]. lia.
Qed.
(** A transaction's target that the replay may write. *)
Definition home (w : Z * block) : Prop := w.1 < nblocks k /\ ~ journal_block j w.1.

(** The device during the replay: the log is still what was parsed. *)
Record replaying (d : bdev) : Prop := {
  rp_live : live_io d;
  rp_heap : heap d = [];
  rp_nblocks : nblocks (b_disk d) = nblocks k;
  rp_disk : wf_disk (b_disk d);
  rp_log : forall b, in_log j b -> content (b_disk d) b = content k b;
}.

Lemma replaying_dwrites d d' ws :
  replaying d -> Forall home ws -> Forall (fun w => length w.2 = block_len) ws ->
  live_io d' -> heap d' = [] -> b_disk d' = run (dwrites ws) (b_disk d) -> replaying d'.
Proof.
  intros [_ _ Hn Hd Hlog] Hws Hlen Hl Hh Hrun. split; try done.
  - by rewrite Hrun, nblocks_run.
  - rewrite Hrun. apply wf_run; [done|]. unfold dwrites. apply Forall_map.
    eapply Forall_impl; [exact Hlen|]. done.
  - intros b Hb. rewrite Hrun, content_dwrites.
    destruct (latest ws b) as [c|] eqn:E; [|by apply Hlog]. exfalso.
    apply latest_in in E. rewrite Forall_forall in Hws. apply Hws in E as [_ E].
    apply E. by right.
Qed.

Lemma installs_whole revokes t :
  Forall (fun w => length w.2 = block_len) (txn_installs j (content k) revokes t).
Proof. unfold txn_installs. apply Forall_map, Forall_true. intros p. by apply wf_content. Qed.

Lemma acts_replay_blocks revokes seq blocks d :
  replaying d ->
  let ws := map (fun p => (p.1, content k (phys_of j p.2)))
              (base.filter (fun p => is_revoked revokes p.1 seq = false) blocks) in
  Forall home ws ->
  acts (fun d => d) (replay_blocks recover_install j revokes seq blocks) d (dwrites ws)
    (fun _ _ => True).
Proof.
  revert d. induction blocks as [|[target off] blocks IH]; intros d Hd; cbn [replay_blocks].
  { intros _. apply acts_ret; [apply Hd|apply Hd|done]. }
  destruct (is_revoked revokes target seq) eqn:Hr.
  { rewrite filter_cons_False by (simpl; by rewrite Hr). by apply IH. }
  rewrite filter_cons_True by done. cbn [map fst snd]. intros [Hw Hws]%Forall_cons.
  set (ws := map _ _) in *. set (c := content k (phys_of j off)) in *.
  change (dwrites ((target, c) :: ws)) with ([] ++ ([DWrite target c] ++ dwrites ws)).
  pose proof Hd as [Hl Hh Hn Hdk Hlog]. pose proof (phys_of_lt Hj off) as Hp.
  eapply acts_bind; [apply reads_acts, reads_attempt, reads_read; [lia|done|done|done]| |].
  - intros r d1 -> Hl1 Hh1 Hd1. cbv beta iota. rewrite Hlog by by eapply phys_of_in_log.
    fold c. change (b_disk d1 = b_disk d) in Hd1.
    eapply acts_bind; [apply acts_write; try done| |].
    + rewrite Hd1, Hn. apply Hw.
    + by apply wf_content.
    + by rewrite Hd1.
    + intros _ d2 _ Hl2 Hh2 Hd2. apply IH; [|done].
      eapply (replaying_dwrites d d2 [(target, c)]); try done.
      * by constructor.
      * constructor; [by apply wf_content|done].
      * rewrite Hd2, Hd1. done.
    + intros _. apply inert_replay_blocks.
  - intros [data|rc]; [|apply inert_fail]. apply inert_bind; [apply inert_write|].
    intros. apply inert_replay_blocks.
Qed.

Lemma acts_replay_txns revokes txns d :
  replaying d ->
  let ws := concat (map (txn_installs j (content k) revokes) txns) in
  Forall home ws ->
  acts (fun d => d) (replay_txns recover_install j revokes txns) d (dwrites ws)
    (fun _ d' => replaying d').
Proof.
  revert d. induction txns as [|t txns IH]; intros d Hd; cbn [replay_txns map concat].
  { intros _. apply acts_ret; [apply Hd|apply Hd|done]. }
  intros [Hw Hws]%Forall_app. unfold dwrites. rewrite map_app. eapply acts_bind.
  - by apply acts_replay_blocks.
  - intros _ d1 _ Hl1 Hh1 Hd1. apply IH; [|done].
    eapply replaying_dwrites; [exact Hd|exact Hw|apply installs_whole|done..].
  - intros _. apply inert_replay_txns.
Qed.
End recovery.

(** ** The whole routine *)

Definition recover_ops (j : logfs_journal) (img : image) : list dop :=
  dwrites (installs j img (parse_image j img))
  ++ [DWrite LOGFS_JSUPER_BLOCKNO (jsuper_encode j LOGFS_JOURNAL_EMPTY 0); DFlush].

Definition after_recover (j : logfs_journal) (img : image) : logfs_journal :=
  let st := parse_image j img in
  mkJournal (j_first j) (j_maxlen j) (sc_scan st) (sc_scan st) (u64 (sc_last_valid_seq st + 1)).

(** What recovery needs of an image: the journal superblock is one, it does
    not say "empty", and no transaction of the log targets the log. *)
Record recoverable (j : logfs_journal) (k : disk) : Prop := {
  rc_geo : wf_geometry j (nblocks k);
  rc_disk : wf_disk k;
  rc_magic : js_magic (decode_jsuper (content k LOGFS_JSUPER_BLOCKNO)) = LOGFS_JOURNAL_MAGIC;
  rc_start : js_start (decode_jsuper (content k LOGFS_JSUPER_BLOCKNO)) <> LOGFS_JOURNAL_EMPTY;
  rc_home : Forall (home j k) (installs j (content k) (parse_image j (content k)));
}.

Lemma acts_on_dev {A} (m : M bdev A) s ops (Q : A -> bdev -> Prop) :
  acts (fun d => d) m (jd s) ops Q ->
  acts jd (on_dev m) s ops (fun a s' => jr s' = jr s /\ Q a (jd s')).
Proof. unfold acts, on_dev, zoom. destruct (m (jd s)) as [r d]. simpl. naive_solver. Qed.

Lemma still_on_dev {A} (m : M bdev A) : inert m -> still jd (on_dev m).
Proof. intros Hm s Hs. unfold on_dev, zoom. specialize (Hm (jd s) Hs). by destruct (m (jd s)). Qed.

Lemma still_nodev {A} (m : M jst A) : (forall s, jd (m s).2 = jd s) -> still jd m.
Proof. intros H s Hs. by rewrite H. Qed.

Ltac solve_still :=
  repeat first
    [ progress intros
    | apply still_on_dev; solve
        [auto using inert_replay_txns, inert_write, inert_flush, inert_scan_loop
        |apply inert_bind; intros; auto using inert_write, inert_flush]
    | apply still_bind
    | case_match
    | apply still_nodev; reflexivity ].

Lemma acts_recover j d :
  recoverable j (b_disk d) -> live_io d -> heap d = [] ->
  acts jd (logfs_journal_recover recover_install) (mkJst j d) (recover_ops j (content (b_disk d)))
    (fun _ s' => jr s' = after_recover j (content (b_disk d))).
Proof.
  intros [Hj Hk Hm Hst Hhome] Hl Hh. set (k := b_disk d) in *. unfold logfs_journal_recover, recover_ops.
  eapply acts_skip; [done|done|]. cbn [jr].
  pose proof (geo_nblocks _ _ Hj). pose proof (geo_first _ _ Hj). pose proof (geo_end _ _ Hj).
  pose proof (geo_maxlen _ _ Hj).
  assert (Hb : LOGFS_JSUPER_BLOCKNO < nblocks k) by (unfold LOGFS_JSUPER_BLOCKNO; lia).
  set (js := decode_jsuper (content k LOGFS_JSUPER_BLOCKNO)) in *.
  unfold after_recover, parse_image in *. fold js in Hhome |- *.
  rewrite (proj2 (Z.eqb_neq _ _) Hst) in Hhome |- *.
  set (st := parse_log (parse_fuel j) j (content k) (scan_start js)) in *.
  change (dwrites (installs j (content k) st)) with ([] ++ dwrites (installs j (content k) st)).
  rewrite <-app_assoc. eapply acts_bind; [apply acts_on_dev, reads_acts, reads_read; done| |].
  2: solve_still.
  intros b s1 (Hjr1 & ->) Hl1 Hh1 Hd1. cbn [jr jd] in Hjr1, Hd1 |- *. fold k. fold js.
  rewrite Hm, Z.eqb_refl. cbn [negb]. rewrite (proj2 (Z.eqb_neq _ _) Hst).
  change (mkScan (js_start js) _ _ [] []) with (scan_start js).
  eapply acts_skip; [done|done|].
  rewrite <-(app_nil_l (dwrites _ ++ _)). eapply acts_bind.
  { apply acts_on_dev, reads_acts, (reads_scan j k Hj Hk); [by split_and!|].
    unfold scan_start. cbn [sc_expect_seq]. apply (get_range 8). }
  2: solve_still.
  intros st' s2 (Hjr2 & ->) Hl2 Hh2 Hd2. fold st. cbn [jr jd].
  eapply acts_bind.
  { apply acts_on_dev, (acts_replay_txns j k Hj Hk); [|exact Hhome]. split; try done.
    - by rewrite Hd2, Hd1.
    - by rewrite Hd2, Hd1.
    - intros b Hin. by rewrite Hd2, Hd1. }
  2: solve_still.
  intros _ s3 (Hjr3 & Hrp) Hl3 Hh3 Hd3. eapply acts_skip; [done|done|].
  eapply acts_wand; [apply acts_on_dev, acts_write_fua|]; try apply Hrp.
  - cbn [jd set_jr]. by rewrite (rp_nblocks _ _ _ Hrp).
  - apply length_encode_jsuper.
  - intros _ s' [Hjr _]. rewrite Hjr. cbn [jr set_jr]. by rewrite Hjr3, Hjr2, Hjr1.
Qed.
