(* ===== verification/JournalSafety.v ===== *)
(** The promises of the journal to its user, [txn.c] and [fs.c]: commits are
    atomic and durable, failed calls change nothing, truncation loses
    nothing, recovery can itself be interrupted, and the invariant of the log
    is re-established by every operation. *)

From S2P Require Import Prelude.
From S2P Require Import Bytes.
From S2P Require Import Crc32.
From S2P Require Import DiskFormat.
From S2P Require Import Blockdev.
From S2P Require Import DiskOps.
From S2P Require Import Journal.
From S2P Require Import JournalLog.
From S2P Require Import JournalCommit.
From S2P Require Import JournalInv.
From S2P Require Import JournalRecover.
From S2P Require Import JournalReplay.

(** ** Images that agree on what the journal owns

    Only the region matters of the in-memory journal, only the region and its
    superblock of the image. *)

Record same_region (j1 j2 : logfs_journal) : Prop := {
  sr_first : j_first j1 = j_first j2;
  sr_maxlen : j_maxlen j1 = j_maxlen j2;
}.

#[global] Instance same_region_refl : Reflexive same_region.
Proof. by split. Qed.

Section ext.
Context (j1 j2 : logfs_journal) (nb : Z) (img1 img2 : image).
Hypothesis Hreg : same_region j1 j2.
Hypothesis Hj : wf_geometry j1 nb.
Hypothesis Hext : forall b, journal_block j1 b -> img1 b = img2 b.

Lemma img_phys off : img1 (phys_of j1 off) = img2 (phys_of j2 off).
Proof.
  replace (phys_of j2 off) with (phys_of j1 off)
    by (unfold phys_of; by rewrite (sr_first _ _ Hreg), (sr_maxlen _ _ Hreg)).
  apply Hext. right. by eapply phys_of_in_log.
Qed.

Lemma parse_step_ext st : parse_step j1 img1 st = parse_step j2 img2 st.
Proof.
  unfold parse_step, peek_image. rewrite !img_phys.
  assert (Hm : forall l, map (fun o => img1 (phys_of j1 o)) l = map (fun o => img2 (phys_of j2 o)) l).
  { intros l. apply map_ext. intros o. apply img_phys. }
  by rewrite Hm.
Qed.

Lemma parse_log_ext fuel st : parse_log fuel j1 img1 st = parse_log fuel j2 img2 st.
Proof.
  revert st. induction fuel as [|fuel IH]; intros st; [done|]. cbn [parse_log].
  rewrite parse_step_ext. destruct (parse_step j2 img2 st); [apply IH|done].
Qed.

Lemma parse_image_ext : parse_image j1 img1 = parse_image j2 img2.
Proof.
  unfold parse_image, parse_fuel.
  by rewrite (Hext LOGFS_JSUPER_BLOCKNO), parse_log_ext, (sr_maxlen _ _ Hreg) by by left.
Qed.

Lemma installs_ext st : installs j1 img1 st = installs j2 img2 st.
Proof.
  unfold installs, txn_installs. f_equal. apply map_ext. intros t. apply map_ext.
  intros p. by rewrite img_phys.
Qed.

Lemma log_installs_ext :
  installs j1 img1 (parse_image j1 img1) = installs j2 img2 (parse_image j2 img2).
Proof. by rewrite installs_ext, parse_image_ext. Qed.

Lemma recover_ops_ext : recover_ops j1 img1 = recover_ops j2 img2.
Proof.
  unfold recover_ops, jsuper_encode.
  by rewrite log_installs_ext, (sr_first _ _ Hreg), (sr_maxlen _ _ Hreg).
Qed.

Lemma after_recover_ext : after_recover j1 img1 = after_recover j2 img2.
Proof.
  unfold after_recover. by rewrite parse_image_ext, (sr_first _ _ Hreg), (sr_maxlen _ _ Hreg).
Qed.

Lemma recovered_ext b : img1 b = img2 b -> recovered j1 img1 b = recovered j2 img2 b.
Proof. intros Hb. unfold recovered, overlay. by rewrite log_installs_ext, Hb. Qed.
End ext.

Lemma recovers_to_ext j1 j2 nb img ts :
  same_region j1 j2 -> wf_geometry j1 nb -> recovers_to j1 img ts -> recovers_to j2 img ts.
Proof.
  unfold recovers_to. intros Hreg Hj <-. symmetry.
  by apply (log_installs_ext _ _ _ _ _ Hreg Hj (fun b _ => eq_refl (img b))).
Qed.

(** ** Recovery interrupted by a crash *)

Section recovery_crash.
Context (j : logfs_journal) (k : disk).
Hypothesis Hrec : recoverable j k.
Hypothesis Hclean : pending k = [].

Let img := content k.
Let ws := installs j img (parse_image j img).

Lemma recover_ops_writes :
  op_writes (recover_ops j img)
  = ws ++ [(LOGFS_JSUPER_BLOCKNO, jsuper_encode j LOGFS_JOURNAL_EMPTY 0)].
Proof. unfold recover_ops. by rewrite op_writes_app, op_writes_dwrites. Qed.

Lemma installs_home b c : (b, c) ∈ ws -> ~ journal_block j b.
Proof.
  intros H. pose proof (rc_home _ _ Hrec) as Hh. rewrite Forall_forall in Hh.
  by apply Hh in H as [_ H].
Qed.

(** A block during recovery: as before, as installed, or the superblock. *)
Lemma recover_crash_block done img' b :
  done `prefix_of` recover_ops j img -> crash_image (run done k) img' ->
  img' b = img b \/ (b, img' b) ∈ ws \/
  (b = LOGFS_JSUPER_BLOCKNO /\ img' b = jsuper_encode j LOGFS_JOURNAL_EMPTY 0).
Proof.
  intros Hp Hc.
  destruct (crash_image_run_quiet _ _ _ b Hc) as [?|Hin]; [rewrite Hclean; set_solver|auto|].
  apply (op_writes_prefix _ _ _ Hp) in Hin. rewrite recover_ops_writes in Hin.
  apply elem_of_app in Hin as [?|Hin]; [auto|].
  apply list_elem_of_singleton in Hin. right; right. by injection Hin as -> ->.
Qed.

Lemma recover_crash_log done img' b :
  done `prefix_of` recover_ops j img -> crash_image (run done k) img' ->
  img' LOGFS_JSUPER_BLOCKNO = img LOGFS_JSUPER_BLOCKNO ->
  journal_block j b -> img' b = img b.
Proof.
  intros Hp Hc Hs Hb. destruct (recover_crash_block _ _ b Hp Hc) as [?|[Hin|[-> _]]]; [done| |done].
  by apply installs_home in Hin.
Qed.

(** As long as the superblock has not reached the disk, a second recovery
    ends where the first one would have, whatever else did. *)
Lemma recover_again done img' b :
  done `prefix_of` recover_ops j img -> crash_image (run done k) img' ->
  img' LOGFS_JSUPER_BLOCKNO = img LOGFS_JSUPER_BLOCKNO ->
  recovered j img' b = recovered j img b.
Proof.
  intros Hp Hc Hs. unfold recovered.
  pose proof (fun b => recover_crash_log _ _ b Hp Hc Hs) as Hlog.
  rewrite (log_installs_ext _ _ _ _ _ (same_region_refl j) (rc_geo _ _ Hrec) Hlog).
  fold ws. unfold overlay.
  destruct (latest ws b) as [c|] eqn:E; [done|]. cbn [default from_option].
  destruct (recover_crash_block _ _ b Hp Hc) as [?|[Hin|[-> _]]]; [done| |done].
  rewrite latest_none in E. by apply E in Hin.
Qed.

(** When the superblock says "empty", what is on disk is what will be used:
    recovery then installs nothing. *)
Lemma recover_emptied img' b :
  img' LOGFS_JSUPER_BLOCKNO = jsuper_encode j LOGFS_JOURNAL_EMPTY 0 -> recovered j img' b = img' b.
Proof.
  intros Hs. unfold recovered, parse_image. rewrite Hs.
  destruct (decode_jsuper_encode j LOGFS_JOURNAL_EMPTY 0) as (_ & -> & _); [done..|]. done.
Qed.

Lemma content_recovered b :
  b <> LOGFS_JSUPER_BLOCKNO -> content (run (recover_ops j img) k) b = recovered j img b.
Proof.
  intros Hb. rewrite content_run, recover_ops_writes, latest_app. cbn [latest].
  rewrite (proj2 (Z.eqb_neq _ _)) by done. done.
Qed.
End recovery_crash.

Lemma recover_ops_clean j img k : pending (run (recover_ops j img) k) = [].
Proof.
  unfold recover_ops. change [DWrite ?b ?c; DFlush] with ([DWrite b c] ++ [DFlush]).
  by rewrite app_assoc, pending_flush_run.
Qed.

Lemma recover_prefix_cases j img done :
  done `prefix_of` recover_ops j img ->
  let ws := installs j img (parse_image j img) in
  (exists ws', done = dwrites ws' /\ ws' `prefix_of` ws) \/
  op_writes done = op_writes (recover_ops j img).
Proof.
  unfold recover_ops. intros [Hp|(l & -> & Hp)]%prefix_app_inv.
  - left. by apply prefix_dwrites.
  - destruct l as [|o l]; [left|right].
    + exists (installs j img (parse_image j img)). by rewrite app_nil_r.
    + destruct Hp as [l' Hp]. injection Hp as <- Hp. rewrite !op_writes_app. f_equal.
      destruct l as [|o l]; [done|]. injection Hp as <- Hp.
      by apply eq_sym, app_nil in Hp as [-> _].
Qed.

(** A process killed during recovery leaves the page cache: the next recovery
    starts from the contents, and finishes the job. *)
Lemma recover_killed_again j k done b :
  recoverable j k -> done `prefix_of` recover_ops j (content k) -> b <> LOGFS_JSUPER_BLOCKNO ->
  recovered j (content (run done k)) b = recovered j (content k) b.
Proof.
  intros Hrec Hp Hb. pose proof (fun b c => installs_home j k Hrec b c) as Hhome.
  apply recover_prefix_cases in Hp as [(ws' & -> & [rest Hws])|Hall].
  - assert (Hlog : forall b, journal_block j b -> content (run (dwrites ws') k) b = content k b).
    { intros b' Hb'. rewrite content_dwrites. destruct (latest ws' b') as [c|] eqn:E; [|done].
      apply latest_in in E. exfalso. apply (Hhome b' c); [rewrite Hws; set_solver|done]. }
    unfold recovered. rewrite (log_installs_ext _ _ _ _ _ (same_region_refl j) (rc_geo _ _ Hrec) Hlog).
    unfold overlay. rewrite content_dwrites, Hws, latest_app.
    by destruct (latest rest b), (latest ws' b).
  - rewrite recover_emptied, <-(content_recovered j k) by
      (try done; by rewrite content_run, Hall, recover_ops_writes, latest_app).
    by rewrite !content_run, Hall.
Qed.

(** ** Coming back after power has returned *)

(** The journal part of [logfs_fs_mount]: open, then recover. *)
Definition recover_journal (j : logfs_journal) : M bdev logfs_journal := fun d =>
  match logfs_journal_recover recover_install (mkJst j d) with
  | (Ok _, s) => (Ok (jr s), jd s)
  | (Err rc, s) => (Err rc, jd s)
  end.

Definition mount_journal (first maxlen : Z) : M bdev logfs_journal :=
  logfs_journal_open first maxlen ≫= recover_journal.

(** A machine started on [img]: nothing cached, nothing fails. *)
Record powered (img : image) (d : bdev) : Prop := {
  pw_sys : sys d = [];
  pw_heap : heap d = [];
  pw_pending : pending (b_disk d) = [];
  pw_disk : wf_disk (b_disk d);
  pw_content : forall b, content (b_disk d) b = img b;
}.

Lemma powered_live img d : powered img d -> live_io d.
Proof. intros H. unfold live_io. by rewrite (pw_sys _ _ H). Qed.

(** An image the journal of [j] can be mounted from. *)
Record mountable (j : logfs_journal) (nb : Z) (img : image) : Prop := {
  mt_geo : wf_geometry j nb;
  mt_magic : js_magic (decode_jsuper (img LOGFS_JSUPER_BLOCKNO)) = LOGFS_JOURNAL_MAGIC;
  mt_home : Forall (fun w => w.1 < nb /\ ~ journal_block j w.1)
              (installs j img (parse_image j img));
}.

Definition log_empty (img : image) : Prop :=
  js_start (decode_jsuper (img LOGFS_JSUPER_BLOCKNO)) = LOGFS_JOURNAL_EMPTY.

#[global] Instance log_empty_dec img : Decision (log_empty img).
Proof. unfold log_empty. apply _. Defined.

Lemma powered_read img d b :
  powered img d -> b < nblocks (b_disk d) -> logfs_bdev_read b d = (Ok (img b), d).
Proof.
  intros [Hs Hh _ Hd Hc] Hb. unfold logfs_bdev_read. rewrite (proj2 (Z.leb_gt _ _)) by lia.
  rewrite Hs. cbn [full_pread]. rewrite (proj2 (Nat.leb_gt _ _)) by blia.
  cbn [Z.eqb]. rewrite drop_0, whole_splice by (apply length_zero_block || by apply wf_content).
  rewrite Hc. destruct d; simpl in *. by subst.
Qed.

Lemma mount_journal_ok j img d :
  powered img d -> mountable j (nblocks (b_disk d)) img ->
  exists j' d', mount_journal (j_first j) (j_maxlen j) d = (Ok j', d') /\
    j' = (if decide (log_empty img) then mkJournal (j_first j) (j_maxlen j) 0 0 1
          else after_recover j img) /\
    b_disk d' = (if decide (log_empty img) then b_disk d
                 else run (recover_ops j img) (b_disk d)) /\
    sys d' = [] /\ heap d' = [] /\
    (forall b, b <> LOGFS_JSUPER_BLOCKNO -> content (b_disk d') b = recovered j img b).
Proof.
  intros Hp [Hj Hm Hh]. pose proof (powered_live _ _ Hp) as Hl.
  pose proof (geo_nblocks _ _ Hj). pose proof (geo_first _ _ Hj). pose proof (geo_end _ _ Hj).
  pose proof (geo_maxlen _ _ Hj).
  pose proof (powered_read img d LOGFS_JSUPER_BLOCKNO Hp) as Hread.
  specialize (Hread ltac:(unfold LOGFS_JSUPER_BLOCKNO; lia)).
  unfold mount_journal, logfs_journal_open, recover_journal. unfold mbind at 1 2, M_bind at 1 2.
  rewrite Hread, Hm, Z.eqb_refl. cbn [negb].
  destruct (decide (log_empty img)) as [He|He].
  - rewrite He, Z.eqb_refl. unfold mret, M_ret.
    unfold logfs_journal_recover, mbind, M_bind, gets, on_dev, zoom. cbn [jr jd].
    rewrite Hread, Hm, Z.eqb_refl, He, Z.eqb_refl. cbn [negb modify set_jr jr jd j_first j_maxlen].
    eexists _, _. split_and!; try done; try apply Hp.
    intros b Hb. rewrite (pw_content _ _ Hp). unfold recovered, parse_image. by rewrite He.
  - rewrite (proj2 (Z.eqb_neq _ _) He). unfold mret, M_ret.
    set (j1 := mkJournal _ _ _ _ _).
    assert (Hreg : same_region j1 j) by done.
    assert (Hj1 : wf_geometry j1 (nblocks (b_disk d))) by (by destruct Hj).
    assert (Hrec : recoverable j1 (b_disk d)).
    { split; [done|apply Hp| | |]; rewrite ?(pw_content _ _ Hp); try done.
      rewrite (log_installs_ext j1 j _ _ _ Hreg Hj1 (fun b _ => pw_content _ _ Hp b)). done. }
    pose proof (acts_recover j1 d Hrec Hl (pw_heap _ _ Hp)) as Hact. unfold acts in Hact.
    destruct (logfs_journal_recover _ _) as [r s]. cbn [jd] in Hact.
    destruct Hact as (_ & Hhp & Hsys & Hcase). specialize (Hsys (pw_sys _ _ Hp)).
    destruct Hcase as [([] & -> & Hjr & Hd)|([rest Hdead] & _)]; [|congruence].
    assert (Hpw : forall b, journal_block j1 b -> content (b_disk d) b = img b)
      by (intros b _; apply Hp).
    eexists _, _. split_and!; [done| | |done|done|].
    + rewrite Hjr. by eapply after_recover_ext.
    + rewrite Hd. f_equal. by eapply recover_ops_ext.
    + intros b Hb. rewrite Hd, content_recovered by done. eapply recovered_ext; try done. apply Hp.
Qed.

(** ** Commit *)

Definition new_txn (j : logfs_journal) (data : list pending_block) : ltxn :=
  mkLtxn (j_next_sequence j) data.

(** The home blocks of a list of writes: on the device, not the journal's. *)
Definition home_writes (j : logfs_journal) (nb : Z) (ws : list (Z * block)) : Prop :=
  Forall (fun w => w.1 < nb /\ ~ journal_block j w.1) ws.

Section commit_safety.
Context (j : logfs_journal) (d : bdev) (ts : list ltxn) (data : list pending_block).
Hypothesis Hinv : log_inv j (b_disk d) ts.
Hypothesis Hlog : loggable j data.
Hypothesis Hroom : log_room j ts data.
Hypothesis Hio : whole_io d.

Lemma commit_is_ready : commit_ready (mkJst j d) data [].
Proof.
  pose proof (li_head _ _ _ Hinv). pose proof (li_tail _ _ _ Hinv).
  pose proof (li_fits _ _ _ Hinv). pose proof (li_seq_range _ _ _ Hinv) as [? ?].
  destruct Hlog as [Hn Hd _], Hroom as [Hs Hw Hq]. unfold first_seq in *.
  assert (Hneed : logfs_journal_space_needed (Z.of_nat (length data)) (Z.of_nat (length (@nil Z)))
    = Z.of_nat (length data) + 2).
  { unfold logfs_journal_space_needed. rewrite (proj2 (Z.ltb_ge _ _) Hn). simpl. lia. }
  split; cbn [jr jd]; rewrite ?Hneed; try lia; try apply Hinv; [done|].
  eapply Forall_impl; [exact Hd|]. simpl. tauto.
Qed.

(** Every outcome of a commit, by the device operations it performed. *)
Lemma commit_outcomes r s' :
  logfs_journal_commit data [] (mkJst j d) = (r, s') ->
  whole_io (jd s') /\ (sys d = [] -> is_ok r = true /\ sys (jd s') = []) /\
  match r with
  | Ok out => out = (j_next_sequence j, j_head j) /\ jr s' = after_commit j data [] /\
      b_disk (jd s') = run (commit_ops j data []) (b_disk d)
  | Err rc => rc < 0 /\ exists done, done `prefix_of` commit_ops j data [] /\
      b_disk (jd s') = run done (b_disk d)
  end.
Proof.
  intros H. pose proof (performs_commit _ _ _ commit_is_ready) as Hp. unfold performs in Hp.
  rewrite H in Hp. cbn [jr jd] in Hp. destruct Hp as (Hw & Hs & Hc). split; [done|].
  destruct r as [out|rc].
  - destruct Hc as (Hd & -> & Hj). split_and!; auto. intros Hnil. split; [done|]. by eapply later_nil.
  - destruct Hc as (Hrc & Hne & Hc). split_and!; try done. intros Hnil.
    by apply (io_failure_nonempty _ _ (later_sys _ _ Hs)) in Hne.
Qed.

Lemma commit_crash r s' img :
  logfs_journal_commit data [] (mkJst j d) = (r, s') -> crash_image (b_disk (jd s')) img ->
  (recovers_to j img ts /\ is_ok r = false) \/
  (recovers_to j img (ts ++ [new_txn j data]) /\
   forall b, ~ journal_block j b -> img b = content (b_disk d) b).
Proof.
  intros H Hc. apply commit_outcomes in H as (_ & _ & H). destruct r as [out|rc].
  - right. destruct H as (_ & _ & Hd). rewrite Hd in Hc. split.
    + pose proof (log_inv_after_commit j (b_disk d) ts data Hinv Hlog Hroom) as Hafter.
      apply (recovers_to_ext (after_commit j data []) j (nblocks (b_disk d))); [done| |].
      * destruct (li_geo _ _ _ Hinv). by split.
      * by eapply log_inv_recovers.
    + intros b Hb. rewrite (crash_image_clean _ _ (commit_ops_clean j (b_disk d) data) Hc).
      rewrite <-(content_clean _ _ (commit_ops_clean j (b_disk d) data)).
      by eapply commit_keeps_home.
  - destruct H as (_ & done & Hp & Hd). rewrite Hd in Hc.
    destruct (commit_crash_cases j (b_disk d) ts data Hinv Hlog Hroom done img Hp Hc)
      as [?|?]; auto.
Qed.
End commit_safety.

(** ** Truncation *)

Definition advance_tail_to (j : logfs_journal) (off : Z) : logfs_journal :=
  mkJournal (j_first j) (j_maxlen j) (j_head j) off (j_next_sequence j).

Definition advance_ops (j : logfs_journal) (off seq : Z) : list dop :=
  [DWrite LOGFS_JSUPER_BLOCKNO
     (jsuper_encode j (if off =? j_head j then LOGFS_JOURNAL_EMPTY else off) seq); DFlush].

(** The final contents of [ts1], where [ts2] does not supersede them, are
    durably at home. *)
Definition checkpointed (k : disk) (ts1 ts2 : list ltxn) : Prop :=
  forall b c, latest (all_writes ts1) b = Some c -> latest (all_writes ts2) b = None ->
    content k b = c /\ forall c', (b, c') ∉ pending k.

Section truncate.
Context (j : logfs_journal) (k : disk) (ts1 ts2 : list ltxn).
Hypothesis Hinv : log_inv j k (ts1 ++ ts2).

Let off := j_tail j + Z.of_nat (length (log_blocks ts1)).
Let seq := first_seq j ts2.

Lemma truncate_bounds :
  0 <= off <= j_head j /\ 0 <= seq < 2 ^ 64 /\
  j_head j = off + Z.of_nat (length (log_blocks ts2)) /\
  seq = first_seq j (ts1 ++ ts2) + Z.of_nat (length ts1).
Proof.
  pose proof (li_head _ _ _ Hinv) as Hh. pose proof (li_tail _ _ _ Hinv).
  pose proof (li_seq_range _ _ _ Hinv) as Hr. rewrite log_blocks_app, length_app in Hh.
  unfold off, seq, first_seq in *. rewrite length_app in Hr |- *. lia.
Qed.

Lemma truncate_empty : (off =? j_head j) = true <-> ts2 = [].
Proof.
  pose proof truncate_bounds as (_ & _ & Hh & _). pose proof (log_blocks_length ts2).
  rewrite Z.eqb_eq. split; [|intros ->; simpl in *; lia].
  intros He. destruct ts2; [done|]. simpl in *. lia.
Qed.

Lemma truncate_super :
  let start := if off =? j_head j then LOGFS_JOURNAL_EMPTY else off in
  jsuper_ok off seq ts2 (jsuper_encode j start seq).
Proof.
  intros start. pose proof truncate_bounds as (Ho & Hs & _).
  pose proof (li_nowrap _ _ _ Hinv). pose proof truncate_empty as Hemp.
  assert (Hst : 0 <= start < 2 ^ 64)
    by (unfold start; destruct (off =? j_head j); unfold LOGFS_JOURNAL_EMPTY; lia).
  destruct (decode_jsuper_encode j start seq Hst Hs) as (Hm & Hd & Hq).
  split; [done|]. unfold start in *. destruct ts2 as [|t ts].
  - rewrite (proj2 Hemp eq_refl) in Hd. rewrite (proj2 Hemp eq_refl). done.
  - destruct (off =? j_head j); [discriminate (proj1 Hemp eq_refl)|by split].
Qed.

Lemma content_truncated b :
  b <> LOGFS_JSUPER_BLOCKNO -> content (run (advance_ops j off seq) k) b = content k b.
Proof.
  intros Hb. rewrite content_run. cbn [advance_ops op_writes omap list_omap op_write latest].
  by destruct (Z.eqb_spec LOGFS_JSUPER_BLOCKNO b).
Qed.

Lemma log_not_super b : in_log j b -> b <> LOGFS_JSUPER_BLOCKNO.
Proof. pose proof (li_geo _ _ _ Hinv) as []. unfold in_log, LOGFS_JSUPER_BLOCKNO. lia. Qed.

Lemma log_inv_after_truncate :
  log_inv (advance_tail_to j off) (run (advance_ops j off seq) k) ts2.
Proof.
  pose proof truncate_bounds as (Ho & Hs & Hh & Hq).
  pose proof (li_blocks _ _ _ Hinv) as Hb. rewrite log_blocks_app in Hb.
  apply blocks_at_app in Hb as [_ Hb]. fold off in Hb.
  pose proof (li_fits _ _ _ Hinv) as Hfit. rewrite log_blocks_app, length_app in Hfit.
  pose proof (li_txns _ _ _ Hinv) as Ht. apply Forall_app in Ht as [_ Ht].
  pose proof (li_seqs _ _ _ Hinv) as Hsq. apply seqs_from_app in Hsq as [_ Hsq]. rewrite <-Hq in Hsq.
  pose proof (li_seq_range _ _ _ Hinv) as [_ Hsr].
  split; cbn [advance_tail_to j_tail j_head j_next_sequence j_maxlen]; try done; try lia.
  - rewrite nblocks_run. destruct (li_geo _ _ _ Hinv). by split.
  - apply wf_run; [apply Hinv|]. constructor; [apply length_encode_jsuper|by repeat constructor].
  - set_solver.
  - apply (li_nowrap _ _ _ Hinv).
  - split; [|done]. apply Hs.
  - intros i c Hi. change (phys_of (advance_tail_to j off)) with (phys_of j).
    rewrite content_truncated; [by apply Hb|].
    by eapply log_not_super, phys_of_in_log, Hinv.
  - intros b Hin. rewrite content_truncated by by apply log_not_super. by apply Hinv.
  - rewrite content_run. cbn [advance_ops op_writes omap list_omap op_write latest].
    rewrite Z.eqb_refl. by apply truncate_super.
Qed.
End truncate.

Lemma overlay_recovers j img ts b :
  recovers_to j img ts -> recovered j img b = overlay (all_writes ts) img b.
Proof. unfold recovers_to, recovered. by intros ->. Qed.

Lemma all_writes_app ts1 ts2 : all_writes (ts1 ++ ts2) = all_writes ts1 ++ all_writes ts2.
Proof. unfold all_writes. by rewrite map_app, concat_app. Qed.

(** The view is the same before and after, at every crash point. *)
Lemma truncate_crash j k ts1 ts2 done img b :
  log_inv j k (ts1 ++ ts2) -> checkpointed k ts1 ts2 ->
  done `prefix_of` advance_ops j (j_tail j + Z.of_nat (length (log_blocks ts1))) (first_seq j ts2) ->
  crash_image (run done k) img -> b <> LOGFS_JSUPER_BLOCKNO ->
  recovered j img b = overlay (all_writes (ts1 ++ ts2)) img b.
Proof.
  intros Hinv Hck Hp Hc Hb. set (off := j_tail j + _) in *. set (seq := first_seq j ts2) in *.
  assert (Hlog : forall b, in_log j b -> img b = content k b).
  { intros b' Hin. destruct (crash_image_run_quiet _ _ _ b' Hc) as [?|Hw]; [|done|].
    - intros c Hin'. eapply (li_quiet _ _ _ Hinv); [exact Hin'|by right].
    - apply (op_writes_prefix _ _ _ Hp), list_elem_of_singleton in Hw. injection Hw as -> _.
      exfalso. by eapply log_not_super. }
  destruct (crash_image_run_quiet _ _ _ LOGFS_JSUPER_BLOCKNO Hc) as [Hold|Hnew].
  - intros c Hin. eapply (li_quiet _ _ _ Hinv); [exact Hin|by left].
  - apply overlay_recovers, (log_inv_image _ _ _ _ Hinv). intros b' [-> |Hin]; auto.
  - apply (op_writes_prefix _ _ _ Hp), list_elem_of_singleton in Hnew.
    pose proof (log_inv_after_truncate j k ts1 ts2 Hinv) as Hafter. fold off seq in Hafter.
    assert (Hrec : recovers_to j img ts2).
    { eapply (recovers_to_ext (advance_tail_to j off) j); [done|apply Hafter|].
      apply (log_inv_image _ _ _ _ Hafter). intros b' Hb'. rewrite content_run.
      cbn [advance_ops op_writes omap list_omap op_write latest].
      destruct (Z.eqb_spec LOGFS_JSUPER_BLOCKNO b') as [<-|Hne].
      - by injection Hnew as ->.
      - destruct Hb' as [->|Hin]; [done|]. by apply Hlog. }
    rewrite (overlay_recovers _ _ _ _ Hrec), all_writes_app. unfold overlay.
    rewrite latest_app. destruct (latest (all_writes ts2) b) eqn:E2; [done|].
    destruct (latest (all_writes ts1) b) eqn:E1; [|done]. destruct (Hck _ _ E1 E2) as [<- Hq].
    destruct (crash_image_run_quiet _ _ _ b Hc Hq) as [?|Hw]; [done|].
    apply (op_writes_prefix _ _ _ Hp), list_elem_of_singleton in Hw. by injection Hw as -> _.
Qed.

Lemma performs_advance j d off seq :
  wf_geometry j (nblocks (b_disk d)) -> wf_disk (b_disk d) -> whole_io d ->
  performs jd (logfs_journal_advance_tail off seq) (mkJst j d) (advance_ops j off seq)
    (fun _ s' => jr s' = advance_tail_to j off).
Proof.
  intros Hj Hk Hw. unfold logfs_journal_advance_tail. eapply performs_skip; [done|done|].
  cbn [jr]. rewrite <-(app_nil_r (advance_ops _ _ _)). eapply performs_bind.
  { apply performs_on_dev, performs_jsuper_write; done. }
  cbn beta. intros _ s1 [_ Hj1] Hw1 Hd1. split_and!; [done|done|done|].
  cbn [set_jr jr]. by rewrite Hj1.
Qed.

(** ** Recovery re-establishes the invariant *)

Lemma after_recover_log j k ts img :
  log_inv j k ts -> ts <> [] -> (forall b, journal_block j b -> img b = content k b) ->
  after_recover j img = mkJournal (j_first j) (j_maxlen j) (j_head j) (j_head j) (j_next_sequence j).
Proof.
  intros Hinv Hne Himg. unfold after_recover.
  pose proof (li_super _ _ _ Hinv) as Hs. rewrite <-Himg in Hs by by left.
  apply jsuper_ok_cases in Hs as [[? _]|[Hst Hsq]]; [done|].
  pose proof Hinv as [Hj Hk Hq Ht Hh Hf Hnw Hwf Hseq Hr Hb Ho _].
  rewrite (parse_image_log j (nblocks k) img ts (j_tail j) (first_seq j ts)); try done.
  - cbn [after_txns scan_start sc_scan sc_expect_seq sc_last_valid_seq]. rewrite Hst, Hsq, <-Hh.
    destruct ts; [done|]. unfold first_seq in *. f_equal. rewrite u64_small; simpl in *; lia.
  - lia.
  - intros i c Hi. rewrite Himg; [by apply Hb|]. right. by eapply phys_of_in_log.
  - intros b Hin. rewrite Himg by by right. apply old_not_commit. rewrite first_seq_next. by apply Ho.
Qed.

(** Mounting a log with transactions: they are installed and the log is the
    empty one, with the numbering going on. *)
Lemma mount_log_inv j ts d :
  log_inv j (b_disk d) ts -> ts <> [] -> home_writes j (nblocks (b_disk d)) (all_writes ts) ->
  powered (content (b_disk d)) d ->
  exists j' d', mount_journal (j_first j) (j_maxlen j) d = (Ok j', d') /\
    log_inv j' (b_disk d') [] /\ j_next_sequence j' = j_next_sequence j /\
    powered (content (b_disk d')) d' /\
    (j_first j' = j_first j /\ j_maxlen j' = j_maxlen j /\
     nblocks (b_disk d') = nblocks (b_disk d)) /\
    forall b, b <> LOGFS_JSUPER_BLOCKNO ->
      content (b_disk d') b = overlay (all_writes ts) (content (b_disk d)) b.
Proof.
  intros Hinv Hne Hhome Hp. set (k := b_disk d) in *.
  assert (Hrec : recovers_to j (content k) ts) by by apply (log_inv_image _ _ _ _ Hinv).
  pose proof (li_super _ _ _ Hinv) as Hs. pose proof Hs as [Hm _].
  assert (Hmt : mountable j (nblocks k) (content k)).
  { split; [apply Hinv|done|]. unfold recovers_to in Hrec. by rewrite Hrec. }
  destruct (mount_journal_ok j (content k) d Hp Hmt) as (j' & d' & Hrun & Hj' & Hd' & Hsys & Hhp & Hc).
  assert (Hnemp : ~ log_empty (content k)).
  { pose proof (li_nowrap _ _ _ Hinv). pose proof (li_head _ _ _ Hinv).
    apply jsuper_ok_cases in Hs as [[? _]|[Hst _]]; [done|].
    unfold log_empty. rewrite Hst. unfold LOGFS_JOURNAL_EMPTY. lia. }
  rewrite decide_False in Hj' by done. rewrite decide_False in Hd' by done.
  rewrite (after_recover_log _ _ _ _ Hinv Hne) in Hj' by done. fold k in Hd'.
  assert (Hlog : log_inv j' (b_disk d') []).
  2: { exists j', d'. split; [done|]. split; [done|]. split; [by rewrite Hj'|]. split; [|split].
       - split; [done|done| |apply Hlog|done]. rewrite Hd'. apply recover_ops_clean.
       - by rewrite Hj', Hd', nblocks_run.
       - intros b Hb. rewrite (Hc b Hb). by apply overlay_recovers. }
  assert (Hlogc : forall b, in_log j b -> content (run (recover_ops j (content k)) k) b = content k b).
  { intros b Hb. rewrite content_run, recover_ops_writes, latest_app. cbn [latest].
    destruct (Z.eqb_spec LOGFS_JSUPER_BLOCKNO b) as [<-|_];
      [by eapply (log_not_super j k ts []) in Hb; [|rewrite app_nil_r]|].
    unfold recovers_to in Hrec. rewrite Hrec.
    destruct (latest (all_writes ts) b) eqn:E; [|done]. exfalso. apply latest_in in E.
    unfold home_writes in Hhome. rewrite Forall_forall in Hhome. apply Hhome in E as [_ E].
    apply E. by right. }
  destruct Hinv as [Hgeo Hk Hq Ht Hh Hf Hnw Hwf Hseq [Hr1 Hr2] Hb Ho _].
  rewrite Hj', Hd'. unfold first_seq in *. cbn [length log_blocks map concat].
  split; cbn [j_first j_maxlen j_head j_tail j_next_sequence]; try lia; try done.
  - rewrite nblocks_run. by destruct Hgeo.
  - apply wf_run; [done|]. unfold recover_ops. apply Forall_app_2.
    + unfold dwrites. apply Forall_map. unfold recovers_to in Hrec. rewrite Hrec.
      unfold all_writes. apply Forall_concat, Forall_map. eapply Forall_impl; [exact Hwf|].
      intros t Hwt. eapply Forall_impl; [apply (wft_data _ Hwt)|]. simpl. tauto.
    + constructor; [apply length_encode_jsuper|by repeat constructor].
  - rewrite recover_ops_clean. set_solver.
  - change (log_blocks []) with (@nil block). simpl. lia.
  - change (log_blocks []) with (@nil block). simpl. lia.
  - unfold first_seq. simpl. lia.
  - intros b Hin. rewrite Hlogc by done. by apply Ho.
  - rewrite content_run, recover_ops_writes, latest_app. cbn [latest]. rewrite Z.eqb_refl.
    destruct (decode_jsuper_encode j LOGFS_JOURNAL_EMPTY 0) as (? & ? & _); [done..|]. by split.
Qed.

(** ** A fresh journal *)

Definition fresh_journal (first maxlen : Z) : logfs_journal := mkJournal first maxlen 0 0 1.

Definition format_ops (first maxlen : Z) : list dop :=
  [DWrite LOGFS_JSUPER_BLOCKNO
     (jsuper_encode (fresh_journal first maxlen) LOGFS_JOURNAL_EMPTY 0); DFlush].

Lemma log_inv_format first maxlen k :
  wf_geometry (fresh_journal first maxlen) (nblocks k) -> wf_disk k ->
  (forall b, in_log (fresh_journal first maxlen) b -> old_block 1 (content k b)) ->
  log_inv (fresh_journal first maxlen) (run (format_ops first maxlen) k) [].
Proof.
  intros Hj Hk Ho. pose proof (geo_first _ _ Hj).
  assert (Hc : forall b, content (run (format_ops first maxlen) k) b
    = if LOGFS_JSUPER_BLOCKNO =? b
      then jsuper_encode (fresh_journal first maxlen) LOGFS_JOURNAL_EMPTY 0 else content k b).
  { intros b. rewrite content_run. cbn [format_ops op_writes omap list_omap op_write latest].
    by destruct (_ =? b). }
  split; try done; unfold first_seq; cbn [fresh_journal j_next_sequence length log_blocks]; try lia.
  - apply wf_run; [done|]. constructor; [apply length_encode_jsuper|by repeat constructor].
  - set_solver.
  - destruct Hj. simpl in *. lia.
  - intros b Hb. rewrite Hc. destruct (Z.eqb_spec LOGFS_JSUPER_BLOCKNO b) as [<-|]; [|by apply Ho].
    unfold in_log, LOGFS_JSUPER_BLOCKNO in Hb. lia.
  - rewrite Hc, Z.eqb_refl.
    destruct (decode_jsuper_encode (fresh_journal first maxlen) LOGFS_JOURNAL_EMPTY 0)
      as (? & ? & _); [done..|]. by split.
Qed.

(** Mounting the empty log of a fresh journal changes nothing. *)
Lemma mount_fresh first maxlen d :
  log_inv (fresh_journal first maxlen) (b_disk d) [] -> powered (content (b_disk d)) d ->
  mount_journal first maxlen d = (Ok (fresh_journal first maxlen), d).
Proof.
  intros Hinv Hp. set (j := fresh_journal first maxlen) in *.
  assert (Hrec : recovers_to j (content (b_disk d)) []) by by apply (log_inv_image _ _ _ _ Hinv).
  pose proof (li_super _ _ _ Hinv) as [Hm Hst].
  destruct (mount_journal_ok j _ d Hp) as (j' & d' & Hrun' & Hj' & Hd' & Hs' & Hh' & _).
  { split; [apply Hinv|done|]. unfold recovers_to in Hrec. rewrite Hrec. constructor. }
  rewrite decide_True in Hj' by done. rewrite decide_True in Hd' by done.
  change (j_first j) with first in Hrun'. change (j_maxlen j) with maxlen in Hrun'.
  rewrite Hrun', Hj'. destruct Hp as [Hsys Hhp _ _ _]. f_equal. destruct d', d. simpl in *. congruence.
Qed.

Lemma performs_format first maxlen d :
  2 < nblocks (b_disk d) -> wf_disk (b_disk d) -> whole_io d ->
  performs (fun d => d) (logfs_journal_format first maxlen) d (format_ops first maxlen)
    (fun _ _ => True).
Proof.
  intros Hn Hk Hw. eapply performs_wand; [apply performs_write_fua; try done|done].
Qed.

(** ** Writes that are not the journal's leave the invariant alone *)

Definition home_op (j : logfs_journal) (o : dop) : Prop :=
  wf_op o /\ match o with DWrite b _ => ~ journal_block j b | DFlush => True end.

Lemma log_inv_home_op j k ts o : log_inv j k ts -> home_op j o -> log_inv j (run_dop k o) ts.
Proof.
  intros Hinv [Hwf Ho].
  assert (Hc : forall b, journal_block j b -> content (run_dop k o) b = content k b).
  { intros b Hb. destruct o as [b' c|]; [|apply content_flush]. cbn [run_dop].
    rewrite content_push. by destruct (Z.eqb_spec b' b) as [->|]. }
  pose proof (wf_run_dop k o (li_disk _ _ _ Hinv) Hwf) as Hk.
  destruct Hinv as [Hgeo _ Hq Ht Hh Hf Hnw Hw Hseq Hr Hb Hold Hs].
  split; try done.
  - by destruct o.
  - intros b c Hin. destruct o as [b' c'|]; cbn in Hin; [|by apply elem_of_nil in Hin].
    apply elem_of_app in Hin as [Hin|Hin]; [by eapply Hq|].
    apply list_elem_of_singleton in Hin. by injection Hin as -> _.
  - intros i c Hi. rewrite Hc; [by apply Hb|]. right. by eapply phys_of_in_log.
  - intros b Hin. rewrite Hc by by right. by apply Hold.
  - by rewrite Hc by by left.
Qed.

Lemma log_inv_home_ops j k ts ops :
  log_inv j k ts -> Forall (home_op j) ops -> log_inv j (run ops k) ts.
Proof.
  revert k. induction ops as [|o ops IH]; intros k Hinv Hops; [done|].
  apply Forall_cons in Hops as [Ho Hops]. by apply (IH (run_dop k o)); [apply log_inv_home_op|].
Qed.
