(* ===== verification/JournalTorn.v ===== *)
(** The journal across a power failure in the middle of an operation: what
    survives is a log again, with the transactions the operation had or those
    it was making, and it mounts. *)

From S2P Require Import Prelude.
From S2P Require Import Bytes.
From S2P Require Import DiskFormat.
From S2P Require Import Blockdev.
From S2P Require Import DiskOps.
From S2P Require Import Journal.
From S2P Require Import JournalLog.
From S2P Require Import JournalCommit.
From S2P Require Import JournalInv.
From S2P Require Import JournalRecover.
From S2P Require Import JournalReplay.
From S2P Require Import JournalSafety.

(** A disk of [nb] blocks that holds the image, with nothing in its cache. *)
Record came_back (nb : Z) (img : image) (k : disk) : Prop := {
  cb_nblocks : nblocks k = nb;
  cb_wf : wf_disk k;
  cb_pending : pending k = [];
  cb_content b : content k b = img b;
}.

Lemma powered_back img d : powered img d -> came_back (nblocks (b_disk d)) img (b_disk d).
Proof. by intros []. Qed.

(** The invariant of the log is about the journal's blocks. *)
Lemma log_inv_back j k ts nb img k' :
  log_inv j k ts -> nblocks k = nb -> came_back nb img k' ->
  (forall b, journal_block j b -> img b = content k b) -> log_inv j k' ts.
Proof.
  intros [Hgeo Hk Hq Ht Hh Hf Hnw Htx Hseq Hr Hb Ho Hs] Hnb [Hnb' Hwf Hpend Hc] Himg.
  assert (Hlog : forall b, journal_block j b -> content k' b = content k b).
  { intros b Hj. rewrite Hc. by apply Himg. }
  split; try done.
  - by rewrite Hnb', <-Hnb.
  - rewrite Hpend. intros b c Hin. by apply elem_of_nil in Hin.
  - intros i c Hi. rewrite (Hlog _); [by apply Hb|]. right. by eapply phys_of_in_log.
  - intros b Hin. rewrite Hlog by by right. by apply Ho.
  - rewrite Hlog by by left. exact Hs.
Qed.

(** What survives holds a log that is not empty, in the region of [j], whose
    transactions write what is in [ws]. *)
Definition torn (j : logfs_journal) (nb : Z) (ws : list (Z * block)) (img : image) : Prop :=
  forall k, came_back nb img k -> exists j' ts,
    same_region j j' /\ ts <> [] /\ (forall w, w ∈ all_writes ts -> w ∈ ws) /\ log_inv j' k ts.

Lemma torn_weaken j nb ws ws' img :
  (forall w, w ∈ ws -> w ∈ ws') -> torn j nb ws img -> torn j nb ws' img.
Proof.
  intros Hsub Ht k Hk. destruct (Ht k Hk) as (j' & ts & H1 & H2 & H3 & H4).
  exists j', ts. split; [done|split; [done|split; [|done]]]. auto.
Qed.

Lemma torn_region j1 j2 nb ws img : same_region j1 j2 -> torn j2 nb ws img -> torn j1 nb ws img.
Proof.
  intros [H1 H2] Ht k Hk. destruct (Ht k Hk) as (j' & ts & [H3 H4] & H).
  exists j', ts. split; [split; congruence|exact H].
Qed.

(** Outside the operations that write to the journal. *)
Lemma torn_quiet j k ts img :
  log_inv j k ts -> ts <> [] -> crash_image k img -> torn j (nblocks k) (all_writes ts) img.
Proof.
  intros Hinv Hne Hcr k' Hk'. exists j, ts. split; [done|split; [done|split; [done|]]].
  eapply log_inv_back; [exact Hinv|done|exact Hk'|]. intros b Hb.
  apply (crash_image_stable _ _ _ Hcr). intros c Hin. by eapply (li_quiet _ _ _ Hinv).
Qed.

(** In a commit. *)
Lemma torn_commit j k ts data done img :
  log_inv j k ts -> ts <> [] -> loggable j data -> log_room j ts data ->
  done `prefix_of` commit_ops j data [] -> crash_image (run done k) img ->
  torn j (nblocks k) (all_writes ts ++ data) img.
Proof.
  intros Hinv Hne Hlog Hroom Hp Hcr k' [Hnb Hwf Hpend Hc].
  destruct (commit_crash_inv j k ts data Hinv Hlog Hroom done img k') as [H|H]; try done.
  - exists j, ts. split; [done|split; [done|split; [|exact H]]]. intros w Hw.
    apply elem_of_app. by left.
  - eexists _, _. split; [|split; [|split; [|exact H]]]; [by split|by destruct ts|].
    intros w. rewrite all_writes_app. unfold all_writes at 2. cbn [map concat l_data].
    by rewrite app_nil_r.
Qed.

(** In a truncation that leaves something. *)
Lemma torn_truncate j k ts1 ts2 done img :
  log_inv j k (ts1 ++ ts2) -> ts2 <> [] ->
  done `prefix_of` advance_ops j (j_tail j + Z.of_nat (length (log_blocks ts1))) (first_seq j ts2) ->
  crash_image (run done k) img -> torn j (nblocks k) (all_writes (ts1 ++ ts2)) img.
Proof.
  intros Hinv Hne Hp Hcr k' Hk'. set (off := j_tail j + _) in *. set (seq := first_seq j ts2) in *.
  assert (Hquiet : forall b c, journal_block j b -> (b, c) ∉ pending k).
  { intros b c Hb Hin. by apply (li_quiet _ _ _ Hinv b c Hin). }
  assert (Hone : forall b, (b, img b) ∈ op_writes done -> b = LOGFS_JSUPER_BLOCKNO /\
    img b = jsuper_encode j (if off =? j_head j then LOGFS_JOURNAL_EMPTY else off) seq).
  { intros b Hw. apply (op_writes_prefix _ _ _ Hp), list_elem_of_singleton in Hw. by injection Hw as -> ->. }
  assert (Hlog : forall b, in_log j b -> img b = content k b).
  { intros b Hin. destruct (crash_image_run_quiet _ _ _ b Hcr) as [?|Hw]; [|done|].
    - intros c. apply Hquiet. by right.
    - apply Hone in Hw as [-> _]. exfalso. by eapply log_not_super. }
  destruct (crash_image_run_quiet _ _ _ LOGFS_JSUPER_BLOCKNO Hcr) as [Hold|Hnew].
  - intros c. apply Hquiet. by left.
  - exists j, (ts1 ++ ts2). split; [done|split; [|split; [done|]]].
    { by destruct ts1. }
    eapply log_inv_back; [exact Hinv|done|exact Hk'|]. intros b [->|Hin]; [done|by apply Hlog].
  - apply Hone in Hnew as [_ Hnew]. pose proof (log_inv_after_truncate j k ts1 ts2 Hinv) as Hafter.
    fold off seq in Hafter. exists (advance_tail_to j off), ts2.
    split; [by split|split; [done|split]].
    { intros w Hw. rewrite all_writes_app. apply elem_of_app. by right. }
    eapply log_inv_back; [exact Hafter|apply nblocks_run|exact Hk'|]. intros b Hb.
    rewrite content_run. cbn [advance_ops op_writes omap list_omap op_write latest].
    destruct (Z.eqb_spec LOGFS_JSUPER_BLOCKNO b) as [<-|Hneq]; [exact Hnew|].
    destruct Hb as [->|Hin]; [done|]. by apply Hlog.
Qed.

(** It mounts, with the contents recovery reads out of the image. *)
Lemma torn_mount j nb ws img d :
  torn j nb ws img -> home_writes j nb ws -> powered img d -> nblocks (b_disk d) = nb ->
  exists j' d', mount_journal (j_first j) (j_maxlen j) d = (Ok j', d') /\
    log_inv j' (b_disk d') [] /\ powered (content (b_disk d')) d' /\
    (same_region j j' /\ nblocks (b_disk d') = nb) /\
    forall b, b <> LOGFS_JSUPER_BLOCKNO -> content (b_disk d') b = recovered j img b.
Proof.
  intros Ht Hhome Hp <-. destruct (Ht _ (powered_back _ _ Hp)) as (j1 & ts & [Hf Hm] & Hne & Hsub & Hinv).
  assert (Hpd : powered (content (b_disk d)) d) by (destruct Hp; by split).
  assert (Hh : home_writes j1 (nblocks (b_disk d)) (all_writes ts)).
  { unfold home_writes in *. rewrite Forall_forall in Hhome |- *. intros w Hw%Hsub%Hhome.
    unfold journal_block, in_log in *. by rewrite <-Hf, <-Hm. }
  destruct (mount_log_inv j1 ts d Hinv Hne Hh Hpd) as (j' & d' & Hrun & Hl & _ & Hp' & (Hf' & Hm' & Hnb') & Hc).
  rewrite <-Hf, <-Hm in Hrun. exists j', d'. split; [exact Hrun|split; [exact Hl|split; [exact Hp'|]]].
  split; [split; [split; congruence|exact Hnb']|]. intros b Hb. rewrite (Hc b Hb).
  assert (Hrec : recovers_to j (content (b_disk d)) ts).
  { apply (recovers_to_ext j1 j (nblocks (b_disk d))); [by split|apply Hinv|].
    by apply (log_inv_image _ _ _ _ Hinv). }
  rewrite <-(overlay_recovers _ _ _ _ Hrec).
  assert (Hj : wf_geometry j (nblocks (b_disk d))).
  { destruct (li_geo _ _ _ Hinv). by split; rewrite ?Hf, ?Hm. }
  apply (recovered_ext j j (nblocks (b_disk d))); [done|exact Hj|intros b' _|]; apply Hp.
Qed.

(** A block the log does not write is in the image what it recovers to. *)
Lemma torn_unlogged j nb ws img k b :
  torn j nb ws img -> came_back nb img k -> latest ws b = None -> recovered j img b = img b.
Proof.
  intros Ht Hk Hb. destruct (Ht k Hk) as (j1 & ts & [Hf Hm] & _ & Hsub & Hinv).
  assert (Hrec : recovers_to j img ts).
  { apply (recovers_to_ext j1 j nb); [by split|rewrite <-(cb_nblocks _ _ _ Hk); apply Hinv|].
    apply (log_inv_image _ _ _ _ Hinv). intros b' _. symmetry. apply Hk. }
  rewrite (overlay_recovers _ _ _ _ Hrec). unfold overlay.
  rewrite (proj2 (latest_none (all_writes ts) b)); [done|].
  intros c Hin%Hsub. rewrite latest_none in Hb. by apply Hb in Hin.
Qed.
