(* ===== verification/JournalProps.v ===== *)
(** The theorems about the journal, each with a run of the code on which its
    hypotheses hold. *)

From S2P Require Import Prelude.
From S2P Require Import Bytes.
From S2P Require Import Crc32.
From S2P Require Import DiskFormat.
From S2P Require Import Blockdev.
From S2P Require Import DiskOps.
From S2P Require Import Journal.
From S2P Require Import JournalLog.
From S2P Require Import JournalCommit.
From S2P Require Import JournalInv.
From S2P Require Import JournalRecover.
From S2P Require Import JournalReplay.
From S2P Require Import JournalSafety.

(** ** A small journal to run the code on

    64 blocks, the log in blocks 3 to 18, formatted on a blank file. *)

Definition demo_disk : disk := run (format_ops 3 16) (mkDisk 64 ∅ []).

Definition demo_journal : logfs_journal := fresh_journal 3 16.

Definition demo_dev (answers : list sysret) : bdev := mkBdev demo_disk answers [].

Definition fill (b : byte) : block := replicate block_len b.

(** The second journal of the examples: after one commit of two blocks. *)
Definition demo_data1 : list pending_block := [(30, fill Byte.x11); (31, fill Byte.x22)].

Definition demo_data2 : list pending_block := [(31, fill Byte.x33)].

Lemma log_inv_demo : log_inv demo_journal demo_disk [].
Proof.
  apply log_inv_format.
  - by split.
  - split; [apply map_Forall_empty|constructor].
  - intros b _. intros Hm. vm_compute in Hm. discriminate Hm.
Qed.

Lemma loggable_demo j :
  loggable j demo_data1 /\ loggable j demo_data2.
Proof.
  split; (split; [vm_compute; congruence| |]);
    repeat constructor; try (vm_compute; congruence);
    intros Hm; vm_compute in Hm; discriminate Hm.
Qed.

Lemma log_room_demo : log_room demo_journal [] demo_data1.
Proof. split; vm_compute; congruence. Qed.

Lemma demo_not_journal b : 19 <= b -> ~ journal_block demo_journal b.
Proof. intros Hb [H|[_ H]]; [unfold LOGFS_JSUPER_BLOCKNO in H|simpl in H]; lia. Qed.

Lemma home_demo ts : Forall (fun w => 19 <= w.1 < 64) (all_writes ts) ->
  home_writes demo_journal 64 (all_writes ts).
Proof.
  intros H. eapply Forall_impl; [exact H|]. intros w [? ?].
  split; [done|by apply demo_not_journal].
Qed.

(** The same journal after the first commit. *)
Definition demo_journal1 : logfs_journal := after_commit demo_journal demo_data1 [].

Definition demo_disk1 : disk := run (commit_ops demo_journal demo_data1 []) demo_disk.

Definition demo_txn1 : ltxn := new_txn demo_journal demo_data1.

Lemma log_inv_demo1 : log_inv demo_journal1 demo_disk1 [demo_txn1].
Proof.
  apply (log_inv_after_commit demo_journal demo_disk [] demo_data1 log_inv_demo).
  - apply loggable_demo.
  - apply log_room_demo.
Qed.

(** ** Atomic and durable commits *)

(** C23: a commit that runs against any kernel - errors, interrupted calls,
    loss of power at any point - leaves a device that, whatever part of its
    cache survives, holds either the transactions committed before or those
    and the new one, complete; and the new one if the call returned 0. *)
Theorem commit_atomic j d ts data r s' img :
  log_inv j (b_disk d) ts -> loggable j data -> log_room j ts data -> whole_io d ->
  logfs_journal_commit data [] (mkJst j d) = (r, s') ->
  crash_image (b_disk (jd s')) img ->
  (recovers_to j img ts /\ is_ok r = false) \/
  (recovers_to j img (ts ++ [new_txn j data]) /\
   forall b, ~ journal_block j b -> img b = content (b_disk d) b).
Proof. intros Hinv Hlog Hroom Hio. by apply commit_crash. Qed.

(** A power failure at the second write. *)
Definition demo_failing : bdev := demo_dev [SRet 5000; SCrash].

Lemma whole_demo : whole_io demo_failing.
Proof. constructor; [cbn [whole_answer]; blia|by repeat constructor]. Qed.

Lemma commit_atomic_witness :
  let '(r, s') := logfs_journal_commit demo_data1 [] (mkJst demo_journal demo_failing) in
  let img := persisted (b_disk (jd s')) in
  (recovers_to demo_journal img [] /\ is_ok r = false) \/
  (recovers_to demo_journal img ([] ++ [new_txn demo_journal demo_data1]) /\
   forall b, ~ journal_block demo_journal b -> img b = content demo_disk b).
Proof.
  destruct (logfs_journal_commit _ _ _) as [r s'] eqn:E.
  apply (commit_atomic demo_journal demo_failing [] demo_data1 r s').
  - apply log_inv_demo.
  - apply loggable_demo.
  - apply log_room_demo.
  - apply whole_demo.
  - exact E.
  - intros b. by left.
Defined.

(** C1: the whole cycle: commit under any kernel, lose power, start again on
    what survived, mount.  The mount succeeds and every file system block
    holds what the committed transactions last wrote to it, without the new
    transaction (only if the commit did not return 0) or with all of it. *)
Theorem commit_then_remount j d ts data r s' img d2 :
  log_inv j (b_disk d) ts -> loggable j data -> log_room j ts data -> whole_io d ->
  home_writes j (nblocks (b_disk d)) (all_writes (ts ++ [new_txn j data])) ->
  logfs_journal_commit data [] (mkJst j d) = (r, s') ->
  crash_image (b_disk (jd s')) img ->
  powered img d2 -> nblocks (b_disk d2) = nblocks (b_disk d) ->
  exists j2 d3, mount_journal (j_first j) (j_maxlen j) d2 = (Ok j2, d3) /\
    ((is_ok r = false /\ forall b, b <> LOGFS_JSUPER_BLOCKNO ->
        content (b_disk d3) b = overlay (all_writes ts) img b) \/
     (forall b, ~ journal_block j b ->
        content (b_disk d3) b
        = overlay (all_writes (ts ++ [new_txn j data])) (content (b_disk d)) b)).
Proof.
  intros Hinv Hlog Hroom Hio Hhome Hrun Hcrash Hpow Hnb.
  pose proof (commit_crash _ _ _ _ Hinv Hlog Hroom Hio _ _ _ Hrun Hcrash) as Hcase.
  assert (Hmt : mountable j (nblocks (b_disk d2)) img).
  { rewrite Hnb. split; [apply Hinv| |].
    - apply (commit_outcomes _ _ _ _ Hinv Hlog Hroom Hio) in Hrun as (_ & _ & Hrun).
      destruct r as [out|rc].
      + destruct Hrun as (_ & _ & Hd). rewrite Hd in Hcrash.
        by eapply (commit_crash_magic j _ ts data Hinv Hlog Hroom _ img); [|exact Hcrash].
      + destruct Hrun as (_ & l & Hp & Hd). rewrite Hd in Hcrash.
        by eapply (commit_crash_magic j _ ts data Hinv Hlog Hroom l img).
    - unfold home_writes in Hhome. rewrite all_writes_app in Hhome.
      destruct Hcase as [[Hrec _]|[Hrec _]]; unfold recovers_to in Hrec; rewrite Hrec.
      + by apply Forall_app in Hhome as [? _].
      + by rewrite all_writes_app. }
  destruct (mount_journal_ok j img d2 Hpow Hmt) as (j2 & d3 & Hm & _ & _ & _ & _ & Hc).
  exists j2, d3. split; [done|]. destruct Hcase as [[Hrec Hr]|[Hrec Hh]].
  - left. split; [done|]. intros b Hb. rewrite (Hc b Hb). by apply overlay_recovers.
  - right. intros b Hb. rewrite Hc by (intros ->; apply Hb; by left).
    rewrite (overlay_recovers _ _ _ _ Hrec). unfold overlay. by rewrite (Hh b Hb).
Qed.

Lemma powered_demo : powered (persisted demo_disk) (demo_dev []).
Proof. split; try done. apply (li_disk _ _ _ log_inv_demo). Qed.

Lemma commit_then_remount_witness :
  exists r s', logfs_journal_commit demo_data1 [] (mkJst demo_journal demo_failing) = (r, s') /\
    exists j2 d3, mount_journal 3 16 (demo_dev []) = (Ok j2, d3) /\
    ((is_ok r = false /\ forall b, b <> LOGFS_JSUPER_BLOCKNO ->
        content (b_disk d3) b = overlay (all_writes []) (persisted demo_disk) b) \/
     (forall b, ~ journal_block demo_journal b ->
        content (b_disk d3) b
        = overlay (all_writes ([] ++ [demo_txn1])) (content demo_disk) b)).
Proof.
  destruct (logfs_journal_commit demo_data1 [] (mkJst demo_journal demo_failing))
    as [r s'] eqn:E.
  assert (Hs : durable (b_disk (jd s')) = durable demo_disk).
  { apply (f_equal snd) in E. cbn [snd] in E. rewrite <-E. vm_compute. reflexivity. }
  exists r, s'. split; [reflexivity|].
  eapply (commit_then_remount demo_journal demo_failing [] demo_data1 r s').
  - apply log_inv_demo.
  - apply loggable_demo.
  - apply log_room_demo.
  - apply whole_demo.
  - apply home_demo. repeat constructor; vm_compute; congruence.
  - exact E.
  - intros b. left. unfold persisted. rewrite Hs. reflexivity.
  - apply powered_demo.
  - reflexivity.
Defined.

(** A commit whose system calls all succeed returns its sequence number
    and descriptor offset, appends exactly its blocks, and keeps the
    invariant of the log; so does one that returns 0 under any kernel. *)
Theorem commit_keeps_invariant j d ts data r s' :
  log_inv j (b_disk d) ts -> loggable j data -> log_room j ts data -> whole_io d ->
  logfs_journal_commit data [] (mkJst j d) = (r, s') ->
  (sys d = [] -> is_ok r = true) /\
  (is_ok r = true ->
     r = Ok (j_next_sequence j, j_head j) /\
     jr s' = mkJournal (j_first j) (j_maxlen j) (j_head j + Z.of_nat (length data) + 2)
               (j_tail j) (j_next_sequence j + 1) /\
     log_inv (jr s') (b_disk (jd s')) (ts ++ [new_txn j data])).
Proof.
  intros Hinv Hlog Hroom Hio Hrun.
  apply (commit_outcomes _ _ _ _ Hinv Hlog Hroom Hio) in Hrun as (_ & Hs & Hout).
  split; [tauto|]. destruct r as [out|rc]; [|done]. intros _. destruct Hout as (-> & Hj & Hd).
  split; [done|]. split.
  - rewrite Hj. unfold after_commit, commit_offset. rewrite length_body. f_equal. lia.
  - rewrite Hj, Hd. by apply log_inv_after_commit.
Qed.

Lemma commit_keeps_invariant_witness :
  let '(r, s') := logfs_journal_commit demo_data1 [] (mkJst demo_journal (demo_dev [])) in
  ([] = @nil sysret -> is_ok r = true) /\
  (is_ok r = true ->
     r = Ok (1, 0) /\ jr s' = mkJournal 3 16 4 0 2 /\
     log_inv (jr s') (b_disk (jd s')) ([] ++ [demo_txn1])).
Proof.
  destruct (logfs_journal_commit _ _ _) as [r s'] eqn:E.
  apply (commit_keeps_invariant demo_journal (demo_dev []) [] demo_data1 r s').
  - apply log_inv_demo.
  - apply loggable_demo.
  - apply log_room_demo.
  - constructor.
  - exact E.
Defined.

(** A transaction that does not fit one descriptor (or one revoke) block
    is refused with [-EINVAL], one that does not fit the free part of the log
    with [-ENOSPC]; neither touches the device or the struct. *)
Theorem commit_rejects data revoke s :
  let nd := Z.of_nat (length data) in
  let nr := Z.of_nat (length revoke) in
  (LOGFS_MAX_TAGS_PER_DESC < nd \/ LOGFS_MAX_REVOKES_PER_BLOCK < nr ->
     logfs_journal_commit data revoke s = (Err (- EINVAL), s)) /\
  (nd <= LOGFS_MAX_TAGS_PER_DESC -> nr <= LOGFS_MAX_REVOKES_PER_BLOCK ->
   logfs_journal_free_space (jr s) < logfs_journal_space_needed nd nr ->
     logfs_journal_commit data revoke s = (Err (- ENOSPC), s)).
Proof.
  intros nd nr. assert (Hn : 0 <= nd) by apply Nat2Z.is_nonneg.
  unfold logfs_journal_commit, logfs_journal_space_needed. fold nd nr. split.
  - intros H. unfold mbind, M_bind, gets. cbn beta iota.
    replace ((_ <? nd) || (_ <? nr)) with true; [done|].
    symmetry. apply orb_true_iff. rewrite !Z.ltb_lt. done.
  - intros H1 H2. rewrite !(proj2 (Z.ltb_ge _ _)) by done. cbn [orb]. intros H3.
    unfold mbind, M_bind, gets. cbn beta iota.
    rewrite (proj2 (Z.eqb_neq _ _)) by (destruct (0 <? nr); lia).
    rewrite (proj2 (Z.ltb_lt _ _)) by done. done.
Qed.

Lemma commit_rejects_witness :
  logfs_journal_commit (replicate 15 (30, fill Byte.x11)) [] (mkJst demo_journal (demo_dev []))
  = (Err (- ENOSPC), mkJst demo_journal (demo_dev [])).
Proof. apply commit_rejects; vm_compute; congruence. Defined.

(** On a file whose journal region holds no commit block, a formatted
    journal mounts as an empty log with the invariant. *)
Theorem format_then_mount first maxlen d d1 :
  let j := mkJournal first maxlen 0 0 1 in
  wf_geometry j (nblocks (b_disk d)) -> wf_disk (b_disk d) -> whole_io d ->
  (forall b, in_log j b -> old_block 1 (content (b_disk d) b)) ->
  logfs_journal_format first maxlen d = (Ok tt, d1) -> sys d1 = [] -> heap d1 = [] ->
  mount_journal first maxlen d1 = (Ok j, d1) /\ log_inv j (b_disk d1) [].
Proof.
  intros j Hj Hk Hw Ho Hrun Hs Hh.
  assert (Hn : 2 < nblocks (b_disk d)) by (destruct Hj; lia).
  pose proof (performs_format first maxlen d Hn Hk Hw) as Hp. unfold performs in Hp.
  rewrite Hrun in Hp. destruct Hp as (_ & _ & Hd & _).
  pose proof (log_inv_format first maxlen _ Hj Hk Ho) as Hinv.
  change (fresh_journal first maxlen) with j in Hinv. rewrite <-Hd in Hinv.
  split; [|done]. apply mount_fresh; [exact Hinv|].
  split; try done; [|apply Hinv]. rewrite Hd. reflexivity.
Qed.

Lemma format_then_mount_witness :
  mount_journal 3 16 (demo_dev []) = (Ok demo_journal, demo_dev []) /\
  log_inv demo_journal demo_disk [].
Proof.
  apply (format_then_mount 3 16 (mkBdev (mkDisk 64 ∅ []) [] []) (demo_dev [])); try reflexivity.
  - by split.
  - split; [apply map_Forall_empty|constructor].
  - constructor.
  - intros b _ Hm. vm_compute in Hm. discriminate Hm.
Defined.

(** C36: moving the tail past checkpointed transactions loses nothing: under
    any kernel and at any crash point the file system contents recovery
    computes are those of all the transactions, old tail or new; when the
    call returns 0 the log has the invariant with the remaining ones. *)
Theorem advance_tail_safe j d ts1 ts2 r s' img :
  log_inv j (b_disk d) (ts1 ++ ts2) -> checkpointed (b_disk d) ts1 ts2 -> whole_io d ->
  logfs_journal_advance_tail (j_tail j + Z.of_nat (length (log_blocks ts1)))
    (j_next_sequence j - Z.of_nat (length ts2)) (mkJst j d) = (r, s') ->
  crash_image (b_disk (jd s')) img ->
  (forall b, b <> LOGFS_JSUPER_BLOCKNO ->
     recovered j img b = overlay (all_writes (ts1 ++ ts2)) img b) /\
  (is_ok r = true -> log_inv (jr s') (b_disk (jd s')) ts2).
Proof.
  intros Hinv Hck Hio Hrun Hc. set (off := j_tail j + _) in *.
  set (seq := j_next_sequence j - _) in *.
  pose proof (performs_advance j d off seq (li_geo _ _ _ Hinv) (li_disk _ _ _ Hinv) Hio) as Hp.
  unfold performs in Hp. rewrite Hrun in Hp. cbn [jd] in Hp. destruct Hp as (_ & _ & Hout).
  assert (Hdone : exists l, l `prefix_of` advance_ops j off seq /\ b_disk (jd s') = run l (b_disk d)).
  { destruct r; [|by destruct Hout as (_ & _ & ?)]. exists (advance_ops j off seq).
    by split; [|apply Hout]. }
  destruct Hdone as (l & Hl & Hd). split.
  - intros b Hb. rewrite Hd in Hc. by eapply truncate_crash.
  - destruct r; [|done]. intros _. destruct Hout as [Hd' Hj]. rewrite Hd', Hj.
    by apply log_inv_after_truncate.
Qed.

(** The device after the first commit is checkpointed. *)
Definition demo_disk2 : disk := run (dwrites demo_data1 ++ [DFlush]) demo_disk1.

Lemma log_inv_demo2 : log_inv demo_journal1 demo_disk2 [demo_txn1].
Proof.
  apply log_inv_home_ops; [apply log_inv_demo1|].
  change (dwrites demo_data1 ++ [DFlush])
    with [DWrite 30 (fill Byte.x11); DWrite 31 (fill Byte.x22); DFlush].
  apply Forall_cons; split; [|apply Forall_cons; split; [|by repeat constructor]];
    (split; [apply length_replicate|by apply demo_not_journal]).
Qed.

Lemma advance_tail_safe_witness :
  let '(r, s') := logfs_journal_advance_tail 4 2
                    (mkJst demo_journal1 (mkBdev demo_disk2 [SCrash] [])) in
  (forall b, b <> LOGFS_JSUPER_BLOCKNO ->
     recovered demo_journal1 (persisted (b_disk (jd s'))) b
     = overlay (all_writes ([demo_txn1] ++ [])) (persisted (b_disk (jd s'))) b) /\
  (is_ok r = true -> log_inv (jr s') (b_disk (jd s')) []).
Proof.
  destruct (logfs_journal_advance_tail _ _ _) as [r s'] eqn:E.
  apply (advance_tail_safe demo_journal1 (mkBdev demo_disk2 [SCrash] []) [demo_txn1] [] r s').
  - apply log_inv_demo2.
  - intros b c Hc _. split; [|intros c' Hin; by apply elem_of_nil in Hin].
    cbn [b_disk]. unfold demo_disk2. rewrite content_run, op_writes_app, op_writes_dwrites.
    rewrite app_nil_r. change demo_data1 with (all_writes [demo_txn1]). by rewrite Hc.
  - by repeat constructor.
  - exact E.
  - intros b. by left.
Defined.

(** ** Recovery *)

(** C39: the scan of recovery stops for every log, every kernel and every
    allocator: the fuel [scan_fuel] is never used up. *)
Theorem scan_terminates j nb st d :
  wf_geometry j nb -> 0 <= sc_expect_seq st < 2 ^ 64 ->
  (scan_loop (scan_fuel j d) j st d).1 <> Err OUT_OF_FUEL.
Proof.
  intros Hj Hs H. destruct (scan_loop _ _ _ _) as [r d'] eqn:E. simpl in H. subst r.
  apply (scan_loop_ends j nb) in E; [by unfold OUT_OF_FUEL in E|done..|].
  unfold scan_fuel. pose proof (geo_maxlen _ _ Hj). lia.
Qed.

Lemma scan_terminates_witness :
  (scan_loop (scan_fuel demo_journal1 (mkBdev demo_disk1 [SErr 4; SRet 10] [true; false]))
     demo_journal1 (mkScan 0 1 0 [] []) (mkBdev demo_disk1 [SErr 4; SRet 10] [true; false])).1
  <> Err OUT_OF_FUEL.
Proof. apply (scan_terminates _ 64); [by split|vm_compute; split; congruence]. Defined.

(** C28: mounting a device nothing fails on installs exactly the transactions
    in the log, returns 0, and leaves the log empty with the numbering where
    the log ended; from a log with the invariant it re-establishes it. *)
Theorem mount_recovers j ts d :
  log_inv j (b_disk d) ts -> ts <> [] -> home_writes j (nblocks (b_disk d)) (all_writes ts) ->
  powered (content (b_disk d)) d ->
  exists j' d', mount_journal (j_first j) (j_maxlen j) d = (Ok j', d') /\
    log_inv j' (b_disk d') [] /\ j_next_sequence j' = j_next_sequence j /\
    forall b, b <> LOGFS_JSUPER_BLOCKNO ->
      content (b_disk d') b = overlay (all_writes ts) (content (b_disk d)) b.
Proof.
  intros Hinv Hne Hh Hp.
  destruct (mount_log_inv j ts d Hinv Hne Hh Hp) as (j' & d' & ? & ? & ? & _ & _ & ?).
  by exists j', d'.
Qed.

Lemma mount_recovers_witness :
  exists j' d', mount_journal 3 16 (mkBdev demo_disk1 [] []) = (Ok j', d') /\
    log_inv j' (b_disk d') [] /\ j_next_sequence j' = 2 /\
    forall b, b <> LOGFS_JSUPER_BLOCKNO ->
      content (b_disk d') b = overlay (all_writes [demo_txn1]) (content demo_disk1) b.
Proof.
  apply (mount_recovers demo_journal1 [demo_txn1] (mkBdev demo_disk1 [] [])).
  - apply log_inv_demo1.
  - congruence.
  - apply home_demo. repeat constructor; vm_compute; congruence.
  - split; try done. apply (li_disk _ _ _ log_inv_demo1).
Defined.

Lemma recoverable_demo1 : recoverable demo_journal demo_disk1.
Proof.
  assert (Hreg : same_region demo_journal1 demo_journal) by by split.
  assert (Hj : wf_geometry demo_journal1 64) by by split.
  pose proof (log_inv_image _ _ _ (content demo_disk1) log_inv_demo1 (fun b _ => eq_refl)) as Hrec.
  pose proof (recovers_to_ext _ _ 64 _ _ Hreg Hj Hrec) as Hrec'. clear Hrec. rename Hrec' into Hrec.
  split.
  - by split.
  - apply (li_disk _ _ _ log_inv_demo1).
  - vm_compute. reflexivity.
  - vm_compute. congruence.
  - unfold recovers_to in Hrec. rewrite Hrec.
    apply home_demo. repeat constructor; vm_compute; congruence.
Qed.

(** C32: recovery interrupted by a power failure: as long as the write that
    empties the log has not reached the disk, recovery of what survives
    computes the same contents; once recovery has returned 0 everything it
    installed is durable and nothing is left to install. *)
Theorem recover_interrupted j d r s' img :
  recoverable j (b_disk d) -> pending (b_disk d) = [] -> live_io d -> heap d = [] ->
  logfs_journal_recover recover_install (mkJst j d) = (r, s') ->
  crash_image (b_disk (jd s')) img ->
  (img LOGFS_JSUPER_BLOCKNO = content (b_disk d) LOGFS_JSUPER_BLOCKNO ->
     forall b, recovered j img b = recovered j (content (b_disk d)) b) /\
  (is_ok r = true -> dead (jd s') \/
     forall b, b <> LOGFS_JSUPER_BLOCKNO ->
       img b = recovered j (content (b_disk d)) b /\ recovered j img b = img b).
Proof.
  intros Hrec Hclean Hl Hh Hrun Hc.
  pose proof (acts_recover j d Hrec Hl Hh) as Hact. unfold acts in Hact.
  rewrite Hrun in Hact. cbn [jd] in Hact. destruct Hact as (_ & _ & _ & Hout).
  assert (Hdone : exists l, l `prefix_of` recover_ops j (content (b_disk d)) /\
                            b_disk (jd s') = run l (b_disk d)).
  { destruct Hout as [(a & _ & _ & Hd)|(_ & l & ? & ?)]; eauto. }
  destruct Hdone as (l & Hp & Hd). split.
  - intros Hs b. rewrite Hd in Hc. by eapply recover_again.
  - intros Hok. destruct Hout as [(a & -> & _ & Hd')|[? _]]; [right|by left].
    intros b Hb. rewrite Hd' in Hc.
    pose proof (crash_image_clean _ _ (recover_ops_clean _ _ _) Hc) as Himg.
    assert (Hall : forall b, img b = content (run (recover_ops j (content (b_disk d))) (b_disk d)) b).
    { intros b'. by rewrite (content_clean _ _ (recover_ops_clean _ _ _)). }
    split; [by rewrite Hall; apply content_recovered|]. apply recover_emptied.
    rewrite Hall, content_run, recover_ops_writes, latest_app. done.
Qed.

Lemma recover_interrupted_witness :
  let d := mkBdev demo_disk1 [SRet 5000; SRet 5000; SRet 5000; SRet 5000; SCrash] [] in
  let '(r, s') := logfs_journal_recover recover_install (mkJst demo_journal d) in
  let img := persisted (b_disk (jd s')) in
  (img LOGFS_JSUPER_BLOCKNO = content demo_disk1 LOGFS_JSUPER_BLOCKNO ->
     forall b, recovered demo_journal img b = recovered demo_journal (content demo_disk1) b) /\
  (is_ok r = true -> dead (jd s') \/
     forall b, b <> LOGFS_JSUPER_BLOCKNO ->
       img b = recovered demo_journal (content demo_disk1) b /\ recovered demo_journal img b = img b).
Proof.
  intros d. destruct (logfs_journal_recover _ _) as [r s'] eqn:E.
  apply (recover_interrupted demo_journal d r s').
  - apply recoverable_demo1.
  - vm_compute. reflexivity.
  - repeat (constructor; [cbn [live_answer]; blia|]). by repeat constructor.
  - reflexivity.
  - exact E.
  - intros b. by left.
Defined.

(** Recovery in a process that is killed (the page cache survives): at
    every point, the next recovery ends with the same contents. *)
Theorem recover_killed j d r s' b :
  recoverable j (b_disk d) -> live_io d -> heap d = [] ->
  logfs_journal_recover recover_install (mkJst j d) = (r, s') -> b <> LOGFS_JSUPER_BLOCKNO ->
  recovered j (content (b_disk (jd s'))) b = recovered j (content (b_disk d)) b.
Proof.
  intros Hrec Hl Hh Hrun Hb.
  pose proof (acts_recover j d Hrec Hl Hh) as Hact. unfold acts in Hact.
  rewrite Hrun in Hact. cbn [jd] in Hact. destruct Hact as (_ & _ & _ & Hout).
  destruct Hout as [(a & _ & _ & ->)|(_ & l & Hp & ->)]; by apply recover_killed_again.
Qed.

Lemma recover_killed_witness :
  let d := mkBdev demo_disk1 (replicate 12 (SRet 5000) ++ [SCrash]) [] in
  let s' := (logfs_journal_recover recover_install (mkJst demo_journal d)).2 in
  recovered demo_journal (content (b_disk (jd s'))) 31
  = recovered demo_journal (content demo_disk1) 31.
Proof.
  intros d. destruct (logfs_journal_recover _ _) as [r s'] eqn:E.
  apply (recover_killed demo_journal d r s').
  - apply recoverable_demo1.
  - apply Forall_app_2; [apply Forall_replicate; cbn [live_answer]; blia|by repeat constructor].
  - reflexivity.
  - exact E.
  - discriminate.
Defined.

(** ** What the scan refuses *)

(** C38: a transaction whose data region was damaged within four consecutive
    bytes after it was written is not replayed: the scan stops before it. *)
Theorem corrupt_txn_refused j img st t bs pre x y post :
  wf_txn t -> l_seq t = sc_expect_seq st ->
  0 <= sc_scan st -> sc_scan st + Z.of_nat (length (txn_blocks t)) < 2 ^ 64 ->
  length bs = length (l_data t) ->
  blocks_at j img (sc_scan st) (txn_desc t :: bs ++ [txn_commit t]) ->
  concat (l_data t).*2 = pre ++ x ++ post -> concat bs = pre ++ y ++ post ->
  length x = length y -> (length x <= 4)%nat -> x <> y ->
  parse_step j img st = None.
Proof.
  intros Ht Hexp H0 Hmax Hbs (Hdesc & Hat)%blocks_at_cons Hold Hnew Hxy H4 Hne.
  apply blocks_at_app in Hat as [Hdata [Hcommit _]%blocks_at_cons].
  rewrite Hbs in Hcommit. rewrite length_txn_blocks in Hmax.
  destruct (txn_desc_header t Ht) as (_ & Hn & Hs & _).
  unfold parse_step. rewrite Hdesc, <-Hexp, valid_desc_txn by done. cbn [negb].
  rewrite Hn, Nat2Z.id. rewrite !(u64_small (sc_scan st + 1)) by lia.
  rewrite (u64_small (sc_scan st + 1 + _)) by lia.
  unfold peek_image. rewrite Hcommit, (commit_not_revoke _ _ : is_revoke_block (txn_commit t) = false).
  cbn [revoke_blocks]. rewrite Z.add_0_r, u64_small, Hcommit by lia.
  rewrite txn_commit_header by done. unfold valid_commit. cbn [cb_magic cb_sequence cb_checksum].
  rewrite Hs, !Z.eqb_refl. cbn [andb negb]. rewrite <-Hbs, data_offsets_blocks by (done || lia).
  rewrite !checksum_concat, Hold, Hnew.
  pose proof (logfs_crc32_burst (txn_desc t ++ pre) x y post Hxy H4 Hne) as Hcrc.
  rewrite <-!app_assoc in Hcrc. by rewrite (proj2 (Z.eqb_neq _ _)).
Qed.

(** The blocks of the first transaction with its first data byte damaged. *)
Definition damaged_blocks : list block :=
  [Byte.x99 :: replicate (block_len - 1) Byte.x11; fill Byte.x22].

Definition damaged_disk : disk :=
  run (dwrites (place demo_journal 0 (txn_desc demo_txn1 :: damaged_blocks ++ [txn_commit demo_txn1])))
    demo_disk.

Lemma corrupt_txn_refused_witness :
  parse_step demo_journal (content damaged_disk) (mkScan 0 1 0 [] []) = None.
Proof.
  apply (corrupt_txn_refused _ _ _ demo_txn1 damaged_blocks [] [Byte.x11] [Byte.x99]
    (replicate (block_len - 1) Byte.x11 ++ fill Byte.x22)).
  - apply (wf_new_txn demo_journal demo_disk [] demo_data1 log_inv_demo); [apply loggable_demo|].
    apply log_room_demo.
  - reflexivity.
  - simpl. lia.
  - rewrite length_txn_blocks. cbn. lia.
  - reflexivity.
  - intros i c Hi. unfold damaged_disk. rewrite content_dwrites.
    assert (Hj : wf_geometry demo_journal 64) by by split.
    cbn [sc_scan]. rewrite (latest_place demo_journal 64 0 _ i c Hj); [reflexivity| |exact Hi].
    cbn. lia.
  - vm_compute. reflexivity.
  - vm_compute. reflexivity.
  - reflexivity.
  - simpl. lia.
  - congruence.
Defined.

(** A transaction with data and revoked blocks is lost: [commit] puts
    the revoke block before the data, recovery looks for it after them and
    finds the last data block where the commit block should be. *)
Theorem revoked_txn_lost j img st seq data revoke last :
  sc_expect_seq st = seq -> 0 <= seq < 2 ^ 64 ->
  0 < Z.of_nat (length data) <= LOGFS_MAX_TAGS_PER_DESC -> revoke <> [] ->
  0 <= sc_scan st -> sc_scan st + LOGFS_MAX_TAGS_PER_DESC + 3 < 2 ^ 64 ->
  blocks_at j img (sc_scan st) (body_blocks seq data revoke ++ [commit_block seq data revoke]) ->
  (data.*2) !! (length data - 1)%nat = Some last ->
  get32 0 last <> LOGFS_REVOKE_MAGIC -> get32 0 last <> LOGFS_COMMIT_MAGIC ->
  parse_step j img st = None.
Proof.
  intros Hexp Hseq Hlen Hrev H0 Hmax Hat Hlast Hnr Hnc. change LOGFS_MAX_TAGS_PER_DESC with 510 in *.
  assert (Hpos : (0 <? Z.of_nat (length revoke)) = true).
  { apply Z.ltb_lt. destruct revoke; [done|simpl; lia]. }
  unfold body_blocks in Hat. rewrite Hpos in Hat. cbn [app] in Hat.
  apply blocks_at_cons in Hat as [Hdesc Hat]. apply blocks_at_cons in Hat as [_ Hat].
  apply blocks_at_app in Hat as [Hdata _].
  destruct (desc_header_of seq data) as (Hm & Hn & Hs).
  rewrite u32_small in Hn by lia. rewrite u64_small in Hs by done.
  specialize (Hdata _ _ Hlast).
  replace (sc_scan st + 1 + 1 + Z.of_nat (length data - 1))
    with (sc_scan st + 1 + Z.of_nat (length data)) in Hdata by lia.
  unfold parse_step. rewrite Hdesc. case_match; [done|].
  rewrite Hn. rewrite !(u64_small (sc_scan st + 1)) by lia.
  rewrite !(u64_small (sc_scan st + 1 + Z.of_nat (length data))) by lia.
  unfold peek_image. rewrite Hdata. unfold is_revoke_block.
  rewrite (proj2 (Z.eqb_neq _ _) Hnr). cbn [revoke_blocks].
  rewrite Z.add_0_r, u64_small, Hdata by lia. unfold valid_commit.
  cbn [decode_commit cb_magic]. by rewrite (proj2 (Z.eqb_neq _ _) Hnc).
Qed.

(** A commit with one data block and one revoked block that returned 0. *)
Definition revoke_run := logfs_journal_commit [(30, fill Byte.x11)] [40] (mkJst demo_journal (demo_dev [])).

Lemma revoked_txn_lost_witness :
  is_ok revoke_run.1 = true /\
  parse_step demo_journal (content (b_disk (jd revoke_run.2))) (mkScan 0 1 0 [] []) = None.
Proof.
  split; [vm_compute; reflexivity|].
  apply (revoked_txn_lost _ _ _ 1 [(30, fill Byte.x11)] [40] (fill Byte.x11)).
  - reflexivity.
  - lia.
  - split; [reflexivity|vm_compute; congruence].
  - congruence.
  - reflexivity.
  - reflexivity.
  - intros i c Hi. apply lookup_lt_Some in Hi as Hlt. change (i < 4)%nat in Hlt.
    apply (inj Some). rewrite <-Hi. clear Hi.
    destruct i as [|[|[|[|i]]]]; [vm_compute; reflexivity..|lia].
  - reflexivity.
  - vm_compute. congruence.
  - vm_compute. congruence.
Defined.

(** ** Where the journal does not keep its promise

    Concrete runs, each evaluated on the definitions. *)

(** A run of operations in order, on the struct and its device. *)
Definition run_journal {A} (m : M jst A) (s : jst) : jst := (m s).2.

(** Power off and on again: only what is durable survives. *)
Definition power_cycle (d : bdev) : bdev :=
  mkBdev (mkDisk (nblocks (b_disk d)) (durable (b_disk d)) []) [] [].

Definition write_home (b : Z) (c : block) : M jst unit :=
  on_dev (logfs_bdev_write b c ;; logfs_bdev_flush).

(** First mount: two transactions, both checkpointed, the log emptied.
    Second mount, without a failure: the home block of the second one is
    rewritten, then one more transaction is committed.  Third mount, after a
    power failure. *)
Definition stale_first : M jst unit :=
  logfs_journal_commit [(30, fill Byte.x11)] [] ;;
  logfs_journal_commit [(31, fill Byte.x22)] [] ;;
  write_home 30 (fill Byte.x11) ;;
  write_home 31 (fill Byte.x22) ;;
  logfs_journal_advance_tail 6 3.

Definition stale_second : M jst unit :=
  write_home 31 (fill Byte.x33) ;;
  logfs_journal_commit [(32, fill Byte.x44)] [] ;;
  mret tt.

Definition stale_run : result logfs_journal * bdev :=
  match mount_journal 3 16 (demo_dev []) with
  | (Ok j, d) =>
    match mount_journal 3 16 (power_cycle (jd (run_journal stale_first (mkJst j d)))) with
    | (Ok j, d) => mount_journal 3 16 (power_cycle (jd (run_journal stale_second (mkJst j d))))
    | r => r
    end
  | r => r
  end.

(** After the log was emptied, a mount restarts the numbering at 1 at
    the start of the region; the next commit is then followed by a leftover
    transaction of the previous mount that has the expected number and a
    valid checksum, and recovery replays it over newer contents. *)
Theorem stale_txn_replayed :
  is_ok stale_run.1 = true /\ content (b_disk stale_run.2) 32 = fill Byte.x44 /\
  content (b_disk stale_run.2) 31 = fill Byte.x22.
Proof. split_and!; vm_compute; reflexivity. Qed.

(** The first commit onto an empty log, whose superblock write fails. *)
Definition failing_super : bdev := demo_dev (replicate 6 (SRet 5000) ++ [SErr 5]).

Definition after_failed_super : jst :=
  run_journal (logfs_journal_commit demo_data1 []) (mkJst demo_journal failing_super).

(** When the write that publishes the start of the log fails, the commit
    reports it, but the log no longer counts as empty: later commits return 0
    and recovery finds none of them. *)
Theorem commits_lost_after_failed_super :
  (logfs_journal_commit demo_data1 [] (mkJst demo_journal failing_super)).1 = Err (- EIO) /\
  (logfs_journal_commit demo_data2 [] after_failed_super).1 = Ok (2, 4) /\
  let d := power_cycle (jd (run_journal (logfs_journal_commit demo_data2 []) after_failed_super)) in
  let (r, d') := mount_journal 3 16 d in
  is_ok r = true /\ content (b_disk d') 31 = zero_block.
Proof. split_and!; vm_compute; try reflexivity. by split. Qed.

(** Recovery of one transaction, power lost at its last [fsync]. *)
Definition torn_recovery : bdev :=
  jd (run_journal (logfs_journal_recover recover_install)
        (mkJst demo_journal (mkBdev demo_disk1 (replicate 12 (SRet 5000) ++ [SCrash]) []))).

(** What survives when of the writes in the cache only the last one, which
    empties the log, has reached the disk. *)
Definition torn_image : image := fun b =>
  if b =? LOGFS_JSUPER_BLOCKNO then content (b_disk torn_recovery) b
  else persisted (b_disk torn_recovery) b.

(** Recovery does not flush what it installed before it empties the log,
    so a disk that reorders its cache can keep the second without the first:
    the committed contents are gone. *)
Theorem recovery_reordering_loses :
  crash_image (b_disk torn_recovery) torn_image /\
  recovered demo_journal (content demo_disk1) 31 = fill Byte.x22 /\
  recovered demo_journal torn_image 31 = zero_block.
Proof.
  split_and!; [|vm_compute; reflexivity|vm_compute; reflexivity].
  intros b. unfold torn_image. destruct (Z.eqb_spec b LOGFS_JSUPER_BLOCKNO) as [->|]; [right|by left].
  apply latest_in. vm_compute. reflexivity.
Qed.
