(* ===== verification/Txn.v ===== *)
(** [src/txn.c]: the transaction manager.  Definitions only.

    Each function is the sequence of its critical sections and its I/O, in
    program order; [TxnThreads] takes the same sections as steps that
    interleave.  A block is staged in a hash table of chains, moves to the
    checkpoint list when it is committed, and leaves it when it has been
    written to its home location. *)

From S2P Require Import Prelude.
From S2P Require Import Bytes.
From S2P Require Import DiskFormat.
From S2P Require Import Blockdev.
From S2P Require Import Journal.

Definition LOGFS_TXN_HASH_BUCKETS : Z := 61.

Definition LOGFS_CKPT_LAG : Z := 2.

(** [struct logfs_dirty_block] and [struct logfs_wb_entry]: number and data;
    the [next] pointers are the lists they are chained in. *)
Abbreviation dirty_block := (Z * block)%type.

(** [struct logfs_committed_txn]; [nblocks] is the length of [ct_nodes]. *)
Record committed_txn := mkCommitted {
  ct_sequence : Z;
  ct_desc_offset : Z;
  ct_nodes : list dirty_block;
}.

(** [struct logfs_txn_mgr], less its threads, locks and timer. *)
Record txn_mgr := mkMgr {
  tm_journal : logfs_journal;
  tm_mode : logfs_data_mode;
  tm_freezing : bool;
  tm_running_handles : Z;
  tm_commit_requested : bool;
  tm_shutdown : bool;
  tm_generation_seq : Z;
  tm_completed_through : Z;
  tm_buckets : list (list dirty_block);
  tm_ndirty : Z;
  tm_ordered_blocks : list Z;
  tm_cap_ordered : Z;
  tm_ckpt : list committed_txn;
  tm_ckpt_count : Z;
  tm_wb_queue : list dirty_block;
  tm_wb_shutdown : bool;
}.

(** The manager and its device. *)
Record tst := mkTst { mg : txn_mgr; td : bdev }.

Definition on_bdev {A} : M bdev A -> M tst A := zoom td (fun d s => mkTst (mg s) d).

Definition set_mgr (f : txn_mgr -> txn_mgr) (s : tst) : tst := mkTst (f (mg s)) (td s).

(** Field updates. *)
Definition set_journal (j : logfs_journal) (m : txn_mgr) : txn_mgr :=
  mkMgr j (tm_mode m) (tm_freezing m) (tm_running_handles m) (tm_commit_requested m)
    (tm_shutdown m) (tm_generation_seq m) (tm_completed_through m) (tm_buckets m) (tm_ndirty m)
    (tm_ordered_blocks m) (tm_cap_ordered m) (tm_ckpt m) (tm_ckpt_count m) (tm_wb_queue m)
    (tm_wb_shutdown m).

Definition set_freezing (b : bool) (m : txn_mgr) : txn_mgr :=
  mkMgr (tm_journal m) (tm_mode m) b (tm_running_handles m) (tm_commit_requested m)
    (tm_shutdown m) (tm_generation_seq m) (tm_completed_through m) (tm_buckets m) (tm_ndirty m)
    (tm_ordered_blocks m) (tm_cap_ordered m) (tm_ckpt m) (tm_ckpt_count m) (tm_wb_queue m)
    (tm_wb_shutdown m).

Definition set_handles (n : Z) (m : txn_mgr) : txn_mgr :=
  mkMgr (tm_journal m) (tm_mode m) (tm_freezing m) n (tm_commit_requested m)
    (tm_shutdown m) (tm_generation_seq m) (tm_completed_through m) (tm_buckets m) (tm_ndirty m)
    (tm_ordered_blocks m) (tm_cap_ordered m) (tm_ckpt m) (tm_ckpt_count m) (tm_wb_queue m)
    (tm_wb_shutdown m).

Definition set_requested (b : bool) (m : txn_mgr) : txn_mgr :=
  mkMgr (tm_journal m) (tm_mode m) (tm_freezing m) (tm_running_handles m) b
    (tm_shutdown m) (tm_generation_seq m) (tm_completed_through m) (tm_buckets m) (tm_ndirty m)
    (tm_ordered_blocks m) (tm_cap_ordered m) (tm_ckpt m) (tm_ckpt_count m) (tm_wb_queue m)
    (tm_wb_shutdown m).

Definition set_shutdown (m : txn_mgr) : txn_mgr :=
  mkMgr (tm_journal m) (tm_mode m) (tm_freezing m) (tm_running_handles m) (tm_commit_requested m)
    true (tm_generation_seq m) (tm_completed_through m) (tm_buckets m) (tm_ndirty m)
    (tm_ordered_blocks m) (tm_cap_ordered m) (tm_ckpt m) (tm_ckpt_count m) (tm_wb_queue m)
    (tm_wb_shutdown m).

Definition set_progress (generation completed : Z) (m : txn_mgr) : txn_mgr :=
  mkMgr (tm_journal m) (tm_mode m) (tm_freezing m) (tm_running_handles m) (tm_commit_requested m)
    (tm_shutdown m) generation completed (tm_buckets m) (tm_ndirty m)
    (tm_ordered_blocks m) (tm_cap_ordered m) (tm_ckpt m) (tm_ckpt_count m) (tm_wb_queue m)
    (tm_wb_shutdown m).

Definition set_staging (buckets : list (list dirty_block)) (n : Z) (m : txn_mgr) : txn_mgr :=
  mkMgr (tm_journal m) (tm_mode m) (tm_freezing m) (tm_running_handles m) (tm_commit_requested m)
    (tm_shutdown m) (tm_generation_seq m) (tm_completed_through m) buckets n
    (tm_ordered_blocks m) (tm_cap_ordered m) (tm_ckpt m) (tm_ckpt_count m) (tm_wb_queue m)
    (tm_wb_shutdown m).

Definition set_ordered (l : list Z) (cap : Z) (m : txn_mgr) : txn_mgr :=
  mkMgr (tm_journal m) (tm_mode m) (tm_freezing m) (tm_running_handles m) (tm_commit_requested m)
    (tm_shutdown m) (tm_generation_seq m) (tm_completed_through m) (tm_buckets m) (tm_ndirty m)
    l cap (tm_ckpt m) (tm_ckpt_count m) (tm_wb_queue m) (tm_wb_shutdown m).

Definition set_ckpt (l : list committed_txn) (n : Z) (m : txn_mgr) : txn_mgr :=
  mkMgr (tm_journal m) (tm_mode m) (tm_freezing m) (tm_running_handles m) (tm_commit_requested m)
    (tm_shutdown m) (tm_generation_seq m) (tm_completed_through m) (tm_buckets m) (tm_ndirty m)
    (tm_ordered_blocks m) (tm_cap_ordered m) l n (tm_wb_queue m) (tm_wb_shutdown m).

Definition set_wb (q : list dirty_block) (stop : bool) (m : txn_mgr) : txn_mgr :=
  mkMgr (tm_journal m) (tm_mode m) (tm_freezing m) (tm_running_handles m) (tm_commit_requested m)
    (tm_shutdown m) (tm_generation_seq m) (tm_completed_through m) (tm_buckets m) (tm_ndirty m)
    (tm_ordered_blocks m) (tm_cap_ordered m) (tm_ckpt m) (tm_ckpt_count m) q stop.

(** Journal calls work on the manager's journal and its device. *)
Definition on_journal {A} : M jst A -> M tst A :=
  zoom (fun s => mkJst (tm_journal (mg s)) (td s))
    (fun js s => mkTst (set_journal (jr js) (mg s)) (jd js)).

(** Outcomes that are no return codes of the source: a call that waits, a
    failed assertion, a null dereference, a loop out of fuel. *)
Definition BLOCKED : Z := 2.
Definition ASSERT_FAILED : Z := 3.
Definition NULL_DEREF : Z := 4.
Definition TXN_OUT_OF_FUEL : Z := 5.

(** ** Staging table *)

Definition hash_block (blockno : Z) : nat := Z.to_nat (blockno mod LOGFS_TXN_HASH_BUCKETS).

(** Walking a chain. *)
Fixpoint chain_find (chain : list dirty_block) (blockno : Z) : option block :=
  match chain with
  | [] => None
  | d :: chain => if d.1 =? blockno then Some d.2 else chain_find chain blockno
  end.

Definition bucket (m : txn_mgr) (i : nat) : list dirty_block := default [] (tm_buckets m !! i).

Definition find_dirty (m : txn_mgr) (blockno : Z) : option block :=
  chain_find (bucket m (hash_block blockno)) blockno.

Definition find_checkpointed (m : txn_mgr) (blockno : Z) : option block :=
  foldl (fun found t =>
    foldl (fun found d => if d.1 =? blockno then Some d.2 else found) found (ct_nodes t))
    None (tm_ckpt m).

Definition insert_dirty (blockno : Z) (data : block) (m : txn_mgr) : txn_mgr :=
  let b := hash_block blockno in
  set_staging (<[b := (blockno, data) :: bucket m b]> (tm_buckets m)) (tm_ndirty m + 1) m.

(** The node's data; [None] is a NULL return. *)
Definition find_or_create_dirty (blockno : Z) : M tst (option block) :=
  m ← gets mg;
  match find_dirty m blockno with
  | Some data => mret (Some data)
  | None =>
    ok ← on_bdev malloc;
    if negb ok then mret None else
    r ← match find_checkpointed m blockno with
        | Some data => mret (Ok data)
        | None => attempt (on_bdev (logfs_bdev_read blockno))
        end;
    match r with
    | Err _ => mret None
    | Ok data => modify (set_mgr (insert_dirty blockno data)) ;; mret (Some data)
    end
  end.

Definition empty_buckets : list (list dirty_block) :=
  replicate (Z.to_nat LOGFS_TXN_HASH_BUCKETS) [].

(** [None] is the NULL a non-empty table yields when the allocation fails;
    the table then keeps its nodes. *)
Definition flatten_and_clear (count : Z) : M tst (option (list dirty_block)) :=
  if count =? 0 then mret None else
  ok ← on_bdev malloc;
  if negb ok then mret None else
  m ← gets mg;
  modify (set_mgr (set_staging empty_buckets (tm_ndirty m))) ;;
  mret (Some (concat (tm_buckets m))).

(** ** Checkpoint *)

(** The first critical section: the oldest transaction leaves the list. *)
Definition checkpoint_take : M tst (option committed_txn) :=
  m ← gets mg;
  match tm_ckpt m with
  | [] => mret None
  | t :: rest => modify (set_mgr (set_ckpt rest (tm_ckpt_count m - 1))) ;; mret (Some t)
  end.

Fixpoint write_nodes (nodes : list dirty_block) : M bdev unit :=
  match nodes with
  | [] => mret tt
  | d :: nodes => logfs_bdev_write d.1 d.2 ;; write_nodes nodes
  end.

(** Where the tail goes: the next transaction, or the head. *)
Definition checkpoint_tail (m : txn_mgr) : Z * Z :=
  match tm_ckpt m with
  | next :: _ => (ct_desc_offset next, ct_sequence next)
  | [] => (j_head (tm_journal m), j_next_sequence (tm_journal m))
  end.

Definition checkpoint_advance : M tst unit :=
  m ← gets mg;
  let (off, seq) := checkpoint_tail m in
  on_journal (logfs_journal_advance_tail off seq).

Definition checkpoint_home (t : committed_txn) : M tst unit :=
  on_bdev (write_nodes (ct_nodes t)) ;;
  on_bdev logfs_bdev_flush ;;
  checkpoint_advance.

(** 1, 0 or a negative error number, as in the source. *)
Definition checkpoint_oldest : M tst Z :=
  t ← checkpoint_take;
  match t with
  | None => mret 0
  | Some t =>
      r ← attempt (checkpoint_home t);
      mret (match r with Ok _ => 1 | Err rc => rc end)
  end.

(** The loops that checkpoint while [need] holds and there is progress. *)
Fixpoint checkpoint_while (need : tst -> bool) (fuel : nat) : M tst unit :=
  match fuel with
  | O => fail TXN_OUT_OF_FUEL
  | S fuel =>
      go ← gets need;
      if negb go then mret tt else
      r ← checkpoint_oldest;
      if r <=? 0 then mret tt else checkpoint_while need fuel
  end.

(** Each turn that goes on shortens the list. *)
Definition checkpoint_fuel (s : tst) : nat := S (length (tm_ckpt (mg s))).

Definition enforce_checkpoint_lag : M tst unit :=
  fuel ← gets checkpoint_fuel;
  checkpoint_while (fun s => LOGFS_CKPT_LAG <? tm_ckpt_count (mg s)) fuel.

(** ** Commit *)

Definition make_room (nnodes : Z) : M tst unit :=
  fuel ← gets checkpoint_fuel;
  checkpoint_while (fun s =>
    logfs_journal_free_space (tm_journal (mg s)) <? logfs_journal_space_needed nnodes 0) fuel.

(** The last critical section of [do_commit]; [None] is the failure branch,
    which drops the generation's nodes. *)
Definition commit_finish (t : option committed_txn) (m : txn_mgr) : txn_mgr :=
  let m := match t with
           | Some t => set_ckpt (tm_ckpt m ++ [t]) (tm_ckpt_count m + 1) m
           | None => m
           end in
  set_progress (j_next_sequence (tm_journal m)) (tm_generation_seq m) m.

(** The I/O of [do_commit]: the transaction to put on the list, if any. *)
Definition commit_io (nodes : list dirty_block) : M tst (option committed_txn) :=
  ok ← on_bdev malloc;
  r ← (if negb ok then mret (Err (- ENOMEM))
       else attempt (on_journal (logfs_journal_commit nodes [])));
  match r with
  | Err _ => mret None
  | Ok (seq, desc_off) =>
      ok ← on_bdev malloc;
      mret (if ok : bool then Some (mkCommitted seq desc_off nodes) else None)
  end.

Definition do_commit (nodes : option (list dirty_block)) (nnodes : Z) : M tst unit :=
  make_room nnodes ;;
  match nodes with
  | None => fail NULL_DEREF
  | Some nodes =>
      t ← commit_io nodes;
      modify (set_mgr (commit_finish t))
  end.

(** The commit thread's critical section once no handle is left: the staged
    nodes, their number and the number of ordered blocks. *)
Definition commit_swap : M tst (option (list dirty_block) * Z * Z) :=
  m ← gets mg;
  nodes ← flatten_and_clear (tm_ndirty m);
  modify (set_mgr (fun m' =>
    set_freezing false (set_requested false (set_ordered [] 0 (set_staging (tm_buckets m') 0 m'))))) ;;
  mret (nodes, tm_ndirty m, Z.of_nat (length (tm_ordered_blocks m))).

(** The rest of the turn, outside the lock. *)
Definition commit_rest (nodes : option (list dirty_block)) (nnodes nordered : Z) : M tst unit :=
  m ← gets mg;
  (if bool_decide (tm_mode m = LOGFS_MODE_ORDERED) && (0 <? nordered)
   then r ← attempt (on_bdev logfs_bdev_flush); mret tt
   else mret tt) ;;
  (if 0 <? nnodes then do_commit nodes nnodes
   else modify (set_mgr (fun m => set_progress (tm_generation_seq m) (tm_generation_seq m) m))) ;;
  enforce_checkpoint_lag.

(** One turn of [commit_thread_main] that finds work. *)
Definition commit_cycle : M tst unit :=
  modify (set_mgr (set_freezing true)) ;;
  m ← gets mg;
  if 0 <? tm_running_handles m then fail BLOCKED else
  r ← commit_swap;
  commit_rest r.1.1 r.1.2 r.2.

(** After the loop: [while (checkpoint_oldest(mgr) == 1)]. *)
Fixpoint drain_loop (fuel : nat) : M tst unit :=
  match fuel with
  | O => fail TXN_OUT_OF_FUEL
  | S fuel =>
      r ← checkpoint_oldest;
      if r =? 1 then drain_loop fuel else mret tt
  end.

Definition drain : M tst unit :=
  fuel ← gets checkpoint_fuel;
  drain_loop fuel.

(** ** Writeback *)

Definition writeback_queue_push (blockno : Z) (buf : block) : M tst unit :=
  ok ← on_bdev malloc;
  if negb ok then fail (- ENOMEM) else
  modify (set_mgr (fun m => set_wb (tm_wb_queue m ++ [(blockno, buf)]) (tm_wb_shutdown m) m)).

(** One turn of [writeback_thread_main]: [false] when it stops. *)
Definition writeback_step : M tst bool :=
  m ← gets mg;
  match tm_wb_queue m with
  | [] => if tm_wb_shutdown m then r ← attempt (on_bdev logfs_bdev_flush); mret false
          else fail BLOCKED
  | e :: rest =>
      modify (set_mgr (set_wb rest (tm_wb_shutdown m))) ;;
      r ← attempt (on_bdev (logfs_bdev_write e.1 e.2));
      mret true
  end.

(** ** Public operations *)

Definition logfs_txnmgr_create (journal : logfs_journal) (mode : logfs_data_mode) : txn_mgr :=
  mkMgr journal mode false 0 false false (j_next_sequence journal) 0 empty_buckets 0 [] 0 [] 0
    [] false.

(** A handle is its [txn_id]. *)
Definition logfs_txn_start : M tst Z :=
  m ← gets mg;
  if tm_freezing m then fail BLOCKED else
  modify (set_mgr (set_handles (tm_running_handles m + 1))) ;;
  mret (tm_generation_seq m).

Definition logfs_txn_get_write_access (h blockno : Z) : M tst block :=
  m ← gets mg;
  if negb (h =? tm_generation_seq m) then fail ASSERT_FAILED else
  d ← find_or_create_dirty blockno;
  match d with
  | None => fail (- ENOMEM)
  | Some data => mret data
  end.

Fixpoint chain_store (chain : list dirty_block) (blockno : Z) (data : block) : list dirty_block :=
  match chain with
  | [] => []
  | d :: chain =>
      if d.1 =? blockno then (blockno, data) :: chain else d :: chain_store chain blockno data
  end.

(** The caller's writes through the pointer [get_write_access] returned. *)
Definition store_staged (blockno : Z) (data : block) : M tst unit :=
  modify (set_mgr (fun m =>
    let b := hash_block blockno in
    set_staging (<[b := chain_store (bucket m b) blockno data]> (tm_buckets m)) (tm_ndirty m) m)).

Definition logfs_txn_dirty_metadata (h blockno : Z) : M tst unit :=
  d ← find_or_create_dirty blockno;
  match d with
  | None => fail (- ENOMEM)
  | Some _ => mret tt
  end.

(** Growing [ordered_blocks] by doubling. *)
Definition push_ordered (blockno : Z) : M tst unit :=
  m ← gets mg;
  let n := Z.of_nat (length (tm_ordered_blocks m)) in
  cap ← (if n =? tm_cap_ordered m then
           ok ← on_bdev malloc;
           if negb ok then fail (- ENOMEM)
           else mret (if tm_cap_ordered m =? 0 then 16 else tm_cap_ordered m * 2)
         else mret (tm_cap_ordered m));
  modify (set_mgr (set_ordered (tm_ordered_blocks m ++ [blockno]) cap)).

Definition logfs_txn_write_data (h blockno : Z) (buf : block) : M tst unit :=
  m ← gets mg;
  match tm_mode m with
  | LOGFS_MODE_JOURNAL =>
      logfs_txn_get_write_access h blockno ;;
      store_staged blockno buf ;;
      logfs_txn_dirty_metadata h blockno
  | LOGFS_MODE_ORDERED =>
      on_bdev (logfs_bdev_write blockno buf) ;;
      push_ordered blockno
  | LOGFS_MODE_WRITEBACK => writeback_queue_push blockno buf
  | LOGFS_MODE_OTHER _ => fail (- EINVAL)
  end.

Definition logfs_txn_stop : M tst unit :=
  modify (set_mgr (fun m => set_handles (tm_running_handles m - 1) m)).

Definition logfs_txn_read_block (blockno : Z) : M tst block :=
  m ← gets mg;
  match find_dirty m blockno with
  | Some data => mret data
  | None =>
      match find_checkpointed m blockno with
      | Some data => mret data
      | None => on_bdev (logfs_bdev_read blockno)
      end
  end.

(** [logfs_txn_commit_sync]: the request, and the condition it waits for. *)
Definition commit_sync_request : M tst Z :=
  m ← gets mg;
  modify (set_mgr (set_requested true)) ;;
  mret (tm_generation_seq m).

Definition commit_sync_done (target : Z) (m : txn_mgr) : bool :=
  negb (tm_completed_through m <? target) || tm_shutdown m.

(** [logfs_txnmgr_destroy]: the commit thread sees [shutdown], leaves its loop
    and drains; then the writeback thread writes out its queue. *)
Fixpoint writeback_drain (fuel : nat) : M tst unit :=
  match fuel with
  | O => fail TXN_OUT_OF_FUEL
  | S fuel =>
      more ← writeback_step;
      if more : bool then writeback_drain fuel else mret tt
  end.

Definition logfs_txnmgr_destroy : M tst unit :=
  modify (set_mgr set_shutdown) ;;
  drain ;;
  m ← gets mg;
  if bool_decide (tm_mode m = LOGFS_MODE_WRITEBACK) then
    modify (set_mgr (fun m => set_wb (tm_wb_queue m) true m)) ;;
    writeback_drain (S (length (tm_wb_queue m)))
  else mret tt.
