(* ===== verification/TxnInv.v ===== *)
(** The transaction manager's data: the staging table as a map, the
    checkpoint list as the log's transactions, the view a reader has of the
    three tiers, and the invariant that ties them to the journal. *)

From S2P Require Import Prelude.
From S2P Require Import Bytes.
From S2P Require Import DiskFormat.
From S2P Require Import Blockdev.
From S2P Require Import DiskOps.
From S2P Require Import Journal.
From S2P Require Import JournalLog.
From S2P Require Import JournalCommit.
From S2P Require Import JournalInv.
From S2P Require Import JournalRecover.
From S2P Require Import JournalReplay.
From S2P Require Import JournalSafety.
From S2P Require Import Txn.

(** ** The staging table *)

Definition staged_nodes (m : txn_mgr) : list dirty_block := concat (tm_buckets m).

Record wf_chain (i : nat) (chain : list dirty_block) : Prop := {
  wfc_nodes : Forall (fun d => hash_block d.1 = i /\ 0 <= d.1 < 2 ^ 64 /\ length d.2 = block_len) chain;
  wfc_nodup : NoDup chain.*1;
}.

Record wf_staging (m : txn_mgr) : Prop := {
  wfs_length : length (tm_buckets m) = Z.to_nat LOGFS_TXN_HASH_BUCKETS;
  wfs_chains : forall i chain, tm_buckets m !! i = Some chain -> wf_chain i chain;
  wfs_ndirty : tm_ndirty m = Z.of_nat (length (staged_nodes m));
}.

Lemma hash_block_lt b : (hash_block b < Z.to_nat LOGFS_TXN_HASH_BUCKETS)%nat.
Proof.
  unfold hash_block. pose proof (Z.mod_pos_bound b LOGFS_TXN_HASH_BUCKETS ltac:(done)). lia.
Qed.

Lemma latest_other ws b : Forall (fun d : dirty_block => d.1 <> b) ws -> latest ws b = None.
Proof.
  intros H. apply latest_none. intros c Hin. rewrite Forall_forall in H. by apply H in Hin.
Qed.

Lemma chain_find_latest chain b : NoDup chain.*1 -> chain_find chain b = latest chain b.
Proof.
  induction chain as [|[b' c] chain IH]; [done|]. cbn [fmap list_fmap chain_find latest fst snd].
  intros [Hn Hnd]%NoDup_cons. rewrite (IH Hnd). destruct (Z.eqb_spec b' b) as [->|].
  - rewrite (proj2 (latest_none _ _)); [done|]. intros c' Hin. apply Hn.
    apply list_elem_of_fmap. by exists (b, c').
  - by destruct (latest chain b).
Qed.

(** A node for [b] can only be in the chain [b] hashes to. *)
Lemma latest_concat buckets i0 b :
  (forall i chain, buckets !! i = Some chain -> wf_chain (i0 + i) chain) ->
  latest (concat buckets) b
  = if decide (i0 <= hash_block b)%nat
    then latest (default [] (buckets !! (hash_block b - i0)%nat)) b else None.
Proof.
  revert i0. induction buckets as [|chain buckets IH]; intros i0 H.
  { by destruct (decide _). }
  cbn [concat]. rewrite latest_app.
  assert (Hrest : forall i ch, buckets !! i = Some ch -> wf_chain (S i0 + i) ch).
  { intros i ch Hi. rewrite Nat.add_succ_comm. by apply H. }
  rewrite (IH _ Hrest).
  pose proof (H O chain eq_refl) as [Hn _]. rewrite Nat.add_0_r in Hn.
  destruct (decide (i0 = hash_block b)) as [->|Hne].
  - rewrite decide_False, decide_True by lia. by rewrite Nat.sub_diag.
  - rewrite (latest_other chain b).
    2: { eapply Forall_impl; [exact Hn|]. intros d (Hh & _) Heq. congruence. }
    destruct (decide (S i0 <= hash_block b)%nat).
    + rewrite (decide_True (P := (i0 <= _)%nat)) by lia.
      replace (hash_block b - i0)%nat with (S (hash_block b - S i0)) by lia. cbn [lookup list_lookup].
      by case_match.
    + by rewrite decide_False by lia.
Qed.

Lemma find_dirty_latest m b : wf_staging m -> find_dirty m b = latest (staged_nodes m) b.
Proof.
  intros [Hl Hc _]. unfold find_dirty, staged_nodes, bucket.
  rewrite (latest_concat _ O) by done. rewrite decide_True by lia. rewrite Nat.sub_0_r.
  destruct (tm_buckets m !! hash_block b) as [chain|] eqn:E; [|done]. cbn [default from_option].
  by apply chain_find_latest, (Hc _ _ E).
Qed.

Lemma bucket_wf m b : wf_staging m -> wf_chain (hash_block b) (bucket m (hash_block b)).
Proof.
  intros [Hl Hc _]. unfold bucket. destruct (tm_buckets m !! hash_block b) as [chain|] eqn:E.
  - by apply Hc.
  - split; constructor.
Qed.

Lemma bucket_lookup m b :
  wf_staging m -> tm_buckets m !! hash_block b = Some (bucket m (hash_block b)).
Proof.
  intros [Hl _ _]. unfold bucket. destruct (lookup_lt_is_Some_2 (tm_buckets m) (hash_block b)) as [c ->];
    [|done]. rewrite Hl. apply hash_block_lt.
Qed.

Lemma find_dirty_in m b c : wf_staging m -> find_dirty m b = Some c -> (b, c) ∈ staged_nodes m.
Proof. intros Hwf. rewrite find_dirty_latest by done. apply latest_in. Qed.

Lemma staged_dirty m d : wf_staging m -> d ∈ staged_nodes m -> is_Some (find_dirty m d.1).
Proof.
  intros Hwf Hin. rewrite find_dirty_latest by done.
  destruct (latest (staged_nodes m) d.1) as [c|] eqn:E; [by eexists|]. exfalso.
  destruct d as [b c]. by apply (proj1 (latest_none _ _) E c).
Qed.

Lemma staged_node_wf m d : wf_staging m -> d ∈ staged_nodes m -> 0 <= d.1 < 2 ^ 64 /\ length d.2 = block_len.
Proof.
  intros [_ Hc _] Hin. unfold staged_nodes in Hin. apply list_elem_of_In, in_concat in Hin as (chain & Hch & Hd).
  apply list_elem_of_In, list_elem_of_lookup in Hch as [i Hi]. apply Hc in Hi as [Hn _].
  rewrite Forall_forall in Hn. apply Hn. by apply list_elem_of_In.
Qed.

(** *** Insertion *)

Lemma length_concat_insert {A} (l : list (list A)) i x y :
  l !! i = Some x -> (length (concat (<[i := y]> l)) + length x = length (concat l) + length y)%nat.
Proof.
  revert i. induction l as [|z l IH]; intros [|i] Hi; simplify_eq/=.
  - rewrite !length_app. lia.
  - rewrite !length_app. specialize (IH _ Hi). lia.
Qed.

Lemma wf_insert_dirty m b c :
  wf_staging m -> find_dirty m b = None -> 0 <= b < 2 ^ 64 -> length c = block_len ->
  wf_staging (insert_dirty b c m).
Proof.
  intros Hwf Hn Hb Hc. pose proof (bucket_wf m b Hwf) as [Hnodes Hnd].
  pose proof (bucket_lookup m b Hwf) as Hlk. pose proof Hwf as [Hl Hch Hd].
  split; cbn [insert_dirty set_staging tm_buckets tm_ndirty].
  - by rewrite length_insert.
  - intros i chain Hi. apply list_lookup_insert_Some in Hi as [(<- & <- & _)|[_ Hi]]; [|by apply Hch].
    split; [by constructor|]. cbn [fmap list_fmap]. apply NoDup_cons_2; [|done].
    intros Hin. unfold find_dirty in Hn. rewrite (chain_find_latest _ _ Hnd), latest_none in Hn.
    apply list_elem_of_fmap in Hin as ([b' c'] & Heq & Hin). cbn in Heq. subst b'. by apply Hn in Hin.
  - unfold staged_nodes in *. cbn [set_staging tm_buckets insert_dirty].
    pose proof (length_concat_insert _ _ _ ((b, c) :: bucket m (hash_block b)) Hlk) as Hlen.
    simpl in Hlen. lia.
Qed.

Lemma find_dirty_insert_full m b c b' :
  length (tm_buckets m) = Z.to_nat LOGFS_TXN_HASH_BUCKETS ->
  find_dirty (insert_dirty b c m) b' = if decide (b = b') then Some c else find_dirty m b'.
Proof.
  intros Hl. unfold find_dirty, bucket at 1. cbn [insert_dirty set_staging tm_buckets].
  destruct (decide (hash_block b = hash_block b')) as [Hh|Hh].
  - rewrite Hh, list_lookup_insert_eq by (rewrite Hl; apply hash_block_lt).
    cbn [default from_option id chain_find fst snd]. destruct (Z.eqb_spec b b'), (decide (b = b')); done.
  - rewrite list_lookup_insert_ne, decide_False by congruence. done.
Qed.

Lemma find_dirty_insert m b c b' :
  wf_staging m ->
  find_dirty (insert_dirty b c m) b' = if decide (b = b') then Some c else find_dirty m b'.
Proof. intros Hwf. apply find_dirty_insert_full, Hwf. Qed.

(** *** Stores through a staged block's pointer *)

Lemma chain_find_store chain b c b' :
  chain_find (chain_store chain b c) b'
  = if decide (b = b') then option_map (fun _ => c) (chain_find chain b') else chain_find chain b'.
Proof.
  induction chain as [|[b1 c1] chain IH]; cbn [chain_find chain_store fst snd option_map].
  { by destruct (decide _). }
  destruct (Z.eqb_spec b1 b) as [->|Hne]; cbn [chain_find fst snd].
  - destruct (Z.eqb_spec b b') as [->|]; [by rewrite decide_True|by rewrite decide_False].
  - destruct (Z.eqb_spec b1 b') as [->|]; [by rewrite decide_False|done].
Qed.

Lemma chain_store_fst chain b c : (chain_store chain b c).*1 = chain.*1.
Proof.
  induction chain as [|[b1 c1] chain IH]; [done|]. cbn [chain_store fst].
  destruct (Z.eqb_spec b1 b) as [->|]; [done|]. cbn [fmap list_fmap fst]. by f_equal.
Qed.

Lemma wf_chain_store i chain b c :
  length c = block_len -> wf_chain i chain -> wf_chain i (chain_store chain b c).
Proof.
  intros Hc [Hn Hnd]. split; [|by rewrite chain_store_fst].
  clear Hnd. induction Hn as [|[b1 c1] chain (H1 & H2 & H3) Hn IH]; [constructor|].
  cbn [chain_store fst]. destruct (Z.eqb_spec b1 b) as [->|]; by constructor.
Qed.

Definition stored (b : Z) (c : block) (m : txn_mgr) : txn_mgr :=
  let h := hash_block b in
  set_staging (<[h := chain_store (bucket m h) b c]> (tm_buckets m)) (tm_ndirty m) m.

Lemma wf_stored m b c : wf_staging m -> length c = block_len -> wf_staging (stored b c m).
Proof.
  intros Hwf Hc. pose proof (bucket_wf m b Hwf) as Hb. pose proof (bucket_lookup m b Hwf) as Hlk.
  pose proof Hwf as [Hl Hch Hd]. split; cbn [stored set_staging tm_buckets tm_ndirty].
  - by rewrite length_insert.
  - intros i chain Hi. apply list_lookup_insert_Some in Hi as [(<- & <- & _)|[_ Hi]]; [|by apply Hch].
    by apply wf_chain_store.
  - unfold staged_nodes in *. cbn [stored set_staging tm_buckets].
    pose proof (length_concat_insert _ _ _ (chain_store (bucket m (hash_block b)) b c) Hlk) as Hlen.
    rewrite <-(length_fmap fst (chain_store _ _ _)), chain_store_fst, length_fmap in Hlen. lia.
Qed.

Lemma find_dirty_stored_full m b c b' :
  length (tm_buckets m) = Z.to_nat LOGFS_TXN_HASH_BUCKETS ->
  find_dirty (stored b c m) b'
  = if decide (b = b') then option_map (fun _ => c) (find_dirty m b') else find_dirty m b'.
Proof.
  intros Hl. unfold find_dirty, bucket at 1. cbn [stored set_staging tm_buckets].
  destruct (decide (hash_block b = hash_block b')) as [Hh|Hh].
  - rewrite Hh, list_lookup_insert_eq by (rewrite Hl; apply hash_block_lt).
    cbn [default from_option id]. apply chain_find_store.
  - rewrite list_lookup_insert_ne, decide_False by congruence. done.
Qed.

Lemma find_dirty_stored m b c b' :
  wf_staging m ->
  find_dirty (stored b c m) b'
  = if decide (b = b') then option_map (fun _ => c) (find_dirty m b') else find_dirty m b'.
Proof. intros Hwf. apply find_dirty_stored_full, Hwf. Qed.

Lemma wf_empty_buckets m n : n = 0 -> wf_staging (set_staging empty_buckets n m).
Proof.
  intros ->. split; cbn [set_staging tm_buckets tm_ndirty staged_nodes].
  - apply length_replicate.
  - intros i chain Hi. apply lookup_replicate in Hi as [-> _]. split; constructor.
  - unfold staged_nodes. cbn [set_staging tm_buckets]. reflexivity.
Qed.

(** ** The checkpoint list *)

Definition ckpt_nodes (ts : list committed_txn) : list dirty_block := concat (map ct_nodes ts).

Lemma ckpt_nodes_app l1 l2 : ckpt_nodes (l1 ++ l2) = ckpt_nodes l1 ++ ckpt_nodes l2.
Proof. unfold ckpt_nodes. by rewrite map_app, concat_app. Qed.

Lemma foldl_latest l b (acc : option block) :
  foldl (fun found (d : dirty_block) => if d.1 =? b then Some d.2 else found) acc l
  = match latest l b with Some c => Some c | None => acc end.
Proof.
  revert acc. induction l as [|[b' c] l IH]; intros acc; [done|].
  cbn [foldl latest fst snd]. rewrite IH. destruct (latest l b); [done|]. by destruct (b' =? b).
Qed.

Lemma find_checkpointed_latest m b : find_checkpointed m b = latest (ckpt_nodes (tm_ckpt m)) b.
Proof.
  unfold find_checkpointed, ckpt_nodes.
  assert (H : forall ts acc,
    foldl (fun found t => foldl (fun found (d : dirty_block) =>
        if d.1 =? b then Some d.2 else found) found (ct_nodes t)) acc ts
    = match latest (concat (map ct_nodes ts)) b with Some c => Some c | None => acc end).
  { induction ts as [|t ts IH]; intros acc; [done|]. cbn [foldl map concat].
    rewrite IH, foldl_latest, latest_app. by destruct (latest (concat _) b), (latest (ct_nodes t) b). }
  rewrite H. by destruct (latest _ b).
Qed.

Definition ltxn_of (t : committed_txn) : ltxn := mkLtxn (ct_sequence t) (ct_nodes t).

Lemma all_writes_ckpt ts : all_writes (map ltxn_of ts) = ckpt_nodes ts.
Proof. unfold all_writes, ckpt_nodes. by rewrite map_map. Qed.

(** ** The view of a reader *)

(** Staged, else committed and not yet at home, else the device. *)
Definition view (s : tst) (b : Z) : block :=
  overlay (ckpt_nodes (tm_ckpt (mg s)) ++ staged_nodes (mg s)) (content (b_disk (td s))) b.

(** What recovery would bring back, were the device to stop now. *)
Definition committed (s : tst) (b : Z) : block :=
  overlay (ckpt_nodes (tm_ckpt (mg s))) (content (b_disk (td s))) b.

Lemma view_lookup s b :
  wf_staging (mg s) ->
  view s b = match find_dirty (mg s) b with
             | Some c => c
             | None => default (content (b_disk (td s)) b) (find_checkpointed (mg s) b)
             end.
Proof.
  intros Hwf. unfold view, overlay. rewrite find_dirty_latest, find_checkpointed_latest, latest_app by done.
  by destruct (latest (staged_nodes (mg s)) b).
Qed.

(** ** The invariant *)

(** A later kernel and allocator. *)
Definition with_answers (answers : list sysret) (allocs : list bool) (s : tst) : tst :=
  mkTst (mg s) (mkBdev (b_disk (td s)) answers allocs).

(** Every transaction of the list starts where the one before it ends. *)
Fixpoint offsets_from (off : Z) (ts : list committed_txn) : Prop :=
  match ts with
  | [] => True
  | t :: ts => ct_desc_offset t = off /\ offsets_from (off + Z.of_nat (length (ct_nodes t)) + 2) ts
  end.

Record mgr_inv (s : tst) : Prop := {
  mi_staging : wf_staging (mg s);
  mi_log : log_inv (tm_journal (mg s)) (b_disk (td s)) (map ltxn_of (tm_ckpt (mg s)));
  mi_offsets : offsets_from (j_tail (tm_journal (mg s))) (tm_ckpt (mg s));
  mi_count : tm_ckpt_count (mg s) = Z.of_nat (length (tm_ckpt (mg s)));
  mi_home : home_writes (tm_journal (mg s)) (nblocks (b_disk (td s)))
              (ckpt_nodes (tm_ckpt (mg s)) ++ staged_nodes (mg s));
}.

Lemma length_txn_blocks_of t : Z.of_nat (length (txn_blocks (ltxn_of t))) = Z.of_nat (length (ct_nodes t)) + 2.
Proof. rewrite length_txn_blocks. cbn [ltxn_of l_data]. lia. Qed.

Lemma offsets_from_app off ts1 ts2 :
  offsets_from off (ts1 ++ ts2) <->
  offsets_from off ts1 /\
  offsets_from (off + Z.of_nat (length (log_blocks (map ltxn_of ts1)))) ts2.
Proof.
  revert off. induction ts1 as [|t ts1 IH]; intros off; cbn [app offsets_from map].
  - rewrite Z.add_0_r. tauto.
  - rewrite IH, length_log_blocks_cons, Nat2Z.inj_add, length_txn_blocks_of.
    replace (off + Z.of_nat (length (ct_nodes t)) + 2 + _)
      with (off + (Z.of_nat (length (ct_nodes t)) + 2 + Z.of_nat (length (log_blocks (map ltxn_of ts1))))) by lia.
    tauto.
Qed.
