(* ===== verification/TxnSafety.v ===== *)
(** The transaction manager under power failures: at every point of a
    checkpoint or a commit, what recovery brings back is what was committed
    before, or that and the whole new generation; and the manager's view of
    every block does not change. *)

From S2P Require Import Prelude.
From S2P Require Import Bytes.
From S2P Require Import DiskFormat.
From S2P Require Import Blockdev.
From S2P Require Import DiskOps.
From S2P Require Import Journal.
From S2P Require Import JournalLog.
From S2P Require Import JournalCommit.
From S2P Require Import JournalInv.
From S2P Require Import JournalRecover.
From S2P Require Import JournalReplay.
From S2P Require Import JournalSafety.
From S2P Require Import Txn.
From S2P Require Import TxnInv.

(** ** What may survive a crash *)

(** [c] can be the recovered content of block [b] when the log holds the
    writes [ws] over the device [k]: the log's copy, or else whatever of the
    home block's durable and cached contents reached the disk. *)
Definition allowed (k : disk) (ws : list (Z * block)) (b : Z) (c : block) : Prop :=
  match latest ws b with
  | Some c' => c = c'
  | None => c = persisted k b \/ (b, c) ∈ pending k
  end.

Definition survives (j : logfs_journal) (k : disk) (ws : list (Z * block)) (img : image) : Prop :=
  forall b, ~ journal_block j b -> allowed k ws b (recovered j img b).

(** A later state allows nothing an earlier one did not. *)
Definition narrows (j : logfs_journal) (k' : disk) (ws' : list (Z * block))
    (k : disk) (ws : list (Z * block)) : Prop :=
  forall b c, ~ journal_block j b -> allowed k' ws' b c -> allowed k ws b c.

Lemma narrows_refl j k ws : narrows j k ws k ws.
Proof. by intros b c. Qed.

Lemma narrows_trans j k1 ws1 k2 ws2 k3 ws3 :
  narrows j k1 ws1 k2 ws2 -> narrows j k2 ws2 k3 ws3 -> narrows j k1 ws1 k3 ws3.
Proof. intros H1 H2 b c Hb Hc. auto. Qed.

Lemma narrows_survives j k' ws' k ws img :
  narrows j k' ws' k ws -> survives j k' ws' img -> survives j k ws img.
Proof. intros Hn Hs b Hb. by apply Hn, Hs. Qed.

Lemma allowed_clean k ws b c : pending k = [] -> allowed k ws b c -> c = overlay ws (content k) b.
Proof.
  unfold allowed, overlay. intros Hp. destruct (latest ws b); [done|].
  rewrite Hp. intros [->|Hin%elem_of_nil]; [|done]. by rewrite content_clean.
Qed.

Lemma allowed_content k ws b : latest ws b = None -> allowed k ws b (content k b).
Proof.
  unfold allowed, content. intros ->. destruct (latest (pending k) b) eqn:E; [right|by left].
  by apply latest_in.
Qed.

Lemma allowed_overlay k ws b : allowed k ws b (overlay ws (content k) b).
Proof.
  destruct (latest ws b) eqn:E; unfold overlay; rewrite E; [by unfold allowed; rewrite E|].
  by apply allowed_content.
Qed.

(** A device with nothing cached that agrees with the overlay narrows it. *)
Lemma narrows_clean j k' ws' k ws :
  pending k' = [] ->
  (forall b, ~ journal_block j b -> overlay ws' (content k') b = overlay ws (content k) b) ->
  narrows j k' ws' k ws.
Proof.
  intros Hp Ho b c Hb Hc. apply (allowed_clean _ _ _ _ Hp) in Hc. rewrite Hc, Ho by done.
  apply allowed_overlay.
Qed.

(** A run that writes only blocks of [ws] over [k] keeps to what is allowed. *)
Lemma survives_run j k ops ws img :
  crash_image (run ops k) img ->
  (forall b, ~ journal_block j b -> recovered j img b = overlay ws img b) ->
  (forall b c, ~ journal_block j b -> (b, c) ∈ op_writes ops -> latest ws b <> None) ->
  survives j k ws img.
Proof.
  intros Hc Hr Hw b Hb. rewrite (Hr b Hb). unfold allowed, overlay.
  destruct (latest ws b) as [c|] eqn:E; [done|]. cbn [default from_option].
  destruct (crash_image_run _ _ _ b Hc) as [?|[?|Hin]]; auto.
  exfalso. by apply (Hw _ _ Hb) in Hin.
Qed.

Lemma latest_not_none ws b c : (b, c) ∈ ws -> latest ws b <> None.
Proof. intros Hin Hn. rewrite latest_none in Hn. by apply Hn in Hin. Qed.

Lemma log_survives j k ts img :
  log_inv j k ts -> crash_image k img -> survives j k (all_writes ts) img.
Proof.
  intros Hinv Hc. apply (survives_run j k [] _ _ Hc); [|intros b c _ Hin; by apply elem_of_nil in Hin].
  intros b _. by eapply overlay_recovers, log_inv_recovers.
Qed.

(** ** Runs that end well or leave a good image *)

Definition crash_safe {S A} (dev : S -> bdev) (P : image -> Prop) (m : M S A) (s : S)
    (Q : A -> S -> Prop) : Prop :=
  let '(r, s') := m s in
  live_io (dev s') /\ heap (dev s') = [] /\ (sys (dev s) = [] -> sys (dev s') = []) /\
  ((exists a, r = Ok a /\ Q a s') \/
   (dead (dev s') /\ forall img, crash_image (b_disk (dev s')) img -> P img)).

Section crash_safe.
Context {S : Type} (dev : S -> bdev) (P : image -> Prop).

Lemma crash_safe_ret {A} (a : A) s (Q : A -> S -> Prop) :
  live_io (dev s) -> heap (dev s) = [] -> Q a s -> crash_safe dev P (mret a) s Q.
Proof. intros. split_and!; auto. left. by exists a. Qed.

Lemma crash_safe_acts {A} (m : M S A) s ops (Q1 Q : A -> S -> Prop) :
  acts dev m s ops Q1 ->
  (forall done img, done `prefix_of` ops -> crash_image (run done (b_disk (dev s))) img -> P img) ->
  (forall a s', Q1 a s' -> live_io (dev s') -> heap (dev s') = [] ->
     b_disk (dev s') = run ops (b_disk (dev s)) -> Q a s') ->
  crash_safe dev P m s Q.
Proof.
  unfold acts, crash_safe. intros Ha HP HQ. destruct (m s) as [r s'].
  destruct Ha as (Hl & Hh & Hs & [(a & -> & H1 & Hd)|(Hdead & l & Hl1 & Hd)]); split_and!; auto.
  - left. exists a. auto.
  - right. split; [done|]. intros img Hc. rewrite Hd in Hc. by eapply HP.
Qed.

Lemma crash_safe_bind {A B} (m : M S A) (f : A -> M S B) s Q1 Q2 :
  crash_safe dev P m s Q1 ->
  (forall a s1, Q1 a s1 -> live_io (dev s1) -> heap (dev s1) = [] ->
     crash_safe dev P (f a) s1 Q2) ->
  (forall a, still dev (f a)) ->
  crash_safe dev P (m ≫= f) s Q2.
Proof.
  unfold crash_safe, mbind, M_bind. intros Hm Hf Hst. destruct (m s) as [[a|rc] s1].
  - destruct Hm as (Hl & Hh & Hs & [(a' & [= <-] & HQ)|(Hdead & HP)]).
    + specialize (Hf a s1 HQ Hl Hh). destruct (f a s1) as [r s2].
      destruct Hf as (? & ? & ? & ?). split_and!; auto.
    + destruct (Hst a s1 Hdead) as (H1 & H2 & H3). destruct (f a s1) as [r s2]. simpl in *.
      unfold live_io, dead in *. rewrite H2. split_and!; auto. right. split; [done|].
      intros img Hc. rewrite H1 in Hc. auto.
  - destruct Hm as (? & ? & ? & [(a' & ? & _)|?]); [done|]. split_and!; auto.
Qed.

Lemma crash_safe_skip {A B} (m : M S A) (f : A -> M S B) s a s1 Q :
  m s = (Ok a, s1) -> dev s1 = dev s ->
  crash_safe dev P (f a) s1 Q -> crash_safe dev P (m ≫= f) s Q.
Proof. unfold crash_safe, mbind, M_bind. intros -> Hd. destruct (f a s1). by rewrite Hd. Qed.

Lemma crash_safe_wand {A} (m : M S A) s (Q1 Q2 : A -> S -> Prop) :
  crash_safe dev P m s Q1 -> (forall a s', Q1 a s' -> Q2 a s') -> crash_safe dev P m s Q2.
Proof. unfold crash_safe. intros H HQ. destruct (m s). naive_solver. Qed.
End crash_safe.

Lemma crash_safe_weaken {S A} (dev : S -> bdev) (P1 P2 : image -> Prop) (m : M S A) s Q :
  crash_safe dev P1 m s Q -> (forall img, P1 img -> P2 img) -> crash_safe dev P2 m s Q.
Proof. unfold crash_safe. intros H HP. destruct (m s). naive_solver. Qed.

(** ** Device operations of the manager *)

Lemma acts_attempt {S A} (dev : S -> bdev) (m : M S A) s ops Q :
  acts dev m s ops Q ->
  acts dev (attempt m) s ops (fun r s' => exists a, r = Ok a /\ Q a s').
Proof.
  unfold acts, attempt. destruct (m s) as [r s'].
  intros (? & ? & ? & [(a & -> & ? & ?)|?]); split_and!; auto. left. exists (Ok a). eauto.
Qed.

Lemma acts_on_bdev {A} (m : M bdev A) s ops (Q : A -> bdev -> Prop) :
  acts (fun d => d) m (td s) ops Q ->
  acts td (on_bdev m) s ops (fun a s' => mg s' = mg s /\ Q a (td s')).
Proof. unfold acts, on_bdev, zoom. destruct (m (td s)) as [r d]. simpl. naive_solver. Qed.

Lemma acts_on_journal {A} (m : M jst A) s ops (Q : A -> jst -> Prop) :
  acts jd m (mkJst (tm_journal (mg s)) (td s)) ops Q ->
  acts td (on_journal m) s ops
    (fun a s' => exists j, mg s' = set_journal j (mg s) /\ Q a (mkJst j (td s'))).
Proof.
  unfold acts, on_journal, zoom. destruct (m _) as [r [j d]]. simpl.
  intros (? & ? & ? & [(a & ? & ? & ?)|?]); split_and!; auto. left. exists a. split_and!; eauto.
Qed.

Lemma acts_malloc d : live_io d -> heap d = [] -> acts (fun d => d) malloc d [] (fun ok d' => ok = true /\ d' = d).
Proof. intros Hl Hh. unfold acts, malloc. rewrite Hh. split_and!; auto. left. by exists true. Qed.

Lemma inert_write_nodes nodes : inert (write_nodes nodes).
Proof.
  induction nodes as [|[b c] nodes IH]; cbn [write_nodes]; [apply inert_ret|].
  apply inert_bind; [apply inert_write|done].
Qed.

Lemma acts_write_nodes nodes d :
  Forall (fun w => w.1 < nblocks (b_disk d) /\ length w.2 = block_len) nodes ->
  wf_disk (b_disk d) -> live_io d -> heap d = [] ->
  acts (fun d => d) (write_nodes nodes) d (dwrites nodes) (fun _ _ => True).
Proof.
  revert d. induction nodes as [|[b c] nodes IH]; intros d Hn Hk Hl Hh; cbn [write_nodes].
  { by apply acts_ret. }
  apply Forall_cons in Hn as [[Hb Hc] Hn]. change (dwrites ((b, c) :: nodes)) with ([DWrite b c] ++ dwrites nodes).
  eapply acts_bind; [by apply acts_write| |].
  - intros _ d1 _ Hl1 Hh1 Hd1. apply IH; [|by rewrite Hd1; apply wf_run_dop|done|done].
    by rewrite Hd1.
  - intros _. apply inert_write_nodes.
Qed.

Lemma acts_advance j d off seq :
  wf_geometry j (nblocks (b_disk d)) -> wf_disk (b_disk d) -> live_io d -> heap d = [] ->
  acts jd (logfs_journal_advance_tail off seq) (mkJst j d) (advance_ops j off seq)
    (fun _ s' => jr s' = advance_tail_to j off).
Proof.
  intros Hj Hk Hl Hh. apply performs_acts; [|done..].
  apply performs_advance; auto using live_whole.
Qed.

Lemma still_on_bdev {A} (m : M bdev A) : inert m -> still td (on_bdev m).
Proof. intros Hm s Hs. unfold on_bdev, zoom. specialize (Hm (td s) Hs). by destruct (m (td s)). Qed.

Lemma still_on_journal {A} (m : M jst A) : still jd m -> still td (on_journal m).
Proof.
  intros Hm s Hs. unfold on_journal, zoom. specialize (Hm (mkJst (tm_journal (mg s)) (td s)) Hs).
  by destruct (m _).
Qed.

Lemma still_nodev_mgr {A} (m : M tst A) : (forall s, td (m s).2 = td s) -> still td m.
Proof. intros H s Hs. by rewrite H. Qed.

Lemma still_checkpoint_advance : still td checkpoint_advance.
Proof.
  unfold checkpoint_advance. apply still_bind; [by apply still_nodev_mgr|]. intros m.
  destruct (checkpoint_tail m). apply still_on_journal. unfold logfs_journal_advance_tail. solve_still.
Qed.

Lemma still_checkpoint_oldest : still td checkpoint_oldest.
Proof.
  unfold checkpoint_oldest, checkpoint_take. apply still_bind.
  { apply still_bind; [by apply still_nodev_mgr|]. intros m. destruct (tm_ckpt m); by apply still_nodev_mgr. }
  intros [t|]; [|by apply still_nodev_mgr]. apply still_bind; [|intros r; by apply still_nodev_mgr].
  assert (H : still td (checkpoint_home t)).
  { unfold checkpoint_home. apply still_bind; [apply still_on_bdev, inert_write_nodes|].
    intros _. apply still_bind; [apply still_on_bdev, inert_flush|]. intros _.
    apply still_checkpoint_advance. }
  intros s Hs. unfold attempt. specialize (H s Hs). by destruct (checkpoint_home t s).
Qed.

(** ** Checkpointing one transaction *)

Definition checkpoint_ops (j : logfs_journal) (t : committed_txn) (off seq : Z) : list dop :=
  (dwrites (ct_nodes t) ++ [DFlush]) ++ advance_ops j off seq.

Definition checkpointed_mgr (rest : list committed_txn) (m : txn_mgr) : txn_mgr :=
  let m' := set_ckpt rest (tm_ckpt_count m - 1) m in
  set_journal (advance_tail_to (tm_journal m) (checkpoint_tail m').1) m'.

Section checkpoint.
Context (s : tst) (t : committed_txn) (rest : list committed_txn).
Hypothesis Hinv : mgr_inv s.
Hypothesis Hck : tm_ckpt (mg s) = t :: rest.

Let j := tm_journal (mg s).
Let k := b_disk (td s).
Let m1 := set_ckpt rest (tm_ckpt_count (mg s) - 1) (mg s).
Let off := (checkpoint_tail m1).1.
Let seq := (checkpoint_tail m1).2.

Lemma ckpt_log : log_inv j k ([ltxn_of t] ++ map ltxn_of rest).
Proof. pose proof (mi_log _ Hinv) as H. by rewrite Hck in H. Qed.

(** The new tail is where the log's first remaining transaction starts. *)
Lemma checkpoint_tail_eq :
  off = j_tail j + Z.of_nat (length (log_blocks [ltxn_of t])) /\
  seq = first_seq j (map ltxn_of rest).
Proof.
  pose proof (mi_offsets _ Hinv) as Ho. rewrite Hck in Ho. destruct Ho as [_ Ho].
  pose proof ckpt_log as Hl. pose proof (li_seqs _ _ _ Hl) as Hs. apply seqs_from_app in Hs as [_ Hs].
  pose proof (li_head _ _ _ Hl) as Hh. rewrite log_blocks_app, length_app in Hh.
  assert (Hlen : Z.of_nat (length (log_blocks [ltxn_of t])) = Z.of_nat (length (ct_nodes t)) + 2).
  { rewrite length_log_blocks_cons, Nat2Z.inj_add, length_txn_blocks_of.
    change (log_blocks []) with (@nil block). simpl. lia. }
  unfold off, seq, checkpoint_tail, m1. cbn [set_ckpt tm_ckpt tm_journal]. fold j.
  destruct rest as [|t' rest']; cbn [fst snd map].
  - unfold first_seq. cbn [length log_blocks map concat] in *. lia.
  - destruct Ho as [Ho _]. destruct Hs as [Hs _]. cbn [ltxn_of l_seq map] in Hs.
    fold j in Ho. split; [lia|]. rewrite Hs. unfold first_seq. rewrite length_app. cbn [length]. lia.
Qed.

Lemma nodes_home : home_writes j (nblocks k) (ct_nodes t).
Proof.
  pose proof (mi_home _ Hinv) as H. rewrite Hck in H. unfold home_writes in *.
  apply Forall_app in H as [H _]. unfold ckpt_nodes in H. cbn [map concat] in H.
  by apply Forall_app in H as [? _].
Qed.

Lemma nodes_whole : Forall (fun w => length w.2 = block_len) (ct_nodes t).
Proof.
  pose proof (li_txns _ _ _ ckpt_log) as H. apply Forall_cons in H as [H _].
  eapply Forall_impl; [apply (wft_data _ H)|]. simpl. tauto.
Qed.

Lemma nodes_home_ops : Forall (home_op j) (dwrites (ct_nodes t) ++ [DFlush]).
Proof.
  apply Forall_app_2; [|by repeat constructor]. unfold dwrites. apply Forall_map.
  apply Forall_forall. intros w Hw. pose proof nodes_home as H1. pose proof nodes_whole as H2.
  unfold home_writes in H1. rewrite Forall_forall in H1, H2. split; [by apply H2|by apply H1].
Qed.

Lemma acts_checkpoint_oldest :
  live_io (td s) -> heap (td s) = [] ->
  acts td checkpoint_oldest s (checkpoint_ops j t off seq)
    (fun r s' => r = 1 /\ mg s' = checkpointed_mgr rest (mg s)).
Proof.
  intros Hl Hh. unfold checkpoint_oldest.
  eapply acts_skip with (a := Some t) (s1 := mkTst m1 (td s)); [|done|].
  { unfold checkpoint_take, mbind, M_bind, gets. by rewrite Hck. }
  rewrite <-(app_nil_r (checkpoint_ops _ _ _ _)). eapply acts_bind.
  - apply acts_attempt. unfold checkpoint_home, checkpoint_ops. rewrite <-app_assoc.
    eapply acts_bind; [apply acts_on_bdev, acts_write_nodes; cbn [td]; [|apply ckpt_log|done|done]| |].
    + apply Forall_forall. intros w Hw. pose proof nodes_home as H1. pose proof nodes_whole as H2.
      unfold home_writes in H1. rewrite Forall_forall in H1, H2. split; [by apply H1|by apply H2].
    + intros _ s1 [Hm1 _] Hl1 Hh1 Hd1. eapply acts_bind; [by apply acts_on_bdev, acts_flush| |].
      * intros _ s2 [Hm2 _] Hl2 Hh2 Hd2. eapply acts_skip; [done|done|].
        rewrite Hm2, Hm1. cbn [mg]. fold m1.
        rewrite (surjective_pairing (checkpoint_tail m1)). fold off seq.
        eapply acts_wand; [apply acts_on_journal|].
        { rewrite Hm2, Hm1. cbn [mg m1 set_ckpt tm_journal]. apply acts_advance; try done.
          - rewrite Hd2, nblocks_run, Hd1, nblocks_run. apply ckpt_log.
          - rewrite Hd2, Hd1. apply wf_run; [apply wf_run; [apply ckpt_log|]|by repeat constructor].
            apply Forall_map. eapply Forall_impl; [apply nodes_whole|]. done. }
        intros r s3 (j' & Hm3 & Hj'). cbn [jr] in Hj'.
        rewrite Hm2, Hm1, Hj' in Hm3. exact Hm3.
      * intros _. apply still_checkpoint_advance.
    + intros _. apply still_bind; [apply still_on_bdev, inert_flush|]. intros _.
      apply still_checkpoint_advance.
  - intros r s1 (a & -> & Hm) Hl1 Hh1 _. apply acts_ret; [done|done|].
    split; [done|]. exact Hm.
  - intros r. by apply still_nodev_mgr.
Qed.

Let k1 := run (dwrites (ct_nodes t) ++ [DFlush]) k.

Lemma log_inv_home_done done :
  done `prefix_of` dwrites (ct_nodes t) ++ [DFlush] -> log_inv j (run done k) ([ltxn_of t] ++ map ltxn_of rest).
Proof.
  intros [l Hl]. apply log_inv_home_ops; [apply ckpt_log|].
  pose proof nodes_home_ops as H. rewrite Hl in H. by apply Forall_app in H as [? _].
Qed.

Lemma nodes_checkpointed : checkpointed k1 [ltxn_of t] (map ltxn_of rest).
Proof.
  intros b c Hb _. assert (Hp : pending k1 = []) by apply pending_flush_run.
  split; [|intros c' Hin; rewrite Hp in Hin; by apply elem_of_nil in Hin].
  unfold k1. rewrite content_run, op_writes_app, op_writes_dwrites, app_nil_r.
  change (all_writes [ltxn_of t]) with (ct_nodes t ++ []) in Hb. rewrite app_nil_r in Hb. by rewrite Hb.
Qed.

Lemma ckpt_writes_split : all_writes ([ltxn_of t] ++ map ltxn_of rest) = ckpt_nodes (tm_ckpt (mg s)).
Proof. by rewrite <-all_writes_ckpt, Hck. Qed.

Lemma checkpoint_crash done img :
  done `prefix_of` checkpoint_ops j t off seq -> crash_image (run done k) img ->
  survives j k (ckpt_nodes (tm_ckpt (mg s))) img.
Proof.
  intros Hp Hc. apply (survives_run j k done); [done| |].
  - intros b Hb. rewrite <-ckpt_writes_split. unfold checkpoint_ops in Hp.
    destruct checkpoint_tail_eq as [Hoff Hseq].
    apply prefix_app_inv in Hp as [Hp|(l & -> & Hp)].
    + apply overlay_recovers. eapply log_inv_recovers; [by apply log_inv_home_done|done].
    + rewrite run_app in Hc. rewrite Hoff, Hseq in Hp.
      eapply (truncate_crash j k1); [by apply log_inv_home_done|apply nodes_checkpointed|done|done|].
      intros ->. apply Hb. by left.
  - intros b c Hb Hin. apply (op_writes_prefix _ _ _ Hp) in Hin. unfold checkpoint_ops in Hin.
    rewrite !op_writes_app, op_writes_dwrites, app_nil_r in Hin. apply elem_of_app in Hin as [Hin|Hin].
    + rewrite Hck. unfold ckpt_nodes. cbn [map concat]. apply (latest_not_none _ _ c). set_solver.
    + apply list_elem_of_singleton in Hin. injection Hin as -> _. destruct Hb. by left.
Qed.

Let s' (d' : bdev) := mkTst (checkpointed_mgr rest (mg s)) d'.

Lemma content_checkpointed b :
  b <> LOGFS_JSUPER_BLOCKNO ->
  content (run (checkpoint_ops j t off seq) k) b = default (content k b) (latest (ct_nodes t) b).
Proof.
  intros Hb. destruct checkpoint_tail_eq as [Hoff Hseq]. unfold checkpoint_ops.
  rewrite Hoff, Hseq, run_app, content_truncated by done.
  by rewrite content_run, op_writes_app, op_writes_dwrites, app_nil_r.
Qed.

Lemma mgr_inv_checkpointed d' :
  b_disk d' = run (checkpoint_ops j t off seq) k -> mgr_inv (s' d').
Proof.
  intros Hd. destruct checkpoint_tail_eq as [Hoff Hseq].
  pose proof (mi_offsets _ Hinv) as Ho. rewrite Hck in Ho. destruct Ho as [_ Ho].
  pose proof (mi_count _ Hinv) as Hn. rewrite Hck in Hn.
  pose proof (mi_home _ Hinv) as Hh. rewrite Hck in Hh. unfold ckpt_nodes in Hh. cbn [map concat] in Hh.
  unfold home_writes in Hh. rewrite <-app_assoc in Hh. apply Forall_app in Hh as [_ Hh].
  split; cbn [s' mg td]; unfold checkpointed_mgr; fold m1 off; cbn [set_journal tm_journal tm_ckpt tm_ckpt_count m1 set_ckpt].
  - pose proof (mi_staging _ Hinv) as [? ? ?]. by split.
  - rewrite Hd. unfold checkpoint_ops. rewrite run_app. rewrite Hoff, Hseq.
    apply log_inv_after_truncate. by apply log_inv_home_done.
  - cbn [advance_tail_to j_tail]. rewrite Hoff. fold j in Ho.
    replace (j_tail j + _) with (j_tail j + Z.of_nat (length (ct_nodes t)) + 2); [done|].
    rewrite length_log_blocks_cons, Nat2Z.inj_add, length_txn_blocks_of.
    change (log_blocks []) with (@nil block). simpl. lia.
  - rewrite Hn. simpl. lia.
  - rewrite Hd, nblocks_run. exact Hh.
Qed.

Lemma view_checkpointed d' b :
  b_disk d' = run (checkpoint_ops j t off seq) k -> b <> LOGFS_JSUPER_BLOCKNO ->
  view (s' d') b = view s b /\ committed (s' d') b = committed s b.
Proof.
  intros Hd Hb. unfold view, committed. cbn [s' mg td]. rewrite Hck, Hd.
  unfold checkpointed_mgr, overlay, staged_nodes, ckpt_nodes.
  cbn [set_journal tm_ckpt set_ckpt tm_buckets map concat].
  rewrite content_checkpointed, <-app_assoc, !latest_app by done.
  destruct (latest (concat (tm_buckets (mg s))) b), (latest (concat (map ct_nodes rest)) b),
    (latest (ct_nodes t) b); done.
Qed.

Lemma checkpoint_narrows d' :
  b_disk d' = run (checkpoint_ops j t off seq) k ->
  narrows j (b_disk d') (ckpt_nodes rest) k (ckpt_nodes (tm_ckpt (mg s))).
Proof.
  intros Hd. apply narrows_clean.
  - rewrite Hd. unfold checkpoint_ops. by rewrite run_app.
  - intros b Hb. destruct (view_checkpointed d' b Hd) as [_ H]; [|exact H].
    intros ->. apply Hb. by left.
Qed.
End checkpoint.

(** ** Checkpointing any number of them *)

(** [s'] is [s] with some of its oldest transactions checkpointed. *)
Record checkpoints (s s' : tst) : Prop := {
  cp_inv : mgr_inv s';
  cp_narrows : narrows (tm_journal (mg s)) (b_disk (td s')) (ckpt_nodes (tm_ckpt (mg s')))
                 (b_disk (td s)) (ckpt_nodes (tm_ckpt (mg s)));
  cp_view : forall b, b <> LOGFS_JSUPER_BLOCKNO ->
              view s' b = view s b /\ committed s' b = committed s b;
  cp_same : mg s' = set_journal (advance_tail_to (tm_journal (mg s)) (j_tail (tm_journal (mg s'))))
                      (set_ckpt (tm_ckpt (mg s')) (tm_ckpt_count (mg s')) (mg s));
  cp_nblocks : nblocks (b_disk (td s')) = nblocks (b_disk (td s));
  cp_suffix : tm_ckpt (mg s') `suffix_of` tm_ckpt (mg s);
}.

Lemma mgr_eta m : set_journal (advance_tail_to (tm_journal m) (j_tail (tm_journal m)))
  (set_ckpt (tm_ckpt m) (tm_ckpt_count m) m) = m.
Proof. by destruct m as [[]]. Qed.

Lemma checkpoints_refl s : mgr_inv s -> checkpoints s s.
Proof. intros H. split; try done; [apply narrows_refl|symmetry; apply mgr_eta]. Qed.

Lemma checkpoints_nodes s s' w :
  checkpoints s s' -> w ∈ ckpt_nodes (tm_ckpt (mg s')) -> w ∈ ckpt_nodes (tm_ckpt (mg s)).
Proof.
  intros Hc Hw. destruct (cp_suffix _ _ Hc) as [l ->]. rewrite ckpt_nodes_app. apply elem_of_app. by right.
Qed.

Lemma checkpoints_region s s' :
  checkpoints s s' -> same_region (tm_journal (mg s)) (tm_journal (mg s')).
Proof. intros H. rewrite (cp_same _ _ H). by split. Qed.

(** An empty list stays empty, and the journal with it. *)
Lemma checkpoints_idle s s' :
  mgr_inv s -> checkpoints s s' -> tm_ckpt (mg s) = [] -> tm_journal (mg s') = tm_journal (mg s).
Proof.
  intros Hinv Hc Hck. pose proof (cp_suffix _ _ Hc) as Hsuf. rewrite Hck in Hsuf.
  apply suffix_nil_inv in Hsuf.
  pose proof (li_head _ _ _ (mi_log _ Hinv)) as H1. pose proof (li_head _ _ _ (mi_log _ (cp_inv _ _ Hc))) as H2.
  rewrite Hck in H1. rewrite Hsuf in H2. pose proof (cp_same _ _ Hc) as Hs.
  assert (E : tm_journal (mg s') = advance_tail_to (tm_journal (mg s)) (j_tail (tm_journal (mg s'))))
    by (rewrite Hs at 1; reflexivity).
  assert (Hh : j_head (tm_journal (mg s')) = j_head (tm_journal (mg s))) by (rewrite E; reflexivity).
  assert (Ht : j_tail (tm_journal (mg s')) = j_tail (tm_journal (mg s))) by (cbn in H1, H2; lia).
  rewrite Ht in E. rewrite E. by destruct (tm_journal (mg s)).
Qed.

Lemma same_region_blocks j1 j2 b : same_region j1 j2 -> journal_block j1 b <-> journal_block j2 b.
Proof. intros [Hf Hm]. unfold journal_block, in_log. by rewrite Hf, Hm. Qed.

Lemma narrows_region j1 j2 k' ws' k ws :
  same_region j1 j2 -> narrows j1 k' ws' k ws -> narrows j2 k' ws' k ws.
Proof. intros Hr Hn b c Hb. apply Hn. by rewrite same_region_blocks. Qed.

Lemma survives_region j1 j2 nb k ws img :
  same_region j1 j2 -> wf_geometry j1 nb -> survives j1 k ws img -> survives j2 k ws img.
Proof.
  intros Hr Hj Hs b Hb. rewrite <-(recovered_ext j1 j2 nb img img); try done.
  apply Hs. by rewrite same_region_blocks.
Qed.

Lemma same_region_sym j1 j2 : same_region j1 j2 -> same_region j2 j1.
Proof. intros [? ?]. by split. Qed.

Lemma checkpoints_step s s1 d' t rest :
  checkpoints s s1 -> tm_ckpt (mg s1) = t :: rest ->
  let seq_off := checkpoint_tail (set_ckpt rest (tm_ckpt_count (mg s1) - 1) (mg s1)) in
  b_disk d' = run (checkpoint_ops (tm_journal (mg s1)) t seq_off.1 seq_off.2) (b_disk (td s1)) ->
  checkpoints s (mkTst (checkpointed_mgr rest (mg s1)) d').
Proof.
  intros Hc Hck so Hd. pose proof (cp_inv _ _ Hc) as Hinv. split.
  - by eapply mgr_inv_checkpointed.
  - eapply narrows_trans; [|apply (cp_narrows _ _ Hc)].
    eapply narrows_region; [apply same_region_sym, (checkpoints_region _ _ Hc)|].
    by apply (checkpoint_narrows _ _ _ Hinv Hck).
  - intros b Hb. destruct (view_checkpointed _ _ _ Hinv Hck d' b Hd Hb) as [-> ->].
    by apply (cp_view _ _ Hc).
  - cbn [mg]. pose proof (cp_same _ _ Hc) as Hs. revert Hs.
    generalize (tm_ckpt (mg s1)) (tm_ckpt_count (mg s1)) (j_tail (tm_journal (mg s1))).
    intros ck n tl ->. reflexivity.
  - cbn [td]. rewrite Hd, nblocks_run. apply (cp_nblocks _ _ Hc).
  - cbn [mg]. etrans; [|apply (cp_suffix _ _ Hc)]. rewrite Hck. by apply suffix_cons_r.
Qed.

Lemma still_checkpoint_while need fuel : still td (checkpoint_while need fuel).
Proof.
  induction fuel as [|fuel IH]; cbn [checkpoint_while]; [by apply still_nodev_mgr|].
  apply still_bind; [by apply still_nodev_mgr|]. intros [|]; cbn [negb]; [|by apply still_nodev_mgr].
  apply still_bind; [apply still_checkpoint_oldest|]. intros r.
  destruct (r <=? 0); [by apply still_nodev_mgr|done].
Qed.

(** A crash while [s'] checkpoints leaves what a crash in [s] could. *)
Lemma checkpoints_survives s s1 img :
  mgr_inv s -> checkpoints s s1 ->
  survives (tm_journal (mg s1)) (b_disk (td s1)) (ckpt_nodes (tm_ckpt (mg s1))) img ->
  survives (tm_journal (mg s)) (b_disk (td s)) (ckpt_nodes (tm_ckpt (mg s))) img.
Proof.
  intros Hinv Hc Hs. eapply narrows_survives; [apply (cp_narrows _ _ Hc)|].
  eapply survives_region; [apply same_region_sym, (checkpoints_region _ _ Hc)| |exact Hs].
  apply (mi_log _ (cp_inv _ _ Hc)).
Qed.

Lemma checkpoint_while_safe need fuel s s1 :
  mgr_inv s -> checkpoints s s1 -> (length (tm_ckpt (mg s1)) < fuel)%nat ->
  live_io (td s1) -> heap (td s1) = [] ->
  crash_safe td (survives (tm_journal (mg s)) (b_disk (td s)) (ckpt_nodes (tm_ckpt (mg s))))
    (checkpoint_while need fuel) s1
    (fun _ s' => checkpoints s s' /\ (need s' = false \/ tm_ckpt (mg s') = []) /\
       (tm_ckpt (mg s') = tm_ckpt (mg s1) \/
        exists s0 t, checkpoints s s0 /\ need s0 = true /\ tm_ckpt (mg s0) = t :: tm_ckpt (mg s'))).
Proof.
  intros Hinv. revert s1. induction fuel as [|fuel IH]; intros s1 Hc Hf Hl Hh; [lia|].
  cbn [checkpoint_while]. eapply crash_safe_skip; [done|done|].
  destruct (need s1) eqn:Hneed; cbn [negb]; [|apply crash_safe_ret; auto].
  destruct (tm_ckpt (mg s1)) as [|t rest] eqn:Hck.
  { eapply crash_safe_skip with (a := 0) (s1 := s1); [|done|].
    - unfold checkpoint_oldest, checkpoint_take, mbind, M_bind, gets. by rewrite Hck.
    - apply crash_safe_ret; [done|done|]. by split; [|split; [right|left]]. }
  pose proof (cp_inv _ _ Hc) as Hinv1.
  eapply crash_safe_bind with (Q1 := fun r s' => r = 1 /\ checkpoints s s' /\
    tm_ckpt (mg s') = rest).
  - eapply crash_safe_acts; [by apply acts_checkpoint_oldest| |].
    + intros l img Hp Hcr. eapply checkpoints_survives; [done|done|].
      eapply checkpoint_crash; [exact Hinv1|exact Hck|exact Hp|exact Hcr].
    + intros r s' (-> & Hm) Hl' Hh' Hd. split; [done|].
      destruct s' as [m' d']. cbn [mg td] in Hm, Hd |- *. subst m'.
      split; [by eapply checkpoints_step|done].
  - intros r s' (-> & Hc' & Hr) Hl' Hh'. change (1 <=? 0) with false. cbv iota.
    eapply crash_safe_wand; [apply IH; [done| |done|done]; rewrite Hr; simpl in Hf; lia|].
    intros u s2 (Hc2 & Hend & Hlast). split; [done|]. split; [done|]. right.
    destruct Hlast as [->|Hlast]; [|done]. exists s1, t. by rewrite Hck, Hr.
  - intros r. destruct (r <=? 0); [by apply still_nodev_mgr|apply still_checkpoint_while].
Qed.

(** ** Draining the list *)

Lemma still_drain_loop fuel : still td (drain_loop fuel).
Proof.
  induction fuel as [|fuel IH]; cbn [drain_loop]; [by apply still_nodev_mgr|].
  apply still_bind; [apply still_checkpoint_oldest|]. intros r.
  destruct (r =? 1); [done|by apply still_nodev_mgr].
Qed.

Lemma drain_loop_safe fuel s s1 :
  mgr_inv s -> checkpoints s s1 -> (length (tm_ckpt (mg s1)) < fuel)%nat ->
  live_io (td s1) -> heap (td s1) = [] ->
  crash_safe td (survives (tm_journal (mg s)) (b_disk (td s)) (ckpt_nodes (tm_ckpt (mg s))))
    (drain_loop fuel) s1 (fun _ s' => checkpoints s s' /\ tm_ckpt (mg s') = []).
Proof.
  intros Hinv. revert s1. induction fuel as [|fuel IH]; intros s1 Hc Hf Hl Hh; [lia|].
  cbn [drain_loop]. destruct (tm_ckpt (mg s1)) as [|t rest] eqn:Hck.
  { eapply crash_safe_skip with (a := 0) (s1 := s1); [|done|].
    - unfold checkpoint_oldest, checkpoint_take, mbind, M_bind, gets. by rewrite Hck.
    - apply crash_safe_ret; auto. }
  pose proof (cp_inv _ _ Hc) as Hinv1.
  eapply crash_safe_bind with (Q1 := fun r s' => r = 1 /\ checkpoints s s' /\ tm_ckpt (mg s') = rest).
  - eapply crash_safe_acts; [by apply acts_checkpoint_oldest| |].
    + intros l img Hp Hcr. eapply checkpoints_survives; [done|done|].
      eapply checkpoint_crash; [exact Hinv1|exact Hck|exact Hp|exact Hcr].
    + intros r s' (-> & Hm) Hl' Hh' Hd. split; [done|].
      destruct s' as [m' d']. cbn [mg td] in Hm, Hd |- *. subst m'.
      split; [by eapply checkpoints_step|done].
  - intros r s' (-> & Hc' & Hr) Hl' Hh'. change (1 =? 1) with true. cbv iota.
    apply IH; [done| |done|done]. rewrite Hr. simpl in Hf. lia.
  - intros r. destruct (r =? 1); [apply still_drain_loop|by apply still_nodev_mgr].
Qed.

(** ** The loops stop, whatever fails

    A turn that reports progress has taken a transaction off the list. *)

Lemma checkpoint_home_keeps t s : tm_ckpt (mg (checkpoint_home t s).2) = tm_ckpt (mg s).
Proof.
  unfold checkpoint_home, checkpoint_advance, mbind, M_bind, on_bdev, on_journal, zoom, gets.
  destruct (write_nodes (ct_nodes t) (td s)) as [[[]|rc] d1]; [|done]. cbn [td mg].
  destruct (logfs_bdev_flush d1) as [[[]|rc] d2]; [|done]. cbn [td mg].
  destruct (checkpoint_tail (mg s)) as [off seq].
  destruct (logfs_journal_advance_tail off seq _) as [r [j d3]]. done.
Qed.

Lemma checkpoint_oldest_takes s r s' :
  checkpoint_oldest s = (r, s') ->
  exists rc, r = Ok rc /\ (rc = 0 \/ (length (tm_ckpt (mg s')) < length (tm_ckpt (mg s)))%nat).
Proof.
  unfold checkpoint_oldest, checkpoint_take, mbind, M_bind, gets, attempt.
  destruct (tm_ckpt (mg s)) as [|t rest] eqn:Hck.
  { intros [= <- <-]. exists 0. by split; [|left]. }
  unfold modify, mret, M_ret. cbv beta iota. set (s1 := set_mgr _ s).
  pose proof (checkpoint_home_keeps t s1) as Hk. destruct (checkpoint_home t s1) as [[[]|rc] s2].
  - intros [= <- <-]. exists 1. split; [done|]. right. cbn [snd] in Hk. rewrite Hk. simpl. lia.
  - intros [= <- <-]. exists rc. split; [done|]. right. cbn [snd] in Hk. rewrite Hk. simpl. lia.
Qed.

Lemma checkpoint_while_ends need fuel s :
  (length (tm_ckpt (mg s)) < fuel)%nat -> (checkpoint_while need fuel s).1 = Ok tt.
Proof.
  revert s. induction fuel as [|fuel IH]; intros s Hf; [lia|]. cbn [checkpoint_while].
  unfold mbind, M_bind, gets. destruct (negb (need s)); [done|].
  destruct (checkpoint_oldest s) as [r s1] eqn:E. apply checkpoint_oldest_takes in E as (rc & -> & Hc).
  destruct (rc <=? 0) eqn:Hrc; [done|]. apply IH. destruct Hc as [->|]; [done|lia].
Qed.

Lemma drain_loop_ends fuel s :
  (length (tm_ckpt (mg s)) < fuel)%nat -> (drain_loop fuel s).1 = Ok tt.
Proof.
  revert s. induction fuel as [|fuel IH]; intros s Hf; [lia|]. cbn [drain_loop].
  unfold mbind, M_bind. destruct (checkpoint_oldest s) as [r s1] eqn:E.
  apply checkpoint_oldest_takes in E as (rc & -> & Hc).
  destruct (rc =? 1) eqn:Hrc; [|done]. apply IH. destruct Hc as [->|]; [done|lia].
Qed.
