(* ===== verification/TxnCommit.v ===== *)
(** One turn of the commit thread, from the swap of the staging table to the
    checkpoint lag: it keeps the manager's invariant and view, makes the
    generation durable, and is atomic under power failures. *)

From S2P Require Import Prelude.
From S2P Require Import Bytes.
From S2P Require Import DiskFormat.
From S2P Require Import Blockdev.
From S2P Require Import DiskOps.
From S2P Require Import Journal.
From S2P Require Import JournalLog.
From S2P Require Import JournalCommit.
From S2P Require Import JournalInv.
From S2P Require Import JournalRecover.
From S2P Require Import JournalReplay.
From S2P Require Import JournalSafety.
From S2P Require Import Txn.
From S2P Require Import TxnInv.
From S2P Require Import TxnSafety.

(** ** The swap *)

Definition swapped (m : txn_mgr) : txn_mgr :=
  set_freezing false (set_requested false (set_ordered [] 0 (set_staging empty_buckets 0 m))).

Lemma concat_nil_inv {A} (l : list (list A)) : concat l = [] -> l = replicate (length l) [].
Proof.
  induction l as [|x l IH]; [done|]. cbn [concat length replicate].
  intros [-> Hl]%app_eq_nil. by rewrite <-IH.
Qed.

Lemma staged_nil_buckets m : wf_staging m -> staged_nodes m = [] -> tm_buckets m = empty_buckets.
Proof.
  intros [Hl _ _] Hn. unfold empty_buckets. rewrite <-Hl. by apply concat_nil_inv.
Qed.

Lemma commit_swap_eq s :
  wf_staging (mg s) -> heap (td s) = [] ->
  commit_swap s
  = (Ok (if tm_ndirty (mg s) =? 0 then None else Some (staged_nodes (mg s)),
         tm_ndirty (mg s), Z.of_nat (length (tm_ordered_blocks (mg s)))),
     mkTst (swapped (mg s)) (td s)).
Proof.
  intros Hwf Hh. unfold commit_swap, flatten_and_clear.
  destruct s as [m d]. cbn [mg td] in *.
  destruct (Z.eqb_spec (tm_ndirty m) 0) as [Hz|Hz]; unfold mbind, M_bind, gets; cbn [mg td].
  - rewrite Hz. cbn. pose proof (wfs_ndirty _ Hwf) as Hn.
    assert (Hnil : staged_nodes m = []) by (apply nil_length_inv; lia).
    unfold mret, M_ret, set_mgr, swapped. cbn [mg td].
    by rewrite (staged_nil_buckets _ Hwf Hnil).
  - rewrite (proj2 (Z.eqb_neq _ _) Hz). unfold on_bdev, zoom, malloc. cbn [td]. rewrite Hh.
    destruct d as [k sy hp]. cbn in Hh |- *. by subst hp.
Qed.

Lemma mgr_inv_swapped s : mgr_inv s -> mgr_inv (mkTst (swapped (mg s)) (td s)).
Proof.
  intros [Hst Hl Ho Hc Hh]. split; try done.
  - destruct (wf_empty_buckets (mg s) 0 eq_refl) as [? ? ?]. by split.
  - cbn [mg td swapped set_freezing set_requested set_ordered set_staging tm_ckpt tm_journal].
    unfold home_writes in *. apply Forall_app in Hh as [Hh _]. apply Forall_app_2; [exact Hh|].
    unfold staged_nodes. cbn [swapped set_freezing set_requested set_ordered set_staging tm_buckets].
    change (concat empty_buckets) with (@nil dirty_block). constructor.
Qed.

(** ** The flush of ordered data *)

Lemma mgr_inv_flush s d' :
  mgr_inv s -> b_disk d' = disk_flush (b_disk (td s)) -> checkpoints s (mkTst (mg s) d').
Proof.
  intros [Hst Hl Ho Hc Hh] Hd. split.
  - split; cbn [mg td]; rewrite ?Hd; try done.
    apply (log_inv_home_op _ _ _ DFlush); [done|by split].
  - cbn [mg td]. apply narrows_clean; [by rewrite Hd|]. intros b _. rewrite Hd. unfold overlay.
    by rewrite content_flush.
  - intros b _. unfold view, committed, overlay. cbn [mg td]. by rewrite Hd, content_flush.
  - symmetry. apply mgr_eta.
  - cbn [td]. by rewrite Hd.
  - done.
Qed.

(** ** The journal commit of a generation *)

Lemma narrows_app j k' ws' k ws nodes :
  narrows j k' ws' k ws -> narrows j k' (ws' ++ nodes) k (ws ++ nodes).
Proof.
  intros Hn b c Hb. specialize (Hn b c Hb). unfold allowed in *. rewrite !latest_app.
  by destruct (latest nodes b).
Qed.

Lemma live_acts_commit j d ts nodes :
  log_inv j (b_disk d) ts -> loggable j nodes -> log_room j ts nodes ->
  live_io d -> heap d = [] ->
  acts jd (logfs_journal_commit nodes []) (mkJst j d) (commit_ops j nodes [])
    (fun r s' => r = (j_next_sequence j, j_head j) /\ jr s' = after_commit j nodes []).
Proof.
  intros Hinv Hlog Hroom Hl Hh. apply performs_acts; [|done..].
  eapply (performs_commit nodes [] (mkJst j d)).
  apply (commit_is_ready j d ts nodes); auto using live_whole.
Qed.

Lemma inert_write_data_blocks j cursor data : inert (write_data_blocks j cursor data).
Proof.
  revert cursor. induction data as [|w data IH]; intros cursor; cbn [write_data_blocks];
    unfold write_logical; solve_inert.
Qed.

Lemma inert_write_body j desc rv data : inert (write_body j desc rv data).
Proof.
  unfold write_body, write_logical. apply inert_bind; [apply inert_write|]. intros _.
  apply inert_bind; [destruct rv; solve_inert|]. intros c. apply inert_write_data_blocks.
Qed.

Lemma inert_write_commit j cursor c : inert (write_commit j cursor c).
Proof. unfold write_commit, write_logical. solve_inert. Qed.

Lemma inert_jsuper_write j start seq : inert (jsuper_write j start seq).
Proof. unfold jsuper_write, logfs_bdev_write_fua. solve_inert. Qed.

Lemma still_commit nodes revoke : still jd (logfs_journal_commit nodes revoke).
Proof.
  unfold logfs_journal_commit. apply still_bind; [by apply still_nodev|]. intros j. cbv zeta.
  destruct (_ =? 0); [by apply still_nodev|]. destruct (_ <? _); [by apply still_nodev|].
  apply still_bind; [apply still_on_dev, inert_write_body|]. intros c.
  apply still_bind; [apply still_on_dev, inert_write_commit|]. intros _.
  apply still_bind; [by apply still_nodev|]. intros _.
  apply still_bind; [|intros _; by apply still_nodev].
  destruct (_ =? _); [apply still_on_dev, inert_jsuper_write|by apply still_nodev].
Qed.

Section commit.
Context (s : tst) (nodes : list dirty_block).
Hypothesis Hinv : mgr_inv s.
Hypothesis Hstaged : staged_nodes (mg s) = [].
Hypothesis Hlive : live_io (td s).
Hypothesis Hheap : heap (td s) = [].

Let j := tm_journal (mg s).
Let k := b_disk (td s).
Let ts := map ltxn_of (tm_ckpt (mg s)).

Hypothesis Hlog : loggable j nodes.
Hypothesis Hroom : log_room j ts nodes.
Hypothesis Hhome : home_writes j (nblocks k) nodes.

Let t := mkCommitted (j_next_sequence j) (j_head j) nodes.

Lemma acts_commit_io :
  acts td (commit_io nodes) s (commit_ops j nodes [])
    (fun r s' => r = Some t /\ mg s' = set_journal (after_commit j nodes []) (mg s)).
Proof.
  unfold commit_io. rewrite <-(app_nil_l (commit_ops _ _ _)), <-(app_nil_r (commit_ops _ _ _)).
  eapply acts_bind; [apply acts_on_bdev, acts_malloc; done| |].
  - intros ok s1 (Hm1 & -> & Hd1) Hl1 Hh1 _. cbn [negb].
    eapply acts_bind.
    + apply acts_attempt, acts_on_journal. rewrite Hm1, Hd1.
      by apply (live_acts_commit _ _ ts); [apply Hinv|..].
    + intros r s2 (a & -> & j' & Hm2 & -> & Hj2) Hl2 Hh2 _. cbn [jr] in Hj2. fold j.
      rewrite <-(app_nil_l []). eapply acts_bind; [apply acts_on_bdev, acts_malloc; done| |].
      * intros ok s3 (Hm3 & -> & Hd3) Hl3 Hh3 _. apply acts_ret; [done|done|].
        split; [done|]. rewrite Hm3, Hm2, Hj2, Hm1. done.
      * intros ok. by apply still_nodev_mgr.
    + intros [[seq off]|rc]; [|by apply still_nodev_mgr].
      apply still_bind; [apply still_on_bdev, inert_malloc|]. intros ok. by apply still_nodev_mgr.
  - intros ok. apply still_bind.
    + destruct (negb ok); [by apply still_nodev_mgr|]. intros s1 Hs1. unfold attempt.
      pose proof (still_on_journal _ (still_commit nodes []) s1 Hs1) as H.
      by destruct (on_journal (logfs_journal_commit nodes []) s1).
    + intros [[seq off]|rc]; [|by apply still_nodev_mgr].
      apply still_bind; [apply still_on_bdev, inert_malloc|]. intros ok'. by apply still_nodev_mgr.
Qed.

Lemma commit_home_writes b c :
  ~ journal_block j b -> (b, c) ∉ op_writes (commit_ops j nodes []).
Proof.
  intros Hb Hin. rewrite (commit_ops_writes j nodes) in Hin.
  apply elem_of_app in Hin as [Hin|Hin].
  - apply Hb. right. by eapply place_in_log in Hin; [|apply Hinv].
  - destruct (j_tail j =? j_head j); [|by apply elem_of_nil in Hin].
    apply list_elem_of_singleton in Hin. injection Hin as -> _. apply Hb. by left.
Qed.

Lemma commit_crash_survives done img :
  done `prefix_of` commit_ops j nodes [] -> crash_image (run done k) img ->
  survives j k (ckpt_nodes (tm_ckpt (mg s))) img \/
  survives j k (ckpt_nodes (tm_ckpt (mg s)) ++ nodes) img.
Proof.
  intros Hp Hc. pose proof (mi_log _ Hinv) as Hl. fold j k ts in Hl.
  assert (Hw : forall ws b c, ~ journal_block j b -> (b, c) ∈ op_writes done -> latest ws b <> None).
  { intros ws b c Hb Hin. apply (op_writes_prefix _ _ _ Hp) in Hin.
    by apply (commit_home_writes _ _ Hb) in Hin. }
  destruct (commit_crash_cases j k ts nodes Hl Hlog Hroom done img Hp Hc) as [Hr|[Hr _]].
  - left. apply (survives_run j k done); [done| |apply Hw]. intros b _.
    rewrite (overlay_recovers _ _ _ _ Hr). unfold ts. by rewrite all_writes_ckpt.
  - right. apply (survives_run j k done); [done| |apply Hw]. intros b _.
    rewrite (overlay_recovers _ _ _ _ Hr), all_writes_app. fold ts. unfold ts.
    rewrite all_writes_ckpt. unfold all_writes. cbn [map concat l_data]. by rewrite app_nil_r.
Qed.

(** The state once the transaction is on the list. *)
Definition committed_state (d' : bdev) : tst :=
  mkTst (commit_finish (Some t) (set_journal (after_commit j nodes []) (mg s))) d'.

Lemma mgr_inv_committed d' :
  b_disk d' = run (commit_ops j nodes []) k -> mgr_inv (committed_state d').
Proof.
  intros Hd. pose proof (mi_log _ Hinv) as Hl. fold j k ts in Hl.
  pose proof (mi_staging _ Hinv) as [? ? ?].
  split; cbn [committed_state mg td commit_finish set_progress set_ckpt set_journal
    tm_journal tm_ckpt tm_ckpt_count tm_generation_seq].
  - by split.
  - rewrite map_app, Hd. by apply (log_inv_after_commit j k ts nodes).
  - apply offsets_from_app. cbn [after_commit j_tail offsets_from]. fold ts.
    pose proof (li_head _ _ _ Hl). split; [apply Hinv|]. by split.
  - rewrite length_app, (mi_count _ Hinv). simpl. lia.
  - rewrite Hd, nblocks_run. unfold home_writes, ckpt_nodes. rewrite map_app, concat_app.
    cbn [map concat ct_nodes t]. rewrite app_nil_r.
    change (staged_nodes _) with (staged_nodes (mg s)). rewrite Hstaged, app_nil_r.
    pose proof (mi_home _ Hinv) as Hh. unfold home_writes in Hh. rewrite Hstaged, app_nil_r in Hh.
    by apply Forall_app_2.
Qed.

Lemma committed_ckpt d' :
  ckpt_nodes (tm_ckpt (mg (committed_state d'))) = ckpt_nodes (tm_ckpt (mg s)) ++ nodes.
Proof.
  unfold ckpt_nodes. cbn [committed_state mg commit_finish set_progress set_ckpt set_journal tm_ckpt].
  rewrite map_app, concat_app. cbn [map concat ct_nodes t]. by rewrite app_nil_r.
Qed.

Lemma committed_home d' b :
  b_disk d' = run (commit_ops j nodes []) k -> ~ journal_block j b ->
  content (b_disk d') b = content k b.
Proof.
  intros -> Hb. pose proof (mi_log _ Hinv) as Hl. by apply (commit_keeps_home j k ts nodes Hl).
Qed.

Lemma committed_narrows d' :
  b_disk d' = run (commit_ops j nodes []) k ->
  narrows j (b_disk d') (ckpt_nodes (tm_ckpt (mg (committed_state d')))) k
    (ckpt_nodes (tm_ckpt (mg s)) ++ nodes).
Proof.
  intros Hd. rewrite committed_ckpt. apply narrows_clean.
  - rewrite Hd. apply commit_ops_clean.
  - intros b Hb. unfold overlay. by rewrite (committed_home d' b Hd Hb).
Qed.

(** Nobody reads anything else than before, with the nodes on top. *)
Lemma committed_view d' b :
  b_disk d' = run (commit_ops j nodes []) k -> ~ journal_block j b ->
  view (committed_state d') b = overlay (ckpt_nodes (tm_ckpt (mg s)) ++ nodes) (content k) b.
Proof.
  intros Hd Hb. unfold view. rewrite committed_ckpt.
  change (staged_nodes _) with (staged_nodes (mg s)). rewrite Hstaged, app_nil_r.
  change (td (committed_state d')) with d'. unfold overlay. by rewrite (committed_home d' b Hd Hb).
Qed.
End commit.

(** ** The whole turn *)

(** What the next commit needs: no handle is open, and the generation fits
    the descriptor, the log and its counters. *)
Record ready (s : tst) : Prop := {
  rd_handles : tm_running_handles (mg s) = 0;
  rd_fits : Z.of_nat (length (staged_nodes (mg s))) + 2 <= j_maxlen (tm_journal (mg s));
  rd_loggable : loggable (tm_journal (mg s)) (staged_nodes (mg s));
  rd_nowrap : j_head (tm_journal (mg s)) + j_maxlen (tm_journal (mg s)) < 2 ^ 63;
  rd_seq : j_next_sequence (tm_journal (mg s)) < 2 ^ 63;
}.

(** The state after the turn, against the one before it. *)
Record turn_done (s s' : tst) : Prop := {
  tn_inv : mgr_inv s';
  tn_staged : staged_nodes (mg s') = [];
  tn_narrows : narrows (tm_journal (mg s)) (b_disk (td s')) (ckpt_nodes (tm_ckpt (mg s')))
                 (b_disk (td s)) (ckpt_nodes (tm_ckpt (mg s)) ++ staged_nodes (mg s));
  tn_view : forall b, ~ journal_block (tm_journal (mg s)) b ->
              view s' b = view s b /\ committed s' b = view s b;
  tn_completed : tm_completed_through (mg s') = tm_generation_seq (mg s);
  tn_freezing : tm_freezing (mg s') = false;
  tn_mode : tm_mode (mg s') = tm_mode (mg s);
  tn_nblocks : nblocks (b_disk (td s')) = nblocks (b_disk (td s));
  tn_region : same_region (tm_journal (mg s)) (tm_journal (mg s'));
  tn_lag : tm_ckpt_count (mg s') <= LOGFS_CKPT_LAG;
  tn_nodes w : w ∈ ckpt_nodes (tm_ckpt (mg s')) ->
               w ∈ ckpt_nodes (tm_ckpt (mg s)) ++ staged_nodes (mg s);
  tn_ckpt : tm_ckpt (mg s') = [] ->
    staged_nodes (mg s) = [] /\ tm_ckpt (mg s) = [] /\ tm_journal (mg s') = tm_journal (mg s);
}.

(** What a power failure during the turn may leave: nothing of the
    generation, or all of it. *)
Definition turn_crash (s : tst) (img : image) : Prop :=
  let j := tm_journal (mg s) in
  survives j (b_disk (td s)) (ckpt_nodes (tm_ckpt (mg s))) img \/
  survives j (b_disk (td s)) (ckpt_nodes (tm_ckpt (mg s)) ++ staged_nodes (mg s)) img.

(** After it, all of it. *)
Lemma turn_done_survives s s' img :
  turn_done s s' -> crash_image (b_disk (td s')) img ->
  survives (tm_journal (mg s)) (b_disk (td s)) (ckpt_nodes (tm_ckpt (mg s)) ++ staged_nodes (mg s)) img.
Proof.
  intros Hd Hcr. pose proof (tn_inv _ _ Hd) as Hinv'.
  pose proof (log_survives _ _ _ _ (mi_log _ Hinv') Hcr) as Hsv. rewrite all_writes_ckpt in Hsv.
  eapply narrows_survives; [apply (tn_narrows _ _ Hd)|].
  eapply survives_region; [apply same_region_sym, (tn_region _ _ Hd)|apply (mi_log _ Hinv')|exact Hsv].
Qed.

(** Whatever survives a power failure after the turn, the blocks staged before
    it are recovered. *)
Lemma turn_done_durable s s' b c img :
  mgr_inv s -> turn_done s s' -> find_dirty (mg s) b = Some c -> crash_image (b_disk (td s')) img ->
  recovered (tm_journal (mg s)) img b = c.
Proof.
  intros Hinv Hd Hb Hcr. pose proof (find_dirty_in _ _ _ (mi_staging _ Hinv) Hb) as Hin.
  assert (Hhome : ~ journal_block (tm_journal (mg s)) b).
  { pose proof (mi_home _ Hinv) as Hh'. unfold home_writes in Hh'.
    apply Forall_app in Hh' as [_ Hh']. rewrite Forall_forall in Hh'. by apply Hh' in Hin as [_ ?]. }
  pose proof (turn_done_survives s s' img Hd Hcr b Hhome) as Hn. unfold allowed in Hn.
  rewrite latest_app, <-(find_dirty_latest _ _ (mi_staging _ Hinv)), Hb in Hn. exact Hn.
Qed.

Lemma room_after s s1 nodes :
  checkpoints s s1 ->
  Z.of_nat (length nodes) + 2 <= j_maxlen (tm_journal (mg s)) ->
  Z.of_nat (length nodes) <= LOGFS_MAX_TAGS_PER_DESC ->
  j_head (tm_journal (mg s)) + j_maxlen (tm_journal (mg s)) < 2 ^ 63 ->
  j_next_sequence (tm_journal (mg s)) < 2 ^ 63 ->
  (logfs_journal_free_space (tm_journal (mg s1)) <?
     logfs_journal_space_needed (Z.of_nat (length nodes)) 0) = false \/ tm_ckpt (mg s1) = [] ->
  log_room (tm_journal (mg s1)) (map ltxn_of (tm_ckpt (mg s1))) nodes.
Proof.
  intros Hc Hfit Hmax Hnw Hsq Hcase. pose proof (mi_log _ (cp_inv _ _ Hc)) as Hl.
  pose proof (li_head _ _ _ Hl) as Hh. pose proof (li_tail _ _ _ Hl) as Ht.
  pose proof (li_fits _ _ _ Hl) as Hf. pose proof (li_nowrap _ _ _ Hl).
  assert (Hsame : j_head (tm_journal (mg s1)) = j_head (tm_journal (mg s)) /\
                  j_maxlen (tm_journal (mg s1)) = j_maxlen (tm_journal (mg s)) /\
                  j_next_sequence (tm_journal (mg s1)) = j_next_sequence (tm_journal (mg s))).
  { rewrite (cp_same _ _ Hc). done. }
  destruct Hsame as (H1 & H2 & H3). split; [|lia|lia].
  destruct Hcase as [Hfree|Hnil].
  - apply Z.ltb_ge in Hfree. rewrite free_space_eq in Hfree by lia.
    unfold logfs_journal_space_needed in Hfree.
    rewrite (proj2 (Z.ltb_ge _ _) Hmax) in Hfree. cbn [orb] in Hfree.
    change (LOGFS_MAX_REVOKES_PER_BLOCK <? 0) with false in Hfree. cbv iota in Hfree.
    change (0 <? 0) with false in Hfree. cbv iota in Hfree. lia.
  - rewrite Hnil. cbn [map]. change (log_blocks []) with (@nil block). simpl. lia.
Qed.

Lemma still_commit_io nodes : still td (commit_io nodes).
Proof.
  unfold commit_io. apply still_bind; [apply still_on_bdev, inert_malloc|]. intros ok.
  apply still_bind.
  - destruct (negb ok); [by apply still_nodev_mgr|]. intros s1 Hs1. unfold attempt.
    pose proof (still_on_journal _ (still_commit nodes []) s1 Hs1) as H.
    by destruct (on_journal (logfs_journal_commit nodes []) s1).
  - intros [[seq off]|rc]; [|by apply still_nodev_mgr].
    apply still_bind; [apply still_on_bdev, inert_malloc|]. intros ok'. by apply still_nodev_mgr.
Qed.

Lemma still_do_commit nodes n : still td (do_commit nodes n).
Proof.
  unfold do_commit, make_room. apply still_bind.
  { apply still_bind; [by apply still_nodev_mgr|]. intros fuel. apply still_checkpoint_while. }
  intros _. destruct nodes as [nodes|]; [|by apply still_nodev_mgr].
  apply still_bind; [apply still_commit_io|]. intros t. by apply still_nodev_mgr.
Qed.

Lemma still_enforce : still td enforce_checkpoint_lag.
Proof.
  unfold enforce_checkpoint_lag. apply still_bind; [by apply still_nodev_mgr|].
  intros fuel. apply still_checkpoint_while.
Qed.

Lemma crash_safe_set_mgr P f s (Q : unit -> tst -> Prop) :
  live_io (td s) -> heap (td s) = [] -> Q tt (mkTst (f (mg s)) (td s)) ->
  crash_safe td P (modify (set_mgr f)) s Q.
Proof. intros Hl Hh HQ. unfold crash_safe. cbn. split_and!; auto. left. by exists tt. Qed.

Section turn.
Context (s : tst).
Hypothesis Hinv : mgr_inv s.
Hypothesis Hready : ready s.

Let nodes := staged_nodes (mg s).

(** The manager after the swap, whatever has been checkpointed since. *)
Record emptied (s1 : tst) : Prop := {
  em_inv : mgr_inv s1;
  em_staged : staged_nodes (mg s1) = [];
  em_checkpoints : checkpoints (mkTst (swapped (mg s)) (td s)) s1;
}.

Lemma emptied_start : emptied (mkTst (swapped (mg s)) (td s)).
Proof.
  pose proof (mgr_inv_swapped _ Hinv) as H. split; [done|reflexivity|by apply checkpoints_refl].
Qed.

Lemma emptied_more s1 :
  checkpoints (mkTst (swapped (mg s)) (td s)) s1 -> emptied s1.
Proof.
  intros H. split; [apply H| |done]. rewrite (cp_same _ _ H). reflexivity.
Qed.

Lemma emptied_region s1 : emptied s1 -> same_region (tm_journal (mg s)) (tm_journal (mg s1)).
Proof. intros H. apply (checkpoints_region _ _ (em_checkpoints _ H)). Qed.

Lemma emptied_turn_crash s1 img :
  emptied s1 ->
  survives (tm_journal (mg s1)) (b_disk (td s1)) (ckpt_nodes (tm_ckpt (mg s1))) img \/
  survives (tm_journal (mg s1)) (b_disk (td s1)) (ckpt_nodes (tm_ckpt (mg s1)) ++ nodes) img ->
  turn_crash s img.
Proof.
  intros He Hs. pose proof (emptied_region _ He) as Hr.
  pose proof (cp_narrows _ _ (em_checkpoints _ He)) as Hn. cbn [mg td swapped] in Hn.
  assert (Hgeo : wf_geometry (tm_journal (mg s1)) (nblocks (b_disk (td s1))))
    by apply (mi_log _ (em_inv _ He)).
  destruct Hs as [Hs|Hs]; [left|right]; (eapply narrows_survives;
    [|eapply survives_region; [apply same_region_sym, Hr|exact Hgeo|exact Hs]]).
  - exact Hn.
  - by apply narrows_app.
Qed.

Lemma make_room_safe s1 :
  emptied s1 -> live_io (td s1) -> heap (td s1) = [] ->
  crash_safe td (turn_crash s) (make_room (Z.of_nat (length nodes))) s1
    (fun _ s2 => emptied s2 /\
       log_room (tm_journal (mg s2)) (map ltxn_of (tm_ckpt (mg s2))) nodes).
Proof.
  intros He Hl Hh. unfold make_room. eapply crash_safe_skip; [done|done|].
  eapply crash_safe_weaken; [eapply crash_safe_wand;
    [apply (checkpoint_while_safe _ _ (mkTst (swapped (mg s)) (td s)) s1)|]|].
  - apply (em_inv _ emptied_start).
  - apply (em_checkpoints _ He).
  - unfold checkpoint_fuel. lia.
  - done.
  - done.
  - cbn beta. intros _ s2 (Hc & Hcase & _). split; [by apply emptied_more|].
    destruct Hready as [_ Hfit [Hmax _ _] Hnw Hsq]. by apply (room_after _ _ _ Hc).
  - intros img Hs. by left.
Qed.

(** The generation is on the checkpoint list. *)
Record on_list (s1 : tst) : Prop := {
  ol_inv : mgr_inv s1;
  ol_staged : staged_nodes (mg s1) = [];
  ol_narrows : narrows (tm_journal (mg s)) (b_disk (td s1)) (ckpt_nodes (tm_ckpt (mg s1)))
                 (b_disk (td s)) (ckpt_nodes (tm_ckpt (mg s)) ++ nodes);
  ol_view : forall b, ~ journal_block (tm_journal (mg s)) b -> view s1 b = view s b;
  ol_region : same_region (tm_journal (mg s)) (tm_journal (mg s1));
  ol_completed : tm_completed_through (mg s1) = tm_generation_seq (mg s);
  ol_freezing : tm_freezing (mg s1) = false;
  ol_mode : tm_mode (mg s1) = tm_mode (mg s);
  ol_nblocks : nblocks (b_disk (td s1)) = nblocks (b_disk (td s));
  ol_nodes w : w ∈ ckpt_nodes (tm_ckpt (mg s1)) -> w ∈ ckpt_nodes (tm_ckpt (mg s)) ++ nodes;
  ol_ckpt : tm_ckpt (mg s1) = [] ->
    nodes = [] /\ tm_ckpt (mg s) = [] /\ tm_journal (mg s1) = tm_journal (mg s);
}.

Lemma home_not_super b : ~ journal_block (tm_journal (mg s)) b -> b <> LOGFS_JSUPER_BLOCKNO.
Proof. intros Hb ->. apply Hb. by left. Qed.

(** With the table empty the view is the committed contents. *)
Lemma view_committed s1 b : staged_nodes (mg s1) = [] -> view s1 b = committed s1 b.
Proof. intros H. unfold view, committed. by rewrite H, app_nil_r. Qed.

(** The nodes in flight complete what is left of the view. *)
Lemma emptied_view s1 b :
  emptied s1 -> ~ journal_block (tm_journal (mg s)) b ->
  overlay (ckpt_nodes (tm_ckpt (mg s1)) ++ nodes) (content (b_disk (td s1))) b = view s b.
Proof.
  intros He Hb. destruct (cp_view _ _ (em_checkpoints _ He) b (home_not_super _ Hb)) as [_ Hc].
  unfold view. fold nodes. unfold overlay in *. rewrite !latest_app.
  destruct (latest nodes b); [done|]. exact Hc.
Qed.

Lemma do_commit_safe s1 :
  emptied s1 -> live_io (td s1) -> heap (td s1) = [] ->
  crash_safe td (turn_crash s) (do_commit (Some nodes) (Z.of_nat (length nodes))) s1
    (fun _ s2 => on_list s2).
Proof.
  intros He Hl Hh. unfold do_commit.
  eapply crash_safe_bind; [by apply make_room_safe| |].
  2: { intros _. apply still_bind; [apply still_commit_io|]. intros t. by apply still_nodev_mgr. }
  intros _ s2 [He2 Hroom] Hl2 Hh2. pose proof (em_inv _ He2) as Hinv2.
  pose proof (emptied_region _ He2) as Hreg. pose proof (em_checkpoints _ He2) as Hcp.
  assert (Hnext : j_next_sequence (tm_journal (mg s2)) = j_next_sequence (tm_journal (mg s)))
    by (rewrite (cp_same _ _ Hcp); reflexivity).
  assert (Hlog : loggable (tm_journal (mg s2)) nodes).
  { destruct Hready as [_ _ [H1 H2 H3] _ _]. split; [done|done|by rewrite Hnext]. }
  assert (Hhome : home_writes (tm_journal (mg s2)) (nblocks (b_disk (td s2))) nodes).
  { pose proof (mi_home _ Hinv) as H. unfold home_writes in *. apply Forall_app in H as [_ H].
    rewrite (cp_nblocks _ _ Hcp). eapply Forall_impl; [exact H|]. intros w [? ?].
    split; [done|]. by rewrite <-(same_region_blocks _ _ _ Hreg). }
  pose proof (em_staged _ He2) as Hst2.
  eapply crash_safe_bind with (Q1 := fun r s3 => r = Some (mkCommitted
      (j_next_sequence (tm_journal (mg s2))) (j_head (tm_journal (mg s2))) nodes) /\
    mg s3 = set_journal (after_commit (tm_journal (mg s2)) nodes []) (mg s2) /\
    b_disk (td s3) = run (commit_ops (tm_journal (mg s2)) nodes []) (b_disk (td s2))).
  - eapply crash_safe_acts; [by apply acts_commit_io| |].
    + intros l img Hp Hc. eapply emptied_turn_crash; [exact He2|].
      by eapply commit_crash_survives.
    + intros r s3 [-> Hm] _ _ Hd. done.
  - intros r s3 (-> & Hm & Hd) Hl3 Hh3. destruct s3 as [m3 d3]. cbn [mg td] in *. subst m3.
    apply crash_safe_set_mgr; [done|done|].
    change (on_list (committed_state s2 nodes d3)).
    assert (Hb2 : forall b, ~ journal_block (tm_journal (mg s)) b -> ~ journal_block (tm_journal (mg s2)) b).
    { intros b. by rewrite (same_region_blocks _ _ _ Hreg). }
    split.
    + by apply mgr_inv_committed.
    + exact Hst2.
    + eapply narrows_trans.
      * eapply narrows_region; [apply same_region_sym, Hreg|]. by apply committed_narrows.
      * apply narrows_app. apply (cp_narrows _ _ Hcp).
    + intros b Hb. rewrite committed_view by auto. by apply emptied_view.
    + cbn [committed_state mg commit_finish set_progress set_ckpt set_journal tm_journal].
      destruct Hreg. by split.
    + cbn. rewrite (cp_same _ _ Hcp). reflexivity.
    + cbn. rewrite (cp_same _ _ Hcp). reflexivity.
    + cbn. rewrite (cp_same _ _ Hcp). reflexivity.
    + cbn [committed_state td]. rewrite Hd, nblocks_run. exact (cp_nblocks _ _ Hcp).
    + intros w. cbn [committed_state mg commit_finish set_progress set_ckpt set_journal tm_ckpt].
      rewrite ckpt_nodes_app, !elem_of_app. intros [Hw|Hw].
      * left. exact (checkpoints_nodes _ _ w Hcp Hw).
      * right. unfold ckpt_nodes in Hw. cbn in Hw. by rewrite app_nil_r in Hw.
    + cbn [committed_state mg commit_finish set_progress set_ckpt set_journal tm_ckpt].
      by destruct (tm_ckpt (mg s2)).
  - intros t. by apply still_nodev_mgr.
Qed.

Lemma enforce_safe s1 :
  on_list s1 -> live_io (td s1) -> heap (td s1) = [] ->
  crash_safe td (turn_crash s) enforce_checkpoint_lag s1 (fun _ s2 => turn_done s s2).
Proof.
  intros [Hinv1 Hst Hn Hv Hr Hc Hf Hm Hnb Hnodes Hne] Hl Hh. unfold enforce_checkpoint_lag.
  eapply crash_safe_skip; [done|done|].
  eapply crash_safe_weaken; [eapply crash_safe_wand; [apply (checkpoint_while_safe _ _ s1 s1)|]|];
    try done.
  - by apply checkpoints_refl.
  - unfold checkpoint_fuel. lia.
  - cbn beta. intros _ s2 (Hcp & Hlag & Hlast).
    assert (Hst2 : staged_nodes (mg s2) = []) by (rewrite (cp_same _ _ Hcp); exact Hst).
    assert (Hview : forall b, ~ journal_block (tm_journal (mg s)) b -> view s2 b = view s b).
    { intros b Hb. rewrite (proj1 (cp_view _ _ Hcp b (home_not_super _ Hb))). auto. }
    split; try done.
    + apply (cp_inv _ _ Hcp).
    + eapply narrows_trans; [|exact Hn].
      eapply narrows_region; [apply same_region_sym, Hr|apply (cp_narrows _ _ Hcp)].
    + intros b Hb. split; [by apply Hview|]. rewrite <-view_committed by done. by apply Hview.
    + rewrite (cp_same _ _ Hcp). exact Hc.
    + rewrite (cp_same _ _ Hcp). exact Hf.
    + rewrite (cp_same _ _ Hcp). exact Hm.
    + rewrite (cp_nblocks _ _ Hcp). exact Hnb.
    + pose proof (checkpoints_region _ _ Hcp) as [H1 H2]. destruct Hr as [H3 H4].
      split; congruence.
    + destruct Hlag as [Hlag|Hnil]; [by apply Z.ltb_ge in Hlag|].
      rewrite (mi_count _ (cp_inv _ _ Hcp)), Hnil. done.
    + intros w Hw. apply Hnodes. exact (checkpoints_nodes _ _ w Hcp Hw).
    + intros Hnil. destruct Hlast as [E|(s0 & t & Hcp0 & Hneed & Hck)].
      { rewrite E in Hnil. rewrite (checkpoints_idle _ _ Hinv1 Hcp Hnil). by apply Hne. }
      apply Z.ltb_lt in Hneed. rewrite (mi_count _ (cp_inv _ _ Hcp0)), Hck, Hnil in Hneed. done.
  - intros img Hs. right. eapply narrows_survives; [exact Hn|].
    eapply survives_region; [apply same_region_sym, Hr|apply (mi_log _ Hinv1)|exact Hs].
Qed.

(** The flush of ordered mode, if any, changes nothing of this. *)
Lemma ordered_flush_safe (go : bool) s1 :
  emptied s1 -> live_io (td s1) -> heap (td s1) = [] ->
  crash_safe td (turn_crash s)
    (if go then r ← attempt (on_bdev logfs_bdev_flush); mret tt else mret tt) s1
    (fun _ s2 => emptied s2 /\ mg s2 = mg s1).
Proof.
  intros He Hl Hh. destruct go; [|by apply crash_safe_ret].
  assert (Hflush : forall d', b_disk d' = disk_flush (b_disk (td s1)) ->
    emptied (mkTst (mg s1) d')).
  { intros d' Hd. apply emptied_more. pose proof (em_checkpoints _ He) as Hc.
    pose proof (mgr_inv_flush s1 d' (em_inv _ He) Hd) as Hf. split.
    - apply Hf.
    - eapply narrows_trans; [|apply (cp_narrows _ _ Hc)].
      eapply narrows_region; [apply same_region_sym, (checkpoints_region _ _ Hc)|apply (cp_narrows _ _ Hf)].
    - intros b Hb. destruct (cp_view _ _ Hf b Hb) as [-> ->]. by apply (cp_view _ _ Hc).
    - apply (cp_same _ _ Hc).
    - rewrite (cp_nblocks _ _ Hf). apply (cp_nblocks _ _ Hc).
    - apply (cp_suffix _ _ Hc). }
  eapply crash_safe_bind with (Q1 := fun _ s2 => emptied s2 /\ mg s2 = mg s1).
  - eapply crash_safe_acts; [apply acts_attempt, acts_on_bdev, acts_flush; done| |].
    + intros l img Hp Hc. eapply emptied_turn_crash; [exact He|left].
      assert (Hinv1 : mgr_inv (mkTst (mg s1) (mkBdev (run l (b_disk (td s1))) [] []))).
      { destruct l as [|o l].
        - destruct (em_inv _ He) as [? ? ? ? ?]. by split.
        - destruct Hp as [l' Hp]. injection Hp as <- Hp.
          apply eq_sym, app_nil in Hp as [-> _]. exact (em_inv _ (Hflush (mkBdev (disk_flush (b_disk (td s1))) [] []) eq_refl)). }
      pose proof (log_survives _ _ _ _ (mi_log _ Hinv1) Hc) as Hs. rewrite all_writes_ckpt in Hs.
      cbn [mg td b_disk] in Hs. eapply narrows_survives; [|exact Hs].
      destruct l as [|o l]; [apply narrows_refl|].
      destruct Hp as [l' Hp]. injection Hp as <- Hp. apply eq_sym, app_nil in Hp as [-> _].
      apply (cp_narrows _ _ (mgr_inv_flush s1 (mkBdev (disk_flush (b_disk (td s1))) [] []) (em_inv _ He) eq_refl)).
    + intros r s2 (a & _ & Hm & _) _ _ Hd. destruct s2 as [m2 d2]. cbn [mg td] in *. subst m2.
      split; [by apply Hflush|done].
  - intros r s2 He2 Hl2 Hh2. by apply crash_safe_ret.
  - intros r. by apply still_nodev_mgr.
Qed.

Lemma nnodes_zero : tm_ndirty (mg s) = 0 -> nodes = [].
Proof.
  intros Hz. pose proof (wfs_ndirty _ (mi_staging _ Hinv)) as Hn. apply nil_length_inv.
  unfold nodes. lia.
Qed.

Lemma idle_on_list s1 :
  tm_ndirty (mg s) = 0 -> emptied s1 -> mg s1 = swapped (mg s) ->
  on_list (mkTst (set_progress (tm_generation_seq (mg s1)) (tm_generation_seq (mg s1)) (mg s1)) (td s1)).
Proof.
  intros Hz He Hsw. pose proof (nnodes_zero Hz) as Hn. pose proof (em_inv _ He) as [H1 H2 H3 H4 H5].
  pose proof (em_checkpoints _ He) as Hc.
  split.
  - destruct H1. by split.
  - exact (em_staged _ He).
  - rewrite Hn, app_nil_r. apply (cp_narrows _ _ Hc).
  - intros b Hb. rewrite <-(emptied_view s1 b He Hb), Hn, app_nil_r.
    unfold view. change (staged_nodes _) with (staged_nodes (mg s1)).
    by rewrite (em_staged _ He), app_nil_r.
  - exact (emptied_region _ He).
  - cbn. rewrite (cp_same _ _ Hc). reflexivity.
  - cbn. rewrite (cp_same _ _ Hc). reflexivity.
  - cbn. rewrite (cp_same _ _ Hc). reflexivity.
  - exact (cp_nblocks _ _ Hc).
  - intros w Hw. rewrite Hn, app_nil_r. exact (checkpoints_nodes _ _ w Hc Hw).
  - cbn [mg set_progress tm_ckpt tm_journal]. rewrite Hsw. by intros H.
Qed.

Lemma still_commit_rest nd n no : still td (commit_rest nd n no).
Proof.
  unfold commit_rest. apply still_bind; [by apply still_nodev_mgr|]. intros m.
  apply still_bind.
  { destruct (_ && _); [|by apply still_nodev_mgr]. apply still_bind.
    - intros s1 Hs1. unfold attempt. pose proof (still_on_bdev _ inert_flush s1 Hs1) as H.
      by destruct (on_bdev logfs_bdev_flush s1).
    - intros r. by apply still_nodev_mgr. }
  intros _. apply still_bind; [|intros _; apply still_enforce].
  destruct (0 <? n); [apply still_do_commit|by apply still_nodev_mgr].
Qed.

Lemma commit_cycle_safe :
  live_io (td s) -> heap (td s) = [] ->
  crash_safe td (turn_crash s) commit_cycle s (fun _ s' => turn_done s s').
Proof.
  intros Hl Hh. unfold commit_cycle. eapply crash_safe_skip; [done|done|].
  eapply crash_safe_skip; [done|done|]. cbn [mg set_mgr].
  change (tm_running_handles (set_freezing true (mg s))) with (tm_running_handles (mg s)).
  rewrite (rd_handles _ Hready). change (0 <? 0) with false. cbv iota.
  eapply crash_safe_skip.
  { apply (commit_swap_eq (set_mgr (set_freezing true) s)); [|done].
    destruct (mi_staging _ Hinv). by split. }
  { done. }
  cbn [fst snd mg td set_mgr].
  change (swapped (set_freezing true (mg s))) with (swapped (mg s)).
  change (staged_nodes (set_freezing true (mg s))) with nodes.
  change (tm_ndirty (set_freezing true (mg s))) with (tm_ndirty (mg s)).
  change (tm_ordered_blocks (set_freezing true (mg s))) with (tm_ordered_blocks (mg s)).
  unfold commit_rest. eapply crash_safe_skip; [done|done|].
  eapply crash_safe_bind; [apply ordered_flush_safe; [apply emptied_start|done|done]| |].
  2: { intros _. apply still_bind; [|intros _; apply still_enforce].
       destruct (0 <? _); [apply still_do_commit|by apply still_nodev_mgr]. }
  intros u s1 [He1 Hsw] Hl1 Hh1. clear u.
  eapply crash_safe_bind with (Q1 := fun _ s2 => on_list s2);
    [|intros u s2 Hol Hl2 Hh2; by apply enforce_safe|intros _; apply still_enforce].
  pose proof (wfs_ndirty _ (mi_staging _ Hinv)) as Hn. fold nodes in Hn.
  destruct (Z.eqb_spec (tm_ndirty (mg s)) 0) as [Hz|Hz].
  - rewrite Hz. change (0 <? 0) with false. cbv iota.
    apply crash_safe_set_mgr; [done|done|]. by apply idle_on_list.
  - rewrite (proj2 (Z.ltb_lt _ _)) by lia. rewrite Hn. by apply do_commit_safe.
Qed.
End turn.

(** A request for a commit changes nothing else. *)
Lemma mgr_inv_requested s : mgr_inv s -> mgr_inv (set_mgr (set_requested true) s).
Proof. destruct s as [m d]. intros [H1 H2 H3 H4 H5]. split; [|done..]. destruct H1. by split. Qed.

Lemma ready_requested s : ready s -> ready (set_mgr (set_requested true) s).
Proof. by intros []; split. Qed.
