(* ===== verification/TxnTorn.v ===== *)
(** A turn of the commit thread that a power failure ends: what survives is a
    log that mounts.

    The turn is one that finds room in the log, so that the log is empty at no
    time: an emptied log does not say where its numbering goes on. *)

From S2P Require Import Prelude.
From S2P Require Import Bytes.
From S2P Require Import DiskFormat.
From S2P Require Import Blockdev.
From S2P Require Import DiskOps.
From S2P Require Import Journal.
From S2P Require Import JournalLog.
From S2P Require Import JournalCommit.
From S2P Require Import JournalInv.
From S2P Require Import JournalRecover.
From S2P Require Import JournalSafety.
From S2P Require Import JournalTorn.
From S2P Require Import Txn.
From S2P Require Import TxnInv.
From S2P Require Import TxnSafety.
From S2P Require Import TxnCommit.

(** The log holds a transaction and has room for what is staged. *)
Record roomy (s : tst) : Prop := {
  ry_logged : tm_ckpt (mg s) <> [];
  ry_room : logfs_journal_space_needed (tm_ndirty (mg s)) 0 <= logfs_journal_free_space (tm_journal (mg s));
}.

(** What a power failure in [s] or later may leave. *)
Definition log_torn (s : tst) (ws : list (Z * block)) (img : image) : Prop :=
  torn (tm_journal (mg s)) (nblocks (b_disk (td s))) ws img.

(** Whatever survives a power failure in [s'] is such a log. *)
Definition now_torn (s : tst) (ws : list (Z * block)) (s' : tst) : Prop :=
  forall img, crash_image (b_disk (td s')) img -> log_torn s ws img.

(** ** Checkpoints *)

Section checkpoint.
Context (s : tst) (t : committed_txn) (rest : list committed_txn).
Hypothesis Hinv : mgr_inv s.
Hypothesis Hck : tm_ckpt (mg s) = t :: rest.
Hypothesis Hrest : rest <> [].

Let m1 := set_ckpt rest (tm_ckpt_count (mg s) - 1) (mg s).

Lemma torn_checkpoint done img :
  done `prefix_of` checkpoint_ops (tm_journal (mg s)) t (checkpoint_tail m1).1 (checkpoint_tail m1).2 ->
  crash_image (run done (b_disk (td s))) img -> log_torn s (ckpt_nodes (tm_ckpt (mg s))) img.
Proof.
  intros Hp Hcr. rewrite <-(ckpt_writes_split s t rest Hck). unfold log_torn.
  destruct (checkpoint_tail_eq s t rest Hinv Hck) as [Hoff Hseq].
  unfold checkpoint_ops in Hp. apply prefix_app_inv in Hp as [Hp|(l & -> & Hp)].
  - pose proof (log_inv_home_done s t rest Hinv Hck done Hp) as Hl.
    rewrite <-(nblocks_run done). by eapply torn_quiet.
  - rewrite run_app in Hcr. fold m1 in Hoff, Hseq. rewrite Hoff, Hseq in Hp.
    rewrite <-(nblocks_run (dwrites (ct_nodes t) ++ [DFlush])).
    eapply torn_truncate; [by apply log_inv_home_done| |exact Hp|exact Hcr].
    by destruct rest.
Qed.
End checkpoint.

Lemma checkpoints_torn s s1 ws img :
  checkpoints s s1 -> (forall w, w ∈ ckpt_nodes (tm_ckpt (mg s)) -> w ∈ ws) ->
  log_torn s1 (ckpt_nodes (tm_ckpt (mg s1))) img -> log_torn s ws img.
Proof.
  intros Hc Hsub Ht. unfold log_torn in *. rewrite (cp_nblocks _ _ Hc) in Ht.
  apply (torn_region _ _ _ _ _ (checkpoints_region _ _ Hc)).
  eapply torn_weaken; [|exact Ht]. intros w Hw. by apply Hsub, (checkpoints_nodes _ _ w Hc).
Qed.

Lemma checkpoints_now_torn s s1 ws :
  checkpoints s s1 -> (forall w, w ∈ ckpt_nodes (tm_ckpt (mg s)) -> w ∈ ws) ->
  tm_ckpt (mg s1) <> [] -> now_torn s ws s1.
Proof.
  intros Hc Hsub Hne img Hcr. apply (checkpoints_torn s s1); [done|done|]. unfold log_torn.
  rewrite <-all_writes_ckpt. eapply torn_quiet; [apply (cp_inv _ _ Hc)| |exact Hcr].
  by destruct (tm_ckpt (mg s1)).
Qed.

(** Checkpoints that leave at least one transaction. *)
Lemma checkpoint_while_torn need fuel s s1 ws :
  (forall s0, mgr_inv s0 -> need s0 = true -> (2 <= length (tm_ckpt (mg s0)))%nat) ->
  (forall w, w ∈ ckpt_nodes (tm_ckpt (mg s)) -> w ∈ ws) ->
  checkpoints s s1 -> tm_ckpt (mg s1) <> [] -> (length (tm_ckpt (mg s1)) < fuel)%nat ->
  live_io (td s1) -> heap (td s1) = [] ->
  crash_safe td (log_torn s ws) (checkpoint_while need fuel) s1 (fun _ s' => now_torn s ws s').
Proof.
  intros Hneed Hsub. revert s1. induction fuel as [|fuel IH]; intros s1 Hc Hne Hf Hl Hh; [lia|].
  cbn [checkpoint_while]. eapply crash_safe_skip; [done|done|].
  destruct (need s1) eqn:Hn; cbn [negb]; [|apply crash_safe_ret; try done; by apply checkpoints_now_torn].
  pose proof (cp_inv _ _ Hc) as Hinv1. pose proof (Hneed s1 Hinv1 Hn) as H2.
  destruct (tm_ckpt (mg s1)) as [|t rest] eqn:Hck; [simpl in H2; lia|].
  assert (Hrest : rest <> []) by (intros ->; simpl in H2; lia).
  eapply crash_safe_bind with (Q1 := fun r s' => r = 1 /\ checkpoints s s' /\ tm_ckpt (mg s') = rest).
  - eapply crash_safe_acts; [by apply acts_checkpoint_oldest| |].
    + intros l img Hp Hcr. eapply checkpoints_torn; [exact Hc|exact Hsub|].
      by eapply (torn_checkpoint s1 t rest).
    + intros r s' (-> & Hm) Hl' Hh' Hd. split; [done|].
      destruct s' as [m' d']. cbn [mg td] in Hm, Hd |- *. subst m'.
      split; [by eapply checkpoints_step|done].
  - intros r s' (-> & Hc' & Hr) Hl' Hh'. change (1 <=? 0) with false. cbv iota.
    apply IH; [done|by rewrite Hr| |done|done]. rewrite Hr. simpl in Hf. lia.
  - intros r. destruct (r <=? 0); [by apply still_nodev_mgr|apply still_checkpoint_while].
Qed.

Lemma enforce_torn s ws :
  mgr_inv s -> tm_ckpt (mg s) <> [] -> (forall w, w ∈ ckpt_nodes (tm_ckpt (mg s)) -> w ∈ ws) ->
  live_io (td s) -> heap (td s) = [] ->
  crash_safe td (log_torn s ws) enforce_checkpoint_lag s (fun _ s' => now_torn s ws s').
Proof.
  intros Hinv Hne Hsub Hl Hh. unfold enforce_checkpoint_lag. eapply crash_safe_skip; [done|done|].
  apply checkpoint_while_torn; [|done|by apply checkpoints_refl|exact Hne|unfold checkpoint_fuel; lia|done|done].
  intros s0 Hinv0 Hneed%Z.ltb_lt. rewrite (mi_count _ Hinv0) in Hneed. unfold LOGFS_CKPT_LAG in Hneed. lia.
Qed.

(** ** The turn *)

Section turn.
Context (s : tst).
Hypothesis Hinv : mgr_inv s.
Hypothesis Hready : ready s.
Hypothesis Hroomy : roomy s.
Hypothesis Hmode : tm_mode (mg s) = LOGFS_MODE_JOURNAL.

Let nodes := staged_nodes (mg s).
Let ws := ckpt_nodes (tm_ckpt (mg s)) ++ nodes.
Let s1 := mkTst (swapped (mg s)) (td s).

Lemma swapped_room :
  log_room (tm_journal (mg s)) (map ltxn_of (tm_ckpt (mg s))) nodes.
Proof.
  pose proof (emptied_start s Hinv) as He. destruct Hready as [_ Hfit [Hmax _ _] Hnw Hsq].
  apply (room_after s1 s1 nodes); try done; [by apply checkpoints_refl, mgr_inv_swapped|].
  left. apply Z.ltb_ge. pose proof (ry_room _ Hroomy) as Hr.
  by rewrite (wfs_ndirty _ (mi_staging _ Hinv)) in Hr.
Qed.

(** There is nothing to reclaim first. *)
Lemma make_room_done : make_room (Z.of_nat (length nodes)) s1 = (Ok tt, s1).
Proof.
  unfold make_room, mbind, M_bind, gets, checkpoint_fuel.
  cbn [checkpoint_while]. unfold mbind, M_bind, gets.
  pose proof (ry_room _ Hroomy) as Hr. rewrite (wfs_ndirty _ (mi_staging _ Hinv)) in Hr.
  change (mg s1) with (swapped (mg s)). change (tm_journal (swapped (mg s))) with (tm_journal (mg s)).
  fold nodes in Hr. by rewrite (proj2 (Z.ltb_ge _ _) Hr).
Qed.

Lemma do_commit_torn :
  live_io (td s) -> heap (td s) = [] ->
  crash_safe td (log_torn s ws) (do_commit (Some nodes) (Z.of_nat (length nodes))) s1
    (fun _ s2 => exists d', s2 = committed_state s1 nodes d' /\
       b_disk d' = run (commit_ops (tm_journal (mg s)) nodes []) (b_disk (td s))).
Proof.
  intros Hl Hh. pose proof (mgr_inv_swapped s Hinv) as Hinv1. fold s1 in Hinv1.
  pose proof swapped_room as Hroom. unfold do_commit.
  eapply crash_safe_skip; [apply make_room_done|done|].
  eapply crash_safe_bind with (Q1 := fun r s3 => r = Some (mkCommitted
      (j_next_sequence (tm_journal (mg s))) (j_head (tm_journal (mg s))) nodes) /\
    mg s3 = set_journal (after_commit (tm_journal (mg s)) nodes []) (mg s1) /\
    b_disk (td s3) = run (commit_ops (tm_journal (mg s)) nodes []) (b_disk (td s))).
  - eapply crash_safe_acts; [apply (acts_commit_io s1 nodes Hinv1 Hl Hh (rd_loggable _ Hready) Hroom)| |].
    + intros l img Hp Hc. unfold log_torn, ws. rewrite <-all_writes_ckpt.
      eapply (torn_commit (tm_journal (mg s)) (b_disk (td s)));
        [apply Hinv| |apply Hready|exact Hroom|exact Hp|exact Hc].
      pose proof (ry_logged _ Hroomy) as Hne. by destruct (tm_ckpt (mg s)).
    + intros r s3 [-> Hm] _ _ Hd. done.
  - intros r s3 (-> & Hm & Hd) Hl3 Hh3. destruct s3 as [m3 d3]. cbn [mg td] in *. subst m3.
    apply crash_safe_set_mgr; [done|done|]. exists d3. by split.
  - intros t. by apply still_nodev_mgr.
Qed.

Lemma committed_torn d' :
  b_disk d' = run (commit_ops (tm_journal (mg s)) nodes []) (b_disk (td s)) ->
  live_io d' -> heap d' = [] ->
  crash_safe td (log_torn s ws) enforce_checkpoint_lag (committed_state s1 nodes d')
    (fun _ s' => now_torn s ws s').
Proof.
  intros Hd Hl Hh. pose proof (mgr_inv_swapped s Hinv) as Hinv1. fold s1 in Hinv1.
  pose proof (mi_home _ Hinv) as Hhome. unfold home_writes in Hhome. apply Forall_app in Hhome as [_ Hhome].
  assert (Hinv2 : mgr_inv (committed_state s1 nodes d')).
  { apply mgr_inv_committed; [done|done|apply Hready|exact swapped_room|exact Hhome|exact Hd]. }
  assert (Hback : forall img, log_torn (committed_state s1 nodes d') ws img -> log_torn s ws img).
  { intros img Ht. unfold log_torn in *. cbn [committed_state td] in Ht. rewrite Hd, nblocks_run in Ht.
    eapply torn_region; [|exact Ht]. by split. }
  eapply crash_safe_weaken; [|exact Hback].
  eapply crash_safe_wand; [apply (enforce_torn _ ws Hinv2); [| |exact Hl|exact Hh]|].
  - cbn [committed_state mg commit_finish set_progress set_ckpt tm_ckpt]. by destruct (tm_ckpt _).
  - intros w. by rewrite committed_ckpt.
  - intros u s' Hn img Hcr. by apply Hback, Hn.
Qed.

Lemma idle_torn :
  live_io (td s) -> heap (td s) = [] -> tm_ndirty (mg s) = 0 ->
  crash_safe td (log_torn s ws) enforce_checkpoint_lag
    (mkTst (set_progress (tm_generation_seq (mg s)) (tm_generation_seq (mg s)) (swapped (mg s))) (td s))
    (fun _ s' => now_torn s ws s').
Proof.
  intros Hl Hh Hz.
  pose proof (ol_inv _ _ (idle_on_list s Hinv s1 Hz (emptied_start s Hinv) eq_refl)) as H.
  apply (enforce_torn _ ws H); [apply (ry_logged _ Hroomy)| |exact Hl|exact Hh].
  intros w Hw. apply elem_of_app. by left.
Qed.

(** Wherever the power fails, the disk has a log that mounts. *)
Lemma commit_cycle_torn :
  live_io (td s) -> heap (td s) = [] ->
  crash_safe td (log_torn s ws) commit_cycle s (fun _ s' => now_torn s ws s').
Proof.
  intros Hl Hh. unfold commit_cycle. eapply crash_safe_skip; [done|done|].
  eapply crash_safe_skip; [done|done|]. cbn [mg set_mgr].
  change (tm_running_handles (set_freezing true (mg s))) with (tm_running_handles (mg s)).
  rewrite (rd_handles _ Hready). change (0 <? 0) with false. cbv iota.
  eapply crash_safe_skip.
  { apply (commit_swap_eq (set_mgr (set_freezing true) s)); [|done].
    destruct (mi_staging _ Hinv). by split. }
  { done. }
  cbn [fst snd mg td set_mgr].
  change (swapped (set_freezing true (mg s))) with (swapped (mg s)).
  change (staged_nodes (set_freezing true (mg s))) with nodes.
  change (tm_ndirty (set_freezing true (mg s))) with (tm_ndirty (mg s)).
  change (tm_ordered_blocks (set_freezing true (mg s))) with (tm_ordered_blocks (mg s)).
  fold s1. unfold commit_rest. eapply crash_safe_skip; [done|done|].
  change (tm_mode (mg s1)) with (tm_mode (mg s)). rewrite Hmode.
  eapply crash_safe_skip; [done|done|].
  pose proof (wfs_ndirty _ (mi_staging _ Hinv)) as Hn. fold nodes in Hn.
  destruct (Z.eqb_spec (tm_ndirty (mg s)) 0) as [Hz|Hz].
  - rewrite Hz. change (0 <? 0) with false. cbv iota.
    eapply crash_safe_skip; [done|done|]. by apply idle_torn.
  - rewrite (proj2 (Z.ltb_lt _ _)) by lia. rewrite Hn.
    eapply crash_safe_bind; [by apply do_commit_torn| |intros _; apply still_enforce].
    intros u s2 (d' & -> & Hd) Hl2 Hh2. by apply committed_torn.
Qed.

(** Whatever the turn came to. *)
Lemma turn_leaves img :
  live_io (td s) -> heap (td s) = [] -> crash_image (b_disk (td (commit_cycle s).2)) img ->
  turn_crash s img /\ log_torn s ws img.
Proof.
  intros Hl Hh Hcr. pose proof (commit_cycle_safe s Hinv Hready Hl Hh) as H1.
  pose proof (commit_cycle_torn Hl Hh) as H2. unfold crash_safe in H1, H2.
  destruct (commit_cycle s) as [r s']. cbn [snd] in Hcr.
  destruct H1 as (_ & _ & _ & H1), H2 as (_ & _ & _ & H2). split.
  - destruct H1 as [(u & _ & Hd)|[_ H1]]; [|by apply H1]. right. by apply (turn_done_survives s s').
  - destruct H2 as [(u & _ & H2)|[_ H2]]; by apply H2.
Qed.
End turn.
