(* ===== verification/TxnView.v ===== *)
(** What a reader sees of the transaction manager and what a handle's
    accesses do to it: reading, staging and storing through the pointer of
    [logfs_txn_get_write_access], for every kernel and allocator. *)

From S2P Require Import Prelude.
From S2P Require Import Bytes.
From S2P Require Import DiskFormat.
From S2P Require Import Blockdev.
From S2P Require Import DiskOps.
From S2P Require Import Journal.
From S2P Require Import JournalLog.
From S2P Require Import JournalCommit.
From S2P Require Import JournalInv.
From S2P Require Import JournalRecover.
From S2P Require Import JournalReplay.
From S2P Require Import JournalSafety.
From S2P Require Import Txn.
From S2P Require Import TxnInv.
From S2P Require Import TxnSafety.
From S2P Require Import TxnCommit.

Lemma mgr_inv_create j mode d :
  log_inv j (b_disk d) [] -> j_tail j = j_head j ->
  mgr_inv (mkTst (logfs_txnmgr_create j mode) d).
Proof.
  intros Hl Ht. split; cbn [mg td logfs_txnmgr_create tm_journal tm_ckpt tm_ckpt_count]; try done.
  - destruct (wf_empty_buckets (logfs_txnmgr_create j mode) 0 eq_refl) as [? ? ?]. by split.
  - constructor.
Qed.

(** ** Reads and staging *)

Lemma read_ok b d :
  sys d = [] -> wf_disk (b_disk d) -> b < nblocks (b_disk d) ->
  logfs_bdev_read b d = (Ok (content (b_disk d) b), d).
Proof.
  intros Hs Hk Hb. unfold logfs_bdev_read. rewrite (proj2 (Z.leb_gt _ _)) by lia.
  rewrite Hs. cbn [full_pread]. rewrite (proj2 (Nat.leb_gt _ _)) by blia.
  cbn [Z.eqb]. rewrite drop_0, whole_splice by (apply length_zero_block || by apply wf_content).
  destruct d. simpl in *. by subst.
Qed.

Lemma write_ok b c d :
  sys d = [] -> wf_disk (b_disk d) -> b < nblocks (b_disk d) -> length c = block_len ->
  logfs_bdev_write b c d = (Ok tt, set_disk (push_write b c) d).
Proof.
  intros Hs Hk Hb Hc. unfold logfs_bdev_write. rewrite (proj2 (Z.leb_gt _ _)) by lia.
  rewrite Hs. cbn [full_pwrite]. rewrite (proj2 (Nat.leb_gt _ _)) by blia.
  rewrite drop_0, whole_splice by (done || by apply wf_content).
  rewrite (proj2 (Nat.eqb_neq _ _)) by blia. destruct d. simpl in *. by subst.
Qed.

(** Staging a block: the state it leaves. *)
Definition staged_state (s : tst) (b : Z) : tst :=
  match find_dirty (mg s) b with
  | Some _ => s
  | None => mkTst (insert_dirty b (view s b) (mg s)) (td s)
  end.

Lemma view_length s b : mgr_inv s -> length (view s b) = block_len.
Proof.
  intros Hinv. unfold view, overlay.
  destruct (latest _ b) as [c|] eqn:E; cbn [default from_option].
  - apply latest_in, elem_of_app in E as [Hin|Hin].
    + pose proof (li_txns _ _ _ (mi_log _ Hinv)) as Ht. rewrite Forall_forall in Ht.
      apply list_elem_of_In, in_concat in Hin as (l & Hl & Hin).
      apply in_map_iff in Hl as (t & <- & Ht').
      specialize (Ht (ltxn_of t)). rewrite list_elem_of_fmap in Ht.
      destruct (Ht ltac:(exists t; split; [done|by apply list_elem_of_In])) as [_ _ Hd].
      rewrite Forall_forall in Hd. apply list_elem_of_In in Hin. by apply Hd in Hin as [_ ?].
    + by apply staged_node_wf in Hin as [_ ?]; [|apply Hinv].
  - apply wf_content. apply (mi_log _ Hinv).
Qed.

Lemma find_or_create_eq s b :
  mgr_inv s -> sys (td s) = [] -> heap (td s) = [] -> b < nblocks (b_disk (td s)) ->
  find_or_create_dirty b s = (Ok (Some (view s b)), staged_state s b).
Proof.
  intros Hinv Hs Hh Hb. unfold staged_state. pose proof (view_lookup s b (mi_staging _ Hinv)) as Hv.
  unfold find_or_create_dirty, mbind, M_bind, gets.
  destruct (find_dirty (mg s) b) as [c|]; [by rewrite Hv|].
  destruct s as [m d]. unfold on_bdev, zoom, malloc. cbn [mg td] in *. rewrite Hh. cbn [negb].
  destruct (find_checkpointed m b) as [c|]; [by rewrite Hv|].
  cbn [default from_option] in Hv. unfold attempt, zoom. cbn [mg td].
  rewrite read_ok; [by rewrite Hv|done|apply (mi_log _ Hinv)|done].
Qed.

(** A block the file system may stage: a device block, not the journal's. *)
Definition stageable (s : tst) (b : Z) : Prop :=
  0 <= b < nblocks (b_disk (td s)) /\ ~ journal_block (tm_journal (mg s)) b.

Lemma stageable_range s b : mgr_inv s -> stageable s b -> 0 <= b < 2 ^ 64.
Proof. intros Hinv [Hb _]. pose proof (geo_nblocks _ _ (li_geo _ _ _ (mi_log _ Hinv))). lia. Qed.

Lemma elem_of_concat {A} (l : list (list A)) x : x ∈ concat l <-> exists y, y ∈ l /\ x ∈ y.
Proof.
  rewrite list_elem_of_In, in_concat. split; intros (y & H1 & H2); exists y;
    by rewrite !list_elem_of_In in *.
Qed.

Lemma elem_of_concat_insert {A} (l : list (list A)) i y x :
  x ∈ concat (<[i := y]> l) -> x ∈ y \/ x ∈ concat l.
Proof.
  intros (z & Hz & Hx)%elem_of_concat. apply list_elem_of_lookup in Hz as [k Hk].
  apply list_lookup_insert_Some in Hk as [(_ & <- & _)|[_ Hk]]; [by left|right].
  apply elem_of_concat. exists z. split; [by eapply list_elem_of_lookup_2|done].
Qed.

Lemma bucket_staged m b d : wf_staging m -> d ∈ bucket m (hash_block b) -> d ∈ staged_nodes m.
Proof.
  intros Hwf Hd. apply elem_of_concat. exists (bucket m (hash_block b)). split; [|done].
  by eapply list_elem_of_lookup_2, bucket_lookup.
Qed.

Lemma insert_dirty_nodes m b c d :
  wf_staging m -> d ∈ staged_nodes (insert_dirty b c m) -> d = (b, c) \/ d ∈ staged_nodes m.
Proof.
  intros Hwf [Hd|Hd]%elem_of_concat_insert; [|by right].
  apply elem_of_cons in Hd as [->|Hd]; [by left|right]. by eapply bucket_staged.
Qed.

Lemma mgr_inv_staged s b : mgr_inv s -> stageable s b -> mgr_inv (staged_state s b).
Proof.
  intros Hinv Hb. pose proof (stageable_range _ _ Hinv Hb) as Hr.
  unfold staged_state. destruct (find_dirty (mg s) b) eqn:E; [done|].
  pose proof (view_length s b Hinv) as Hlen. destruct Hb as [Hbn Hbj].
  destruct Hinv as [Hst Hl Ho Hc Hh]. split; try done.
  - by apply wf_insert_dirty.
  - unfold home_writes in *. apply Forall_app in Hh as [H1 H2]. apply Forall_app_2; [exact H1|].
    apply Forall_forall. intros d Hd. apply insert_dirty_nodes in Hd as [->|Hd]; [| |done].
    + split; [apply Hbn|exact Hbj].
    + rewrite Forall_forall in H2. by apply H2.
Qed.

Lemma view_staged s b b' : mgr_inv s -> stageable s b -> view (staged_state s b) b' = view s b'.
Proof.
  intros Hinv Hb. pose proof (mgr_inv_staged s b Hinv Hb) as Hinv'.
  rewrite (view_lookup _ _ (mi_staging _ Hinv')), (view_lookup s b' (mi_staging _ Hinv)).
  unfold staged_state in *. destruct (find_dirty (mg s) b) eqn:E; [done|]. cbn [mg td].
  rewrite find_dirty_insert by apply Hinv. destruct (decide (b = b')) as [<-|]; [|done].
  rewrite E. by rewrite (view_lookup s b (mi_staging _ Hinv)), E.
Qed.

Lemma staged_is_dirty s b : mgr_inv s -> find_dirty (mg (staged_state s b)) b = Some (view s b).
Proof.
  intros Hinv. unfold staged_state. pose proof (view_lookup s b (mi_staging _ Hinv)) as Hv.
  destruct (find_dirty (mg s) b) as [c|] eqn:E; [by rewrite E, Hv|]. cbn [mg].
  rewrite find_dirty_insert by apply Hinv. by rewrite decide_True.
Qed.

Lemma mgr_inv_stored s b c :
  mgr_inv s -> length c = block_len -> mgr_inv (mkTst (stored b c (mg s)) (td s)).
Proof.
  intros Hinv Hc. pose proof Hinv as [Hst Hl Ho Hn Hh]. split; try done.
  - by apply wf_stored.
  - unfold home_writes in *. apply Forall_app in Hh as [H1 H2]. apply Forall_app_2; [exact H1|].
    apply Forall_forall. intros d Hd. rewrite Forall_forall in H2. cbn [mg td] in Hd |- *.
    assert (Hfst : d.1 ∈ (staged_nodes (mg s)).*1).
    { apply elem_of_concat_insert in Hd as [Hd|Hd]; [|by apply list_elem_of_fmap_2].
      apply (list_elem_of_fmap_2 fst) in Hd. rewrite chain_store_fst in Hd.
      apply list_elem_of_fmap in Hd as (d' & -> & Hd). apply list_elem_of_fmap_2.
      by eapply bucket_staged. }
    apply list_elem_of_fmap in Hfst as (d' & Hdd & Hd'). destruct (H2 d' Hd') as [? ?].
    rewrite Hdd. by split.
Qed.
