(* ===== verification/TxnApi.v ===== *)
(** [src/txn.h] as its clients, [inode.c] and [fs_ops.c], see it: the calls
    between a [logfs_txn_start] and its [logfs_txn_stop], and what they
    promise.

    [TxnApi] are the calls, [contents] the abstract state - every block's
    current contents, the blocks the open handle has staged - and [TxnLaws]
    the specification of each call on it.  The file system's theorems are
    proved from the laws; [TxnStore] shows that the transaction manager has
    them. *)

From S2P Require Import Prelude.
From S2P Require Import Bytes.
From S2P Require Import DiskFormat.
From S2P Require Import Blockdev.
From S2P Require Import Journal.
From S2P Require Import Txn.

(** The pointer [logfs_txn_get_write_access] hands out is the block it was
    called for: the call returns its bytes, [txn_store] is a write through it. *)
Class TxnApi (S : Type) := {
  txn_start : M S Z;
  txn_stop : Z -> M S unit;
  txn_read_block : Z -> M S block;
  txn_get_write_access : Z -> Z -> M S block;
  txn_store : Z -> block -> M S unit;
  txn_dirty_metadata : Z -> Z -> M S unit;
  txn_write_data : Z -> Z -> block -> M S unit;
}.

(** What the manager has beneath its staging table: the journal, the
    transactions still to be checkpointed, the disk. *)
Record beneath := mkBeneath {
  du_journal : logfs_journal;
  du_ckpt : list committed_txn;
  du_disk : disk;
}.

Record contents := mkContents {
  c_view : Z -> block;      (* what a read of the block returns *)
  c_staged : gset Z;        (* blocks that may be written through a pointer *)
  c_block : Z -> Prop;      (* block numbers a client may use *)
  c_gen : Z;                (* the running generation *)
  c_calm : bool;            (* no call fails from here on *)
  c_data : Z -> Prop;       (* blocks whose data writes are visible at once *)
  c_logs : bool;            (* data writes go through the journal *)
  c_base : option beneath;  (* what no call changes, where that is so *)
}.

(** Staging a block: a data write that bypasses the journal would from now on
    be hidden by the staged copy. *)
Definition touch (b : Z) (a : contents) : contents :=
  mkContents (c_view a) ({[b]} ∪ c_staged a) (c_block a) (c_gen a) (c_calm a)
    (fun b' => c_data a b' /\ (b' = b -> c_logs a = true)) (c_logs a) (c_base a).

Definition put (b : Z) (c : block) (a : contents) : contents :=
  mkContents (fun b' => if decide (b = b') then c else c_view a b')
    (c_staged a) (c_block a) (c_gen a) (c_calm a) (c_data a) (c_logs a) (c_base a).

(** A data write. *)
Definition wrote (b : Z) (c : block) (a : contents) : contents :=
  if c_logs a then put b c (touch b a) else put b c a.

(** The kernel or the allocator failed a call. *)
Definition io_error {A} (a : contents) (r : result A) : Prop :=
  c_calm a = false /\ exists rc, rc < 0 /\ r = Err rc.

(** ** Triples *)

Definition triple {S A} (rep : contents -> S -> Prop) (a : contents) (m : M S A)
    (Q : result A -> contents -> Prop) : Prop :=
  forall s, rep a s -> exists a', rep a' (m s).2 /\ Q (m s).1 a'.

Class TxnLaws (S : Type) `{TxnApi S} := {
  rep : contents -> S -> Prop;
  rep_length a s b : rep a s -> length (c_view a b) = block_len;
  law_start a :
    triple rep a txn_start (fun r a' => r = Ok (c_gen a) /\ a' = a);
  law_stop a h :
    triple rep a (txn_stop h) (fun r a' => r = Ok tt /\ a' = a);
  law_read a b :
    c_block a b ->
    triple rep a (txn_read_block b)
      (fun r a' => a' = a /\ (r = Ok (c_view a b) \/ io_error a r));
  law_access a h b :
    c_block a b -> h = c_gen a ->
    triple rep a (txn_get_write_access h b)
      (fun r a' => r = Ok (c_view a b) /\ a' = touch b a \/ io_error a r /\ a' = a);
  law_store a b c :
    b ∈ c_staged a -> length c = block_len ->
    triple rep a (txn_store b c) (fun r a' => r = Ok tt /\ a' = put b c a);
  law_dirty a h b :
    b ∈ c_staged a ->
    triple rep a (txn_dirty_metadata h b) (fun r a' => r = Ok tt /\ a' = a);
  law_write a h b c :
    c_block a b -> c_data a b -> h = c_gen a -> length c = block_len ->
    triple rep a (txn_write_data h b c)
      (fun r a' => r = Ok tt /\ a' = wrote b c a \/
                   io_error a r /\ exists c', length c' = block_len /\ a' = put b c' a);
}.

Section triples.
Context {S : Type} (rep : contents -> S -> Prop).

Lemma triple_wand {A} a (m : M S A) (Q1 Q2 : result A -> contents -> Prop) :
  triple rep a m Q1 -> (forall r a', Q1 r a' -> Q2 r a') -> triple rep a m Q2.
Proof. intros H HQ s Hs. destruct (H s Hs) as (a' & ? & ?). eauto. Qed.

Lemma triple_ret {A} a (x : A) (Q : result A -> contents -> Prop) :
  Q (Ok x) a -> triple rep a (mret x) Q.
Proof. intros HQ s Hs. by exists a. Qed.

Lemma triple_fail {A} a rc (Q : result A -> contents -> Prop) :
  Q (Err rc) a -> triple rep a (fail rc) Q.
Proof. intros HQ s Hs. by exists a. Qed.

Lemma triple_bind {A B} a (m : M S A) (f : A -> M S B) (Q : result B -> contents -> Prop) :
  triple rep a m (fun r a1 => match r with
                              | Ok x => triple rep a1 (f x) Q
                              | Err rc => Q (Err rc) a1
                              end) ->
  triple rep a (m ≫= f) Q.
Proof.
  intros H s Hs. unfold mbind, M_bind. destruct (H s Hs) as (a1 & H1 & HQ).
  destruct (m s) as [[x|rc] s1]; cbn [fst snd] in *; [by apply HQ|by exists a1].
Qed.

Lemma triple_attempt {A} a (m : M S A) (Q : result (result A) -> contents -> Prop) :
  triple rep a m (fun r a' => Q (Ok r) a') -> triple rep a (attempt m) Q.
Proof.
  intros H s Hs. unfold attempt. destruct (H s Hs) as (a1 & H1 & HQ).
  destruct (m s) as [r s1]. by exists a1.
Qed.
(** The calls of a sequence may be grouped. *)
Lemma triple_assoc {A B C} a (m : M S A) (k : A -> M S B) (f : B -> M S C)
    (Q : result C -> contents -> Prop) :
  triple rep a ((m ≫= k) ≫= f) Q -> triple rep a (m ≫= fun x => k x ≫= f) Q.
Proof.
  intros H s Hs. specialize (H s Hs). unfold mbind, M_bind in *.
  by destruct (m s) as [[x|rc] s1].
Qed.
End triples.

(** ** Proving clients *)

Section clients.
Context {S : Type} `{TxnLaws S}.

Lemma triple_start {B} a (f : Z -> M S B) Q :
  triple rep a (f (c_gen a)) Q -> triple rep a (txn_start ≫= f) Q.
Proof.
  intros Hf. apply triple_bind. eapply triple_wand; [apply law_start|]. by intros r a' [-> ->].
Qed.

Lemma triple_stop {B} a h (f : unit -> M S B) Q :
  triple rep a (f tt) Q -> triple rep a (txn_stop h ≫= f) Q.
Proof.
  intros Hf. apply triple_bind. eapply triple_wand; [apply law_stop|]. by intros r a' [-> ->].
Qed.

Lemma triple_read {B} a b (f : block -> M S B) Q :
  c_block a b ->
  (forall rc, c_calm a = false -> rc < 0 -> Q (Err rc) a) ->
  triple rep a (f (c_view a b)) Q ->
  triple rep a (txn_read_block b ≫= f) Q.
Proof.
  intros Hb He Hf. apply triple_bind. eapply triple_wand; [by apply law_read|].
  intros r a' (-> & [->|(? & rc & ? & ->)]); eauto.
Qed.

Lemma triple_access {B} a h b (f : block -> M S B) Q :
  c_block a b -> h = c_gen a ->
  (forall rc, c_calm a = false -> rc < 0 -> Q (Err rc) a) ->
  triple rep (touch b a) (f (c_view a b)) Q ->
  triple rep a (txn_get_write_access h b ≫= f) Q.
Proof.
  intros Hb Hh He Hf. apply triple_bind. eapply triple_wand; [by apply law_access|].
  intros r a' [(-> & ->)|((? & rc & ? & ->) & ->)]; eauto.
Qed.

Lemma triple_store {B} a b c (f : unit -> M S B) Q :
  b ∈ c_staged a -> length c = block_len ->
  triple rep (put b c a) (f tt) Q -> triple rep a (txn_store b c ≫= f) Q.
Proof.
  intros Hb Hc Hf. apply triple_bind. eapply triple_wand; [by apply law_store|].
  by intros r a' [-> ->].
Qed.

Lemma triple_dirty {B} a h b (f : unit -> M S B) Q :
  b ∈ c_staged a ->
  triple rep a (f tt) Q -> triple rep a (txn_dirty_metadata h b ≫= f) Q.
Proof.
  intros Hb Hf. apply triple_bind. eapply triple_wand; [by apply law_dirty|].
  by intros r a' [-> ->].
Qed.

Lemma triple_dirty_last a h b (Q : result unit -> contents -> Prop) :
  b ∈ c_staged a -> Q (Ok tt) a -> triple rep a (txn_dirty_metadata h b) Q.
Proof.
  intros Hb HQ. eapply triple_wand; [by apply law_dirty|]. by intros r a' [-> ->].
Qed.

Lemma triple_write {B} a h b c (f : unit -> M S B) Q :
  c_block a b -> c_data a b -> h = c_gen a -> length c = block_len ->
  (forall rc c', c_calm a = false -> rc < 0 -> length c' = block_len -> Q (Err rc) (put b c' a)) ->
  triple rep (wrote b c a) (f tt) Q -> triple rep a (txn_write_data h b c ≫= f) Q.
Proof.
  intros Hb Hd Hh Hc He Hf. apply triple_bind. eapply triple_wand; [by apply law_write|].
  intros r a' [[-> ->]|[(Hcalm & rc & Hrc & ->) (c' & Hc' & ->)]]; [exact Hf|by apply He].
Qed.

(** The blocks of a state are whole: it is the state of some run. *)
Lemma triple_whole {A} a (m : M S A) Q :
  ((forall b, length (c_view a b) = block_len) -> triple rep a m Q) -> triple rep a m Q.
Proof. intros Hm s Hs. apply Hm; [|done]. intros b. by eapply rep_length. Qed.
End clients.

Lemma staged_put b c b' a : b' ∈ c_staged a -> b' ∈ c_staged (put b c a).
Proof. done. Qed.

Lemma staged_touch b a : b ∈ c_staged (touch b a).
Proof. set_solver. Qed.

Create HintDb txn.

#[export] Hint Resolve staged_put staged_touch : txn.
