(* ===== verification/TxnStore.v ===== *)
(** The transaction manager keeps the promises of [TxnApi]: the abstract
    contents are the reader's [view], and every call refines its law, under
    any kernel that does not cut the backing file short and any allocator. *)

From S2P Require Import Prelude.
From S2P Require Import Bytes.
From S2P Require Import DiskFormat.
From S2P Require Import Blockdev.
From S2P Require Import DiskOps.
From S2P Require Import Journal.
From S2P Require Import JournalLog.
From S2P Require Import JournalInv.
From S2P Require Import JournalRecover.
From S2P Require Import JournalSafety.
From S2P Require Import Txn.
From S2P Require Import TxnInv.
From S2P Require Import TxnSafety.
From S2P Require Import TxnView.
From S2P Require Import TxnApi.

#[export] Instance txn_api : TxnApi tst := {
  txn_start := logfs_txn_start;
  txn_stop _ := logfs_txn_stop;
  txn_read_block := logfs_txn_read_block;
  txn_get_write_access := logfs_txn_get_write_access;
  txn_store := store_staged;
  txn_dirty_metadata := logfs_txn_dirty_metadata;
  txn_write_data := logfs_txn_write_data;
}.

Definition beneath_of (s : tst) : beneath :=
  mkBeneath (tm_journal (mg s)) (tm_ckpt (mg s)) (b_disk (td s)).

Record rep_mgr (a : contents) (s : tst) : Prop := {
  rm_inv : mgr_inv s;
  rm_kernel : SRet O ∉ sys (td s);
  rm_calm : c_calm a = true -> sys (td s) = [] /\ heap (td s) = [];
  rm_open : tm_freezing (mg s) = false;
  rm_gen : tm_generation_seq (mg s) = c_gen a;
  rm_block b : c_block a b -> stageable s b;
  rm_view b : c_view a b = view s b;
  rm_staged b : b ∈ c_staged a -> is_Some (find_dirty (mg s) b);
  rm_logs : c_logs a = true -> tm_mode (mg s) = LOGFS_MODE_JOURNAL;
  rm_data b : c_data a b ->
    c_logs a = true \/
    tm_mode (mg s) = LOGFS_MODE_ORDERED /\ find_dirty (mg s) b = None /\
    find_checkpointed (mg s) b = None;
  rm_base du : c_base a = Some du ->
    tm_mode (mg s) = LOGFS_MODE_JOURNAL /\ beneath_of s = du /\
    forall b, is_Some (find_dirty (mg s) b) -> c_block a b;
}.

(** ** Calls that leave the manager alone *)

Record unmoved (d d' : bdev) : Prop := {
  um_disk : b_disk d' = b_disk d;
  um_sys : sys d' `suffix_of` sys d;
  um_heap : heap d' `suffix_of` heap d;
}.

Lemma unmoved_refl d : unmoved d d.
Proof. by split. Qed.

Lemma unmoved_trans d1 d2 d3 : unmoved d1 d2 -> unmoved d2 d3 -> unmoved d1 d3.
Proof. intros [H1 H2 H3] [H4 H5 H6]. split; [congruence|by etrans|by etrans]. Qed.

Lemma kernel_unmoved d d' : unmoved d d' -> SRet O ∉ sys d -> SRet O ∉ sys d'.
Proof. intros [_ [l H] _]. rewrite H. set_solver. Qed.

Lemma view_unmoved m d d' b : b_disk d' = b_disk d -> view (mkTst m d') b = view (mkTst m d) b.
Proof. intros H. unfold view. cbn [mg td]. by rewrite H. Qed.

Lemma mgr_inv_unmoved m d d' : b_disk d' = b_disk d -> mgr_inv (mkTst m d) -> mgr_inv (mkTst m d').
Proof. intros H [? ? ? ? ?]. split; cbn [mg td] in *; by rewrite ?H. Qed.

Lemma rep_unmoved a m d d' : unmoved d d' -> rep_mgr a (mkTst m d) -> rep_mgr a (mkTst m d').
Proof.
  intros Hum [H1 H2 H3 H4 H5 H6 H7 H8 H9 H10 H11]. pose proof Hum as [Hd Hs Hh]. split; cbn [mg td] in *; try done.
  - by eapply mgr_inv_unmoved.
  - by eapply kernel_unmoved.
  - intros Hc. destruct (H3 Hc) as [E1 E2]. rewrite E1 in Hs. rewrite E2 in Hh.
    by split; apply suffix_nil_inv.
  - intros b Hb. destruct (H6 b Hb) as [? ?]. unfold stageable. cbn [mg td] in *. by rewrite Hd.
  - intros b. by rewrite (view_unmoved m d d' b Hd).
  - intros du Hbase. destruct (H11 du Hbase) as (Hm & <- & Hst). split; [done|]. split; [|done].
    unfold beneath_of. cbn [mg td]. by rewrite Hd.
Qed.

(** ** The device under an arbitrary kernel *)

Lemma read_any b d :
  SRet O ∉ sys d -> wf_disk (b_disk d) -> b < nblocks (b_disk d) ->
  unmoved d (logfs_bdev_read b d).2 /\
  ((logfs_bdev_read b d).1 = Ok (content (b_disk d) b) \/
   sys d <> [] /\ exists rc, rc < 0 /\ (logfs_bdev_read b d).1 = Err rc).
Proof.
  intros Hk Hwf Hb. destruct (decide (sys d = [])) as [E|E].
  { rewrite (read_ok b d E Hwf Hb). split; [apply unmoved_refl|by left]. }
  unfold logfs_bdev_read. rewrite (proj2 (Z.leb_gt _ _)) by lia.
  destruct (full_pread (sys d) zero_block (content (b_disk d) b) 0) as [[rc buf] rest] eqn:Er.
  pose proof Er as (Hsuf & Hrc & _)%full_pread_suffix. cbn [fst snd].
  split; [by split|]. destruct (Z.eqb_spec rc 0) as [->|Hne].
  - left. f_equal. change zero_block with (take 0 (content (b_disk d) b) ++ drop 0 zero_block) in Er.
    eapply full_pread_from in Er as (k & _ & -> & Hall);
      [|apply length_zero_block|by apply wf_content|lia|done].
    rewrite (Hall Hk), Nat.sub_diag, app_nil_r. apply take_ge. by rewrite (wf_content _ _ Hwf).
  - right. split; [done|]. exists rc. split; [lia|done].
Qed.

Lemma malloc_any d :
  exists ok, (malloc d).1 = Ok ok /\ unmoved d (malloc d).2 /\ (heap d = [] -> ok = true).
Proof.
  unfold malloc. destruct (heap d) as [|ok rest] eqn:E; cbn [fst snd].
  - exists true. split_and!; [done|apply unmoved_refl|done].
  - exists ok. split_and!; [done| |done]. split; cbn [b_disk sys heap]; [done|done|].
    rewrite E. by apply suffix_cons_r.
Qed.

(** ** Staging, whatever fails *)

Lemma staged_state_eq s b : staged_state s b = mkTst (mg (staged_state s b)) (td s).
Proof. unfold staged_state. destruct s. by destruct (find_dirty _ b). Qed.

Lemma rep_staged a s b :
  rep_mgr a s -> c_block a b -> rep_mgr (touch b a) (staged_state s b).
Proof.
  intros [H1 H2 H3 H4 H5 H6 H7 H8 H9 H10 H11] Hcb. pose proof (H6 b Hcb) as Hb.
  assert (Hfd : forall b', is_Some (find_dirty (mg s) b') ->
    is_Some (find_dirty (mg (staged_state s b)) b')).
  { intros b' Hb'. unfold staged_state. destruct (find_dirty (mg s) b); [done|]. cbn [mg].
    rewrite find_dirty_insert by apply H1. by destruct (decide (b = b')). }
  split; cbn [touch c_calm c_gen c_block c_view c_staged c_logs c_data c_base].
  - by apply mgr_inv_staged.
  - by rewrite staged_state_eq.
  - by rewrite staged_state_eq.
  - unfold staged_state. by destruct (find_dirty _ b).
  - rewrite <-H5. unfold staged_state. by destruct (find_dirty _ b).
  - intros b' Hb'. destruct (H6 b' Hb'). rewrite staged_state_eq. split; cbn [td mg]; [done|].
    unfold staged_state. by destruct (find_dirty _ b).
  - intros b'. by rewrite view_staged.
  - intros b' [->%elem_of_singleton|Hb']%elem_of_union; [|by apply Hfd, H8].
    rewrite staged_is_dirty by done. by eexists.
  - unfold staged_state. by destruct (find_dirty _ b).
  - intros b' [Hdata Hb']. destruct (H10 b' Hdata) as [|(Hmode & Hnone & Hck)]; [by left|].
    destruct (decide (b' = b)) as [->|Hne]; [left; by apply Hb'|right].
    unfold staged_state. destruct (find_dirty (mg s) b); [done|]. cbn [mg].
    rewrite find_dirty_insert by apply H1. by rewrite decide_False.
  - intros du Hbase. destruct (H11 du Hbase) as (Hm & Hdu & Hst).
    unfold staged_state. destruct (find_dirty (mg s) b); [done|]. split; [done|]. split; [done|].
    intros b'. cbn [mg]. rewrite find_dirty_insert by apply H1.
    destruct (decide (b = b')) as [<-|]; [done|apply Hst].
Qed.

(** The outcome of staging block [b]. *)
Definition staged_outcome (a : contents) (b : Z) (o : result (option block) * tst) : Prop :=
  o.1 = Ok (Some (c_view a b)) /\ rep_mgr (touch b a) o.2 \/
  c_calm a = false /\ o.1 = Ok None /\ rep_mgr a o.2.

Lemma not_calm a s : rep_mgr a s -> sys (td s) <> [] \/ heap (td s) <> [] -> c_calm a = false.
Proof. intros [_ _ H _ _ _ _ _ _ _] Hne. destruct (c_calm a); [|done]. destruct H; tauto. Qed.

(** What a new node starts from. *)
Lemma seed_any m d b :
  mgr_inv (mkTst m d) -> SRet O ∉ sys d -> b < nblocks (b_disk d) ->
  exists r d', match find_checkpointed m b with
               | Some data => mret (Ok data)
               | None => attempt (on_bdev (logfs_bdev_read b))
               end (mkTst m d) = (Ok r, mkTst m d') /\ unmoved d d' /\
    (r = Ok (default (content (b_disk d) b) (find_checkpointed m b)) \/
     sys d <> [] /\ exists rc, r = Err rc).
Proof.
  intros Hinv Hk Hb. destruct (find_checkpointed m b) as [c|].
  { exists (Ok c), d. split_and!; [done|apply unmoved_refl|by left]. }
  destruct (read_any b d Hk (li_disk _ _ _ (mi_log _ Hinv)) Hb) as [Hum Hr].
  exists (logfs_bdev_read b d).1, (logfs_bdev_read b d).2.
  split_and!; [|done|destruct Hr as [?|(? & rc & _ & ?)]; eauto].
  unfold attempt, on_bdev, zoom. cbn [td mg]. by destruct (logfs_bdev_read b d).
Qed.

Lemma stage_any a s b :
  rep_mgr a s -> c_block a b -> staged_outcome a b (find_or_create_dirty b s).
Proof.
  intros Hrep Hb. destruct s as [m d].
  pose proof (rm_block _ _ Hrep b Hb) as Hst. pose proof (rm_inv _ _ Hrep) as Hinv.
  pose proof (view_lookup _ b (mi_staging _ Hinv)) as Hv. rewrite <-(rm_view _ _ Hrep) in Hv.
  pose proof (rep_staged a _ b Hrep Hb) as Hrep'. unfold staged_state in Hrep'. cbn [mg td] in *.
  unfold find_or_create_dirty, mbind, M_bind, gets. cbn [mg].
  destruct (find_dirty m b) as [c|]; [left; by rewrite Hv|].
  destruct (malloc_any d) as (ok & Hok & Hum & Hheap).
  unfold on_bdev at 1, zoom. cbn [mg td]. destruct (malloc d) as [r0 d1]. cbn [fst snd] in *. subst r0.
  destruct ok; cbn [negb].
  2: { right. split_and!; [|done|by eapply rep_unmoved].
       apply (not_calm _ _ Hrep). right; intros E; by discriminate (Hheap E). }
  destruct (seed_any m d1 b) as (r & d2 & -> & Hum2 & Hr).
  { by eapply mgr_inv_unmoved; [apply Hum|]. }
  { exact (kernel_unmoved _ _ Hum (rm_kernel _ _ Hrep)). }
  { rewrite (um_disk _ _ Hum). apply Hst. }
  pose proof (unmoved_trans _ _ _ Hum Hum2) as Hum3. destruct Hr as [->|[Hne [rc ->]]].
  - left. rewrite (um_disk _ _ Hum), <-Hv. split; [done|].
    rewrite <-(rm_view _ _ Hrep) in Hrep'. eapply rep_unmoved in Hrep'; [|exact Hum3]. exact Hrep'.
  - right. split_and!; [|done|by eapply rep_unmoved].
    apply (not_calm _ _ Hrep). left. cbn [td]. intros E. apply Hne. apply suffix_nil_inv.
    rewrite <-E. apply Hum.
Qed.

(** ** The laws *)

Lemma rep_stored a s b c :
  rep_mgr a s -> b ∈ c_staged a -> length c = block_len ->
  rep_mgr (put b c a) (mkTst (stored b c (mg s)) (td s)).
Proof.
  intros Hrep Hb Hc. pose proof (rm_staged _ _ Hrep b Hb) as [c0 Hc0].
  destruct Hrep as [H1 H2 H3 H4 H5 H6 H7 H8 H9 H10 H11].
  assert (Hfind : forall b', find_dirty (stored b c (mg s)) b'
    = if decide (b = b') then Some c else find_dirty (mg s) b').
  { intros b'. rewrite find_dirty_stored by apply H1. destruct (decide (b = b')) as [<-|]; [|done].
    by rewrite Hc0. }
  pose proof (mgr_inv_stored s b c H1 Hc) as Hinv.
  split; cbn [put c_calm c_gen c_block c_view c_staged c_logs c_data c_base mg td]; try done.
  - intros b'. rewrite H7, (view_lookup _ _ (mi_staging _ Hinv)), (view_lookup s _ (mi_staging _ H1)).
    cbn [mg td]. rewrite Hfind. by destruct (decide (b = b')).
  - intros b' Hb'. rewrite Hfind. destruct (decide (b = b')); [by eexists|by apply H8].
  - intros b' Hdata. destruct (H10 b' Hdata) as [|(Hmode & Hnone & Hck)]; [by left|right].
    rewrite Hfind. rewrite decide_False by (intros <-; congruence). done.
  - intros du Hbase. destruct (H11 du Hbase) as (Hm & Hdu & Hst). split; [done|]. split; [done|].
    intros b'. rewrite Hfind. destruct (decide (b = b')) as [<-|]; [|apply Hst].
    intros _. apply Hst. by eexists.
Qed.

Lemma view_whole a s b : rep_mgr a s -> length (c_view a b) = block_len.
Proof. intros Hrep. rewrite (rm_view _ _ Hrep). apply view_length, Hrep. Qed.

Lemma rep_handles a m d n : rep_mgr a (mkTst m d) -> rep_mgr a (mkTst (set_handles n m) d).
Proof.
  intros [[[? ? ?] ? ? ? ?] ? ? ? ? ? ? ? ? ? ?]. by split.
Qed.

Lemma start_law a : triple rep_mgr a logfs_txn_start (fun r a' => r = Ok (c_gen a) /\ a' = a).
Proof.
  intros [m d] Hrep. exists a. unfold logfs_txn_start, mbind, M_bind, gets. cbn [mg].
  rewrite (rm_open _ _ Hrep : tm_freezing m = false). split; [by apply rep_handles|split; [|done]].
  cbn. f_equal. apply (rm_gen _ _ Hrep).
Qed.

Lemma stop_law a : triple rep_mgr a logfs_txn_stop (fun r a' => r = Ok tt /\ a' = a).
Proof.
  intros [m d] Hrep. exists a. split; [by apply rep_handles|done].
Qed.

Lemma read_law a b :
  c_block a b ->
  triple rep_mgr a (logfs_txn_read_block b)
    (fun r a' => a' = a /\ (r = Ok (c_view a b) \/ io_error a r)).
Proof.
  intros Hb [m d] Hrep. exists a. pose proof (rm_inv _ _ Hrep) as Hinv.
  pose proof (view_lookup _ b (mi_staging _ Hinv)) as Hv. rewrite <-(rm_view _ _ Hrep) in Hv.
  unfold logfs_txn_read_block, mbind, M_bind, gets. cbn [mg td] in *.
  destruct (find_dirty m b); [by rewrite Hv; auto|].
  destruct (find_checkpointed m b); cbn [default from_option id] in Hv; [by rewrite Hv; auto|].
  destruct (rm_block _ _ Hrep b Hb) as [[_ Hn] _].
  destruct (read_any b d (rm_kernel _ _ Hrep) (li_disk _ _ _ (mi_log _ Hinv)) Hn) as [Hum Hr].
  unfold on_bdev, zoom. cbn [mg td]. rewrite Hv. destruct (logfs_bdev_read b d) as [r d']. cbn [fst snd] in *.
  split; [by eapply rep_unmoved|]. split; [done|]. destruct Hr as [->|(Hne & rc & Hrc & ->)]; [by left|right].
  split; [|by eexists]. apply (not_calm _ _ Hrep). by left.
Qed.

Lemma access_law a h b :
  c_block a b -> h = c_gen a ->
  triple rep_mgr a (logfs_txn_get_write_access h b)
    (fun r a' => r = Ok (c_view a b) /\ a' = touch b a \/ io_error a r /\ a' = a).
Proof.
  intros Hb -> s Hrep. unfold logfs_txn_get_write_access, mbind, M_bind, gets.
  rewrite (rm_gen _ _ Hrep), Z.eqb_refl. cbn [negb].
  destruct (stage_any a s b Hrep Hb) as [[Hr Hs]|(Hc & Hr & Hs)];
    destruct (find_or_create_dirty b s) as [r s']; cbn [fst snd] in *; subst r.
  - exists (touch b a). split; [done|]. by left.
  - exists a. split; [done|]. right. split; [|done]. split; [done|]. by exists (- ENOMEM).
Qed.

Lemma store_law a b c :
  b ∈ c_staged a -> length c = block_len ->
  triple rep_mgr a (store_staged b c) (fun r a' => r = Ok tt /\ a' = put b c a).
Proof. intros Hb Hc s Hrep. exists (put b c a). split; [by apply rep_stored|done]. Qed.

Lemma dirty_law a h b :
  b ∈ c_staged a ->
  triple rep_mgr a (logfs_txn_dirty_metadata h b) (fun r a' => r = Ok tt /\ a' = a).
Proof.
  intros Hb [m d] Hrep. exists a. destruct (rm_staged _ _ Hrep b Hb) as [c Hc]. cbn [mg] in Hc.
  unfold logfs_txn_dirty_metadata, find_or_create_dirty, mbind, M_bind, gets. cbn [mg].
  by rewrite Hc.
Qed.

(** ** Data writes *)

Lemma write_any b c d :
  wf_disk (b_disk d) -> b < nblocks (b_disk d) -> length c = block_len ->
  let d' := (logfs_bdev_write b c d).2 in
  sys d' `suffix_of` sys d /\ heap d' = heap d /\
  ((logfs_bdev_write b c d).1 = Ok tt /\ b_disk d' = push_write b c (b_disk d) \/
   sys d <> [] /\ (exists rc, rc < 0 /\ (logfs_bdev_write b c d).1 = Err rc) /\
   (b_disk d' = b_disk d \/ exists c', length c' = block_len /\ b_disk d' = push_write b c' (b_disk d))).
Proof.
  intros Hwf Hb Hc. cbv zeta. destruct (decide (sys d = [])) as [E|E].
  { rewrite (write_ok b c d E Hwf Hb Hc). by split_and!; [| |left]. }
  pose proof (wf_content _ b Hwf) as Hf. unfold logfs_bdev_write. rewrite (proj2 (Z.leb_gt _ _)) by lia.
  destruct (full_pwrite _ _ _ _) as [[[rc file] n] rest] eqn:Ew.
  pose proof (full_pwrite_suffix _ _ _ _ _ _ _ _ Ew) as Hsuf.
  change (content (b_disk d) b) with (take 0 c ++ drop 0 (content (b_disk d) b)) in Ew.
  apply full_pwrite_from in Ew as (-> & Hn & Hrc & Hneg); [|done..|lia]. cbn [fst snd].
  assert (Hlen : length (take n c ++ drop n (content (b_disk d) b)) = block_len)
    by (rewrite length_app, length_take, length_drop, Hf; lia).
  destruct (Nat.eqb_spec n 0) as [->|Hn0]; (split; [done|]); (split; [done|]).
  - right. rewrite (proj2 (Z.eqb_neq rc 0)) by (intros H%Hrc; blia).
    split; [done|]. split; [exists rc; split; [|done]|by left].
    assert (rc <> 0) by (intros H%Hrc; blia). lia.
  - destruct (Z.eqb_spec rc 0) as [H0|H0].
    + left. apply Hrc in H0 as ->. rewrite take_ge, drop_ge, app_nil_r by lia. done.
    + right. split; [done|]. split; [exists rc; split; [lia|done]|]. right. by eexists.
Qed.

(** Rewriting a block outside the journal that no journaled copy hides. *)
Lemma rep_pushed a m d b c :
  rep_mgr a (mkTst m d) -> c_block a b -> c_data a b -> c_logs a = false -> length c = block_len ->
  rep_mgr (put b c a) (mkTst m (set_disk (push_write b c) d)).
Proof.
  intros Hrep Hb Hdata Hlogs Hc. pose proof (rm_block _ _ Hrep b Hb) as [_ Hj].
  destruct (rm_data _ _ Hrep b Hdata) as [Hl|(Hmode & Hnone & Hck)]; [congruence|].
  destruct Hrep as [H1 H2 H3 H4 H5 H6 H7 H8 H9 H10 H11]. cbn [mg td] in *.
  assert (Hinv : mgr_inv (mkTst m (set_disk (push_write b c) d))).
  { destruct H1 as [I1 I2 I3 I4 I5]. split; cbn [mg td] in *; try done.
    by apply (log_inv_home_op _ _ _ (DWrite b c)). }
  split; cbn [put c_calm c_gen c_block c_view c_staged c_logs c_data c_base mg td]; try done.
  2: { intros du Hbase. destruct (H11 du Hbase) as [Hm _]. congruence. }
  intros b'. rewrite H7, (view_lookup _ _ (mi_staging _ Hinv)), (view_lookup _ _ (mi_staging _ H1)).
  cbn [mg td set_disk b_disk]. rewrite content_push.
  destruct (decide (b = b')) as [<-|Hne]; [by rewrite Hnone, Hck, Z.eqb_refl|].
  by rewrite (proj2 (Z.eqb_neq _ _)).
Qed.

(** Storing what a block already holds is not visible. *)
Lemma rep_put_same a s b : rep_mgr a s -> rep_mgr (put b (c_view a b) a) s.
Proof.
  intros [H1 H2 H3 H4 H5 H6 H7 H8 H9 H10 H11]. split; try done.
  intros b'. cbn [put c_view]. by case_decide; subst.
Qed.

Lemma rep_ordered a m d l cap : rep_mgr a (mkTst m d) -> rep_mgr a (mkTst (set_ordered l cap m) d).
Proof.
  intros [[[? ? ?] ? ? ? ?] ? ? ? ? ? ? ? ? ? ?]. by split.
Qed.

Lemma push_ordered_any a b s :
  rep_mgr a s ->
  rep_mgr a (push_ordered b s).2 /\
  ((push_ordered b s).1 = Ok tt \/ c_calm a = false /\ (push_ordered b s).1 = Err (- ENOMEM)).
Proof.
  intros Hrep. destruct s as [m d]. unfold push_ordered, mbind, M_bind, gets. cbn [mg].
  destruct (_ =? tm_cap_ordered m); [|split; [by apply rep_ordered|by left]].
  destruct (malloc_any d) as (ok & Hok & Hum & Hheap). unfold on_bdev, zoom. cbn [mg td].
  destruct (malloc d) as [r0 d1]. cbn [fst snd] in *. subst r0.
  pose proof (rep_unmoved _ _ _ _ Hum Hrep) as Hrep1.
  destruct ok; cbn [negb]; [split; [by apply rep_ordered|by left]|].
  split; [done|]. right. split; [|done].
  apply (not_calm _ _ Hrep). right. intros E. by discriminate (Hheap E).
Qed.

Lemma write_data_law a h b c :
  c_block a b -> c_data a b -> h = c_gen a -> length c = block_len ->
  triple rep_mgr a (logfs_txn_write_data h b c)
    (fun r a' => r = Ok tt /\ a' = wrote b c a \/
                 io_error a r /\ exists c', length c' = block_len /\ a' = put b c' a).
Proof.
  intros Hb Hdata Hh Hc s Hrep. unfold wrote.
  pose proof (view_whole _ _ b Hrep) as Hlen.
  destruct (c_logs a) eqn:Hlogs.
  - assert (E : logfs_txn_write_data h b c s
      = (logfs_txn_get_write_access h b ≫= fun _ => store_staged b c ;; logfs_txn_dirty_metadata h b) s).
    { unfold logfs_txn_write_data at 1, mbind at 1, M_bind at 1, gets.
      by rewrite (rm_logs _ _ Hrep Hlogs). }
    rewrite E. unfold mbind, M_bind.
    destruct (access_law a h b Hb Hh s Hrep) as (a1 & Hrep1 & Hcase).
    destruct (logfs_txn_get_write_access h b s) as [r s1]. cbn [fst snd] in *.
    destruct Hcase as [[-> ->]|[(Hcalm & rc & Hrc & ->) ->]].
    + destruct (store_law (touch b a) b c (staged_touch b a) Hc s1 Hrep1) as (a2 & Hrep2 & Hr2 & ->).
      destruct (store_staged b c s1) as [r2 s2]. cbn [fst snd] in *. subst r2.
      destruct (dirty_law (put b c (touch b a)) h b (staged_put b c b _ (staged_touch b a)) s2 Hrep2)
        as (a3 & Hrep3 & Hr3 & ->). exists (put b c (touch b a)). split; [exact Hrep3|].
      left. split; [exact Hr3|reflexivity].
    + exists (put b (c_view a b) a). split; [by apply rep_put_same|]. right.
      split; [split; [done|by exists rc]|by exists (c_view a b)].
  - destruct (rm_data _ _ Hrep b Hdata) as [Hl|(Hmode & _)]; [congruence|].
    assert (E : logfs_txn_write_data h b c s = (on_bdev (logfs_bdev_write b c) ;; push_ordered b) s).
    { unfold logfs_txn_write_data at 1, mbind at 1, M_bind at 1, gets. by rewrite Hmode. }
    rewrite E. destruct s as [m d]. destruct (rm_block _ _ Hrep b Hb) as [Hrange _]. cbn [mg td] in *.
    pose proof (li_disk _ _ _ (mi_log _ (rm_inv _ _ Hrep))) as Hwf. cbn [mg td] in Hwf.
    destruct (write_any b c d Hwf (proj2 Hrange) Hc) as (Hsuf & Hheap & Hw).
    unfold mbind, M_bind, on_bdev, zoom. cbn [mg td].
    destruct (logfs_bdev_write b c d) as [r d']. cbn [fst snd] in *.
    assert (Hpush : forall c', length c' = block_len -> b_disk d' = push_write b c' (b_disk d) ->
      rep_mgr (put b c' a) (mkTst m d')).
    { intros c' Hc' Hd'. apply (rep_unmoved _ _ (set_disk (push_write b c') d)); [|by apply rep_pushed].
      split; [exact Hd'|exact Hsuf|cbn [set_disk heap]; by rewrite Hheap]. }
    destruct Hw as [[-> Hd']|(Hne & (rc & Hrc & ->) & Hd')].
    + destruct (push_ordered_any (put b c a) b _ (Hpush c Hc Hd')) as [Hrep2 Hr].
      exists (put b c a). split; [exact Hrep2|]. destruct Hr as [->|[Hcalm ->]]; [by left|right].
      split; [split; [exact Hcalm|by exists (- ENOMEM)]|by exists c].
    + assert (Hcalm : c_calm a = false) by (apply (not_calm _ _ Hrep); by left).
      assert (Herr : io_error a (Err (A := unit) rc)) by (split; [done|by exists rc]).
      destruct Hd' as [Hd'|(c' & Hc' & Hd')].
      * exists (put b (c_view a b) a). split; [|right; split; [exact Herr|by exists (c_view a b)]].
        apply rep_put_same, (rep_unmoved _ _ d); [|done]. split; [exact Hd'|exact Hsuf|by rewrite Hheap].
      * exists (put b c' a). split; [by apply Hpush|]. right. split; [exact Herr|by exists c'].
Qed.

#[export] Instance txn_laws : TxnLaws tst := {
  rep := rep_mgr;
  rep_length := view_whole;
  law_start := start_law;
  law_stop a h := stop_law a;
  law_read := read_law;
  law_access := access_law;
  law_store := store_law;
  law_dirty := dirty_law;
  law_write := write_data_law;
}.

(** The abstract contents of a manager between two handles. *)
Definition contents_of (s : tst) : contents :=
  mkContents (view s) ∅ (stageable s) (tm_generation_seq (mg s))
    (bool_decide (sys (td s) = [] /\ heap (td s) = []))
    (fun b => tm_mode (mg s) = LOGFS_MODE_JOURNAL \/
              tm_mode (mg s) = LOGFS_MODE_ORDERED /\ find_dirty (mg s) b = None /\
              find_checkpointed (mg s) b = None)
    (bool_decide (tm_mode (mg s) = LOGFS_MODE_JOURNAL)) None.

(** The same for clients that keep to the blocks [P], and with what they leave
    alone. *)
Definition based_contents (P : Z -> Prop) (s : tst) : contents :=
  let a := contents_of s in
  mkContents (c_view a) (c_staged a) (fun b => P b /\ c_block a b) (c_gen a) (c_calm a) (c_data a)
    (c_logs a) (Some (beneath_of s)).

Lemma rep_contents_of s :
  mgr_inv s -> SRet O ∉ sys (td s) -> tm_freezing (mg s) = false -> rep_mgr (contents_of s) s.
Proof.
  intros Hinv Hk Hf. split; cbn [contents_of c_calm c_gen c_block c_view c_staged c_logs c_data c_base]; try done.
  - by intros H%bool_decide_eq_true.
  - by intros H%bool_decide_eq_true.
  - intros b [H|H]; [left; by apply bool_decide_eq_true|by right].
Qed.

Lemma rep_based_contents (P : Z -> Prop) s :
  mgr_inv s -> SRet O ∉ sys (td s) -> tm_freezing (mg s) = false ->
  tm_mode (mg s) = LOGFS_MODE_JOURNAL ->
  (forall b, is_Some (find_dirty (mg s) b) -> P b /\ stageable s b) -> rep_mgr (based_contents P s) s.
Proof.
  intros Hinv Hk Hf Hm Hs. destruct (rep_contents_of s Hinv Hk Hf) as [H1 H2 H3 H4 H5 H6 H7 H8 H9 H10 _].
  split; try done; [by intros b [_ Hb]; apply H6|by intros du [= <-]].
Qed.
