(* ===== verification/TxnThreads.v ===== *)
(** [src/txn.c] as threads: the commit thread and any number of clients, whose
    critical sections and device operations interleave.  Definitions only.

    A step is one critical section, or one operation on the device made without
    the lock; the sections are those of [Txn].  A wait is a step that cannot
    be taken ([logfs_txn_start], [logfs_txn_commit_sync]) or one that changes
    nothing (the commit thread), so wake-ups, spurious ones included, and the
    timer need no steps of their own.  The writeback thread, which shares only
    the device with the others, is not among them: see [Txn.writeback_step]. *)

From S2P Require Import Prelude.
From S2P Require Import Bytes.
From S2P Require Import DiskFormat.
From S2P Require Import Blockdev.
From S2P Require Import Journal.
From S2P Require Import Txn.

(** ** The commit thread *)

(** Where [checkpoint_oldest] was called from. *)
Inductive caller :=
  | FromRoom (nodes : option (list dirty_block)) (nnodes : Z)
  | FromLag
  | FromDrain.

(** Where [commit_thread_main] is. *)
Inductive phase :=
  | PLoop                             (* the head of its loop *)
  | PFreezing                         (* waiting for the open handles *)
  | PSwapped (nodes : option (list dirty_block)) (nnodes nordered : Z)
  | PEmpty                            (* nothing to journal *)
  | PRoom (nodes : option (list dirty_block)) (nnodes : Z)
  | PCommit (nodes : option (list dirty_block))
  | PFinish (t : option committed_txn)
  | PLag
  | PDrain
  | PHome (from : caller) (todo : list dirty_block)  (* writing blocks home *)
  | PTail (from : caller)                            (* then moving the tail *)
  | PExit.

(** What its caller does with the result of [checkpoint_oldest]. *)
Definition after_checkpoint (from : caller) (rc : Z) : phase :=
  match from with
  | FromRoom nodes nnodes => if rc <=? 0 then PCommit nodes else PRoom nodes nnodes
  | FromLag => if rc <=? 0 then PLoop else PLag
  | FromDrain => if rc =? 1 then PDrain else PExit
  end.

Definition checkpoint_rc {A} (r : result A) : Z := match r with Ok _ => 1 | Err rc => rc end.

(** The first section of [checkpoint_oldest]; 0 ends the callers' loops. *)
Definition take_step (from : caller) : M tst phase :=
  t ← checkpoint_take;
  mret (match t with
        | Some t => PHome from (ct_nodes t)
        | None => after_checkpoint from 0
        end).

Definition thread_step (p : phase) : M tst phase :=
  m ← gets mg;
  match p with
  | PLoop =>
      if tm_shutdown m then mret PDrain
      else if (tm_ndirty m =? 0) && negb (tm_commit_requested m) then mret PLoop
      else modify (set_mgr (set_freezing true)) ;; mret PFreezing
  | PFreezing =>
      if 0 <? tm_running_handles m then mret PFreezing else
      r ← commit_swap;
      mret (PSwapped r.1.1 r.1.2 r.2)
  | PSwapped nodes nnodes nordered =>
      (if bool_decide (tm_mode m = LOGFS_MODE_ORDERED) && (0 <? nordered)
       then r ← attempt (on_bdev logfs_bdev_flush); mret tt
       else mret tt) ;;
      mret (if 0 <? nnodes then PRoom nodes nnodes else PEmpty)
  | PEmpty =>
      modify (set_mgr (fun m => set_progress (tm_generation_seq m) (tm_generation_seq m) m)) ;;
      mret PLag
  | PRoom nodes nnodes =>
      if logfs_journal_free_space (tm_journal m) <? logfs_journal_space_needed nnodes 0
      then take_step (FromRoom nodes nnodes)
      else mret (PCommit nodes)
  | PCommit nodes =>
      match nodes with
      | None => fail NULL_DEREF
      | Some nodes => t ← commit_io nodes; mret (PFinish t)
      end
  | PFinish t => modify (set_mgr (commit_finish t)) ;; mret PLag
  | PLag => if LOGFS_CKPT_LAG <? tm_ckpt_count m then take_step FromLag else mret PLoop
  | PDrain => take_step FromDrain
  | PHome from [] =>
      r ← attempt (on_bdev logfs_bdev_flush);
      mret (match r with Ok _ => PTail from | Err rc => after_checkpoint from rc end)
  | PHome from (d :: todo) =>
      r ← attempt (on_bdev (logfs_bdev_write d.1 d.2));
      mret (match r with Ok _ => PHome from todo | Err rc => after_checkpoint from rc end)
  | PTail from =>
      r ← attempt checkpoint_advance;
      mret (after_checkpoint from (checkpoint_rc r))
  | PExit => mret PExit
  end.

(** From the swap of a generation with blocks to the end of its commit. *)
Definition in_flight (p : phase) : bool :=
  match p with
  | PSwapped _ nnodes _ => 0 <? nnodes
  | PRoom _ _ | PCommit _ | PFinish _ => true
  | PHome (FromRoom _ _) _ | PTail (FromRoom _ _) => true
  | _ => false
  end.

(** ** Clients *)

(** An open handle: its number, the blocks whose buffers it was given, and -
    for the theorems - whether a commit was in flight when it was opened. *)
Record handle := mkHandle {
  h_txn_id : Z;
  h_buffers : gset Z;
  h_late : bool;
}.

Inductive client_op :=
  | OAccess (blockno : Z)
  | OStore (blockno : Z) (data : block)
  | ODirty (blockno : Z)
  | OData (blockno : Z) (buf : block)
  | ORead (blockno : Z).

(** The buffers the handle holds afterwards. *)
Definition client_step (h : handle) (op : client_op) : M tst handle :=
  match op with
  | OAccess b =>
      r ← attempt (logfs_txn_get_write_access (h_txn_id h) b);
      match r with
      | Ok _ => mret (mkHandle (h_txn_id h) ({[b]} ∪ h_buffers h) (h_late h))
      | Err rc => if rc =? ASSERT_FAILED then fail rc else mret h
      end
  | OStore b data => store_staged b data ;; mret h
  | ODirty b => r ← attempt (logfs_txn_dirty_metadata (h_txn_id h) b); mret h
  | OData b buf =>
      r ← attempt (logfs_txn_write_data (h_txn_id h) b buf);
      match r with
      | Err rc => if rc =? ASSERT_FAILED then fail rc else mret h
      | Ok _ => mret h
      end
  | ORead b => r ← attempt (logfs_txn_read_block b); mret h
  end.

(** A client writes only through pointers it was given. *)
Definition op_allowed (h : handle) (op : client_op) : bool :=
  match op with
  | OStore b data => bool_decide (b ∈ h_buffers h) && (length data =? block_len)%nat
  | _ => true
  end.

(** ** All of them *)

(** The threads' shared state, the handles that are open and the callers that
    wait in [logfs_txn_commit_sync] with the generation they wait for, by
    thread. *)
Record config := mkConfig {
  cf_st : tst;
  cf_phase : phase;
  cf_open : gmap nat handle;
  cf_syncing : gmap nat Z;
}.

Inductive action :=
  | AThread
  | AStart (i : nat)
  | ACall (i : nat) (op : client_op)
  | AStop (i : nat)
  | ASync (i : nat)
  | ASynced (i : nat)
  | AShutdown.

(** [None] is a step that has to wait, [Aborted] the end of the process. *)
Inductive step_result :=
  | Next (c : config)
  | Aborted (rc : Z).

Definition idle (c : config) (i : nat) : bool :=
  bool_decide (cf_open c !! i = None) && bool_decide (cf_syncing c !! i = None).

Definition act (a : action) (c : config) : option step_result :=
  let (s, p, hs, ws) := c in
  match a with
  | AThread =>
      Some (match thread_step p s with
            | (Ok p', s') => Next (mkConfig s' p' hs ws)
            | (Err rc, _) => Aborted rc
            end)
  | AStart i =>
      if idle c i then
        match logfs_txn_start s with
        | (Ok h, s') => Some (Next (mkConfig s' p (<[i := mkHandle h ∅ (in_flight p)]> hs) ws))
        | (Err _, _) => None
        end
      else None
  | ACall i op =>
      match hs !! i with
      | Some h =>
          if op_allowed h op then
            Some (match client_step h op s with
                  | (Ok h', s') => Next (mkConfig s' p (<[i := h']> hs) ws)
                  | (Err rc, _) => Aborted rc
                  end)
          else None
      | None => None
      end
  | AStop i =>
      match hs !! i with
      | Some _ => Some (Next (mkConfig (logfs_txn_stop s).2 p (delete i hs) ws))
      | None => None
      end
  | ASync i =>
      if idle c i then
        match commit_sync_request s with
        | (Ok target, s') => Some (Next (mkConfig s' p hs (<[i := target]> ws)))
        | (Err rc, _) => Some (Aborted rc)
        end
      else None
  | ASynced i =>
      match ws !! i with
      | Some target =>
          if commit_sync_done target (mg s) then Some (Next (mkConfig s p hs (delete i ws))) else None
      | None => None
      end
  | AShutdown =>
      if bool_decide (hs = ∅) then Some (Next (mkConfig (set_mgr set_shutdown s) p hs ws)) else None
  end.

(** A schedule; it ends early when a step is not possible. *)
Fixpoint run_actions (l : list action) (c : config) : option step_result :=
  match l with
  | [] => Some (Next c)
  | a :: l =>
      match act a c with
      | Some (Next c') => run_actions l c'
      | o => o
      end
  end.

(** What [logfs_txnmgr_create] leaves: the thread at the head of its loop, no
    client. *)
Definition created (s : tst) : config := mkConfig s PLoop ∅ ∅.

(** The configurations any schedule can lead to. *)
Inductive reachable (c0 : config) : config -> Prop :=
  | reachable_start : reachable c0 c0
  | reachable_step a c c' : reachable c0 c -> act a c = Some (Next c') -> reachable c0 c'.
