(* ===== verification/TxnThreadsInv.v ===== *)
(** What holds of the threads of [TxnThreads] in every configuration they can
    reach, under any kernel and any allocator: the count of open handles, the
    freeze, the buffers handed out, the generation numbers. *)

From S2P Require Import Prelude.
From S2P Require Import Bytes.
From S2P Require Import DiskFormat.
From S2P Require Import Blockdev.
From S2P Require Import Journal.
From S2P Require Import Txn.
From S2P Require Import TxnInv.
From S2P Require Import TxnThreads.

(** ** How the calls move the manager *)

Definition on_mg (R : relation txn_mgr) : relation tst := fun s s' => R (mg s) (mg s').

#[export] Instance on_mg_preorder R `{!PreOrder R} : PreOrder (on_mg R).
Proof. split; [by intros s; red|]. intros s1 s2 s3 H1 H2. red. by etrans. Qed.

Lemma moves_on_bdev R `{!PreOrder R} {A} (m : M bdev A) : moves (on_mg R) (on_bdev m).
Proof. intros s. unfold on_bdev, zoom. destruct (m (td s)). by red. Qed.

Lemma moves_set_mgr R f : (forall m, R m (f m)) -> moves (on_mg R) (modify (set_mgr f)).
Proof. intros H s. apply H. Qed.

Lemma moves_on_journal R {A} (m : M jst A) :
  (forall j m', R m' (set_journal j m')) -> moves (on_mg R) (on_journal m).
Proof. intros H s. unfold on_journal, zoom. destruct (m _). apply H. Qed.

#[local] Hint Extern 1 (moves (on_mg _) (on_bdev _)) => apply moves_on_bdev; typeclasses eauto : moves.

(** ** What clients do to the manager *)

Abbreviation full_table m := (length (tm_buckets m) = Z.to_nat LOGFS_TXN_HASH_BUCKETS).

(** Blocks stay staged; nothing but the table, the ordered blocks and the
    writeback queue changes. *)
Record table_grows (m m' : txn_mgr) : Prop := {
  gr_full : full_table m -> full_table m';
  gr_dirty b : full_table m -> is_Some (find_dirty m b) -> is_Some (find_dirty m' b);
  gr_handles : tm_running_handles m' = tm_running_handles m;
  gr_freezing : tm_freezing m' = tm_freezing m;
  gr_gen : tm_generation_seq m' = tm_generation_seq m;
}.

#[export] Instance table_grows_preorder : PreOrder table_grows.
Proof.
  split; [by intros m; split|]. intros m1 m2 m3 [] []. split; auto; congruence.
Qed.

Lemma table_grows_insert b c m : table_grows m (insert_dirty b c m).
Proof.
  split; [|intros b' Hf Hd|done..].
  - cbn [insert_dirty set_staging tm_buckets]. by rewrite length_insert.
  - rewrite find_dirty_insert_full by done. by destruct (decide _).
Qed.

Lemma table_grows_stored b c m : table_grows m (stored b c m).
Proof.
  split; [|intros b' Hf Hd|done..].
  - cbn [stored set_staging tm_buckets]. by rewrite length_insert.
  - rewrite find_dirty_stored_full by done. destruct (decide _); [|done]. by destruct Hd as [? ->].
Qed.

Lemma table_grows_find b : moves (on_mg table_grows) (find_or_create_dirty b).
Proof.
  unfold find_or_create_dirty. moves_steps.
  apply moves_set_mgr. intros m. apply table_grows_insert.
Qed.
#[local] Hint Resolve table_grows_find : moves.

Lemma table_grows_access h b : moves (on_mg table_grows) (logfs_txn_get_write_access h b).
Proof. unfold logfs_txn_get_write_access. moves_steps. Qed.
#[local] Hint Resolve table_grows_access : moves.

Lemma table_grows_store b c : moves (on_mg table_grows) (store_staged b c).
Proof. apply moves_set_mgr. intros m. apply table_grows_stored. Qed.
#[local] Hint Resolve table_grows_store : moves.

Lemma table_grows_dirty_metadata h b : moves (on_mg table_grows) (logfs_txn_dirty_metadata h b).
Proof. unfold logfs_txn_dirty_metadata. moves_steps. Qed.
#[local] Hint Resolve table_grows_dirty_metadata : moves.

Lemma table_grows_write_data h b c : moves (on_mg table_grows) (logfs_txn_write_data h b c).
Proof.
  unfold logfs_txn_write_data, push_ordered, writeback_queue_push. moves_steps.
  all: apply moves_set_mgr; intros m'; by split.
Qed.

Lemma table_grows_client h op : moves (on_mg table_grows) (client_step h op).
Proof.
  destruct op; unfold client_step, logfs_txn_read_block; moves_steps.
  apply table_grows_write_data.
Qed.

(** Every pointer handed out leads into the table. *)
Lemma find_creates b s s' c :
  full_table (mg s) -> find_or_create_dirty b s = (Ok (Some c), s') -> is_Some (find_dirty (mg s') b).
Proof.
  intros Hf. unfold find_or_create_dirty. unfold mbind at 1, M_bind at 1, gets.
  destruct (find_dirty (mg s) b) as [c'|] eqn:E.
  { intros [= _ <-]. by eexists. }
  intros H. apply bind_ok_inv in H as (ok & s1 & H1 & H).
  pose proof (moves_on_bdev table_grows malloc s) as G1. rewrite H1 in G1. unfold on_mg in G1; cbn [snd] in G1.
  destruct ok; cbn [negb] in H; [|done]. apply bind_ok_inv in H as (r & s2 & H2 & H).
  assert (G2 : table_grows (mg s1) (mg s2)).
  { assert (Hm : moves (on_mg table_grows) (match find_checkpointed (mg s) b with
                              | Some data => mret (Ok data)
                              | None => attempt (on_bdev (logfs_bdev_read b))
                              end)) by moves_steps.
    specialize (Hm s1). rewrite H2 in Hm. exact Hm. }
  destruct r as [data|rc]; [|done]. apply bind_ok_inv in H as (u & s3 & [= _ <-] & [= _ <-]).
  cbn [set_mgr mg]. rewrite find_dirty_insert_full by by apply G2, G1. by rewrite decide_True.
Qed.

Lemma access_buffer h b s s' c :
  full_table (mg s) -> logfs_txn_get_write_access h b s = (Ok c, s') -> is_Some (find_dirty (mg s') b).
Proof.
  intros Hf. unfold logfs_txn_get_write_access. unfold mbind at 1, M_bind at 1, gets.
  destruct (negb _); [done|]. intros H. apply bind_ok_inv in H as ([data|] & s1 & H1 & [= _ <-]).
  by eapply find_creates.
Qed.

(** The handle afterwards: the same number, and only buffers of staged blocks. *)
Lemma client_handle h op s s' h' :
  full_table (mg s) -> client_step h op s = (Ok h', s') ->
  h_txn_id h' = h_txn_id h /\ h_late h' = h_late h /\
  forall b, b ∈ h_buffers h' -> b ∈ h_buffers h \/ is_Some (find_dirty (mg s') b).
Proof.
  intros Hf. destruct op as [b|b data|b|b buf|b]; cbn [client_step]; intros H;
    apply bind_ok_inv in H as (r & s1 & H1 & H).
  - unfold attempt in H1. destruct (logfs_txn_get_write_access (h_txn_id h) b s) as [r0 s0] eqn:E.
    injection H1 as <- <-. destruct r0 as [c|rc].
    + injection H as <- <-. cbn [h_txn_id h_late h_buffers]. split_and!; [done|done|].
      intros b' [->%elem_of_singleton|?]%elem_of_union; [right; by eapply access_buffer|by left].
    + destruct (rc =? ASSERT_FAILED); [done|]. injection H as <- <-. by split_and!; [| |left].
  - injection H as <- <-. by split_and!; [| |left].
  - injection H as <- <-. by split_and!; [| |left].
  - destruct r as [u|rc]; [|destruct (rc =? ASSERT_FAILED); [done|]]; injection H as <- <-;
      by split_and!; [| |left].
  - injection H as <- <-. by split_and!; [| |left].
Qed.

(** ** What the commit thread does to it *)

(** The table, the handles and the running generation are left alone. *)
Record table_kept (m m' : txn_mgr) : Prop := {
  qu_buckets : tm_buckets m' = tm_buckets m;
  qu_handles : tm_running_handles m' = tm_running_handles m;
  qu_freezing : tm_freezing m' = tm_freezing m;
  qu_gen : tm_generation_seq m' = tm_generation_seq m;
}.

#[export] Instance table_kept_preorder : PreOrder table_kept.
Proof.
  split; [by intros m; split|]. intros m1 m2 m3 [] []. split; congruence.
Qed.

Lemma table_kept_dirty m m' b : table_kept m m' -> find_dirty m' b = find_dirty m b.
Proof. intros H. unfold find_dirty, bucket. by rewrite (qu_buckets _ _ H). Qed.

Lemma table_kept_on_journal {A} (m : M jst A) : moves (on_mg table_kept) (on_journal m).
Proof. apply moves_on_journal. intros j m'. by split. Qed.

Lemma table_kept_take from : moves (on_mg table_kept) (take_step from).
Proof.
  unfold take_step, checkpoint_take. moves_steps. apply moves_set_mgr. intros m'. by split.
Qed.
#[local] Hint Resolve table_kept_on_journal table_kept_take : moves.

Lemma table_kept_advance : moves (on_mg table_kept) checkpoint_advance.
Proof. unfold checkpoint_advance. moves_steps. Qed.
#[local] Hint Resolve table_kept_advance : moves.

Lemma table_kept_commit_io nodes : moves (on_mg table_kept) (commit_io nodes).
Proof. unfold commit_io. moves_steps. Qed.
#[local] Hint Resolve table_kept_commit_io : moves.

(** The phases whose sections do more. *)
Definition busy (p : phase) : bool :=
  match p with PLoop | PFreezing | PFinish _ => false | _ => true end.

Lemma table_kept_thread p : busy p = true -> moves (on_mg table_kept) (thread_step p).
Proof.
  intros Hp. destruct p; try done; unfold thread_step; moves_steps.
Qed.

(** What a call can return. *)
Definition yields {A} (P : A -> Prop) (m : M tst A) : Prop := forall s x s', m s = (Ok x, s') -> P x.

Lemma yields_ret {A} (P : A -> Prop) x : P x -> yields P (mret x).
Proof. intros H s y s' [= <- _]. exact H. Qed.

Lemma yields_fail {A} (P : A -> Prop) rc : yields P (fail rc).
Proof. by intros s y s' [=]. Qed.

Lemma yields_bind {A B} (P : B -> Prop) (m : M tst A) (f : A -> M tst B) :
  (forall x, yields P (f x)) -> yields P (m ≫= f).
Proof. intros H s y s' Hr. apply bind_ok_inv in Hr as (x & s1 & _ & Hr). by eapply H. Qed.

Ltac yields_steps :=
  repeat lazymatch goal with
  | |- yields _ (mbind _ _) => apply yields_bind; intros ?
  | |- yields _ (mret _) => apply yields_ret
  | |- yields _ (fail _) => apply yields_fail
  | |- yields _ (if ?b then _ else _) => destruct b
  | |- yields _ (match ?x with _ => _ end) => destruct x
  end.

Definition is_freezing (p : phase) : bool := match p with PFreezing => true | _ => false end.

Lemma checkpointed_target from rc :
  is_freezing (after_checkpoint from rc) = false /\
  (in_flight (after_checkpoint from rc) = true -> in_flight (PTail from) = true).
Proof. destruct from; cbn [after_checkpoint]; [by destruct (rc <=? 0)..|by destruct (rc =? 1)]. Qed.

(** The thread freezes only at the head of its loop, and a commit is in flight
    only after a swap. *)
Lemma thread_target p :
  busy p = true ->
  yields (fun p' => is_freezing p' = false /\ (in_flight p' = true -> in_flight p = true)) (thread_step p).
Proof.
  intros Hp. pose proof checkpointed_target as Hc.
  destruct p as [| |nodes n no| |nodes n|nodes|t| | |from todo|from|];
    try done; unfold thread_step, take_step; yields_steps; try done; try exact (Hc _ _).
  - by destruct (0 <? n) eqn:E.
  - match goal with |- context [match ?t with _ => _ end] => destruct t end; [done|exact (Hc (FromRoom _ _) _)].
  - match goal with |- context [match ?t with _ => _ end] => destruct t end; [done|exact (Hc FromLag _)].
  - match goal with |- context [match ?t with _ => _ end] => destruct t end; [done|exact (Hc FromDrain _)].
  - match goal with |- context [match ?r with _ => _ end] => destruct r end; [done|exact (Hc from _)].
  - match goal with |- context [match ?r with _ => _ end] => destruct r end; [done|exact (Hc from _)].
Qed.

(** The head of the loop: nothing changes but the freeze. *)
Lemma thread_loop s p' s' :
  thread_step PLoop s = (Ok p', s') ->
  p' = PFreezing /\ s' = set_mgr (set_freezing true) s \/
  (p' = PLoop \/ p' = PDrain) /\ s' = s.
Proof.
  unfold thread_step, mbind at 1, M_bind at 1, gets. destruct (tm_shutdown (mg s)).
  { intros [= <- <-]. auto. }
  destruct (_ && _); intros [= <- <-]; auto.
Qed.

Lemma swap_moves s :
  exists r s', commit_swap s = (Ok r, s') /\
    tm_freezing (mg s') = false /\ tm_running_handles (mg s') = tm_running_handles (mg s) /\
    tm_generation_seq (mg s') = tm_generation_seq (mg s) /\
    (full_table (mg s) -> full_table (mg s')).
Proof.
  destruct s as [m d]. unfold commit_swap, flatten_and_clear, mbind, M_bind, gets. cbn [mg].
  destruct (tm_ndirty m =? 0); [by eexists _, _|].
  unfold on_bdev, zoom. cbn [td mg]. unfold malloc.
  destruct (heap d) as [|[] rest]; cbn [negb].
  - eexists _, _. split; [reflexivity|]. split_and!; [done..|]. intros _. apply length_replicate.
  - eexists _, _. split; [reflexivity|]. split_and!; [done..|]. intros _. apply length_replicate.
  - by eexists _, _.
Qed.

(** Waiting for the handles, then the swap. *)
Lemma thread_freezing s p' s' :
  thread_step PFreezing s = (Ok p', s') ->
  p' = PFreezing /\ s' = s \/
  tm_running_handles (mg s) <= 0 /\ (exists nodes n no, p' = PSwapped nodes n no) /\
  exists r, commit_swap s = (Ok r, s').
Proof.
  unfold thread_step. unfold mbind at 1, M_bind at 1, gets.
  destruct (Z.ltb_spec 0 (tm_running_handles (mg s))); [intros [= <- <-]; by left|].
  intros H1. apply bind_ok_inv in H1 as (r & s1 & H1 & [= <- <-]). right.
  split; [done|]. split; [by eexists _, _, _|by exists r].
Qed.

(** ** The invariant *)

Record threads_ok (c : config) : Prop := {
  to_handles : tm_running_handles (mg (cf_st c)) = Z.of_nat (size (cf_open c));
  to_freezing : tm_freezing (mg (cf_st c)) = is_freezing (cf_phase c);
  to_full : full_table (mg (cf_st c));
  to_buffers i h b : cf_open c !! i = Some h -> b ∈ h_buffers h ->
    is_Some (find_dirty (mg (cf_st c)) b);
  to_txn i h : cf_open c !! i = Some h -> h_late h = false ->
    h_txn_id h = tm_generation_seq (mg (cf_st c));
  to_flight i h : in_flight (cf_phase c) = true -> cf_open c !! i = Some h -> h_late h = true;
}.

Lemma created_ok s :
  tm_running_handles (mg s) = 0 -> tm_freezing (mg s) = false -> full_table (mg s) ->
  threads_ok (created s).
Proof. intros H1 H2 H3. by split. Qed.

Lemma table_kept_ok s s' p p' hs ws :
  threads_ok (mkConfig s p hs ws) -> table_kept (mg s) (mg s') -> is_freezing p' = is_freezing p ->
  (in_flight p' = true -> in_flight p = true) -> threads_ok (mkConfig s' p' hs ws).
Proof.
  intros [H1 H2 H3 H4 H5 H6] Hq Hp Hf. pose proof Hq as [Q1 Q2 Q3 Q4].
  split; cbn [cf_st cf_phase cf_open] in *.
  - by rewrite Q2.
  - by rewrite Q3, Hp.
  - by rewrite Q1.
  - intros i h b. rewrite (table_kept_dirty _ _ b Hq). apply H4.
  - rewrite Q4. apply H5.
  - intros i h Hfl. by apply H6, Hf.
Qed.

(** No client is in a handle when the generation is swapped. *)
Lemma swap_ok s s' p' hs ws :
  threads_ok (mkConfig s PFreezing hs ws) -> thread_step PFreezing s = (Ok p', s') ->
  threads_ok (mkConfig s' p' hs ws).
Proof.
  intros Hok Hs. destruct (thread_freezing s p' s' Hs) as [[-> ->]|(Hz & (nodes & n & no & ->) & r & Hsw)]; [done|].
  pose proof Hok as [H1 H2 H3 H4 H5 H6]. cbn [cf_st cf_phase cf_open] in *.
  assert (hs = ∅) as -> by (apply map_size_empty_inv; lia).
  destruct (swap_moves s) as (r' & s1 & E & F1 & F2 & F3 & F4). rewrite Hsw in E. injection E as <- <-.
  split; cbn [cf_st cf_phase cf_open]; try done.
  - by rewrite F2.
  - by apply F4.
Qed.

Lemma thread_ok s s' p p' hs ws :
  threads_ok (mkConfig s p hs ws) -> thread_step p s = (Ok p', s') -> threads_ok (mkConfig s' p' hs ws).
Proof.
  intros Hok Hs. destruct (busy p) eqn:Hb.
  - pose proof (table_kept_thread p Hb s) as Hq. rewrite Hs in Hq.
    destruct (thread_target p Hb s p' s' Hs) as [Hfz Hfl].
    apply (table_kept_ok s s' p p'); [done|exact Hq| |done]. rewrite Hfz. by destruct p.
  - destruct p as [| |nodes n no| |nodes n|nodes|t| | |from todo|from|]; try done.
    + destruct Hok as [H1 H2 H3 H4 H5 H6]. cbn [cf_st cf_phase cf_open] in *.
      destruct (thread_loop s p' s' Hs) as [[-> ->]|[[-> | ->] ->]]; by split.
    + by eapply swap_ok.
    + unfold thread_step, mbind, M_bind, gets, modify, mret, M_ret in Hs. injection Hs as <- <-.
      destruct Hok as [H1 H2 H3 H4 H5 H6]. cbn [cf_st cf_phase cf_open] in *.
      split; cbn [cf_st cf_phase cf_open]; try (by destruct t).
      intros i h Hi Hl. by rewrite (H6 i h eq_refl Hi) in Hl.
Qed.

Lemma open_ok s p hs ws i h s' :
  threads_ok (mkConfig s p hs ws) -> hs !! i = None -> logfs_txn_start s = (Ok h, s') ->
  threads_ok (mkConfig s' p (<[i := mkHandle h ∅ (in_flight p)]> hs) ws).
Proof.
  intros [H1 H2 H3 H4 H5 H6] Hi Hs. cbn [cf_st cf_phase cf_open] in *.
  unfold logfs_txn_start, mbind, M_bind, gets in Hs. destruct (tm_freezing (mg s)) eqn:Hfz; [done|].
  injection Hs as <- <-. split; cbn [cf_st cf_phase cf_open set_mgr mg set_handles tm_running_handles
    tm_freezing tm_buckets tm_generation_seq]; try done.
  - rewrite map_size_insert_None by done. lia.
  - by rewrite Hfz.
  - intros j h' b [[<- <-]|[_ Hj]]%lookup_insert_Some Hb; [by apply elem_of_empty in Hb|by eapply H4].
  - intros j h' [[<- <-]|[_ Hj]]%lookup_insert_Some Hl; [done|by eapply H5].
  - intros j h' Hfl [[<- <-]|[_ Hj]]%lookup_insert_Some; [done|by eapply H6].
Qed.

Lemma client_ok s p hs ws i h op h' s' :
  threads_ok (mkConfig s p hs ws) -> hs !! i = Some h -> client_step h op s = (Ok h', s') ->
  threads_ok (mkConfig s' p (<[i := h']> hs) ws).
Proof.
  intros [H1 H2 H3 H4 H5 H6] Hi Hs. cbn [cf_st cf_phase cf_open] in *.
  pose proof (table_grows_client h op s) as Hg. rewrite Hs in Hg. destruct Hg as [G1 G2 G3 G4 G5].
  destruct (client_handle h op s s' h' H3 Hs) as (E1 & E2 & E3). cbn [snd] in *.
  split; cbn [cf_st cf_phase cf_open].
  - rewrite map_size_insert_Some by by eexists. by rewrite G3.
  - by rewrite G4.
  - by apply G1.
  - intros j h1 b [[<- <-]|[_ Hj]]%lookup_insert_Some Hb.
    + destruct (E3 b Hb) as [Hb'|]; [|done]. apply G2; [done|]. by eapply H4.
    + apply G2; [done|]. by eapply H4.
  - intros j h1 [[<- <-]|[_ Hj]]%lookup_insert_Some Hl; rewrite G5; [|by eapply H5].
    rewrite E1. eapply H5; [done|]. congruence.
  - intros j h1 Hfl [[<- <-]|[_ Hj]]%lookup_insert_Some; [|by eapply H6]. rewrite E2. by eapply H6.
Qed.

Lemma close_ok s p hs ws i h :
  threads_ok (mkConfig s p hs ws) -> hs !! i = Some h ->
  threads_ok (mkConfig (logfs_txn_stop s).2 p (delete i hs) ws).
Proof.
  intros [H1 H2 H3 H4 H5 H6] Hi. cbn [cf_st cf_phase cf_open] in *.
  split; cbn [cf_st cf_phase cf_open logfs_txn_stop modify snd set_mgr mg set_handles tm_running_handles
    tm_freezing tm_buckets tm_generation_seq]; try done.
  - rewrite H1. pose proof (map_size_delete_Some (M := gmap nat) i hs (mk_is_Some _ _ Hi)) as Hsz.
    assert (size hs <> 0%nat) by (intros E%map_size_empty_inv; by subst hs). lia.
  - intros j h' b [_ Hj]%lookup_delete_Some. by eapply H4.
  - intros j h' [_ Hj]%lookup_delete_Some. by eapply H5.
  - intros j h' Hfl [_ Hj]%lookup_delete_Some. by eapply H6.
Qed.

Lemma act_ok a c c' : threads_ok c -> act a c = Some (Next c') -> threads_ok c'.
Proof.
  destruct c as [s p hs ws]. intros Hok. destruct a as [|i|i op|i|i|i|]; unfold act, idle; cbn [cf_open cf_syncing].
  - destruct (thread_step p s) as [[p'|rc] s'] eqn:E; intros [= <-]. by eapply thread_ok.
  - destruct (_ && _) eqn:Hi; [|done]. apply andb_prop in Hi as [Hi%bool_decide_eq_true _].
    destruct (logfs_txn_start s) as [[h|rc] s'] eqn:E; [|done].
    intros [= <-]. by eapply open_ok.
  - destruct (hs !! i) as [h|] eqn:Hi; [|done]. destruct (op_allowed h op); [|done].
    destruct (client_step h op s) as [[h'|rc] s'] eqn:E; [|done]. intros [= <-]. by eapply client_ok.
  - destruct (hs !! i) as [h|] eqn:Hi; [|done]. intros [= <-]. by eapply close_ok.
  - destruct (_ && _); [|done]. intros [= <-]. destruct Hok. by split.
  - destruct (ws !! i) as [t|]; [|done]. destruct (commit_sync_done _ _); [|done]. intros [= <-].
    destruct Hok. by split.
  - destruct (bool_decide _); [|done]. intros [= <-]. destruct Hok. by split.
Qed.

Lemma reachable_ok c0 c : threads_ok c0 -> reachable c0 c -> threads_ok c.
Proof. intros H0 Hr. induction Hr as [|a c c' _ IH Ha]; [done|by eapply act_ok]. Qed.
