(* ===== verification/TxnThreadsTurn.v ===== *)
(** A turn of the commit thread with other threads in between: taken alone,
    the thread's steps are [Txn.commit_cycle]; and in journal mode what other
    threads do in the meantime does not change what the turn commits. *)

From S2P Require Import Prelude.
From S2P Require Import Bytes.
From S2P Require Import DiskFormat.
From S2P Require Import Blockdev.
From S2P Require Import DiskOps.
From S2P Require Import Journal.
From S2P Require Import JournalRecover.
From S2P Require Import Txn.
From S2P Require Import TxnInv.
From S2P Require Import TxnThreads.
From S2P Require Import TxnThreadsInv.

(** ** The thread alone *)

(** A step inside a turn. *)
Definition solo (x y : phase * tst) : Prop :=
  x.1 <> PLoop /\ thread_step x.1 x.2 = (Ok y.1, y.2).

Lemma solo_step p s p' s' z :
  p <> PLoop -> thread_step p s = (Ok p', s') -> rtc solo (p', s') z -> rtc solo (p, s) z.
Proof. intros Hp H Hr. apply (rtc_l _ _ (p', s')); [by split|exact Hr]. Qed.

(** Writing the blocks of a transaction home, then moving the tail. *)
Lemma solo_home from todo s r s' :
  (on_bdev (write_nodes todo) ;; on_bdev logfs_bdev_flush ;; checkpoint_advance) s = (r, s') ->
  rtc solo (PHome from todo, s) (after_checkpoint from (checkpoint_rc r), s').
Proof.
  revert s. induction todo as [|d todo IH]; intros s H.
  - assert (Hskip : (on_bdev (write_nodes []) ;; on_bdev logfs_bdev_flush ;; checkpoint_advance) s
      = (on_bdev logfs_bdev_flush ;; checkpoint_advance) s) by by destruct s.
    rewrite Hskip in H. destruct (on_bdev logfs_bdev_flush s) as [r1 s1] eqn:E1.
    assert (Hs : thread_step (PHome from []) s
      = (Ok (match r1 with Ok _ => PTail from | Err rc => after_checkpoint from rc end), s1)).
    { unfold thread_step, mbind, M_bind, gets, attempt. by rewrite E1. }
    destruct r1 as [[]|rc].
    + rewrite (bind_ok _ _ _ _ _ E1) in H. eapply solo_step; [done|exact Hs|].
      apply rtc_once. split; [done|]. cbn [fst snd]. unfold thread_step, mbind, M_bind, gets, attempt.
      by rewrite H.
    + rewrite (bind_err _ _ _ _ _ E1) in H. injection H as <- <-. apply rtc_once. by split.
  - destruct (on_bdev (logfs_bdev_write d.1 d.2) s) as [r1 s1] eqn:E1.
    assert (Hs : thread_step (PHome from (d :: todo)) s
      = (Ok (match r1 with Ok _ => PHome from todo | Err rc => after_checkpoint from rc end), s1)).
    { unfold thread_step, mbind, M_bind, gets, attempt. by rewrite E1. }
    assert (Hw : on_bdev (write_nodes (d :: todo)) s
      = match r1 with Ok _ => on_bdev (write_nodes todo) s1 | Err rc => (Err rc, s1) end).
    { unfold on_bdev, zoom in E1 |- *. cbn [write_nodes]. unfold mbind, M_bind.
      destruct (logfs_bdev_write d.1 d.2 (td s)) as [[[]|rc] d1]; injection E1 as <- <-; done. }
    destruct r1 as [[]|rc].
    + eapply solo_step; [done|exact Hs|]. apply IH. rewrite <-H.
      unfold mbind at 1 3, M_bind at 1 3. by rewrite Hw.
    + rewrite (bind_err _ _ _ rc s1) in H by done. injection H as <- <-. apply rtc_once. by split.
Qed.

(** [checkpoint_oldest]: its first section, then the rest. *)
Lemma solo_oldest from s n s' :
  checkpoint_oldest s = (Ok n, s') ->
  exists p1 s1, take_step from s = (Ok p1, s1) /\ rtc solo (p1, s1) (after_checkpoint from n, s').
Proof.
  unfold checkpoint_oldest. intros H. apply bind_ok_inv in H as (t & s1 & H1 & H).
  unfold take_step. rewrite (bind_ok _ _ _ _ _ H1). destruct t as [t|]; [|injection H as <- <-].
  - exists (PHome from (ct_nodes t)), s1. split; [done|].
    apply bind_ok_inv in H as (r & s2 & H2 & [= <- <-]). unfold attempt in H2.
    destruct (checkpoint_home t s1) as [r0 s0] eqn:E. injection H2 as <- <-.
    apply (solo_home from (ct_nodes t) s1 r0 s0 E).
  - exists (after_checkpoint from 0), s1. split; [done|]. apply rtc_refl.
Qed.

(** The loops over it. *)
Lemma solo_while need from p0 p1 fuel s s' :
  (forall s, need s = true -> thread_step p0 s = take_step from s) ->
  (forall s, need s = false -> thread_step p0 s = (Ok p1, s)) ->
  p0 <> PLoop -> (forall n, after_checkpoint from n = if n <=? 0 then p1 else p0) ->
  checkpoint_while need fuel s = (Ok tt, s') -> rtc solo (p0, s) (p1, s').
Proof.
  intros Hgo Hstop Hp Hchk. revert s. induction fuel as [|fuel IH]; intros s H; [done|].
  cbn [checkpoint_while] in H. unfold mbind at 1, M_bind at 1, gets in H.
  destruct (need s) eqn:Hn; cbn [negb] in H.
  - apply bind_ok_inv in H as (n & s1 & H1 & H).
    destruct (solo_oldest from s n s1 H1) as (p2 & s2 & Ht & Hr).
    eapply solo_step; [done|by rewrite Hgo|]. etrans; [exact Hr|]. rewrite Hchk.
    destruct (n <=? 0); [injection H as <-; apply rtc_refl|by apply IH].
  - injection H as <-. eapply solo_step; [done|by apply Hstop|apply rtc_refl].
Qed.

Lemma solo_room nodes nnodes s s' :
  make_room nnodes s = (Ok tt, s') -> rtc solo (PRoom nodes nnodes, s) (PCommit nodes, s').
Proof.
  unfold make_room, mbind, M_bind, gets. apply (solo_while _ (FromRoom nodes nnodes)); try done.
  - intros s1 H. unfold thread_step, mbind at 1, M_bind at 1, gets. by rewrite H.
  - intros s1 H. unfold thread_step, mbind at 1, M_bind at 1, gets. by rewrite H.
Qed.

Lemma solo_lag s s' : enforce_checkpoint_lag s = (Ok tt, s') -> rtc solo (PLag, s) (PLoop, s').
Proof.
  unfold enforce_checkpoint_lag, mbind, M_bind, gets. apply (solo_while _ FromLag); try done.
  - intros s1 H. unfold thread_step, mbind at 1, M_bind at 1, gets. by rewrite H.
  - intros s1 H. unfold thread_step, mbind at 1, M_bind at 1, gets. by rewrite H.
Qed.

Lemma solo_commit nodes n s s' :
  do_commit nodes n s = (Ok tt, s') -> rtc solo (PRoom nodes n, s) (PLag, s').
Proof.
  unfold do_commit. intros H. apply bind_ok_inv in H as ([] & s1 & H1 & H).
  etrans; [by apply solo_room|]. destruct nodes as [nodes|]; [|done].
  apply bind_ok_inv in H as (t & s2 & H2 & [= <-]).
  apply (solo_step _ _ (PFinish t) s2); [done| |apply rtc_once; by split].
  unfold thread_step. unfold mbind at 1, M_bind at 1, gets. by rewrite (bind_ok _ _ _ _ _ H2).
Qed.

(** After the swap. *)
Lemma solo_rest nodes n no s s' :
  commit_rest nodes n no s = (Ok tt, s') -> rtc solo (PSwapped nodes n no, s) (PLoop, s').
Proof.
  unfold commit_rest. unfold mbind at 1, M_bind at 1, gets. intros H.
  apply bind_ok_inv in H as ([] & s1 & H1 & H). apply bind_ok_inv in H as ([] & s2 & H2 & H3).
  assert (Hs : thread_step (PSwapped nodes n no) s
    = (Ok (if 0 <? n then PRoom nodes n else PEmpty), s1)).
  { unfold thread_step. unfold mbind at 1, M_bind at 1, gets. by rewrite (bind_ok _ _ _ _ _ H1). }
  eapply solo_step; [done|exact Hs|]. etrans; [|by apply solo_lag].
  destruct (0 <? n); [by apply solo_commit|].
  injection H2 as <-. apply rtc_once. by split.
Qed.

(** The whole turn, once the thread has found work. *)
Lemma solo_cycle s s' :
  commit_cycle s = (Ok tt, s') -> rtc solo (PFreezing, set_mgr (set_freezing true) s) (PLoop, s').
Proof.
  unfold commit_cycle. unfold mbind at 1 2, M_bind at 1 2, modify, gets.
  set (s0 := set_mgr (set_freezing true) s). intros H.
  destruct (0 <? tm_running_handles (mg s0)) eqn:Hh; [done|].
  apply bind_ok_inv in H as (r & s1 & H1 & H). eapply solo_step; [done| |by apply solo_rest].
  unfold thread_step. unfold mbind at 1, M_bind at 1, gets. by rewrite Hh, (bind_ok _ _ _ _ _ H1).
Qed.

(** The end of a turn is determined. *)
Lemma solo_end x s1 s2 : rtc solo x (PLoop, s1) -> rtc solo x (PLoop, s2) -> s1 = s2.
Proof.
  intros H1. remember (PLoop, s1) as y. revert Heqy.
  induction H1 as [x|x y z [Hp Hs] _ IH]; intros Hy H2.
  - subst x. inversion H2 as [|? ? ? [Hp _]]; by simplify_eq.
  - inversion H2 as [|? w ? [_ Hs']]; subst; [done|]. apply IH; [done|].
    rewrite Hs in Hs'. injection Hs' as E1 E2. destruct y, w; simpl in *. by subst.
Qed.

(** ** What a turn depends on *)

(** Everything but the table, the open handles and the flags. *)
Record core_mgr (m m' : txn_mgr) : Prop := {
  cr_journal : tm_journal m' = tm_journal m;
  cr_mode : tm_mode m' = tm_mode m;
  cr_gen : tm_generation_seq m' = tm_generation_seq m;
  cr_completed : tm_completed_through m' = tm_completed_through m;
  cr_ckpt : tm_ckpt m' = tm_ckpt m;
  cr_count : tm_ckpt_count m' = tm_ckpt_count m;
}.

Definition same_core (s s' : tst) : Prop := core_mgr (mg s) (mg s') /\ td s' = td s.

#[export] Instance core_mgr_equiv : Equivalence core_mgr.
Proof.
  split; [by intros m; split|intros m1 m2 []; by split|].
  intros m1 m2 m3 [] []. split; congruence.
Qed.

#[export] Instance same_core_equiv : Equivalence same_core.
Proof.
  split; [by intros s; split|intros s1 s2 [H1 H2]; by split|].
  intros s1 s2 s3 [H1 H2] [H3 H4]. split; [by etrans|congruence].
Qed.

(** The same result and the same core from states with the same core. *)
Definition agree {A} (m m' : M tst A) : Prop :=
  forall s s', same_core s s' -> (m' s').1 = (m s).1 /\ same_core (m s).2 (m' s').2.

Lemma agree_ret {A} (x : A) : agree (mret x) (mret x).
Proof. by intros s s' H. Qed.

Lemma agree_fail {A} rc : agree (fail (A := A) rc) (fail rc).
Proof. by intros s s' H. Qed.

Lemma agree_bind {A B} (m m' : M tst A) (f f' : A -> M tst B) :
  agree m m' -> (forall x, agree (f x) (f' x)) -> agree (m ≫= f) (m' ≫= f').
Proof.
  intros Hm Hf s s' H. destruct (Hm s s' H) as [E Hc]. unfold mbind, M_bind.
  destruct (m s) as [r t], (m' s') as [r' t']. cbn [fst snd] in *. subst r'.
  destruct r; [by apply Hf|by split].
Qed.

(** Looking at the manager. *)
Lemma agree_look {A} (f f' : txn_mgr -> M tst A) :
  (forall m m', core_mgr m m' -> agree (f m) (f' m')) -> agree (gets mg ≫= f) (gets mg ≫= f').
Proof. intros Hf s s' H. apply (Hf _ _ (proj1 H) s s' H). Qed.

Lemma agree_attempt {A} (m m' : M tst A) : agree m m' -> agree (attempt m) (attempt m').
Proof.
  intros Hm s s' H. destruct (Hm s s' H) as [E Hc]. unfold attempt.
  destruct (m s) as [r t], (m' s') as [r' t']. cbn [fst snd] in *. by subst r'.
Qed.

Lemma agree_on_bdev {A} (m : M bdev A) : agree (on_bdev m) (on_bdev m).
Proof.
  intros s s' [Hm Hd]. unfold on_bdev, zoom. rewrite Hd. destruct (m (td s)). by split.
Qed.

Lemma agree_on_journal {A} (m : M jst A) : agree (on_journal m) (on_journal m).
Proof.
  intros s s' [Hm Hd]. unfold on_journal, zoom. rewrite Hd, (cr_journal _ _ Hm).
  destruct (m _) as [r [j d]]. split; [done|]. split; [|done]. destruct Hm. by split.
Qed.

Lemma agree_set_mgr f f' :
  (forall m m', core_mgr m m' -> core_mgr (f m) (f' m')) ->
  agree (modify (set_mgr f)) (modify (set_mgr f')).
Proof. intros Hf s s' [Hm Hd]. split; [done|]. split; [by apply Hf|done]. Qed.

(** [agree] by the outermost call; what the manager is asked is in its core. *)
Ltac agree_step :=
  lazymatch goal with
  | |- agree (mbind _ (gets mg)) _ =>
      apply agree_look; intros m m' [Hjournal Hmode Hgen Hcompleted Hckpt Hcount];
      rewrite ?Hjournal, ?Hmode, ?Hckpt, ?Hcount
  | |- agree (mbind _ _) _ => apply agree_bind; [|intros ?]
  | |- agree (mret _) _ => apply agree_ret
  | |- agree (fail _) _ => apply agree_fail
  | |- agree (attempt _) _ => apply agree_attempt
  | |- agree (on_bdev _) _ => apply agree_on_bdev
  | |- agree (on_journal _) _ => apply agree_on_journal
  | |- agree (if ?b then _ else _) _ => destruct b
  | |- agree (match ?x with _ => _ end) _ => destruct x
  end.

Lemma agree_take from : agree (take_step from) (take_step from).
Proof.
  unfold take_step, checkpoint_take. repeat agree_step.
  apply agree_set_mgr. intros m1 m2 []. by split.
Qed.

Lemma agree_commit_io nodes : agree (commit_io nodes) (commit_io nodes).
Proof. unfold commit_io. repeat agree_step. Qed.

Lemma agree_advance : agree checkpoint_advance checkpoint_advance.
Proof.
  unfold checkpoint_advance. apply agree_look. intros m m' [Hj _ _ _ Hc _].
  unfold checkpoint_tail. rewrite Hj, Hc. destruct (tm_ckpt m); apply agree_on_journal.
Qed.

(** The thread's steps inside a turn see nothing else. *)
Lemma agree_thread p :
  p <> PLoop -> p <> PFreezing -> agree (thread_step p) (thread_step p).
Proof.
  intros H1 H2. destruct p as [| |nodes n no| |nodes n|nodes|t| | |from todo|from|]; try done;
    unfold thread_step; repeat first [agree_step|apply agree_take|apply agree_commit_io|apply agree_advance].
  - apply agree_set_mgr. intros m1 m2 []. cbn in *. split; cbn; congruence.
  - apply agree_set_mgr. intros m1 m2 []. destruct t; split; cbn in *; congruence.
Qed.

(** ** Answers are only consumed *)

#[export] Instance later_preorder : PreOrder later.
Proof. split; apply _. Qed.

Lemma later_read b : moves later (logfs_bdev_read b).
Proof.
  intros d. unfold logfs_bdev_read. destruct (_ <=? _); [done|].
  destruct (full_pread _ _ _ _) as [[rc buf] rest] eqn:E.
  apply full_pread_suffix in E as [E _]. by split.
Qed.

Lemma later_write b c : moves later (logfs_bdev_write b c).
Proof.
  intros d. unfold logfs_bdev_write. destruct (_ <=? _); [done|].
  destruct (full_pwrite _ _ _ _) as [[[rc file] n] rest] eqn:E.
  apply full_pwrite_suffix in E. destruct (n =? 0)%nat; by split.
Qed.

Lemma later_malloc : moves later malloc.
Proof.
  intros d. unfold malloc. destruct (heap d) as [|ok rest] eqn:E; [done|].
  split; [done|]. cbn [snd heap]. rewrite E. by apply suffix_cons_r.
Qed.

Lemma later_syscall : moves later syscall.
Proof.
  intros d. unfold syscall. destruct (sys d) as [|[]] eqn:E; [done|..|done];
    (split; [|done]; cbn [snd set_sys sys]; rewrite E; by apply suffix_cons_r).
Qed.
#[local] Hint Resolve later_read later_write later_malloc later_syscall : moves.

Lemma later_flush : moves later logfs_bdev_flush.
Proof. unfold logfs_bdev_flush. moves_steps. apply moves_modify. by intros d. Qed.
#[local] Hint Resolve later_flush : moves.

Lemma later_jsuper j off seq : moves later (jsuper_write j off seq).
Proof. unfold jsuper_write, logfs_bdev_write_fua. moves_steps. Qed.
#[local] Hint Resolve later_jsuper : moves.

Definition on_td (R : relation bdev) : relation tst := fun s s' => R (td s) (td s').

#[export] Instance on_td_preorder R `{!PreOrder R} : PreOrder (on_td R).
Proof. split; [by intros s; red|]. intros s1 s2 s3 H1 H2. red. by etrans. Qed.

Definition on_jd (R : relation bdev) : relation jst := fun s s' => R (jd s) (jd s').

#[export] Instance on_jd_preorder R `{!PreOrder R} : PreOrder (on_jd R).
Proof. split; [by intros s; red|]. intros s1 s2 s3 H1 H2. red. by etrans. Qed.

Lemma moves_on_dev {A} (m : M bdev A) : moves later m -> moves (on_jd later) (on_dev m).
Proof. intros Hm. by apply (moves_zoom _ later). Qed.

Lemma moves_td {A} (m : M bdev A) : moves later m -> moves (on_td later) (on_bdev m).
Proof. intros Hm. by apply (moves_zoom _ later). Qed.

Lemma moves_jd {A} (m : M jst A) : moves (on_jd later) m -> moves (on_td later) (on_journal m).
Proof. intros Hm. by apply (moves_zoom _ (on_jd later)). Qed.

Lemma later_set_mgr f : moves (on_td later) (modify (set_mgr f)).
Proof. by intros s; red. Qed.

Lemma later_set_jr f : moves (on_jd later) (modify (set_jr f)).
Proof. by intros s; red. Qed.

Lemma later_data_blocks j cursor data : moves later (write_data_blocks j cursor data).
Proof.
  revert cursor. induction data as [|w data IH]; intros cursor; cbn [write_data_blocks]; unfold write_logical.
  - moves_step.
  - moves_step; [moves_step|apply IH].
Qed.
#[local] Hint Resolve moves_on_dev moves_td moves_jd later_set_mgr later_set_jr later_data_blocks : moves.

Lemma later_body j desc rev data : moves later (write_body j desc rev data).
Proof. unfold write_body, write_logical. moves_steps. Qed.

Lemma later_commit_block j cursor buf : moves later (write_commit j cursor buf).
Proof. unfold write_commit, write_logical. moves_steps. Qed.
#[local] Hint Resolve later_body later_commit_block : moves.

Lemma later_commit data revoke : moves (on_jd later) (logfs_journal_commit data revoke).
Proof. unfold logfs_journal_commit. moves_steps. Qed.

Lemma later_advance off seq : moves (on_jd later) (logfs_journal_advance_tail off seq).
Proof. unfold logfs_journal_advance_tail. moves_steps. Qed.
#[local] Hint Resolve later_commit later_advance : moves.

Lemma later_take from : moves (on_td later) (take_step from).
Proof. unfold take_step, checkpoint_take. moves_steps. Qed.

Lemma later_commit_io nodes : moves (on_td later) (commit_io nodes).
Proof. unfold commit_io. moves_steps. Qed.

Lemma later_checkpoint_advance : moves (on_td later) checkpoint_advance.
Proof. unfold checkpoint_advance. moves_steps. Qed.

Lemma later_swap : moves (on_td later) commit_swap.
Proof. unfold commit_swap, flatten_and_clear. moves_steps. Qed.
#[local] Hint Resolve later_take later_commit_io later_checkpoint_advance later_swap : moves.

Lemma later_thread p : moves (on_td later) (thread_step p).
Proof. unfold thread_step. moves_steps. Qed.

(** ** What clients leave alone *)

(** No failure to come, and data goes through the journal. *)
Definition steady (s : tst) : Prop :=
  sys (td s) = [] /\ heap (td s) = [] /\ tm_mode (mg s) = LOGFS_MODE_JOURNAL.

Lemma steady_core s s' : same_core s s' -> steady s -> steady s'.
Proof. intros [Hm Hd] (H1 & H2 & H3). unfold steady. by rewrite Hd, (cr_mode _ _ Hm). Qed.

Definition keeps_core (s s' : tst) : Prop := steady s -> same_core s s'.

#[export] Instance keeps_core_preorder : PreOrder keeps_core.
Proof.
  split; [by intros s _|]. intros s1 s2 s3 H12 H23 H1. pose proof (H12 H1) as H.
  etrans; [exact H|]. by apply H23, (steady_core s1).
Qed.

Lemma calm_malloc : moves keeps_core (on_bdev malloc).
Proof.
  intros s (_ & Hh & _). destruct s as [m d]. unfold on_bdev, zoom, malloc.
  cbn [td] in *. rewrite Hh. reflexivity.
Qed.

Lemma read_calm_dev b d : sys d = [] -> (logfs_bdev_read b d).2 = d.
Proof.
  intros Hs. pose proof (later_read b d) as [Hl _]. unfold logfs_bdev_read in *.
  destruct (_ <=? _); [done|]. destruct (full_pread _ _ _ _) as [[rc buf] rest].
  cbn [snd set_sys sys] in *. rewrite Hs in Hl. apply suffix_nil_inv in Hl. subst rest.
  rewrite <-Hs. by destruct d.
Qed.

Lemma calm_read b : moves keeps_core (on_bdev (logfs_bdev_read b)).
Proof.
  intros s (Hs & _ & _). destruct s as [m d]. cbn [td] in Hs. unfold on_bdev, zoom. cbn [td mg].
  pose proof (read_calm_dev b d Hs) as E. destruct (logfs_bdev_read b d) as [r d']. cbn [snd] in *.
  by rewrite E.
Qed.
#[local] Hint Resolve calm_malloc calm_read : moves.

Lemma calm_set_mgr f : (forall m, core_mgr m (f m)) -> moves keeps_core (modify (set_mgr f)).
Proof. intros H s _. by split. Qed.

Lemma calm_find b : moves keeps_core (find_or_create_dirty b).
Proof.
  unfold find_or_create_dirty. moves_steps.
  all: apply calm_set_mgr; intros m'; by split.
Qed.
#[local] Hint Resolve calm_find : moves.

Lemma calm_access h b : moves keeps_core (logfs_txn_get_write_access h b).
Proof. unfold logfs_txn_get_write_access. moves_steps. Qed.

Lemma calm_store b c : moves keeps_core (store_staged b c).
Proof. apply calm_set_mgr. intros m. by split. Qed.

Lemma calm_dirty h b : moves keeps_core (logfs_txn_dirty_metadata h b).
Proof. unfold logfs_txn_dirty_metadata. moves_steps. Qed.
#[local] Hint Resolve calm_access calm_store calm_dirty : moves.

Lemma calm_data h b c : moves keeps_core (logfs_txn_write_data h b c).
Proof.
  assert (Hj : moves keeps_core (logfs_txn_get_write_access h b ;; store_staged b c ;;
    logfs_txn_dirty_metadata h b)) by moves_steps.
  intros s Hs. pose proof Hs as (_ & _ & Hm).
  unfold logfs_txn_write_data. unfold mbind at 1, M_bind at 1, gets. rewrite Hm. by apply (Hj s).
Qed.
#[local] Hint Resolve calm_data : moves.

Lemma calm_client h op : moves keeps_core (client_step h op).
Proof.
  unfold client_step, logfs_txn_read_block. moves_steps.
Qed.

Definition same_mode (m m' : txn_mgr) : Prop := tm_mode m' = tm_mode m.

#[export] Instance same_mode_preorder : PreOrder same_mode.
Proof. split; [by intros m|]. intros m1 m2 m3 H1 H2. red. congruence. Qed.

Lemma mode_bdev {A} (m : M bdev A) : moves (on_mg same_mode) (on_bdev m).
Proof. apply moves_on_bdev. apply _. Qed.

Lemma mode_journal {A} (m : M jst A) : moves (on_mg same_mode) (on_journal m).
Proof. by apply moves_on_journal. Qed.

Lemma mode_set f : (forall m, same_mode m (f m)) -> moves (on_mg same_mode) (modify (set_mgr f)).
Proof. apply moves_set_mgr. Qed.
#[local] Hint Resolve mode_bdev mode_journal : moves.

Lemma mode_thread p : p <> PLoop -> p <> PFreezing -> moves (on_mg same_mode) (thread_step p).
Proof.
  intros H1 H2. destruct p; try done;
    unfold thread_step, take_step, checkpoint_take, commit_io, checkpoint_advance; moves_steps.
  all: apply mode_set; intros m; by try match goal with t : option committed_txn |- _ => destruct t end.
Qed.

Lemma mode_freezing : moves (on_mg same_mode) (thread_step PFreezing).
Proof.
  unfold thread_step, commit_swap, flatten_and_clear. moves_steps; by apply mode_set.
Qed.

(** Every step that is not the commit thread's. *)
Lemma others_core a c c' :
  a <> AThread -> act a c = Some (Next c') -> steady (cf_st c) ->
  cf_phase c' = cf_phase c /\ same_core (cf_st c) (cf_st c').
Proof.
  destruct c as [s p hs ws]. intros Ha H Hs. cbn [cf_st cf_phase] in *. unfold act in H.
  destruct a as [|i|i op|i|i|i|]; [done|..].
  - destruct (idle _ _); [|done]. unfold logfs_txn_start, mbind, M_bind, gets in H.
    destruct (tm_freezing (mg s)); [done|]. injection H as <-. split; [done|]. by split.
  - destruct (hs !! i) as [h|]; [|done]. destruct (op_allowed h op); [|done].
    pose proof (calm_client h op s Hs) as Hc. destruct (client_step h op s) as [[h'|rc] s']; [|done].
    injection H as <-. by split.
  - destruct (hs !! i); [|done]. injection H as <-. split; [done|]. by split.
  - destruct (idle _ _); [|done]. injection H as <-. split; [done|]. by split.
  - destruct (ws !! i); [|done]. destruct (commit_sync_done _ _); [|done]. by injection H as <-.
  - destruct (bool_decide _); [|done]. injection H as <-. split; [done|]. by split.
Qed.

(** ** Turns with other threads in between *)

(** From [c0] on, the thread has not come back to the head of its loop. *)
Inductive mid_turn (c0 : config) : config -> Prop :=
  | mid_start : mid_turn c0 c0
  | mid_thread c c' :
      mid_turn c0 c -> cf_phase c <> PLoop -> act AThread c = Some (Next c') -> mid_turn c0 c'
  | mid_other a c c' :
      mid_turn c0 c -> a <> AThread -> act a c = Some (Next c') -> mid_turn c0 c'.

Lemma mid_turn_solo c0 c :
  steady (cf_st c0) -> is_freezing (cf_phase c0) = false -> mid_turn c0 c ->
  exists s, rtc solo (cf_phase c0, cf_st c0) (cf_phase c, s) /\ same_core s (cf_st c) /\
    steady (cf_st c) /\ is_freezing (cf_phase c) = false.
Proof.
  intros H0 Hp0 Hm. induction Hm as [|c c' _ (s & Hr & Hc & Hst & Hf) Hp Ha|a c c' _ (s & Hr & Hc & Hst & Hf) Hne Ha].
  - exists (cf_st c0). split; [apply rtc_refl|]. by split.
  - destruct c as [sc p hs ws]. cbn [cf_st cf_phase] in *. unfold act in Ha.
    destruct (thread_step p sc) as [[p'|rc] s'] eqn:E; [injection Ha as <-|done]. cbn [cf_st cf_phase].
    assert (Hpf : p <> PFreezing) by (by intros ->).
    destruct (agree_thread p Hp Hpf s sc Hc) as [Hres Hcore]. rewrite E in Hres, Hcore.
    destruct (thread_step p s) as [r1 s1] eqn:E1. cbn [fst snd] in *. subst r1.
    exists s1. split; [eapply rtc_r; [exact Hr|by split]|]. split; [exact Hcore|].
    pose proof (later_thread p sc) as Hl. rewrite E in Hl. unfold on_td in Hl. cbn [snd] in Hl.
    split.
    + pose proof Hst as (H1 & H2 & H3). split; [by eapply later_nil|]. split.
      * destruct Hl as [_ Hl]. rewrite H2 in Hl. by apply suffix_nil_inv.
      * pose proof (mode_thread p Hp Hpf sc) as Hm. rewrite E in Hm. by etrans.
    + destruct (busy p) eqn:Hb; [by apply (thread_target p Hb sc p' s')|].
      destruct p; try done. by injection E as <- _.
  - destruct (others_core a c c' Hne Ha Hst) as [-> Hc']. exists s. split; [exact Hr|].
    split; [by etrans|]. split; [by eapply steady_core|done].
Qed.
