(* ===== verification/TxnProps.v ===== *)
(** The theorems about the transaction manager, each with a run of the code
    on which its hypotheses hold, and the runs where the manager does not
    keep the promises of [txn.h]. *)

From S2P Require Import Prelude.
From S2P Require Import Bytes.
From S2P Require Import DiskFormat.
From S2P Require Import Blockdev.
From S2P Require Import DiskOps.
From S2P Require Import Journal.
From S2P Require Import JournalLog.
From S2P Require Import JournalCommit.
From S2P Require Import JournalInv.
From S2P Require Import JournalRecover.
From S2P Require Import JournalReplay.
From S2P Require Import JournalSafety.
From S2P Require Import JournalProps.
From S2P Require Import Txn.
From S2P Require Import TxnInv.
From S2P Require Import TxnSafety.
From S2P Require Import TxnCommit.
From S2P Require Import TxnView.
From S2P Require Import TxnApi.
From S2P Require Import TxnStore.

(** ** A manager to run the code on: the small journal, journal mode *)

Definition demo_mgr (mode : logfs_data_mode) : tst :=
  mkTst (logfs_txnmgr_create demo_journal mode) (demo_dev []).

Lemma mgr_inv_demo mode : mgr_inv (demo_mgr mode).
Proof. apply mgr_inv_create; [apply log_inv_demo|done]. Qed.

(** ** Reads and staging *)

(** C22: between a [logfs_txn_start] and its [logfs_txn_stop] the manager
    implements the abstract contents, whatever the kernel and the allocator
    answer: a read returns the current contents of the block - the staged
    copy, else the committed one, else the device's; write access returns
    them too and stages the block without changing anyone's view; a store
    through the pointer changes the view of exactly that block; or the call
    fails and nothing has changed. *)
Theorem txn_refines_contents s h b c :
  mgr_inv s -> SRet O ∉ sys (td s) -> tm_freezing (mg s) = false ->
  stageable s b -> h = tm_generation_seq (mg s) -> length c = block_len ->
  let a := contents_of s in
  rep_mgr a s /\
  triple rep_mgr a logfs_txn_start (fun r a' => r = Ok h /\ a' = a) /\
  triple rep_mgr a (logfs_txn_read_block b)
    (fun r a' => a' = a /\ (r = Ok (view s b) \/ io_error a r)) /\
  triple rep_mgr a (logfs_txn_get_write_access h b)
    (fun r a' => r = Ok (view s b) /\ a' = touch b a \/ io_error a r /\ a' = a) /\
  triple rep_mgr (touch b a) (store_staged b c)
    (fun r a' => r = Ok tt /\ a' = put b c (touch b a)) /\
  triple rep_mgr (touch b a) (logfs_txn_dirty_metadata h b)
    (fun r a' => r = Ok tt /\ a' = touch b a).
Proof.
  intros Hinv Hk Hf Hb -> Hc a. split_and!.
  - by apply rep_contents_of.
  - apply start_law.
  - by apply read_law.
  - by apply access_law.
  - apply store_law; [set_solver|done].
  - apply dirty_law. set_solver.
Qed.

Lemma txn_refines_contents_witness :
  let s := mkTst (logfs_txnmgr_create demo_journal LOGFS_MODE_JOURNAL)
             (mkBdev (b_disk (demo_dev [])) [SRet 100; SErr 5] [true; false]) in
  triple rep_mgr (contents_of s) (logfs_txn_get_write_access 1 30)
    (fun r a' => r = Ok (view s 30) /\ a' = touch 30 (contents_of s) \/
                 io_error (contents_of s) r /\ a' = contents_of s).
Proof.
  intros s. apply (txn_refines_contents s 1 30 (fill Byte.x11)).
  - apply mgr_inv_create; [apply log_inv_demo|reflexivity].
  - cbn [s td sys]. set_solver.
  - reflexivity.
  - split; [vm_compute; split; congruence|by apply demo_not_journal].
  - reflexivity.
  - apply length_replicate.
Defined.

(** ** A turn of the commit thread *)


(** Two generations' worth of state: one committed, one staged on top. *)
Definition stage (b : Z) (c : block) : M tst unit :=
  h ← logfs_txn_start;
  logfs_txn_get_write_access h b ;;
  store_staged b c ;;
  logfs_txn_dirty_metadata h b ;;
  logfs_txn_stop.

Definition demo_staged : tst := (stage 30 (fill Byte.x11) (demo_mgr LOGFS_MODE_JOURNAL)).2.

Lemma mgr_inv_demo_staged : mgr_inv demo_staged /\ ready demo_staged.
Proof.
  assert (Heq : demo_staged = mkTst (insert_dirty 30 (fill Byte.x11) (logfs_txnmgr_create demo_journal LOGFS_MODE_JOURNAL)) (demo_dev []))
    by (vm_compute; reflexivity).
  rewrite Heq. pose proof (mgr_inv_demo LOGFS_MODE_JOURNAL) as Hinv.
  assert (Hst : staged_nodes (insert_dirty 30 (fill Byte.x11) (logfs_txnmgr_create demo_journal LOGFS_MODE_JOURNAL))
    = [(30, fill Byte.x11)]) by (vm_compute; reflexivity).
  split.
  - destruct Hinv as [H1 H2 H3 H4 H5]. split; [|exact H2|exact H3|exact H4|].
    + apply wf_insert_dirty; [exact H1|reflexivity|lia|apply length_replicate].
    + cbn [mg td]. rewrite Hst. constructor; [|constructor].
      split; [reflexivity|by apply demo_not_journal].
  - split; cbn [mg td]; rewrite ?Hst; try (vm_compute; congruence).
    destruct (loggable_demo demo_journal) as [[Hn Hd Hp] _]. split.
    + vm_compute. congruence.
    + apply Forall_cons in Hd as [Hd _]. by repeat constructor.
    + apply Forall_cons in Hp as [Hp _]. by repeat constructor.
Qed.


(** C24: when nothing fails and the generation fits the log ([ready]), the turn
    ends, at most [LOGFS_CKPT_LAG]
    transactions are left to checkpoint, and every block that was staged is
    durable: whatever survives a later power failure recovers to it. *)
Theorem commit_cycle_durable s :
  mgr_inv s -> ready s -> sys (td s) = [] -> heap (td s) = [] ->
  exists s', commit_cycle s = (Ok tt, s') /\ mgr_inv s' /\
    tm_ckpt_count (mg s') <= LOGFS_CKPT_LAG /\
    tm_completed_through (mg s') = tm_generation_seq (mg s) /\
    forall b c img, find_dirty (mg s) b = Some c -> crash_image (b_disk (td s')) img ->
      recovered (tm_journal (mg s)) img b = c.
Proof.
  intros Hinv Hr Hs Hh. assert (Hl : live_io (td s)) by (unfold live_io; rewrite Hs; constructor).
  pose proof (commit_cycle_safe s Hinv Hr Hl Hh) as H. unfold crash_safe in H.
  destruct (commit_cycle s) as [r s'] eqn:E. destruct H as (_ & _ & Hsys & [([] & -> & Hd)|[[l Hdead] _]]).
  2: { rewrite (Hsys Hs) in Hdead. done. }
  exists s'. split_and!; [done|apply Hd..|]. intros b c img. by apply turn_done_durable.
Qed.

Lemma commit_cycle_durable_witness :
  exists s', commit_cycle demo_staged = (Ok tt, s') /\ mgr_inv s' /\
    tm_ckpt_count (mg s') <= LOGFS_CKPT_LAG /\
    tm_completed_through (mg s') = tm_generation_seq (mg demo_staged) /\
    forall b c img, find_dirty (mg demo_staged) b = Some c -> crash_image (b_disk (td s')) img ->
      recovered (tm_journal (mg demo_staged)) img b = c.
Proof.
  apply commit_cycle_durable.
  - apply mgr_inv_demo_staged.
  - apply mgr_inv_demo_staged.
  - vm_compute. reflexivity.
  - vm_compute. reflexivity.
Defined.

(** The checkpoint loops - making room, keeping the lag, draining at
    shutdown - end for every state, kernel and allocator. *)
Theorem checkpoint_loops_end s nnodes :
  (make_room nnodes s).1 = Ok tt /\ (enforce_checkpoint_lag s).1 = Ok tt /\ (drain s).1 = Ok tt.
Proof.
  unfold make_room, enforce_checkpoint_lag, drain, checkpoint_fuel, mbind, M_bind, gets.
  split_and!; [apply checkpoint_while_ends|apply checkpoint_while_ends|apply drain_loop_ends]; lia.
Qed.

(** C37: shutting the manager down, in journal or ordered mode and with no
    failing call, checkpoints everything that was committed: the log ends
    empty and every home block holds its last committed contents - which is
    what readers saw if nothing was staged.  What is staged when the manager
    goes down is dropped: [shutdown_drops_staged]. *)
Theorem destroy_empties_log s :
  mgr_inv s -> tm_mode (mg s) <> LOGFS_MODE_WRITEBACK -> sys (td s) = [] -> heap (td s) = [] ->
  exists s', logfs_txnmgr_destroy s = (Ok tt, s') /\ tm_ckpt (mg s') = [] /\
    log_inv (tm_journal (mg s')) (b_disk (td s')) [] /\
    (forall b, b <> LOGFS_JSUPER_BLOCKNO -> content (b_disk (td s')) b = committed s b) /\
    (staged_nodes (mg s) = [] ->
     forall b, b <> LOGFS_JSUPER_BLOCKNO -> content (b_disk (td s')) b = view s b).
Proof.
  intros Hinv Hmode Hs Hh. set (s0 := mkTst (set_shutdown (mg s)) (td s)).
  assert (Hinv0 : mgr_inv s0).
  { destruct Hinv as [[? ? ?] H2 H3 H4 H5]. split; [by split|exact H2|exact H3|exact H4|exact H5]. }
  assert (Hl : live_io (td s)) by (unfold live_io; rewrite Hs; constructor).
  pose proof (drain_loop_safe (checkpoint_fuel s0) s0 s0 Hinv0 (checkpoints_refl _ Hinv0)) as Hd.
  specialize (Hd ltac:(unfold checkpoint_fuel; lia) Hl Hh). unfold crash_safe in Hd.
  unfold logfs_txnmgr_destroy, drain, mbind, M_bind, modify, gets.
  change (set_mgr set_shutdown s) with s0.
  destruct (drain_loop (checkpoint_fuel s0) s0) as [r s'].
  destruct Hd as (_ & _ & Hsys & [([] & -> & Hc & Hnil)|[[l Hdead] _]]);
    [|rewrite (Hsys Hs) in Hdead; done].
  exists s'. rewrite bool_decide_eq_false_2.
  2: { rewrite (cp_same _ _ Hc). exact Hmode. }
  split; [done|]. split; [done|]. pose proof (cp_inv _ _ Hc) as Hinv'.
  assert (Hhome : forall b, b <> LOGFS_JSUPER_BLOCKNO -> content (b_disk (td s')) b = committed s b).
  { intros b Hb. destruct (cp_view _ _ Hc b Hb) as [_ Hcm].
    change (committed s0 b) with (committed s b) in Hcm. rewrite <-Hcm.
    unfold committed. by rewrite Hnil. }
  split; [pose proof (mi_log _ Hinv') as Hlog; by rewrite Hnil in Hlog|]. split; [exact Hhome|].
  intros Hst b Hb. rewrite Hhome by done. unfold view, committed. by rewrite Hst, app_nil_r.
Qed.

(** The manager after one committed generation. *)
Definition demo_committed : tst := (commit_cycle demo_staged).2.

Lemma mgr_inv_demo_committed : mgr_inv demo_committed.
Proof.
  destruct mgr_inv_demo_staged as [Hinv Hr].
  assert (Hs : sys (td demo_staged) = []) by (vm_compute; reflexivity).
  assert (Hh : heap (td demo_staged) = []) by (vm_compute; reflexivity).
  assert (Hl : live_io (td demo_staged)) by (unfold live_io; rewrite Hs; constructor).
  pose proof (commit_cycle_safe _ Hinv Hr Hl Hh) as H. unfold crash_safe in H.
  unfold demo_committed. destruct (commit_cycle demo_staged) as [r s'].
  destruct H as (_ & _ & Hsys & [([] & _ & Hd)|[[l Hdead] _]]); [apply Hd|].
  rewrite (Hsys Hs) in Hdead. done.
Qed.

Lemma destroy_empties_log_witness :
  exists s', logfs_txnmgr_destroy demo_committed = (Ok tt, s') /\ tm_ckpt (mg s') = [] /\
    log_inv (tm_journal (mg s')) (b_disk (td s')) [] /\
    forall b, b <> LOGFS_JSUPER_BLOCKNO -> content (b_disk (td s')) b = view demo_committed b.
Proof.
  destruct (destroy_empties_log demo_committed) as (s' & E & Hck & Hl & _ & Hv).
  - apply mgr_inv_demo_committed.
  - vm_compute. congruence.
  - vm_compute. reflexivity.
  - vm_compute. reflexivity.
  - exists s'. split; [exact E|]. split; [exact Hck|]. split; [exact Hl|].
    apply Hv. vm_compute. reflexivity.
Defined.

(** ** Data writes *)

(** In ordered mode a data block goes straight to the device; readers see
    it unless an older copy of the same block is staged or waiting to be
    checkpointed. *)
Theorem ordered_write_visible s h b c :
  mgr_inv s -> tm_mode (mg s) = LOGFS_MODE_ORDERED -> stageable s b ->
  sys (td s) = [] -> heap (td s) = [] -> length c = block_len ->
  find_dirty (mg s) b = None -> find_checkpointed (mg s) b = None ->
  exists s', logfs_txn_write_data h b c s = (Ok tt, s') /\ mgr_inv s' /\
    (forall b', view s' b' = if decide (b = b') then c else view s b') /\
    tm_ordered_blocks (mg s') = tm_ordered_blocks (mg s) ++ [b].
Proof.
  intros Hinv Hmode [Hb Hbj] Hs Hh Hc Hd Hck. pose proof (mi_log _ Hinv) as Hlog.
  set (cap := if Z.of_nat (length (tm_ordered_blocks (mg s))) =? tm_cap_ordered (mg s)
              then if tm_cap_ordered (mg s) =? 0 then 16 else tm_cap_ordered (mg s) * 2
              else tm_cap_ordered (mg s)).
  exists (mkTst (set_ordered (tm_ordered_blocks (mg s) ++ [b]) cap (mg s))
            (set_disk (push_write b c) (td s))).
  assert (Hrun : logfs_txn_write_data h b c s = (Ok tt,
    mkTst (set_ordered (tm_ordered_blocks (mg s) ++ [b]) cap (mg s)) (set_disk (push_write b c) (td s)))).
  { unfold logfs_txn_write_data, mbind, M_bind, gets. rewrite Hmode.
    unfold on_bdev at 1, zoom at 1.
    rewrite write_ok by (done || lia || apply Hlog). unfold push_ordered, mbind, M_bind, gets.
    cbn [mg td]. fold cap. unfold cap. destruct (_ =? tm_cap_ordered (mg s)); [|done].
    unfold on_bdev, zoom, malloc. cbn [td set_disk heap]. rewrite Hh. cbn [negb].
    destruct s as [m [k sy hp]]. cbn in Hh |- *. by subst hp. }
  assert (Hinv' : mgr_inv (mkTst (set_ordered (tm_ordered_blocks (mg s) ++ [b]) cap (mg s))
                             (set_disk (push_write b c) (td s)))).
  { destruct Hinv as [[? ? ?] H2 H3 H4 H5]. split; [by split| |exact H3|exact H4|exact H5].
    apply (log_inv_home_op _ _ _ (DWrite b c)); [exact H2|by split]. }
  split; [done|]. split; [done|]. split; [|done].
  intros b'. rewrite (view_lookup _ _ (mi_staging _ Hinv')), (view_lookup s b' (mi_staging _ Hinv)).
  change (find_dirty (mg _) b') with (find_dirty (mg s) b').
  change (find_checkpointed (mg _) b') with (find_checkpointed (mg s) b').
  cbn [td set_disk b_disk]. rewrite content_push.
  destruct (decide (b = b')) as [<-|Hne]; [by rewrite Hd, Hck, Z.eqb_refl|].
  by rewrite (proj2 (Z.eqb_neq _ _)) by done.
Qed.

Lemma ordered_write_visible_witness :
  let s := demo_mgr LOGFS_MODE_ORDERED in
  exists s', logfs_txn_write_data 1 40 (fill Byte.x55) s = (Ok tt, s') /\ mgr_inv s' /\
    (forall b', view s' b' = if decide (40 = b') then fill Byte.x55 else view s b') /\
    tm_ordered_blocks (mg s') = [] ++ [40].
Proof.
  intros s. apply (ordered_write_visible s 1 40 (fill Byte.x55)); try reflexivity.
  - apply mgr_inv_demo.
  - split; [vm_compute; split; congruence|by apply demo_not_journal].
Defined.

(** ** Where the manager does not keep its promises

    Each run is a sequence of the manager's atomic sections in an order the
    locks allow, evaluated on the definitions. *)

(** Changing one byte of a staged block, as a read-modify-write does. *)
Definition poke (h b : Z) (i : nat) (x : byte) : M tst unit :=
  buf ← logfs_txn_get_write_access h b;
  store_staged b (splice buf i [x]).

Definition one_poke (b : Z) (i : nat) (x : byte) : M tst unit :=
  h ← logfs_txn_start;
  poke h b i x ;;
  logfs_txn_stop.

(** The commit thread up to the end of its critical section. *)
Definition turn_begins : M tst (option (list dirty_block) * Z * Z) :=
  modify (set_mgr (set_freezing true)) ;;
  commit_swap.

Definition turn_continues (r : option (list dirty_block) * Z * Z) : M tst unit :=
  commit_rest r.1.1 r.1.2 r.2.

(** A handle changes byte 0 of a block; the commit thread takes the
    generation; before it has put it on the checkpoint list another handle
    changes byte 1 of the same block. *)
Definition update_in_window : M tst block :=
  one_poke 30 0 Byte.x11 ;;
  r ← turn_begins;
  one_poke 30 1 Byte.x22 ;;
  turn_continues r ;;
  commit_cycle ;;
  logfs_txn_read_block 30.

(** A block is in neither the table nor the list while its generation is
    written to the log, so a handle that stages it then starts from the
    device's older contents, and its commit undoes the first one. *)
Theorem update_in_window_lost :
  exists c s, update_in_window (demo_mgr LOGFS_MODE_JOURNAL) = (Ok c, s) /\
    take 2 c = [Byte.x00; Byte.x22].
Proof.
  destruct (update_in_window (demo_mgr LOGFS_MODE_JOURNAL)) as [r s] eqn:E.
  assert (Hr : match r with Ok c => take 2 c = [Byte.x00; Byte.x22] | Err _ => False end).
  { apply (f_equal fst) in E. cbn [fst] in E. rewrite <-E. vm_compute. reflexivity. }
  clear E. destruct r as [c|rc]; [|destruct Hr]. exists c, s. split; [reflexivity|exact Hr].
Qed.

(** A handle opened in the same window, used after it. *)
Definition handle_in_window : M tst block :=
  one_poke 30 0 Byte.x11 ;;
  r ← turn_begins;
  h ← logfs_txn_start;
  turn_continues r ;;
  logfs_txn_get_write_access h 31.

(** [freezing] is cleared before the generation number changes: a handle
    opened in between carries the old number and fails the assertion of its
    first access after the commit. *)
Theorem handle_in_window_aborts :
  (handle_in_window (demo_mgr LOGFS_MODE_JOURNAL)).1 = Err ASSERT_FAILED.
Proof. vm_compute. reflexivity. Qed.

(** An [fsync] on an idle file system, an update, and another [fsync]. *)
Definition second_fsync : M tst Z :=
  target ← commit_sync_request;
  commit_cycle ;;
  one_poke 30 0 Byte.x11 ;;
  commit_sync_request.

(** A turn that found nothing to commit marks the running generation
    complete, so the next [commit_sync] does not wait: it returns with the
    update staged in memory only. *)
Theorem second_fsync_does_not_wait :
  exists target s, second_fsync (demo_mgr LOGFS_MODE_JOURNAL) = (Ok target, s) /\
    commit_sync_done target (mg s) = true /\ length (staged_nodes (mg s)) = 1%nat /\
    pending (b_disk (td s)) = [] /\ content (b_disk (td s)) 30 = zero_block.
Proof.
  destruct (second_fsync (demo_mgr LOGFS_MODE_JOURNAL)) as [r s] eqn:E.
  assert (H : match r with
    | Ok target => commit_sync_done target (mg s) = true /\ length (staged_nodes (mg s)) = 1%nat /\
        pending (b_disk (td s)) = [] /\ content (b_disk (td s)) 30 = zero_block
    | Err _ => False end).
  { pose proof (f_equal fst E) as E1. pose proof (f_equal snd E) as E2. cbn [fst snd] in E1, E2.
    rewrite <-E1, <-E2. vm_compute.
    repeat (apply conj; [reflexivity|]); reflexivity. }
  clear E. destruct r as [target|rc]; [|destruct H]. exists target, s. split; [reflexivity|exact H].
Qed.

(** Two committed generations; the checkpoint of the first one fails with an
    I/O error, the checkpoint of the second one does not. *)
Definition two_committed : tst :=
  ((one_poke 30 0 Byte.x11 ;; commit_cycle ;; one_poke 31 0 Byte.x22 ;; commit_cycle)
     (demo_mgr LOGFS_MODE_JOURNAL)).2.

Definition after_failed_checkpoint : tst :=
  (checkpoint_oldest (mkTst (mg two_committed) (mkBdev (b_disk (td two_committed)) [SErr 5] []))).2.

(** A transaction whose checkpoint fails is forgotten; the next
    checkpoint moves the tail past it, and a committed block is in neither
    the log nor at home. *)
Theorem failed_checkpoint_loses_commit :
  committed two_committed 30 = Byte.x11 :: replicate (block_len - 1) Byte.x00 /\
  (checkpoint_oldest (mkTst (mg two_committed) (mkBdev (b_disk (td two_committed)) [SErr 5] []))).1
  = Ok (- EIO) /\
  (checkpoint_oldest after_failed_checkpoint).1 = Ok 1 /\
  let (r, d) := mount_journal 3 16 (power_cycle (td (checkpoint_oldest after_failed_checkpoint).2)) in
  is_ok r = true /\ content (b_disk d) 30 = zero_block.
Proof. split_and!; [vm_compute; reflexivity..|]. vm_compute. split; reflexivity. Qed.

(** A shutdown with a staged generation does not commit it: the update
    of a closed handle is gone after a clean unmount. *)
Theorem shutdown_drops_staged :
  let s := ((one_poke 30 0 Byte.x11 ;; logfs_txnmgr_destroy) (demo_mgr LOGFS_MODE_JOURNAL)) in
  s.1 = Ok tt /\ content (b_disk (td s.2)) 30 = zero_block.
Proof. split; vm_compute; reflexivity. Qed.

(** A journaled block (a directory's, say) is committed, freed, and reused
    for file data in ordered mode. *)
Definition reused_block : M tst block :=
  one_poke 30 0 Byte.x11 ;;
  commit_cycle ;;
  h ← logfs_txn_start;
  logfs_txn_write_data h 30 (fill Byte.x55) ;;
  logfs_txn_stop ;;
  c ← logfs_txn_read_block 30;
  logfs_txnmgr_destroy ;;
  mret c.

(** Nothing revokes the journaled copy: reads return it instead of the
    data just written, and its checkpoint overwrites the data for good. *)
Theorem reused_block_overwritten :
  let s := reused_block (demo_mgr LOGFS_MODE_ORDERED) in
  let old := Byte.x11 :: replicate (block_len - 1) Byte.x00 in
  s.1 = Ok old /\ content (b_disk (td s.2)) 30 = old.
Proof. split; vm_compute; reflexivity. Qed.

(** More blocks in one generation than the log has. *)
Definition oversized : M tst Z :=
  foldr (fun b m => one_poke b 0 Byte.x11 ;; m) (mret tt) (map Z.of_nat (seq 30 15)) ;;
  target ← commit_sync_request;
  commit_cycle ;;
  mret target.

(** A generation the log cannot take is dropped, and the [commit_sync]
    that waits for it is released as if it had been committed. *)
Theorem oversized_dropped_silently :
  exists target s, oversized (demo_mgr LOGFS_MODE_JOURNAL) = (Ok target, s) /\
    commit_sync_done target (mg s) = true /\ tm_ckpt (mg s) = [] /\
    staged_nodes (mg s) = [] /\ content (b_disk (td s)) 30 = zero_block.
Proof.
  destruct (oversized (demo_mgr LOGFS_MODE_JOURNAL)) as [r s] eqn:E.
  assert (H : match r with
    | Ok target => commit_sync_done target (mg s) = true /\ tm_ckpt (mg s) = [] /\
        staged_nodes (mg s) = [] /\ content (b_disk (td s)) 30 = zero_block
    | Err _ => False end).
  { pose proof (f_equal fst E) as E1. pose proof (f_equal snd E) as E2. cbn [fst snd] in E1, E2.
    rewrite <-E1, <-E2. vm_compute.
    repeat (apply conj; [reflexivity|]); reflexivity. }
  clear E. destruct r as [target|rc]; [|destruct H]. exists target, s. split; [reflexivity|exact H].
Qed.
