(* ===== verification/TxnThreadsProps.v ===== *)
(** The theorems about the threads of [txn.c], with schedules on which their
    hypotheses hold, and the schedules that break what [txn.h] promises. *)

From S2P Require Import Prelude.
From S2P Require Import Bytes.
From S2P Require Import DiskFormat.
From S2P Require Import Blockdev.
From S2P Require Import DiskOps.
From S2P Require Import Journal.
From S2P Require Import JournalLog.
From S2P Require Import JournalInv.
From S2P Require Import JournalRecover.
From S2P Require Import JournalSafety.
From S2P Require Import JournalProps.
From S2P Require Import Txn.
From S2P Require Import TxnInv.
From S2P Require Import TxnSafety.
From S2P Require Import TxnCommit.
From S2P Require Import TxnView.
From S2P Require Import TxnThreads.
From S2P Require Import TxnThreadsInv.
From S2P Require Import TxnThreadsTurn.
From S2P Require Import TxnProps.

(** ** Handles and the freeze *)

(** The configuration [logfs_txnmgr_create] leaves. *)
Definition started (j : logfs_journal) (mode : logfs_data_mode) (d : bdev) : config :=
  created (mkTst (logfs_txnmgr_create j mode) d).

Lemma started_ok j mode d : threads_ok (started j mode d).
Proof. by apply created_ok. Qed.

(** C8: under any schedule, kernel and allocator: [running_handles] counts the
    open handles; a block whose buffer an open handle was given stays in the
    staging table until the handle stops; and the commit thread swaps the
    generation only when no handle is open, while none can be opened. *)
Theorem handles_keep_buffers j mode d c :
  reachable (started j mode d) c ->
  tm_running_handles (mg (cf_st c)) = Z.of_nat (size (cf_open c)) /\
  (forall i h b, cf_open c !! i = Some h -> b ∈ h_buffers h ->
     is_Some (find_dirty (mg (cf_st c)) b)) /\
  (cf_phase c = PFreezing ->
     (forall i, act (AStart i) c = None) /\
     forall c', act AThread c = Some (Next c') -> cf_phase c' <> PFreezing -> cf_open c = ∅).
Proof.
  intros Hr. pose proof (reachable_ok _ c (started_ok j mode d) Hr) as [H1 H2 H3 H4 _ _].
  split; [exact H1|]. split; [exact H4|]. destruct c as [s p hs ws]. cbn [cf_st cf_phase cf_open] in *.
  intros ->. split.
  - intros i. unfold act. destruct (idle _ _); [|done].
    unfold logfs_txn_start, mbind, M_bind, gets. by rewrite H2.
  - intros c' Ha Hp. unfold act in Ha. destruct (thread_step PFreezing s) as [[p'|rc] s'] eqn:E;
      [injection Ha as <-|done].
    destruct (thread_freezing s p' s' E) as [[-> _]|[Hz _]]; [done|]. apply map_size_empty_inv. lia.
Qed.

(** ** The assertion *)

Lemma find_never_fails b s : exists r, (find_or_create_dirty b s).1 = Ok r.
Proof.
  unfold find_or_create_dirty, mbind, M_bind, gets. destruct (find_dirty (mg s) b); [by eexists|].
  unfold on_bdev at 1, zoom, malloc. destruct (heap (td s)) as [|[] rest]; cbn [negb]; [..|by eexists];
    (destruct (find_checkpointed (mg s) b); [by eexists|]; unfold attempt;
     destruct (on_bdev (logfs_bdev_read b) _) as [[|] ]; by eexists).
Qed.

(** An access fails for lack of memory, but for the assertion. *)
Lemma access_fails h b s :
  h = tm_generation_seq (mg s) ->
  (logfs_txn_get_write_access h b s).1 <> Err ASSERT_FAILED.
Proof.
  intros ->. unfold logfs_txn_get_write_access. unfold mbind at 1, M_bind at 1, gets.
  rewrite Z.eqb_refl. cbn [negb]. destruct (find_never_fails b s) as [r E].
  unfold mbind, M_bind. destruct (find_or_create_dirty b s) as [r0 s0]. cbn [fst] in E. subst r0.
  by destruct r.
Qed.

Lemma pwrite_rc answers buf file n0 : (full_pwrite answers buf file n0).1.1.1 <= 0.
Proof.
  revert file n0. induction answers as [|a answers IH]; intros file n0; cbn [full_pwrite];
    (destruct (block_len <=? n0)%nat; [done|]); [done|].
  destruct a as [[|n]|e|]; [done|apply IH| |done]. destruct (_ =? _); [apply IH|]. cbn [fst]. lia.
Qed.

Lemma data_fails h b c s :
  h = tm_generation_seq (mg s) -> (logfs_txn_write_data h b c s).1 <> Err ASSERT_FAILED.
Proof.
  intros Hh. unfold logfs_txn_write_data. unfold mbind at 1, M_bind at 1, gets.
  destruct (tm_mode (mg s)) as [| | |n].
  - unfold writeback_queue_push, mbind, M_bind, on_bdev, zoom, malloc.
    by destruct (heap (td s)) as [|[] rest].
  - unfold mbind at 1, M_bind at 1, on_bdev, zoom, logfs_bdev_write.
    destruct (_ <=? b); [done|]. pose proof (pwrite_rc (sys (td s)) c (content (b_disk (td s)) b) 0) as Hrc.
    destruct (full_pwrite _ _ _ _) as [[[rc file] n] rest]. cbn [fst] in Hrc.
    destruct (rc =? 0); [|intros [= ->]; by unfold ASSERT_FAILED in Hrc].
    unfold push_ordered, mbind, M_bind, gets. destruct (_ =? tm_cap_ordered _); [|done].
    unfold on_bdev, zoom, malloc. by destruct (heap _) as [|[] rest'].
  - pose proof (access_fails h b s Hh) as Ha. unfold mbind at 1, M_bind at 1.
    destruct (logfs_txn_get_write_access h b s) as [[x|rc] s1]; [|intros [= ->]; by apply Ha].
    unfold mbind at 1, M_bind at 1, store_staged, modify. unfold logfs_txn_dirty_metadata, mbind, M_bind.
    destruct (find_never_fails b (set_mgr (fun m => set_staging
      (<[hash_block b := chain_store (bucket m (hash_block b)) b c]> (tm_buckets m)) (tm_ndirty m) m) s1))
      as [r E]. destruct (find_or_create_dirty b _) as [r0 s0]. cbn [fst] in E. subst r0. by destruct r.
  - done.
Qed.

Lemma client_aborts h op s rc s' :
  client_step h op s = (Err rc, s') -> rc = ASSERT_FAILED /\ h_txn_id h <> tm_generation_seq (mg s).
Proof.
  destruct op as [b|b data|b|b buf|b]; cbn [client_step]; unfold mbind, M_bind, attempt.
  - pose proof (access_fails (h_txn_id h) b s) as Ha.
    destruct (logfs_txn_get_write_access _ b s) as [[x|rc0] s1]; [done|]. cbn [fst] in Ha.
    destruct (Z.eqb_spec rc0 ASSERT_FAILED) as [->|]; [|done]. intros [= <- _]. split; [done|].
    intros E. by apply Ha.
  - done.
  - by destruct (logfs_txn_dirty_metadata _ b s).
  - pose proof (data_fails (h_txn_id h) b buf s) as Ha.
    destruct (logfs_txn_write_data _ b buf s) as [[x|rc0] s1]; [done|]. cbn [fst] in Ha.
    destruct (Z.eqb_spec rc0 ASSERT_FAILED) as [->|]; [|done]. intros [= <- _]. split; [done|].
    intros E. by apply Ha.
  - by destruct (logfs_txn_read_block b s).
Qed.

(** C21: a client's call ends the process only through the assertion of
    [logfs_txn_get_write_access], and only for a handle that was opened while
    a commit was in flight and outlived it. *)
Theorem assertion_only_late j mode d c i op rc :
  reachable (started j mode d) c -> act (ACall i op) c = Some (Aborted rc) ->
  rc = ASSERT_FAILED /\
  exists h, cf_open c !! i = Some h /\ h_late h = true /\ h_txn_id h <> tm_generation_seq (mg (cf_st c)).
Proof.
  intros Hr Ha. pose proof (reachable_ok _ c (started_ok j mode d) Hr) as Hok.
  pose proof (to_txn _ Hok) as Ht. destruct c as [s p hs ws]. cbn [cf_st cf_open] in *. unfold act in Ha.
  destruct (hs !! i) as [h|] eqn:Hi; [|done]. destruct (op_allowed h op); [|done].
  destruct (client_step h op s) as [[h'|rc'] s'] eqn:E; [done|]. injection Ha as ->.
  destruct (client_aborts h op s rc s' E) as [-> Hne]. split; [done|]. exists h. split; [done|].
  split; [|done]. destruct (h_late h) eqn:Hl; [done|]. by destruct Hne; eapply Ht.
Qed.

(** ** Turns *)

(** The thread's own steps, as a schedule. *)
Lemma solo_run hs ws x y :
  rtc solo x y ->
  exists n, run_actions (replicate n AThread) (mkConfig x.2 x.1 hs ws) = Some (Next (mkConfig y.2 y.1 hs ws)).
Proof.
  induction 1 as [x|x y z [_ Hs] _ [n IH]]; [by exists 0%nat|]. exists (S n).
  cbn [replicate run_actions]. unfold act. by rewrite Hs.
Qed.

(** C7: a caller of [logfs_txn_commit_sync] is released: from its request on,
    made while the commit thread is at the head of its loop and nobody shuts
    the manager down, with no handle open, no failing call and a log the
    generation fits, the steps of the commit thread alone lead to a state where
    the caller may go on, and all that clients had staged is committed by
    then. *)
Theorem sync_released c0 c i :
  mgr_inv (cf_st c0) -> ready (cf_st c0) -> sys (td (cf_st c0)) = [] -> heap (td (cf_st c0)) = [] ->
  cf_phase c0 = PLoop -> tm_shutdown (mg (cf_st c0)) = false -> act (ASync i) c0 = Some (Next c) ->
  exists n c1 c2, run_actions (replicate n AThread) c = Some (Next c1) /\
    act (ASynced i) c1 = Some (Next c2) /\ cf_syncing c2 !! i = None /\ cf_phase c1 = PLoop /\
    forall b, ~ journal_block (tm_journal (mg (cf_st c0))) b ->
      committed (cf_st c1) b = view (cf_st c0) b.
Proof.
  destruct c0 as [s0 p0 hs ws]. cbn [cf_st cf_phase]. intros Hinv Hr Hsys Hheap -> Hsd Ha.
  set (s1 := set_mgr (set_requested true) s0).
  assert (Ec : c = mkConfig s1 PLoop hs (<[i := tm_generation_seq (mg s0)]> ws)).
  { unfold act in Ha. destruct (idle _ _); [|done]. by injection Ha as <-. }
  pose proof (commit_cycle_safe s1 (mgr_inv_requested s0 Hinv) (ready_requested s0 Hr)) as Hsafe.
  specialize (Hsafe ltac:(unfold live_io; cbn [s1 td set_mgr]; rewrite Hsys; constructor) Hheap).
  unfold crash_safe in Hsafe. destruct (commit_cycle s1) as [r s'] eqn:Ecy.
  destruct Hsafe as (_ & _ & Hsys' & [([] & -> & Hd)|[[l Hdead] _]]); [|rewrite (Hsys' Hsys) in Hdead; done].
  assert (Hfreeze : thread_step PLoop s1 = (Ok PFreezing, set_mgr (set_freezing true) s1)).
  { unfold thread_step, mbind, M_bind, gets, modify. change (tm_shutdown (mg s1)) with (tm_shutdown (mg s0)).
    rewrite Hsd. change (tm_commit_requested (mg s1)) with true. by rewrite andb_false_r. }
  set (ws' := <[i := tm_generation_seq (mg s0)]> ws) in *.
  destruct (solo_run hs ws' _ _ (solo_cycle s1 s' Ecy)) as [n Hn]. cbn [fst snd] in Hn.
  exists (S n), (mkConfig s' PLoop hs ws'), (mkConfig s' PLoop hs (delete i ws')).
  split; [rewrite Ec; cbn [replicate run_actions]; unfold act at 1; by rewrite Hfreeze|].
  split.
  { unfold act, ws'. rewrite lookup_insert_eq. unfold commit_sync_done.
    rewrite (tn_completed _ _ Hd). change (tm_generation_seq (mg s1)) with (tm_generation_seq (mg s0)).
    by rewrite Z.ltb_irrefl. }
  split; [apply lookup_delete_eq|]. split; [done|].
  intros b Hb. by destruct (tn_view _ _ Hd b Hb).
Qed.

Lemma freeze_frozen s : tm_freezing (mg s) = true -> set_mgr (set_freezing true) s = s.
Proof. destruct s as [[] d]. cbn. by intros ->. Qed.

(** The swap of a manager with no open handle. *)
Lemma swap_phase s p1 s1 :
  tm_running_handles (mg s) = 0 -> steady s -> thread_step PFreezing s = (Ok p1, s1) ->
  is_freezing p1 = false /\ steady s1.
Proof.
  intros Hh (H1 & H2 & H3) E. split.
  - unfold thread_step in E. unfold mbind at 1, M_bind at 1, gets in E. rewrite Hh in E.
    apply bind_ok_inv in E as (r & s2 & _ & [= <- _]). done.
  - pose proof (later_thread PFreezing s) as Hl. rewrite E in Hl. destruct Hl as [Hl1 Hl2].
    cbn [snd] in *. rewrite H1 in Hl1. rewrite H2 in Hl2.
    split; [by apply suffix_nil_inv|]. split; [by apply suffix_nil_inv|].
    pose proof (mode_freezing s) as Hm. rewrite E in Hm. by etrans.
Qed.

(** C6: in journal mode, while no call fails and with a generation that fits
    the log, a turn commits the generation that was staged at the swap, whole
    and nothing else, whatever other threads open, stage, read, stop or
    request until it is over: the committed contents are the view at the swap,
    the blocks staged then survive every later power failure, and whoever
    waits for that generation may go on. *)
Theorem interleaved_turn c0 c1 c :
  mgr_inv (cf_st c0) -> ready (cf_st c0) -> steady (cf_st c0) ->
  cf_phase c0 = PFreezing -> tm_freezing (mg (cf_st c0)) = true ->
  act AThread c0 = Some (Next c1) -> mid_turn c1 c -> cf_phase c = PLoop ->
  let s0 := cf_st c0 in let s := cf_st c in
  (forall b, ~ journal_block (tm_journal (mg s0)) b -> committed s b = view s0 b) /\
  (forall b x img, find_dirty (mg s0) b = Some x -> crash_image (b_disk (td s)) img ->
     recovered (tm_journal (mg s0)) img b = x) /\
  tm_completed_through (mg s) = tm_generation_seq (mg s0).
Proof.
  destruct c0 as [s0 p0 hs ws]. cbn [cf_st cf_phase]. intros Hinv Hr Hst -> Hfz Ha Hmid Hp. cbv zeta.
  unfold act in Ha. destruct (thread_step PFreezing s0) as [[p1|rc] s1] eqn:E; [injection Ha as <-|done].
  destruct (swap_phase s0 p1 s1 (rd_handles _ Hr) Hst E) as [Hp1 Hst1].
  pose proof Hst as (Hsys & Hheap & _).
  assert (Hl : live_io (td s0)) by (unfold live_io; rewrite Hsys; constructor).
  pose proof (commit_cycle_safe s0 Hinv Hr Hl Hheap) as Hsafe. unfold crash_safe in Hsafe.
  destruct (commit_cycle s0) as [r s'] eqn:Ec.
  destruct Hsafe as (_ & _ & Hsys' & [([] & -> & Hd)|[[l Hdead] _]]);
    [|rewrite (Hsys' Hsys) in Hdead; done].
  pose proof (solo_cycle s0 s' Ec) as Hsolo. rewrite freeze_frozen in Hsolo by done.
  destruct (mid_turn_solo (mkConfig s1 p1 hs ws) c Hst1 Hp1 Hmid) as (s2 & Hr2 & [Hc Htd] & _). cbn [cf_st cf_phase] in Hr2.
  rewrite Hp in Hr2. assert (Hr3 : rtc solo (PFreezing, s0) (PLoop, s2)) by (by eapply solo_step).
  pose proof (solo_end _ _ _ Hr3 Hsolo) as ->. split; [|split].
  - intros b Hb. rewrite <-(proj2 (tn_view _ _ Hd b Hb)). unfold committed.
    by rewrite Htd, (cr_ckpt _ _ Hc).
  - intros b x img. rewrite Htd. by apply turn_done_durable.
  - rewrite (cr_completed _ _ Hc). apply Hd.
Qed.

(** ** Schedules *)

(** A client's whole update of block [b]: open a handle, get the buffer, store,
    stop. *)
Definition update (i : nat) (b : Z) (c : block) : list action :=
  [AStart i; ACall i (OAccess b); ACall i (OStore b c); AStop i].

Definition demo_config : config := created (demo_mgr LOGFS_MODE_JOURNAL).

Definition ends (o : option step_result) : config :=
  match o with Some (Next c) => c | _ => demo_config end.

Lemma run_reachable l c0 c : run_actions l c0 = Some (Next c) -> forall c1, reachable c1 c0 -> reachable c1 c.
Proof.
  revert c0. induction l as [|a l IH]; intros c0 H c1 Hr; cbn [run_actions] in H.
  { by injection H as <-. }
  destruct (act a c0) as [[c'|rc]|] eqn:E; [|done..]. apply (IH c' H). by eapply reachable_step.
Qed.

(** A handle is open and holds a buffer while the thread waits to swap. *)
Definition waiting : list action :=
  [AStart 1; ACall 1 (OAccess 30); AStart 2; AThread; AThread; ACall 2 (OAccess 31)].

Lemma handles_keep_buffers_witness :
  let c := ends (run_actions waiting demo_config) in
  cf_phase c = PFreezing /\ size (cf_open c) = 2%nat /\
  tm_running_handles (mg (cf_st c)) = Z.of_nat (size (cf_open c)).
Proof.
  intros c. split; [vm_compute; reflexivity|]. split; [vm_compute; reflexivity|].
  apply (handles_keep_buffers demo_journal LOGFS_MODE_JOURNAL (demo_dev []) c).
  apply (run_reachable waiting demo_config c); [vm_compute; reflexivity|apply reachable_start].
Defined.

(** A handle opened while a commit is in flight, used after it. *)
Definition late_handle : list action :=
  update 0 30 (fill Byte.x11) ++ [AThread; AThread; AStart 1; AThread; AThread; AThread; AThread].

Lemma assertion_only_late_witness :
  let c := ends (run_actions late_handle demo_config) in
  act (ACall 1 (OAccess 31)) c = Some (Aborted ASSERT_FAILED) /\
  exists h, cf_open c !! 1%nat = Some h /\ h_late h = true /\
    h_txn_id h <> tm_generation_seq (mg (cf_st c)).
Proof.
  intros c. assert (Ha : act (ACall 1 (OAccess 31)) c = Some (Aborted ASSERT_FAILED))
    by (vm_compute; reflexivity).
  split; [exact Ha|].
  apply (assertion_only_late demo_journal LOGFS_MODE_JOURNAL (demo_dev []) c 1 (OAccess 31) ASSERT_FAILED).
  - apply (run_reachable late_handle demo_config c); [vm_compute; reflexivity|apply reachable_start].
  - exact Ha.
Defined.

(** One client has updated block 30, another asks for its commit. *)
Definition updated : config := ends (run_actions (update 0 30 (fill Byte.x11)) demo_config).

Lemma sync_released_witness :
  let c := ends (run_actions [ASync 1] updated) in
  act (ASynced 1) c = None /\
  exists n c1 c2, run_actions (replicate n AThread) c = Some (Next c1) /\
    act (ASynced 1) c1 = Some (Next c2) /\ committed (cf_st c1) 30 = view (cf_st updated) 30.
Proof.
  intros c. split; [vm_compute; reflexivity|].
  assert (E : cf_st updated = demo_staged) by (vm_compute; reflexivity).
  destruct (sync_released updated c 1) as (n & c1 & c2 & H1 & H2 & _ & _ & H3).
  - rewrite E. apply mgr_inv_demo_staged.
  - rewrite E. apply mgr_inv_demo_staged.
  - vm_compute. reflexivity.
  - vm_compute. reflexivity.
  - vm_compute. reflexivity.
  - vm_compute. reflexivity.
  - vm_compute. reflexivity.
  - exists n, c1, c2. split; [exact H1|]. split; [exact H2|]. apply H3.
    assert (Ej : tm_journal (mg (cf_st updated)) = demo_journal) by (vm_compute; reflexivity).
    rewrite Ej. unfold journal_block, in_log, LOGFS_JSUPER_BLOCKNO. vm_compute. intuition congruence.
Defined.

(** A schedule inside one turn. *)
Fixpoint run_mid (l : list action) (c : config) : option config :=
  match l with
  | [] => Some c
  | a :: l =>
      match a, cf_phase c with
      | AThread, PLoop => None
      | _, _ => match act a c with Some (Next c') => run_mid l c' | _ => None end
      end
  end.

Lemma run_mid_turn l c0 c1 c : mid_turn c0 c1 -> run_mid l c1 = Some c -> mid_turn c0 c.
Proof.
  revert c1. induction l as [|a l IH]; intros c1 Hm H; cbn [run_mid] in H; [by injection H as <-|].
  assert (Hstep : exists c2, act a c1 = Some (Next c2) /\ run_mid l c2 = Some c /\
    (a = AThread -> cf_phase c1 <> PLoop)).
  { destruct a, (cf_phase c1) eqn:Ep; try done;
      (destruct (act _ c1) as [[c2|]|] eqn:Ea; [by exists c2|done..]). }
  destruct Hstep as (c2 & Ha & Hr & Hp). apply (IH c2); [|done].
  destruct a; [eapply mid_thread; [done|by apply Hp|done]|eapply mid_other; [exact Hm| |exact Ha]; done..].
Qed.

Definition waiting_to_swap : config := ends (run_actions (update 0 30 (fill Byte.x11) ++ [AThread]) demo_config).

Lemma waiting_inv : mgr_inv (cf_st waiting_to_swap) /\ ready (cf_st waiting_to_swap).
Proof.
  assert (E : cf_st waiting_to_swap = set_mgr (set_freezing true) demo_staged) by (vm_compute; reflexivity).
  rewrite E. destruct mgr_inv_demo_staged as [[[? ? ?] H2 H3 H4 H5] Hr].
  split; [split; [by split|exact H2|exact H3|exact H4|exact H5]|].
  destruct Hr as [? ? ? ? ?]. by split.
Qed.

(** Another client updates block 31 between the swap and the end of the turn. *)
Definition meanwhile : list action := update 1 31 (fill Byte.x22) ++ [AThread; AThread; AThread; AThread; AThread].

Lemma interleaved_turn_witness :
  let c1 := ends (run_actions [AThread] waiting_to_swap) in
  let c := default demo_config (run_mid meanwhile c1) in
  hd Byte.x00 (view (cf_st c) 31) = Byte.x22 /\
  tm_completed_through (mg (cf_st c)) = tm_generation_seq (mg (cf_st waiting_to_swap)) /\
  forall b, ~ journal_block demo_journal b -> committed (cf_st c) b = view (cf_st waiting_to_swap) b.
Proof.
  intros c1 c. split; [vm_compute; reflexivity|].
  destruct (interleaved_turn waiting_to_swap c1 c) as (H1 & _ & H3).
  - apply waiting_inv.
  - apply waiting_inv.
  - split; [vm_compute; reflexivity|split; vm_compute; reflexivity].
  - vm_compute. reflexivity.
  - vm_compute. reflexivity.
  - vm_compute. reflexivity.
  - apply (run_mid_turn meanwhile c1 c1 c (mid_start c1)). vm_compute. reflexivity.
  - vm_compute. reflexivity.
  - split; [exact H3|]. intros b Hb. apply H1.
    assert (Ej : tm_journal (mg (cf_st waiting_to_swap)) = demo_journal) by (vm_compute; reflexivity).
    rewrite Ej. exact Hb.
Defined.

(** A client updates a block while a commit is in flight and calls
    [logfs_txn_commit_sync]: the generation number it waits for is the one
    being committed, so it returns when that commit ends, with its own update
    in memory only.  [txn.h]: it blocks until the running transaction is
    durable. *)
Definition sync_in_window : list action :=
  update 0 30 (fill Byte.x11) ++ [AThread; AThread] ++ update 1 31 (fill Byte.x22) ++
  [ASync 2; AThread; AThread; AThread; AThread; ASynced 2].

Theorem sync_in_window_too_early :
  let c := ends (run_actions sync_in_window demo_config) in
  run_actions sync_in_window demo_config = Some (Next c) /\ cf_syncing c = ∅ /\
  hd Byte.x00 (view (cf_st c) 31) = Byte.x22 /\ committed (cf_st c) 31 = zero_block /\
  content (b_disk (td (cf_st c))) 31 = zero_block.
Proof. vm_compute. repeat (apply conj; [reflexivity|]). reflexivity. Qed.
