(* ===== verification/FsFormat.v ===== *)
(** [src/disk_format.h]: the structs of the file system proper - the
    superblock, the inode and the directory entry - and their places inside
    blocks.  An array of structs that tiles a block is addressed by [slot]
    and updated by [put_slot]; a pointer to element [i] is the slot [i]. *)

From S2P Require Import Prelude.
From S2P Require Import Bytes.
From S2P Require Import DiskFormat.
From S2P Require Import Blockdev.

#[global] Instance byte_countable : Countable byte :=
  inj_countable Byte.to_N Byte.of_N Byte.of_to_N.

(** ** Arrays of structs in a block *)

(** The bytes of element [i] of an array of structs of [sz] bytes. *)
Definition slot (sz i : nat) (b : block) : list byte := take sz (drop (sz * i) b).

(** [memcpy(b + sz * i, l, sz)] *)
Definition put_slot (sz i : nat) (l : list byte) (b : block) : block := splice b (sz * i) l.

Lemma length_splice b off l :
  (off + length l <= length b)%nat -> length (splice b off l) = length b.
Proof. intros H. unfold splice. autorewrite with layout. lia. Qed.

Lemma length_put_slot sz i l b :
  length l = sz -> (sz * i + sz <= length b)%nat -> length (put_slot sz i l b) = length b.
Proof. intros Hl Hb. apply length_splice. lia. Qed.

Lemma length_slot sz i b : (sz * i + sz <= length b)%nat -> length (slot sz i b) = sz.
Proof. intros H. unfold slot. autorewrite with layout. lia. Qed.

Lemma slot_put_same sz i l b :
  length l = sz -> (sz * i + sz <= length b)%nat -> slot sz i (put_slot sz i l b) = l.
Proof.
  intros Hl Hb. unfold slot, put_slot, splice.
  rewrite drop_app_length' by (rewrite length_take; lia).
  by rewrite take_app_length'.
Qed.

Lemma slot_put_other sz i j l b :
  i <> j -> length l = sz -> (sz * i + sz <= length b)%nat ->
  slot sz j (put_slot sz i l b) = slot sz j b.
Proof.
  intros Hij Hl Hb. unfold slot, put_slot, splice. apply list_eq. intros k.
  rewrite !lookup_take. destruct (decide (k < sz)%nat) as [Hk|Hk]; [|done].
  rewrite !lookup_drop.
  destruct (decide (j < i)%nat) as [Hlt|Hge].
  - rewrite lookup_app_l by (rewrite length_take; nia). rewrite lookup_take_lt by nia. done.
  - rewrite lookup_app_r by (rewrite length_take; nia).
    rewrite lookup_app_r by (rewrite length_take; nia). rewrite lookup_drop.
    rewrite length_take. f_equal. nia.
Qed.

(** ** The superblock *)

Record logfs_super := mkSuper {
  sb_magic : Z;
  sb_version : Z;
  sb_block_size : Z;
  sb_data_mode : Z;
  sb_total_blocks : Z;
  sb_journal_start : Z;
  sb_journal_len : Z;
  sb_inode_bitmap_start : Z;
  sb_block_bitmap_start : Z;
  sb_inode_table_start : Z;
  sb_inode_table_len : Z;
  sb_data_start : Z;
  sb_total_inodes : Z;
  sb_root_ino : Z;
  sb_last_orphan : Z;
  sb_checksum : Z;
  sb_reserved : Z;
}.

(** [sizeof(struct logfs_super)] bytes. *)
Definition encode_super (sb : logfs_super) : list byte :=
  put32 (sb_magic sb) ++ put32 (sb_version sb) ++ put32 (sb_block_size sb)
  ++ put32 (sb_data_mode sb) ++ put64 (sb_total_blocks sb) ++ put64 (sb_journal_start sb)
  ++ put64 (sb_journal_len sb) ++ put64 (sb_inode_bitmap_start sb)
  ++ put64 (sb_block_bitmap_start sb) ++ put64 (sb_inode_table_start sb)
  ++ put64 (sb_inode_table_len sb) ++ put64 (sb_data_start sb) ++ put64 (sb_total_inodes sb)
  ++ put32 (sb_root_ino sb) ++ put32 (sb_last_orphan sb) ++ put32 (sb_checksum sb)
  ++ put32 (sb_reserved sb).

Definition decode_super (b : list byte) : logfs_super :=
  mkSuper (get32 0 b) (get32 4 b) (get32 8 b) (get32 12 b) (get64 16 b) (get64 24 b)
    (get64 32 b) (get64 40 b) (get64 48 b) (get64 56 b) (get64 64 b) (get64 72 b) (get64 80 b)
    (get32 88 b) (get32 92 b) (get32 96 b) (get32 100 b).

Definition sizeof_super : nat := 104.

Lemma length_encode_super sb : length (encode_super sb) = sizeof_super.
Proof. unfold encode_super, sizeof_super. autorewrite with layout. reflexivity. Qed.

(** ** Inodes *)

Definition LOGFS_NDIR_BLOCKS : Z := 12.

Record logfs_inode := mkInode {
  i_mode : Z;
  i_nlink : Z;
  i_uid : Z;
  i_gid : Z;
  i_size : Z;
  i_atime : Z;
  i_mtime : Z;
  i_ctime : Z;
  i_blocks : list Z;
}.

Definition sizeof_inode : nat := 144.

Definition encode_inode (i : logfs_inode) : list byte :=
  put32 (i_mode i) ++ put32 (i_nlink i) ++ put32 (i_uid i) ++ put32 (i_gid i)
  ++ put64 (i_size i) ++ put64 (i_atime i) ++ put64 (i_mtime i) ++ put64 (i_ctime i)
  ++ words (i_blocks i).

Definition decode_inode (l : list byte) : logfs_inode :=
  mkInode (get32 0 l) (get32 4 l) (get32 8 l) (get32 12 l) (get64 16 l) (get64 24 l)
    (get64 32 l) (get64 40 l) (get_words (Z.to_nat LOGFS_NDIR_BLOCKS) 48 l).

(** A value of the C type: every field in its range, twelve block numbers. *)
Record wf_inode (i : logfs_inode) : Prop := {
  wi_32 : Forall (fun x => 0 <= x < 2 ^ 32) [i_mode i; i_nlink i; i_uid i; i_gid i];
  wi_64 : Forall (fun x => 0 <= x < 2 ^ 64) [i_size i; i_atime i; i_mtime i; i_ctime i];
  wi_blocks : Forall (fun x => 0 <= x < 2 ^ 64) (i_blocks i);
  wi_nblocks : length (i_blocks i) = Z.to_nat LOGFS_NDIR_BLOCKS;
}.

Lemma length_encode_inode i : wf_inode i -> length (encode_inode i) = sizeof_inode.
Proof.
  intros [_ _ _ Hn]. unfold encode_inode, sizeof_inode. autorewrite with layout.
  rewrite Hn. reflexivity.
Qed.

Lemma decode_encode_inode i : wf_inode i -> decode_inode (encode_inode i) = i.
Proof.
  intros [H32 H64 Hb Hn]. rewrite !Forall_cons in H32, H64.
  assert (Hblocks : get_words (Z.to_nat LOGFS_NDIR_BLOCKS) 48 (encode_inode i) = i_blocks i).
  { pose proof (get_words_words
      (put32 (i_mode i) ++ put32 (i_nlink i) ++ put32 (i_uid i) ++ put32 (i_gid i)
       ++ put64 (i_size i) ++ put64 (i_atime i) ++ put64 (i_mtime i) ++ put64 (i_ctime i))
      (i_blocks i) [] Hb) as H.
    rewrite app_nil_r, Hn, <-!app_assoc in H.
    replace 48%nat with (length (put32 (i_mode i) ++ put32 (i_nlink i) ++ put32 (i_uid i)
      ++ put32 (i_gid i) ++ put64 (i_size i) ++ put64 (i_atime i) ++ put64 (i_mtime i)
      ++ put64 (i_ctime i))) by (autorewrite with layout; reflexivity).
    exact H. }
  destruct i as [mo nl ui gi sz at_ mt ct bl]. unfold decode_inode. rewrite Hblocks.
  unfold encode_inode. cbn [i_mode i_nlink i_uid i_gid i_size i_atime i_mtime i_ctime i_blocks] in *.
  f_equal; field; rewrite ?le_num_put32, ?le_num_put64;
    first [apply u32_small; tauto | apply u64_small; tauto].
Qed.

Lemma wf_decode_inode l : wf_inode (decode_inode l).
Proof.
  unfold decode_inode. split; cbn [i_mode i_nlink i_uid i_gid i_size i_atime i_mtime i_ctime i_blocks].
  - repeat constructor; apply (get_range 4).
  - repeat constructor; apply (get_range 8).
  - unfold get_words. apply Forall_map. apply Forall_true. intros k. apply (get_range 8).
  - unfold get_words. by rewrite length_map, length_seq.
Qed.

(** ** Directory entries *)

Definition LOGFS_NAME_MAX : Z := 55.
Definition LOGFS_FT_REG : Z := 1.
Definition LOGFS_FT_DIR : Z := 2.

Record logfs_dirent := mkDirent {
  de_ino : Z;
  de_name_len : Z;
  de_file_type : Z;
  de_pad : Z;
  de_name : list byte;   (* LOGFS_NAME_MAX + 1 bytes *)
}.

Definition sizeof_dirent : nat := 64.

Definition LOGFS_DIRENTS_PER_BLOCK : Z := LOGFS_BLOCK_SIZE / Z.of_nat sizeof_dirent.

Definition encode_dirent (d : logfs_dirent) : list byte :=
  put32 (de_ino d) ++ put8 (de_name_len d) ++ put8 (de_file_type d) ++ put16 (de_pad d)
  ++ de_name d.

Definition decode_dirent (l : list byte) : logfs_dirent :=
  mkDirent (get32 0 l) (get8 4 l) (get8 5 l) (get 2 6 l)
    (take (Z.to_nat LOGFS_NAME_MAX + 1) (drop 8 l)).

Record wf_dirent (d : logfs_dirent) : Prop := {
  wd_ino : 0 <= de_ino d < 2 ^ 32;
  wd_len : 0 <= de_name_len d < 2 ^ 8;
  wd_type : 0 <= de_file_type d < 2 ^ 8;
  wd_pad : 0 <= de_pad d < 2 ^ 16;
  wd_name : length (de_name d) = 56%nat;
}.

Lemma length_encode_dirent d : wf_dirent d -> length (encode_dirent d) = sizeof_dirent.
Proof.
  intros [_ _ _ _ Hn]. unfold encode_dirent, sizeof_dirent. autorewrite with layout. lia.
Qed.

Lemma decode_encode_dirent d : wf_dirent d -> decode_dirent (encode_dirent d) = d.
Proof.
  intros [H1 H2 H3 H4 Hn]. destruct d as [ino nl ty pd nm].
  cbn [de_ino de_name_len de_file_type de_pad de_name] in *.
  unfold decode_dirent, encode_dirent. cbn [de_ino de_name_len de_file_type de_pad de_name].
  f_equal.
  1-4: field; unfold put8, put16, put32; rewrite le_num_bytes; by apply Z.mod_small.
  change (Z.to_nat LOGFS_NAME_MAX + 1)%nat with 56%nat.
  rewrite !app_assoc, drop_app_length'
    by (autorewrite with layout; reflexivity). rewrite <-Hn. apply firstn_all.
Qed.

Lemma take_drop_app {A} (l : list A) k n m :
  m = (k + n)%nat -> take n (drop k l) ++ drop m l = drop k l.
Proof. intros ->. by rewrite <-drop_drop, take_drop. Qed.

(** The struct is its 64 bytes: no information is lost by decoding. *)
Lemma encode_decode_dirent l : length l = sizeof_dirent -> encode_dirent (decode_dirent l) = l.
Proof.
  unfold sizeof_dirent. intros Hl. unfold encode_dirent, decode_dirent, put8, put16, put32, get8, get32, get.
  cbn [de_ino de_name_len de_file_type de_pad de_name].
  assert (E : forall n k, (k + n <= 64)%nat -> le_bytes n (le_num (take n (drop k l))) = take n (drop k l)).
  { intros n k Hk. rewrite <-(le_bytes_num (take n (drop k l))) at 2.
    rewrite length_take, length_drop, Hl. f_equal. lia. }
  rewrite !E by lia. change (Z.to_nat LOGFS_NAME_MAX + 1)%nat with 56%nat.
  rewrite (take_ge (drop 8 l)) by (rewrite length_drop; lia).
  rewrite !take_drop_app by reflexivity. apply drop_0.
Qed.
