(* ===== verification/Inode.v ===== *)
(** [src/inode.c]: the inode table, the allocation bitmaps, flat directories
    and path lookup, over the calls of [TxnApi].  Definitions only.

    [logfs_fs_t] is, for this file, its superblock [fs] and its transaction
    manager, which is the state.  A handle is its [txn_id].  A C string is
    the list of its bytes before the NUL.  A pointer into a block obtained
    for reading is the slot's index; what is written through the pointer of
    [txn_get_write_access] is one [txn_store] of the block with the slot
    replaced. *)

From S2P Require Import Prelude.
From S2P Require Import Bytes.
From S2P Require Import DiskFormat.
From S2P Require Import Blockdev.
From S2P Require Import TxnApi.
From S2P Require Import FsFormat.

(** [<sys/stat.h>] *)
Definition S_IFMT : Z := 0xF000.
Definition S_IFDIR : Z := 0x4000.
Definition S_IFREG : Z := 0x8000.

Definition S_ISDIR (mode : Z) : bool := Z.land mode S_IFMT =? S_IFDIR.

(** ** Bitmaps *)

Definition bitmap_byte (bitmap : block) (i : Z) : Z :=
  Z_of_byte (nth (Z.to_nat (i / 8)) bitmap Byte.x00).

(** [(bitmap[i / 8] & (1u << (i % 8))) != 0] *)
Definition test_bit (bitmap : block) (i : Z) : bool :=
  negb (Z.land (bitmap_byte bitmap i) (Z.shiftl 1 (i mod 8)) =? 0).

(** [bitmap[i / 8] |= (uint8_t)(1u << (i % 8))] *)
Definition set_bit (bitmap : block) (i : Z) : block :=
  <[Z.to_nat (i / 8) := byte_of_Z (Z.lor (bitmap_byte bitmap i) (u8 (Z.shiftl 1 (i mod 8))))]> bitmap.

(** [bitmap[i / 8] &= (uint8_t)~(1u << (i % 8))] *)
Definition clear_bit (bitmap : block) (i : Z) : block :=
  <[Z.to_nat (i / 8) := byte_of_Z (Z.land (bitmap_byte bitmap i)
                                     (u8 (Z.lnot (Z.shiftl 1 (i mod 8)))))]> bitmap.

(** The search loops: the first clear bit of the [n] from [i] on. *)
Fixpoint find_clear (bitmap : block) (i : Z) (n : nat) : option Z :=
  match n with
  | O => None
  | S n => if negb (test_bit bitmap i) then Some i else find_clear bitmap (i + 1) n
  end.

(** ** Directory entries *)

Definition dirent_at (buf : block) (e : nat) : logfs_dirent :=
  decode_dirent (slot sizeof_dirent e buf).

(** [ents[e] = d] *)
Definition put_dirent (e : nat) (d : logfs_dirent) (buf : block) : block :=
  put_slot sizeof_dirent e (encode_dirent d) buf.

(** The bytes [memset] and [memcpy] leave in [name]. *)
Definition name_field (name : list byte) : list byte :=
  name ++ replicate (56 - length name) Byte.x00.

(** The entry is live and carries the name; [memcmp] reads the buffer. *)
Definition entry_is (name : list byte) (buf : block) (e : nat) : bool :=
  let d := dirent_at buf e in
  negb (de_ino d =? 0) && (de_name_len d =? Z.of_nat (length name))
  && bool_decide (take (length name) (drop (sizeof_dirent * e + 8) buf) = name).

Definition entry_free (buf : block) (e : nat) : bool := de_ino (dirent_at buf e) =? 0.

(** The loops over the slots of a block: the first one with [p]. *)
Fixpoint find_slot (p : nat -> bool) (e n : nat) : option nat :=
  match n with
  | O => None
  | S n => if p e then Some e else find_slot p (S e) n
  end.

Definition slots_per_block : nat := Z.to_nat LOGFS_DIRENTS_PER_BLOCK.

Definition is_dot (buf : block) (e : nat) : bool :=
  let d := dirent_at buf e in
  (de_name_len d =? 1) && bool_decide (nth 0 (de_name d) Byte.x00 = Byte.x2e).

Definition is_dotdot (buf : block) (e : nat) : bool :=
  let d := dirent_at buf e in
  (de_name_len d =? 2) && bool_decide (nth 0 (de_name d) Byte.x00 = Byte.x2e)
  && bool_decide (nth 1 (de_name d) Byte.x00 = Byte.x2e).

Definition set_dir_block (b : nat) (blockno : Z) (dir : logfs_inode) : logfs_inode :=
  mkInode (i_mode dir) (i_nlink dir) (i_uid dir) (i_gid dir)
    (u64 (i_size dir + LOGFS_BLOCK_SIZE)) (i_atime dir) (i_mtime dir) (i_ctime dir)
    (<[b := blockno]> (i_blocks dir)).

Definition set_ino (ino : Z) (d : logfs_dirent) : logfs_dirent :=
  mkDirent ino (de_name_len d) (de_file_type d) (de_pad d) (de_name d).

(** ** Paths *)

Definition slash : byte := Byte.x2f.

Fixpoint skip_slashes (path : list byte) : list byte :=
  match path with
  | c :: rest => if bool_decide (c = slash) then skip_slashes rest else path
  | [] => []
  end.

(** The bytes up to the next slash, and the rest from it on. *)
Fixpoint take_component (path : list byte) : list byte * list byte :=
  match path with
  | c :: rest =>
      if bool_decide (c = slash) then ([], path)
      else let (comp, rest) := take_component rest in (c :: comp, rest)
  | [] => ([], [])
  end.

(** ** The operations *)

Section operations.
Context {S : Type} `{TxnApi S}.
Implicit Types (fs : logfs_super) (h ino : Z).

Definition inodes_per_block : Z := LOGFS_BLOCK_SIZE / Z.of_nat sizeof_inode.

(** The block, and the index in it: [*offset] is [sizeof_inode] times that. *)
Definition inode_location fs ino : Z * nat :=
  let idx := u32 (ino - 1) in
  (u64 (sb_inode_table_start fs + idx / inodes_per_block), Z.to_nat (idx mod inodes_per_block)).

Definition logfs_inode_read fs ino : M S logfs_inode :=
  if (ino =? 0) || (sb_total_inodes fs <? ino) then fail (- EINVAL) else
  let (blk, i) := inode_location fs ino in
  buf ← txn_read_block blk;
  mret (decode_inode (slot sizeof_inode i buf)).

Definition logfs_inode_write h fs ino (inode : logfs_inode) : M S unit :=
  if (ino =? 0) || (sb_total_inodes fs <? ino) then fail (- EINVAL) else
  let (blk, i) := inode_location fs ino in
  buf ← txn_get_write_access h blk;
  txn_store blk (put_slot sizeof_inode i (encode_inode inode) buf) ;;
  txn_dirty_metadata h blk.

Definition logfs_alloc_inode h fs : M S Z :=
  let bm := sb_inode_bitmap_start fs in
  bitmap ← txn_get_write_access h bm;
  match find_clear bitmap 1 (Z.to_nat (sb_total_inodes fs)) with
  | Some i =>
      txn_store bm (set_bit bitmap i) ;;
      txn_dirty_metadata h bm ;;
      mret (u32 i)
  | None => fail (- ENOSPC)
  end.

Definition logfs_free_inode h fs ino : M S unit :=
  if (ino =? 0) || (sb_total_inodes fs <? ino) then fail (- EINVAL) else
  let bm := sb_inode_bitmap_start fs in
  bitmap ← txn_get_write_access h bm;
  txn_store bm (clear_bit bitmap ino) ;;
  txn_dirty_metadata h bm.

Definition logfs_alloc_block h fs : M S Z :=
  let bm := sb_block_bitmap_start fs in
  bitmap ← txn_get_write_access h bm;
  let total_data_blocks := u64 (sb_total_blocks fs - sb_data_start fs) in
  match find_clear bitmap 0 (Z.to_nat total_data_blocks) with
  | Some i =>
      txn_store bm (set_bit bitmap i) ;;
      txn_dirty_metadata h bm ;;
      mret (u64 (sb_data_start fs + i))
  | None => fail (- ENOSPC)
  end.

Definition logfs_free_block h fs (blockno : Z) : M S unit :=
  if (blockno <? sb_data_start fs) || (sb_total_blocks fs <=? blockno) then fail (- EINVAL) else
  let bm := sb_block_bitmap_start fs in
  bitmap ← txn_get_write_access h bm;
  txn_store bm (clear_bit bitmap (blockno - sb_data_start fs)) ;;
  txn_dirty_metadata h bm.

(** The loop of [logfs_dir_lookup] over the direct blocks. *)
Fixpoint dir_lookup_loop (name : list byte) (blocks : list Z) : M S (Z * Z) :=
  match blocks with
  | [] => fail (- ENOENT)
  | b :: blocks =>
      if b =? 0 then fail (- ENOENT) else
      buf ← txn_read_block b;
      match find_slot (entry_is name buf) 0 slots_per_block with
      | Some e => mret (de_ino (dirent_at buf e), de_file_type (dirent_at buf e))
      | None => dir_lookup_loop name blocks
      end
  end.

Definition bad_name (name : list byte) : bool :=
  (Z.of_nat (length name) =? 0) || (LOGFS_NAME_MAX <? Z.of_nat (length name)).

(** The inode number and the type of an entry. *)
Definition logfs_dir_lookup fs (dir_ino : Z) (name : list byte) : M S (Z * Z) :=
  dir ← logfs_inode_read fs dir_ino;
  if negb (S_ISDIR (i_mode dir)) then fail (- ENOTDIR) else
  if bad_name name then fail (- ENAMETOOLONG) else
  dir_lookup_loop name (i_blocks dir).

(** The entry [logfs_dir_add] writes over the old slot. *)
Definition new_dirent (old : logfs_dirent) (name : list byte) (ino type : Z) : logfs_dirent :=
  mkDirent ino (u8 (Z.of_nat (length name))) type (de_pad old) (name_field name).

(** A fresh block: cleared, then its first entry. *)
Definition dir_add_block h fs (dir_ino : Z) (dir : logfs_inode) (name : list byte) ino (type : Z)
    (b : nat) : M S unit :=
  blockno ← logfs_alloc_block h fs;
  buf ← txn_get_write_access h blockno;
  txn_store blockno
    (put_dirent 0 (new_dirent (dirent_at zero_block 0) name ino type) zero_block) ;;
  txn_dirty_metadata h blockno ;;
  logfs_inode_write h fs dir_ino (set_dir_block b blockno dir).

Fixpoint dir_add_loop h fs (dir_ino : Z) (dir : logfs_inode) (name : list byte) ino (type : Z)
    (b n : nat) : M S unit :=
  match n with
  | O => fail (- ENOSPC)
  | Datatypes.S n =>
      let blockno := nth b (i_blocks dir) 0 in
      if blockno =? 0 then dir_add_block h fs dir_ino dir name ino type b else
      rbuf ← txn_read_block blockno;
      match find_slot (entry_free rbuf) 0 slots_per_block with
      | None => dir_add_loop h fs dir_ino dir name ino type (Datatypes.S b) n
      | Some e =>
          wbuf ← txn_get_write_access h blockno;
          txn_store blockno (put_dirent e (new_dirent (dirent_at wbuf e) name ino type) wbuf) ;;
          txn_dirty_metadata h blockno
      end
  end.

Definition logfs_dir_add h fs (dir_ino : Z) (name : list byte) ino (type : Z) : M S unit :=
  dir ← logfs_inode_read fs dir_ino;
  if negb (S_ISDIR (i_mode dir)) then fail (- ENOTDIR) else
  if bad_name name then fail (- ENAMETOOLONG) else
  existing ← attempt (logfs_dir_lookup fs dir_ino name);
  if is_ok existing then fail (- EEXIST) else
  dir_add_loop h fs dir_ino dir name ino type 0 (Z.to_nat LOGFS_NDIR_BLOCKS).

Fixpoint dir_remove_loop h (name : list byte) (blocks : list Z) : M S unit :=
  match blocks with
  | [] => fail (- ENOENT)
  | b :: blocks =>
      if b =? 0 then fail (- ENOENT) else
      rbuf ← txn_read_block b;
      match find_slot (entry_is name rbuf) 0 slots_per_block with
      | Some e =>
          wbuf ← txn_get_write_access h b;
          txn_store b (put_dirent e (set_ino 0 (dirent_at wbuf e)) wbuf) ;;
          txn_dirty_metadata h b
      | None => dir_remove_loop h name blocks
      end
  end.

Definition logfs_dir_remove h fs (dir_ino : Z) (name : list byte) : M S unit :=
  dir ← logfs_inode_read fs dir_ino;
  if negb (S_ISDIR (i_mode dir)) then fail (- ENOTDIR) else
  dir_remove_loop h name (i_blocks dir).

(** 1 when only "." and ".." are live, else 0. *)
Fixpoint dir_empty_loop (blocks : list Z) : M S Z :=
  match blocks with
  | [] => mret 1
  | b :: blocks =>
      if b =? 0 then mret 1 else
      buf ← txn_read_block b;
      match find_slot (fun e => negb (entry_free buf e) && negb (is_dot buf e)
                                && negb (is_dotdot buf e)) 0 slots_per_block with
      | Some _ => mret 0
      | None => dir_empty_loop blocks
      end
  end.

Definition logfs_dir_is_empty fs (dir_ino : Z) : M S Z :=
  dir ← logfs_inode_read fs dir_ino;
  if negb (S_ISDIR (i_mode dir)) then fail (- ENOTDIR) else
  dir_empty_loop (i_blocks dir).

(** Never a return code of the source: the walk ran out of fuel. *)
Definition PATH_OUT_OF_FUEL : Z := 6.

(** The loop of [logfs_path_lookup]; [path] is what is left of it. *)
Fixpoint path_walk (fuel : nat) fs (cur : Z) (path : list byte) : M S Z :=
  match fuel with
  | O => fail PATH_OUT_OF_FUEL
  | Datatypes.S fuel =>
      match skip_slashes path with
      | [] => mret cur
      | path =>
          let (comp, rest) := take_component path in
          if LOGFS_NAME_MAX <? Z.of_nat (length comp) then fail (- ENAMETOOLONG) else
          next ← logfs_dir_lookup fs cur comp;
          path_walk fuel fs next.1 rest
      end
  end.

Definition logfs_path_lookup fs (path : list byte) : M S Z :=
  match path with
  | c :: rest =>
      if bool_decide (c = slash)
      then path_walk (Datatypes.S (length path)) fs (sb_root_ino fs) rest
      else fail (- EINVAL)
  | [] => fail (- EINVAL)
  end.
End operations.
