(* ===== verification/InodeBits.v ===== *)
(** The allocation bitmaps as sets: reading, setting and clearing one bit,
    and the search for the first clear one. *)

From S2P Require Import Prelude.
From S2P Require Import Bytes.
From S2P Require Import DiskFormat.
From S2P Require Import FsFormat.
From S2P Require Import Inode.

(** One bitmap block. *)
Definition bitmap_bits : Z := LOGFS_BLOCK_SIZE * 8.

Lemma land_bit x k : 0 <= k -> negb (Z.land x (Z.shiftl 1 k) =? 0) = Z.testbit x k.
Proof.
  intros Hk. assert (E : Z.land x (Z.shiftl 1 k) = if Z.testbit x k then 2 ^ k else 0).
  { apply Z.bits_inj'. intros n Hn. rewrite Z.land_spec, Z.shiftl_1_l, Z.pow2_bits_eqb by lia.
    destruct (Z.eqb_spec k n) as [<-|Hkn].
    - rewrite andb_true_r. destruct (Z.testbit x k) eqn:E;
        [by rewrite Z.pow2_bits_true|by rewrite Z.bits_0].
    - rewrite andb_false_r. destruct (Z.testbit x k); [by rewrite Z.pow2_bits_false|by rewrite Z.bits_0]. }
  rewrite E. destruct (Z.testbit x k); [|done]. destruct (Z.eqb_spec (2 ^ k) 0); [lia|done].
Qed.

Lemma test_bit_spec bm i : test_bit bm i = Z.testbit (bitmap_byte bm i) (i mod 8).
Proof. apply land_bit. apply Z.mod_pos_bound. lia. Qed.

Lemma byte_eq_nat i j : 0 <= i -> 0 <= j -> Z.to_nat (i / 8) = Z.to_nat (j / 8) <-> i / 8 = j / 8.
Proof. intros. rewrite Z2Nat.inj_iff by (apply Z.div_pos; lia). done. Qed.

Lemma byte_in_range (bm : block) i :
  length bm = block_len -> 0 <= i < bitmap_bits -> (Z.to_nat (i / 8) < length bm)%nat.
Proof. unfold bitmap_bits, LOGFS_BLOCK_SIZE. intros -> Hi. pose proof block_len_Z. 
  assert (i / 8 < 4096) by (apply Z.div_lt_upper_bound; lia). lia.
Qed.

Lemma nth_insert {A} (l : list A) i j x d :
  (i < length l)%nat -> nth j (<[i := x]> l) d = if decide (i = j) then x else nth j l d.
Proof.
  intros Hi. rewrite !nth_lookup. destruct (decide (i = j)) as [<-|Hij].
  - by rewrite list_lookup_insert_eq.
  - by rewrite list_lookup_insert_ne.
Qed.

(** The byte of bit [j] after the byte of bit [i] has become [x]. *)
Lemma bitmap_byte_insert (bm : block) i j x :
  length bm = block_len -> 0 <= i < bitmap_bits -> 0 <= j ->
  bitmap_byte (<[Z.to_nat (i / 8) := byte_of_Z x]> bm) j
  = if decide (i / 8 = j / 8) then x mod 256 else bitmap_byte bm j.
Proof.
  intros Hl Hi Hj. unfold bitmap_byte. rewrite nth_insert by by apply byte_in_range.
  destruct (decide (i / 8 = j / 8)) as [E|E].
  - rewrite decide_True by (by rewrite E). apply Z_of_byte_of_Z.
  - rewrite decide_False; [done|]. intros E'. apply E. by apply byte_eq_nat in E'; [|lia..].
Qed.

Lemma mod_256_bits x k : 0 <= k < 8 -> Z.testbit (x mod 256) k = Z.testbit x k.
Proof. intros Hk. change 256 with (2 ^ 8). by rewrite Z.mod_pow2_bits_low by lia. Qed.

Lemma same_bit i j : i / 8 = j / 8 -> i mod 8 = j mod 8 -> i = j.
Proof. intros H1 H2. rewrite (Z.div_mod i 8), (Z.div_mod j 8) by lia. lia. Qed.

Ltac bit_index i := pose proof (Z.mod_pos_bound i 8 ltac:(lia)).

Lemma test_set_bit bm i j :
  length bm = block_len -> 0 <= i < bitmap_bits -> 0 <= j ->
  test_bit (set_bit bm i) j = if decide (i = j) then true else test_bit bm j.
Proof.
  intros Hl Hi Hj. rewrite !test_bit_spec. unfold set_bit, u8. rewrite bitmap_byte_insert by done.
  bit_index i. bit_index j. destruct (decide (i / 8 = j / 8)) as [E|E].
  - rewrite mod_256_bits, Z.lor_spec, Z.shiftl_1_l by lia. change (2 ^ 8) with 256.
    rewrite mod_256_bits, Z.pow2_bits_eqb by lia.
    assert (Eb : bitmap_byte bm i = bitmap_byte bm j) by (unfold bitmap_byte; by rewrite E).
    rewrite Eb. destruct (decide (i = j)) as [<-|Hij]; [by rewrite Z.eqb_refl, orb_true_r|].
    rewrite (proj2 (Z.eqb_neq _ _)), orb_false_r; [done|]. intros Hm. apply Hij. by apply same_bit.
  - rewrite decide_False by congruence. done.
Qed.

Lemma test_clear_bit bm i j :
  length bm = block_len -> 0 <= i < bitmap_bits -> 0 <= j ->
  test_bit (clear_bit bm i) j = if decide (i = j) then false else test_bit bm j.
Proof.
  intros Hl Hi Hj. rewrite !test_bit_spec. unfold clear_bit, u8. rewrite bitmap_byte_insert by done.
  bit_index i. bit_index j. destruct (decide (i / 8 = j / 8)) as [E|E].
  - rewrite mod_256_bits, Z.land_spec by lia. change (2 ^ 8) with 256.
    rewrite mod_256_bits, Z.lnot_spec, Z.shiftl_1_l, Z.pow2_bits_eqb by lia.
    assert (Eb : bitmap_byte bm i = bitmap_byte bm j) by (unfold bitmap_byte; by rewrite E).
    rewrite Eb. destruct (decide (i = j)) as [<-|Hij]; [by rewrite Z.eqb_refl, andb_false_r|].
    rewrite (proj2 (Z.eqb_neq _ _)), andb_true_r; [done|]. intros Hm. apply Hij. by apply same_bit.
  - rewrite decide_False by congruence. done.
Qed.

Lemma length_set_bit bm i : length (set_bit bm i) = length bm.
Proof. apply length_insert. Qed.

Lemma length_clear_bit bm i : length (clear_bit bm i) = length bm.
Proof. apply length_insert. Qed.

(** The search returns the least clear bit of its range. *)
Lemma find_clear_spec bm i n :
  match find_clear bm i n with
  | Some k => i <= k < i + Z.of_nat n /\ test_bit bm k = false /\
              forall k', i <= k' < k -> test_bit bm k' = true
  | None => forall k, i <= k < i + Z.of_nat n -> test_bit bm k = true
  end.
Proof.
  revert i. induction n as [|n IH]; intros i; cbn [find_clear]; [lia|].
  destruct (test_bit bm i) eqn:E; cbn [negb].
  - specialize (IH (i + 1)). destruct (find_clear bm (i + 1) n) as [k|].
    + destruct IH as (? & ? & Hk). split_and!; [lia|lia|done|]. intros k' Hk'.
      destruct (decide (k' = i)) as [->|]; [done|]. apply Hk. lia.
    + intros k Hk. destruct (decide (k = i)) as [->|]; [done|]. apply IH. lia.
  - split_and!; [lia|lia|done|lia].
Qed.
