(* ===== verification/InodeSpec.v ===== *)
(** The inode table and the allocator against their specification: the table
    as a function from inode numbers to inodes, the bitmaps as sets of inode
    and block numbers. *)

From S2P Require Import Prelude.
From S2P Require Import Bytes.
From S2P Require Import DiskFormat.
From S2P Require Import TxnApi.
From S2P Require Import FsFormat.
From S2P Require Import Inode.
From S2P Require Import InodeBits.

(** The layout of a file system, as [logfs_fs_format] writes it. *)
Record wf_fs (fs : logfs_super) : Prop := {
  wf_inode_bitmap : 0 < sb_inode_bitmap_start fs;
  wf_block_bitmap : sb_block_bitmap_start fs = sb_inode_bitmap_start fs + 1;
  wf_inode_table : sb_inode_table_start fs = sb_block_bitmap_start fs + 1;
  wf_data : sb_data_start fs = sb_inode_table_start fs + sb_inode_table_len fs;
  wf_table_len : 0 < sb_inode_table_len fs;
  wf_total : sb_data_start fs < sb_total_blocks fs < 2 ^ 63;
  wf_inodes : 0 < sb_total_inodes fs < bitmap_bits;
  wf_data_blocks : sb_total_blocks fs - sb_data_start fs <= bitmap_bits;
  wf_root : sb_root_ino fs = LOGFS_ROOT_INO;
}.

(** The client may use every block of the file system. *)
Definition fs_blocks (fs : logfs_super) (a : contents) : Prop :=
  forall b, sb_inode_bitmap_start fs <= b < sb_total_blocks fs -> c_block a b.

(** An inode number whose slot lies in the table.  The upper bound on the
    number does not imply the one on the slot: see [FsProps]. *)
Definition in_table (fs : logfs_super) (ino : Z) : Prop :=
  1 <= ino <= sb_total_inodes fs /\ ino <= 28 * sb_inode_table_len fs.

(** ** The abstraction *)

Definition inode_at (fs : logfs_super) (v : Z -> block) (ino : Z) : logfs_inode :=
  let (blk, i) := inode_location fs ino in decode_inode (slot sizeof_inode i (v blk)).

Definition inode_used (fs : logfs_super) (v : Z -> block) (ino : Z) : bool :=
  test_bit (v (sb_inode_bitmap_start fs)) ino.

Definition block_used (fs : logfs_super) (v : Z -> block) (b : Z) : bool :=
  test_bit (v (sb_block_bitmap_start fs)) (b - sb_data_start fs).

Definition in_data (fs : logfs_super) (b : Z) : Prop := sb_data_start fs <= b < sb_total_blocks fs.

(** ** Outcomes *)

(** Success with value [x] and state [a'], or an error that changed nothing. *)
Definition outcome {A} (a : contents) (x : A) (a' : contents) (r : result A) (a1 : contents) : Prop :=
  r = Ok x /\ a1 = a' \/ io_error a r /\ a1 = a.

Section outcomes.
Context {S : Type} (rep : contents -> S -> Prop).

Lemma triple_outcome {A B} a a' (x : A) (m : M S A) (f : A -> M S B) Q :
  triple rep a m (outcome a x a') ->
  (forall rc, c_calm a = false -> rc < 0 -> Q (Err rc) a) ->
  triple rep a' (f x) Q ->
  triple rep a (m ≫= f) Q.
Proof.
  intros Hm He Hf. apply triple_bind. eapply triple_wand; [exact Hm|].
  intros r a1 [[-> ->]|[(? & rc & ? & ->) ->]]; eauto.
Qed.

(** Ending with a call whose outcome is the caller's. *)
Lemma triple_outcome_last {A} a a' (x : A) (m : M S A) (Q : result A -> contents -> Prop) :
  triple rep a m (outcome a x a') ->
  (forall rc, c_calm a = false -> rc < 0 -> Q (Err rc) a) ->
  Q (Ok x) a' ->
  triple rep a m Q.
Proof.
  intros Hm He Hf. eapply triple_wand; [exact Hm|].
  intros r a1 [[-> ->]|[(? & rc & ? & ->) ->]]; eauto.
Qed.
End outcomes.

Lemma outcome_ok {A} a (x : A) a' : outcome a x a' (Ok x) a'.
Proof. by left. Qed.

Lemma outcome_err {A} a (x : A) a' rc : c_calm a = false -> rc < 0 -> outcome a x a' (Err rc) a.
Proof. intros Hc Hrc. right. split; [|done]. split; [done|]. by exists rc. Qed.

#[export] Hint Resolve outcome_ok outcome_err : txn.

(** ** Where inodes live *)

Lemma inodes_per_block_eq : inodes_per_block = 28.
Proof. reflexivity. Qed.

Lemma inode_location_eq fs ino :
  wf_fs fs -> in_table fs ino ->
  inode_location fs ino
  = (sb_inode_table_start fs + (ino - 1) / 28, Z.to_nat ((ino - 1) mod 28)).
Proof.
  intros [] [Hi Hs]. unfold inode_location. rewrite inodes_per_block_eq.
  unfold bitmap_bits, LOGFS_BLOCK_SIZE in *. rewrite u32_small by lia.
  rewrite u64_small; [done|]. pose proof (Z.div_pos (ino - 1) 28).
  assert ((ino - 1) / 28 < sb_inode_table_len fs) by (apply Z.div_lt_upper_bound; lia). lia.
Qed.

Lemma inode_block fs ino :
  wf_fs fs -> in_table fs ino ->
  sb_inode_table_start fs <= (inode_location fs ino).1 < sb_data_start fs /\
  (sizeof_inode * (inode_location fs ino).2 + sizeof_inode <= block_len)%nat.
Proof.
  intros Hfs Hin. rewrite inode_location_eq by done. cbn [fst snd]. destruct Hfs, Hin as [Hi Hs].
  pose proof (Z.div_pos (ino - 1) 28). pose proof (Z.mod_pos_bound (ino - 1) 28).
  assert ((ino - 1) / 28 < sb_inode_table_len fs) by (apply Z.div_lt_upper_bound; lia).
  split; [lia|]. unfold sizeof_inode. blia.
Qed.

Lemma inode_location_inj fs i1 i2 :
  wf_fs fs -> in_table fs i1 -> in_table fs i2 ->
  inode_location fs i1 = inode_location fs i2 -> i1 = i2.
Proof.
  intros Hfs H1 H2. rewrite !inode_location_eq by done. intros [= Hd Hm].
  destruct H1 as [H1 _], H2 as [H2 _].
  pose proof (Z.mod_pos_bound (i1 - 1) 28). pose proof (Z.mod_pos_bound (i2 - 1) 28).
  apply Z2Nat.inj in Hm; [|lia..].
  pose proof (Z.div_mod (i1 - 1) 28). pose proof (Z.div_mod (i2 - 1) 28). lia.
Qed.

Lemma ino_in_range fs ino :
  in_table fs ino -> (ino =? 0) || (sb_total_inodes fs <? ino) = false.
Proof. intros [Hi _]. apply orb_false_iff. split; [apply Z.eqb_neq|apply Z.ltb_ge]; lia. Qed.

Lemma inode_table_block fs a ino :
  wf_fs fs -> fs_blocks fs a -> in_table fs ino -> c_block a (inode_location fs ino).1.
Proof.
  intros Hfs Hb Hin. pose proof (inode_block fs ino Hfs Hin) as [Hr _]. destruct Hfs.
  apply Hb. lia.
Qed.

(** ** Reading and writing an inode *)

Definition write_inode (fs : logfs_super) (ino : Z) (inode : logfs_inode) (a : contents) : contents :=
  let (blk, i) := inode_location fs ino in
  put blk (put_slot sizeof_inode i (encode_inode inode) (c_view a blk)) (touch blk a).

Section table.
Context {S : Type} `{TxnLaws S} (fs : logfs_super) (Hfs : wf_fs fs).

Lemma inode_read_spec a ino :
  fs_blocks fs a -> in_table fs ino ->
  triple rep a (logfs_inode_read fs ino) (outcome a (inode_at fs (c_view a) ino) a).
Proof.
  intros Hb Hin. unfold logfs_inode_read, inode_at. rewrite (ino_in_range _ _ Hin).
  pose proof (inode_table_block fs a ino Hfs Hb Hin) as Hblk.
  destruct (inode_location fs ino) as [blk i]. cbn [fst] in Hblk.
  apply triple_read; [done|auto with txn|]. apply triple_ret. auto with txn.
Qed.

Lemma inode_write_spec a h ino inode :
  fs_blocks fs a -> in_table fs ino -> h = c_gen a -> wf_inode inode ->
  triple rep a (logfs_inode_write h fs ino inode) (outcome a tt (write_inode fs ino inode a)).
Proof.
  intros Hb Hin Hh Hw. unfold logfs_inode_write, write_inode. rewrite (ino_in_range _ _ Hin).
  pose proof (inode_table_block fs a ino Hfs Hb Hin) as Hblk.
  pose proof (inode_block fs ino Hfs Hin) as [_ Hi].
  destruct (inode_location fs ino) as [blk i]. cbn [fst snd] in *.
  apply triple_whole. intros Hlen.
  apply triple_access; [done|done|auto with txn|].
  apply triple_store; [auto with txn| |].
  { by rewrite length_put_slot; rewrite ?length_encode_inode, ?Hlen. }
  apply triple_dirty_last; auto with txn.
Qed.

(** An inode number out of range is refused. *)
Lemma inode_read_range a ino :
  ino = 0 \/ sb_total_inodes fs < ino ->
  triple rep a (logfs_inode_read fs ino) (fun r a' => r = Err (- EINVAL) /\ a' = a).
Proof.
  intros Hr. unfold logfs_inode_read.
  replace ((ino =? 0) || (sb_total_inodes fs <? ino)) with true; [by apply triple_fail|].
  symmetry. apply orb_true_iff. rewrite Z.eqb_eq, Z.ltb_lt. lia.
Qed.
End table.

(** What the write leaves: the table changes at that inode only, and no
    block outside the table changes. *)
Lemma inode_at_write fs ino inode a ino' :
  wf_fs fs -> in_table fs ino -> in_table fs ino' -> wf_inode inode ->
  (forall b, length (c_view a b) = block_len) ->
  inode_at fs (c_view (write_inode fs ino inode a)) ino'
  = if decide (ino = ino') then inode else inode_at fs (c_view a) ino'.
Proof.
  intros Hfs H1 H2 Hw Hlen.
  pose proof (inode_block fs ino Hfs H1) as [_ Hi].
  pose proof (inode_location_inj fs ino ino' Hfs H1 H2) as Hinj.
  unfold write_inode, inode_at. destruct (decide (ino = ino')) as [<-|Hne].
  - destruct (inode_location fs ino) as [blk i]. cbn [put touch c_view fst snd] in *.
    rewrite decide_True by done.
    rewrite slot_put_same; [by apply decode_encode_inode|by apply length_encode_inode|by rewrite Hlen].
  - destruct (inode_location fs ino) as [blk i], (inode_location fs ino') as [blk' i'].
    cbn [put touch c_view fst snd] in *. destruct (decide (blk = blk')) as [<-|]; [|done].
    rewrite slot_put_other; [done| |by apply length_encode_inode|by rewrite Hlen].
    intros ->. by apply Hne, Hinj.
Qed.

Lemma write_inode_other fs ino inode a b :
  wf_fs fs -> in_table fs ino ->
  ~ (sb_inode_table_start fs <= b < sb_data_start fs) ->
  c_view (write_inode fs ino inode a) b = c_view a b.
Proof.
  intros Hfs Hin Hb. pose proof (inode_block fs ino Hfs Hin) as [Hr _]. unfold write_inode.
  destruct (inode_location fs ino) as [blk i]. cbn [put touch c_view fst] in *.
  by rewrite decide_False by (intros ->; lia).
Qed.

(** ** Allocation *)

(** The bitmap block [bm] with bit [i] set, or cleared. *)
Definition take_bit (bm i : Z) (a : contents) : contents :=
  put bm (set_bit (c_view a bm) i) (touch bm a).

Definition drop_bit (bm i : Z) (a : contents) : contents :=
  put bm (clear_bit (c_view a bm) i) (touch bm a).

Definition free_inode_no (fs : logfs_super) (a : contents) : option Z :=
  find_clear (c_view a (sb_inode_bitmap_start fs)) 1 (Z.to_nat (sb_total_inodes fs)).

Definition free_block_no (fs : logfs_super) (a : contents) : option Z :=
  find_clear (c_view a (sb_block_bitmap_start fs)) 0
    (Z.to_nat (sb_total_blocks fs - sb_data_start fs)).

Lemma bitmap_blocks fs a :
  wf_fs fs -> fs_blocks fs a ->
  c_block a (sb_inode_bitmap_start fs) /\ c_block a (sb_block_bitmap_start fs).
Proof. intros [] Hb. split; apply Hb; lia. Qed.

(** Finding a bit, or not. *)
Definition alloc_outcome (a : contents) (bm : Z) (found : option Z) (number : Z -> Z)
    (r : result Z) (a1 : contents) : Prop :=
  match found with
  | Some i => outcome a (number i) (take_bit bm i a) r a1
  | None => r = Err (- ENOSPC) /\ a1 = touch bm a \/ io_error a r /\ a1 = a
  end.

Section allocator.
Context {S : Type} `{TxnLaws S} (fs : logfs_super) (Hfs : wf_fs fs).

Lemma alloc_inode_spec a h :
  fs_blocks fs a -> h = c_gen a ->
  triple rep a (logfs_alloc_inode h fs)
    (alloc_outcome a (sb_inode_bitmap_start fs) (free_inode_no fs a) (fun i => i)).
Proof.
  intros Hb Hh. unfold logfs_alloc_inode, alloc_outcome, free_inode_no. cbv zeta.
  apply triple_whole. intros Hlen. destruct (bitmap_blocks fs a Hfs Hb) as [Hbm _].
  apply triple_access; [done|done| |].
  { intros rc Hc Hrc. destruct (find_clear _ _ _); [auto with txn|].
    right. split; [|done]. split; [done|]. by exists rc. }
  pose proof (find_clear_spec (c_view a (sb_inode_bitmap_start fs)) 1 (Z.to_nat (sb_total_inodes fs)))
    as Hfind.
  destruct (find_clear _ _ _) as [i|]; [|apply triple_fail; auto].
  apply triple_store; [auto with txn|by rewrite length_set_bit|].
  apply triple_dirty; [auto with txn|]. apply triple_ret.
  destruct Hfs. unfold bitmap_bits, LOGFS_BLOCK_SIZE in *. rewrite u32_small by lia. apply outcome_ok.
Qed.

Lemma alloc_block_spec a h :
  fs_blocks fs a -> h = c_gen a ->
  triple rep a (logfs_alloc_block h fs)
    (alloc_outcome a (sb_block_bitmap_start fs) (free_block_no fs a)
       (fun i => sb_data_start fs + i)).
Proof.
  intros Hb Hh. unfold logfs_alloc_block, alloc_outcome, free_block_no. cbv zeta.
  apply triple_whole. intros Hlen. destruct (bitmap_blocks fs a Hfs Hb) as [_ Hbm].
  apply triple_access; [done|done| |].
  { intros rc Hc Hrc. destruct (find_clear _ _ _); [auto with txn|].
    right. split; [|done]. split; [done|]. by exists rc. }
  assert (Hn : u64 (sb_total_blocks fs - sb_data_start fs) = sb_total_blocks fs - sb_data_start fs)
    by (destruct Hfs; apply u64_small; lia). rewrite Hn.
  pose proof (find_clear_spec (c_view a (sb_block_bitmap_start fs)) 0
    (Z.to_nat (sb_total_blocks fs - sb_data_start fs))) as Hfind.
  destruct (find_clear _ _ _) as [i|]; [|apply triple_fail; auto].
  apply triple_store; [auto with txn|by rewrite length_set_bit|].
  apply triple_dirty; [auto with txn|]. apply triple_ret.
  destruct Hfs. rewrite u64_small by lia. apply outcome_ok.
Qed.

Lemma free_inode_spec a h ino :
  fs_blocks fs a -> h = c_gen a -> 1 <= ino <= sb_total_inodes fs ->
  triple rep a (logfs_free_inode h fs ino)
    (outcome a tt (drop_bit (sb_inode_bitmap_start fs) ino a)).
Proof.
  intros Hb Hh Hi. unfold logfs_free_inode. cbv zeta.
  replace ((ino =? 0) || (sb_total_inodes fs <? ino)) with false
    by (symmetry; apply orb_false_iff; split; [apply Z.eqb_neq|apply Z.ltb_ge]; lia).
  apply triple_whole. intros Hlen. destruct (bitmap_blocks fs a Hfs Hb) as [Hbm _].
  apply triple_access; [done|done|auto with txn|].
  apply triple_store; [auto with txn|by rewrite length_clear_bit|].
  apply triple_dirty_last; auto with txn.
Qed.

Lemma free_block_spec a h b :
  fs_blocks fs a -> h = c_gen a -> in_data fs b ->
  triple rep a (logfs_free_block h fs b)
    (outcome a tt (drop_bit (sb_block_bitmap_start fs) (b - sb_data_start fs) a)).
Proof.
  intros Hb Hh Hi. unfold logfs_free_block. cbv zeta. unfold in_data in Hi.
  replace ((b <? sb_data_start fs) || (sb_total_blocks fs <=? b)) with false
    by (symmetry; apply orb_false_iff; split; [apply Z.ltb_ge|apply Z.leb_gt]; lia).
  apply triple_whole. intros Hlen. destruct (bitmap_blocks fs a Hfs Hb) as [_ Hbm].
  apply triple_access; [done|done|auto with txn|].
  apply triple_store; [auto with txn|by rewrite length_clear_bit|].
  apply triple_dirty_last; auto with txn.
Qed.
End allocator.

(** The bitmaps as sets: one member more, or one less. *)
Lemma take_bit_view bm i a n :
  length (c_view a bm) = block_len -> 0 <= i < bitmap_bits -> 0 <= n ->
  test_bit (c_view (take_bit bm i a) bm) n
  = if decide (i = n) then true else test_bit (c_view a bm) n.
Proof.
  intros. cbn [take_bit put touch c_view]. rewrite decide_True by done. by apply test_set_bit.
Qed.

Lemma drop_bit_view bm i a n :
  length (c_view a bm) = block_len -> 0 <= i < bitmap_bits -> 0 <= n ->
  test_bit (c_view (drop_bit bm i a) bm) n
  = if decide (i = n) then false else test_bit (c_view a bm) n.
Proof.
  intros. cbn [drop_bit put touch c_view]. rewrite decide_True by done. by apply test_clear_bit.
Qed.

Lemma take_bit_other bm i a b : b <> bm -> c_view (take_bit bm i a) b = c_view a b.
Proof. intros Hb. cbn [take_bit put touch c_view]. by rewrite decide_False by congruence. Qed.

Lemma drop_bit_other bm i a b : b <> bm -> c_view (drop_bit bm i a) b = c_view a b.
Proof. intros Hb. cbn [drop_bit put touch c_view]. by rewrite decide_False by congruence. Qed.
