(* ===== verification/InodeDir.v ===== *)
(** Directories as finite maps from names to inode numbers and types: the
    entries of a block, of a directory, and what writing one slot does to
    them. *)

From S2P Require Import Prelude.
From S2P Require Import Bytes.
From S2P Require Import DiskFormat.
From S2P Require Import FsFormat.
From S2P Require Import Inode.

(** ** The abstraction *)

(** Name, inode number and type of an entry. *)
Abbreviation entry := (list byte * (Z * Z))%type.

Definition entry_of (d : logfs_dirent) : option entry :=
  if de_ino d =? 0 then None
  else Some (take (Z.to_nat (de_name_len d)) (de_name d), (de_ino d, de_file_type d)).

Definition block_entries (buf : block) : list entry :=
  omap (fun e => entry_of (dirent_at buf e)) (seq 0 slots_per_block).

(** The blocks of a directory: up to the first hole. *)
Fixpoint dir_blocks (blocks : list Z) : list Z :=
  match blocks with
  | [] => []
  | b :: blocks => if b =? 0 then [] else b :: dir_blocks blocks
  end.

Definition dir_entries (v : Z -> block) (blocks : list Z) : list entry :=
  concat (map (fun b => block_entries (v b)) (dir_blocks blocks)).

(** The first entry with a name counts, as in the source. *)
Definition dir_map (v : Z -> block) (blocks : list Z) : gmap (list byte) (Z * Z) :=
  list_to_map (dir_entries v blocks).

(** Live names have a length the name field can hold. *)
Definition wf_dir_block (buf : block) : Prop :=
  forall e, (e < slots_per_block)%nat -> de_ino (dirent_at buf e) <> 0 ->
    1 <= de_name_len (dirent_at buf e) <= LOGFS_NAME_MAX.

(** ** One slot *)

Lemma slots_per_block_eq : slots_per_block = 64%nat.
Proof. reflexivity. Qed.

#[global] Opaque slots_per_block.

Lemma find_slot_spec p e n :
  match find_slot p e n with
  | Some k => (e <= k < e + n)%nat /\ p k = true /\ forall k', (e <= k' < k)%nat -> p k' = false
  | None => forall k, (e <= k < e + n)%nat -> p k = false
  end.
Proof.
  revert e. induction n as [|n IH]; intros e; cbn [find_slot]; [lia|].
  destruct (p e) eqn:E.
  - split_and!; [lia|lia|done|lia].
  - specialize (IH (S e)). destruct (find_slot p (S e) n) as [k|].
    + destruct IH as (? & ? & Hk). split_and!; [lia|lia|done|]. intros k' Hk'.
      destruct (decide (k' = e)) as [->|]; [done|]. apply Hk. lia.
    + intros k Hk. destruct (decide (k = e)) as [->|]; [done|]. apply IH. lia.
Qed.

Lemma name_bytes buf e n :
  (n <= 56)%nat ->
  take n (drop (sizeof_dirent * e + 8) buf) = take n (de_name (dirent_at buf e)).
Proof.
  intros Hn. unfold dirent_at, decode_dirent, slot. cbn [de_name].
  change (Z.to_nat LOGFS_NAME_MAX + 1)%nat with 56%nat.
  rewrite take_take, Nat.min_l by done. rewrite skipn_firstn_comm, take_take, drop_drop.
  unfold sizeof_dirent. by rewrite Nat.min_l by lia.
Qed.

Lemma wf_dirent_at buf e : (64 * e + 64 <= length buf)%nat -> wf_dirent (dirent_at buf e).
Proof.
  intros Hb. unfold dirent_at, decode_dirent.
  split; cbn [de_ino de_name_len de_file_type de_pad de_name]; try apply get_range.
  rewrite length_take, length_drop, length_slot; [reflexivity|done].
Qed.

(** [memcmp] and the length test compare the entry's name. *)
Lemma entry_is_spec name buf e :
  wf_dir_block buf -> length buf = block_len -> (e < slots_per_block)%nat ->
  entry_is name buf e = true <->
  exists x, entry_of (dirent_at buf e) = Some (name, x).
Proof.
  rewrite slots_per_block_eq. intros Hwf Hl He. unfold entry_is, entry_of. cbv zeta.
  pose proof (wf_dirent_at buf e ltac:(rewrite Hl; blia)) as [_ Hlen _ _ Hnm].
  destruct (Z.eqb_spec (de_ino (dirent_at buf e)) 0) as [Hz|Hz]; cbn [negb andb].
  { split; [done|]. by intros [x ?]. }
  specialize (Hwf e He Hz). unfold LOGFS_NAME_MAX in Hwf.
  rewrite andb_true_iff, Z.eqb_eq, bool_decide_eq_true. split.
  - intros [Hn Hb]. rewrite name_bytes in Hb by lia. eexists. do 2 f_equal.
    by rewrite Hn, Nat2Z.id.
  - intros [x Hx].
    assert (Hn : take (Z.to_nat (de_name_len (dirent_at buf e))) (de_name (dirent_at buf e)) = name)
      by congruence. clear x Hx. assert (Hln : Z.of_nat (length name) = de_name_len (dirent_at buf e)).
    { rewrite <-Hn, length_take, Hnm. lia. }
    split; [done|]. rewrite name_bytes by lia. rewrite <-Hn at 2. by rewrite <-Hln, Nat2Z.id.
Qed.

Lemma dirent_at_put_same buf e d :
  wf_dirent d -> length buf = block_len -> (e < slots_per_block)%nat ->
  dirent_at (put_dirent e d buf) e = d.
Proof.
  rewrite slots_per_block_eq. intros Hd Hl He. unfold dirent_at, put_dirent.
  rewrite slot_put_same; [by apply decode_encode_dirent|by apply length_encode_dirent|].
  rewrite Hl. unfold sizeof_dirent. blia.
Qed.

Lemma dirent_at_put_other buf e e' d :
  wf_dirent d -> length buf = block_len -> (e < slots_per_block)%nat -> e <> e' ->
  dirent_at (put_dirent e d buf) e' = dirent_at buf e'.
Proof.
  rewrite slots_per_block_eq. intros Hd Hl He Hne. unfold dirent_at, put_dirent.
  rewrite slot_put_other; [done|done|by apply length_encode_dirent|].
  rewrite Hl. unfold sizeof_dirent. blia.
Qed.

Lemma length_put_dirent buf e d :
  wf_dirent d -> length buf = block_len -> (e < slots_per_block)%nat ->
  length (put_dirent e d buf) = block_len.
Proof.
  rewrite slots_per_block_eq. intros Hd Hl He. unfold put_dirent.
  rewrite length_put_slot; [done|by apply length_encode_dirent|rewrite Hl; unfold sizeof_dirent; blia].
Qed.

(** ** Lists with one member more *)

Lemma omap_seq_one {A} (f f' : nat -> option A) i k n x :
  (k <= i < k + n)%nat -> f i = None -> f' i = Some x -> (forall j, j <> i -> f' j = f j) ->
  omap f' (seq k n) ≡ₚ x :: omap f (seq k n).
Proof.
  revert k. induction n as [|n IH]; intros k Hi Hf Hf' Hne; [lia|]. cbn [seq].
  destruct (decide (i = k)) as [->|Hik].
  - change (omap f' (k :: seq (S k) n)) with
      (match f' k with Some y => y :: omap f' (seq (S k) n) | None => omap f' (seq (S k) n) end).
    change (omap f (k :: seq (S k) n)) with
      (match f k with Some y => y :: omap f (seq (S k) n) | None => omap f (seq (S k) n) end).
    rewrite Hf, Hf'. replace (omap f' (seq (S k) n)) with (omap f (seq (S k) n)); [done|].
    apply list_omap_ext. apply Forall2_same_length_lookup_2; [done|]. intros j y z Hy Hz.
    rewrite Hy in Hz. injection Hz as <-. apply lookup_seq in Hy. symmetry. apply Hne. lia.
  - change (omap f' (k :: seq (S k) n)) with
      (match f' k with Some y => y :: omap f' (seq (S k) n) | None => omap f' (seq (S k) n) end).
    change (omap f (k :: seq (S k) n)) with
      (match f k with Some y => y :: omap f (seq (S k) n) | None => omap f (seq (S k) n) end).
    rewrite Hne by done. assert (E := IH (S k) ltac:(lia) Hf Hf' Hne).
    destruct (f k); [|done]. rewrite E. apply Permutation_swap.
Qed.

Lemma concat_map_one {A B} (g g' : A -> list B) l a x :
  NoDup l -> a ∈ l -> g' a ≡ₚ x :: g a -> (forall b, b ∈ l -> b <> a -> g' b = g b) ->
  concat (map g' l) ≡ₚ x :: concat (map g l).
Proof.
  intros Hnd Hin Ha Hb. apply list_elem_of_split in Hin as (l1 & l2 & ->).
  assert (Hsame : forall l', (forall b, b ∈ l' -> b ∈ l1 ++ a :: l2 /\ b <> a) -> map g' l' = map g l').
  { intros l' Hl'. apply map_ext_in. intros b Hin%list_elem_of_In. destruct (Hl' b Hin). by apply Hb. }
  apply NoDup_app in Hnd as (_ & Hd & Hnd). apply NoDup_cons in Hnd as [Hna _].
  rewrite !map_app, !concat_app. cbn [map concat].
  rewrite (Hsame l1), (Hsame l2), Ha; [cbn [app]; symmetry; apply Permutation_middle|..].
  - intros b Hin. split; [set_solver|]. by intros ->.
  - intros b Hin. split; [set_solver|]. intros ->. apply (Hd a Hin). set_solver.
Qed.

(** ** One slot of a directory block *)

Section slots.
Context (buf : block) (e : nat) (d : logfs_dirent).
Hypothesis Hd : wf_dirent d.
Hypothesis Hl : length buf = block_len.
Hypothesis He : (e < slots_per_block)%nat.

Lemma block_entries_add x :
  entry_of (dirent_at buf e) = None -> entry_of d = Some x ->
  block_entries (put_dirent e d buf) ≡ₚ x :: block_entries buf.
Proof.
  intros Hold Hnew. apply (omap_seq_one _ _ e); [lia|done| |].
  - by rewrite dirent_at_put_same.
  - intros j Hj. by rewrite dirent_at_put_other by auto.
Qed.

Lemma block_entries_remove x :
  entry_of (dirent_at buf e) = Some x -> entry_of d = None ->
  block_entries buf ≡ₚ x :: block_entries (put_dirent e d buf).
Proof.
  intros Hold Hnew. apply (omap_seq_one _ _ e); [lia| |done|].
  - by rewrite dirent_at_put_same.
  - intros j Hj. by rewrite dirent_at_put_other by auto.
Qed.

Lemma wf_dir_block_put :
  wf_dir_block buf -> (de_ino d <> 0 -> 1 <= de_name_len d <= LOGFS_NAME_MAX) ->
  wf_dir_block (put_dirent e d buf).
Proof.
  intros Hwf Hn e' He'. destruct (decide (e = e')) as [<-|Hne].
  - by rewrite dirent_at_put_same.
  - rewrite dirent_at_put_other by done. by apply Hwf.
Qed.
End slots.

(** ** Searching *)

Lemma list_to_map_omap_lookup name buf k n :
  wf_dir_block buf -> length buf = block_len -> (k + n <= slots_per_block)%nat ->
  (list_to_map (omap (fun e => entry_of (dirent_at buf e)) (seq k n)) : gmap _ (Z * Z)) !! name
  = match find_slot (entry_is name buf) k n with
    | Some e => Some (de_ino (dirent_at buf e), de_file_type (dirent_at buf e))
    | None => None
    end.
Proof.
  intros Hwf Hl. revert k. induction n as [|n IH]; intros k Hk; [apply lookup_empty|].
  cbn [seq find_slot].
  change (omap ?f (k :: seq (S k) n)) with
    (match f k with Some y => y :: omap f (seq (S k) n) | None => omap f (seq (S k) n) end).
  cbv beta. pose proof (entry_is_spec name buf k Hwf Hl ltac:(lia)) as Hspec.
  destruct (entry_is name buf k) eqn:E.
  - destruct (proj1 Hspec eq_refl) as [x Hx]. rewrite Hx. cbn [list_to_map foldr fst snd].
    unfold entry_of in Hx. destruct (de_ino (dirent_at buf k) =? 0); [done|]. injection Hx as _ <-.
    change (foldr _ _ _) with (list_to_map (omap (fun e => entry_of (dirent_at buf e)) (seq (S k) n)) : gmap (list byte) (Z * Z)).
    apply lookup_insert_eq.
  - rewrite <-IH by lia. destruct (entry_of (dirent_at buf k)) as [[n' x]|] eqn:Ex; [|done].
    cbn [list_to_map foldr fst snd]. rewrite lookup_insert_ne; [done|]. intros ->.
    discriminate (proj2 Hspec (ex_intro _ x eq_refl)).
Qed.

Lemma block_lookup name buf :
  wf_dir_block buf -> length buf = block_len ->
  (list_to_map (block_entries buf) : gmap _ (Z * Z)) !! name
  = match find_slot (entry_is name buf) 0 slots_per_block with
    | Some e => Some (de_ino (dirent_at buf e), de_file_type (dirent_at buf e))
    | None => None
    end.
Proof. intros Hwf Hl. by apply list_to_map_omap_lookup. Qed.
