(* ===== verification/InodeDirSpec.v ===== *)
(** [logfs_dir_lookup], [logfs_dir_add], [logfs_dir_remove] and
    [logfs_dir_is_empty] against a directory as a finite map: a well-formed
    directory stays one, the map is looked up, extended and shrunk, and no
    other directory or file changes - also when a call fails half-way. *)

From S2P Require Import Prelude.
From S2P Require Import Bytes.
From S2P Require Import DiskFormat.
From S2P Require Import TxnApi.
From S2P Require Import FsFormat.
From S2P Require Import Inode.
From S2P Require Import InodeBits.
From S2P Require Import InodeSpec.
From S2P Require Import InodeDir.

(** ** Directories *)

Definition blocks_of (fs : logfs_super) (v : Z -> block) (ino : Z) : list Z :=
  dir_blocks (i_blocks (inode_at fs v ino)).

(** The directory as a map. *)
Definition the_dir (fs : logfs_super) (v : Z -> block) (ino : Z) : gmap (list byte) (Z * Z) :=
  dir_map v (i_blocks (inode_at fs v ino)).

Record wf_dir (fs : logfs_super) (v : Z -> block) (ino : Z) : Prop := {
  dir_table : in_table fs ino;
  dir_isdir : S_ISDIR (i_mode (inode_at fs v ino)) = true;
  dir_holes : exists k, i_blocks (inode_at fs v ino) = blocks_of fs v ino ++ replicate k 0;
  dir_data : Forall (fun b => in_data fs b /\ block_used fs v b = true) (blocks_of fs v ino);
  dir_nodup : NoDup (blocks_of fs v ino);
  dir_slots : Forall (fun b => wf_dir_block (v b)) (blocks_of fs v ino);
  dir_names : NoDup (dir_entries v (i_blocks (inode_at fs v ino))).*1;
}.

Lemma data_client fs a b : wf_fs fs -> fs_blocks fs a -> in_data fs b -> c_block a b.
Proof. intros [] Hb [? ?]. apply Hb. lia. Qed.

Lemma dir_data_client fs a ino :
  wf_fs fs -> fs_blocks fs a -> wf_dir fs (c_view a) ino ->
  Forall (fun b => c_block a b /\ wf_dir_block (c_view a b)) (blocks_of fs (c_view a) ino).
Proof.
  intros Hfs Hb Hd. pose proof (dir_data _ _ _ Hd) as H1. pose proof (dir_slots _ _ _ Hd) as H2.
  rewrite Forall_forall in *. intros b Hin. split; [|by apply H2].
  eapply data_client; [done..|]. by apply H1.
Qed.

(** ** Lookup *)

(** The answer for a name: its entry, or [-ENOENT]. *)
Definition lookup_outcome (a : contents) (found : option (Z * Z)) (r : result (Z * Z))
    (a' : contents) : Prop :=
  a' = a /\
  (match found with Some x => r = Ok x | None => r = Err (- ENOENT) end \/ io_error a r).

Section lookup.
Context {S : Type} `{TxnLaws S} (fs : logfs_super) (Hfs : wf_fs fs).

Lemma dir_lookup_loop_spec a name blocks :
  (forall b, length (c_view a b) = block_len) ->
  Forall (fun b => c_block a b /\ wf_dir_block (c_view a b)) (dir_blocks blocks) ->
  triple rep a (dir_lookup_loop name blocks)
    (lookup_outcome a (dir_map (c_view a) blocks !! name)).
Proof.
  intros Hlen. induction blocks as [|b blocks IH]; intros Hb; cbn [dir_lookup_loop].
  { apply triple_fail. split; [done|]. by left. }
  unfold dir_map, dir_entries. cbn [dir_blocks] in *.
  destruct (b =? 0); [apply triple_fail; split; [done|by left]|].
  apply Forall_cons in Hb as [[Hcb Hwf] Hb]. cbn [map concat].
  rewrite list_to_map_app, lookup_union, block_lookup by done.
  apply triple_read; [done| |].
  { intros rc Hc Hrc. split; [done|]. right. split; [done|]. by exists rc. }
  destruct (find_slot (entry_is name (c_view a b)) 0 slots_per_block) as [e|].
  - apply triple_ret. split; [done|]. left. by rewrite union_Some_l.
  - rewrite option_union_left_id. by apply IH.
Qed.

Lemma dir_lookup_spec a ino name :
  fs_blocks fs a -> wf_dir fs (c_view a) ino -> bad_name name = false ->
  triple rep a (logfs_dir_lookup fs ino name)
    (lookup_outcome a (the_dir fs (c_view a) ino !! name)).
Proof.
  intros Hb Hd Hname. unfold logfs_dir_lookup. apply triple_whole. intros Hlen.
  eapply triple_outcome; [apply (inode_read_spec fs Hfs a ino Hb), Hd| |].
  { intros rc Hc Hrc. split; [done|]. right. split; [done|]. by exists rc. }
  rewrite (dir_isdir _ _ _ Hd), Hname. cbn [negb].
  apply dir_lookup_loop_spec; [done|]. by apply dir_data_client.
Qed.
End lookup.

(** ** What a change leaves alone *)

Lemma inode_at_ext fs v v' ino :
  wf_fs fs -> in_table fs ino ->
  (forall b, sb_inode_table_start fs <= b < sb_data_start fs -> v' b = v b) ->
  inode_at fs v' ino = inode_at fs v ino.
Proof.
  intros Hfs Hin Hv. pose proof (inode_block fs ino Hfs Hin) as [Hr _]. unfold inode_at.
  destruct (inode_location fs ino) as [blk i]. cbn [fst] in Hr. by rewrite Hv.
Qed.

(** Everything but one directory [ino] is as before; its inode keeps its
    attributes. *)
Record dir_frame (fs : logfs_super) (ino : Z) (v v' : Z -> block) : Prop := {
  fr_inodes ino' : in_table fs ino' -> ino' <> ino -> inode_at fs v' ino' = inode_at fs v ino';
  fr_attrs : let i := inode_at fs v ino in
             let i' := inode_at fs v' ino in
             i_mode i' = i_mode i /\ i_nlink i' = i_nlink i /\ i_uid i' = i_uid i
             /\ i_gid i' = i_gid i /\ i_atime i' = i_atime i /\ i_mtime i' = i_mtime i
             /\ i_ctime i' = i_ctime i;
  fr_inode_bitmap : v' (sb_inode_bitmap_start fs) = v (sb_inode_bitmap_start fs);
  fr_used b : in_data fs b -> block_used fs v b = true -> block_used fs v' b = true;
  fr_data b : in_data fs b -> block_used fs v b = true -> b ∉ blocks_of fs v ino -> v' b = v b;
  fr_blocks b : b ∈ blocks_of fs v' ino -> b ∈ blocks_of fs v ino \/ block_used fs v b = false;
}.

(** No inode and no block is taken or given back. *)
Definition same_bitmaps (fs : logfs_super) (v v' : Z -> block) : Prop :=
  v' (sb_inode_bitmap_start fs) = v (sb_inode_bitmap_start fs) /\
  v' (sb_block_bitmap_start fs) = v (sb_block_bitmap_start fs).

(** The state a client cannot see has not changed, but for staged blocks. *)
Record same_env (a a' : contents) : Prop := {
  se_block : c_block a' = c_block a;
  se_gen : c_gen a' = c_gen a;
  se_calm : c_calm a' = c_calm a;
  se_staged : c_staged a ⊆ c_staged a';
  se_logs : c_logs a' = c_logs a;
  se_base : c_base a' = c_base a;
  se_data b : c_data a b -> (b ∈ c_staged a' -> c_logs a = true) -> c_data a' b;
}.

#[global] Instance same_env_preorder : PreOrder same_env.
Proof.
  split.
  - intros a. by split.
  - intros a1 a2 a3 [? ? ? ? Hl ? D1] [? ? ? ? ? ? D2]. split; [congruence..|set_solver|congruence|congruence|].
    intros b Hb Hs. apply D2; [|rewrite Hl; exact Hs]. apply D1; [done|]. intros H. apply Hs. set_solver.
Qed.

Lemma same_env_touch b a : same_env a (touch b a).
Proof.
  split; [done..| |done|done|]; cbn [touch c_staged c_data]; [set_solver|].
  intros b' Hb' Hs. split; [done|]. intros ->. apply Hs. set_solver.
Qed.

Lemma same_env_put b c a : same_env a (put b c a).
Proof. by split. Qed.

Lemma same_env_write_inode fs ino i a : same_env a (write_inode fs ino i a).
Proof.
  unfold write_inode. destruct (inode_location fs ino).
  etrans; [apply same_env_touch|apply same_env_put].
Qed.

Lemma fs_blocks_env fs a a' : same_env a a' -> fs_blocks fs a -> fs_blocks fs a'.
Proof. intros [Hc _ _ _ _ _ _] Hb b Hin. rewrite Hc. by apply Hb. Qed.

Lemma dir_frame_refl fs ino v : dir_frame fs ino v v.
Proof. split; auto. by repeat split. Qed.

(** A directory whose inode and blocks did not change. *)
Lemma dir_same fs v v' ino :
  inode_at fs v' ino = inode_at fs v ino ->
  (forall b, b ∈ blocks_of fs v ino -> v' b = v b) ->
  (forall b, b ∈ blocks_of fs v ino -> block_used fs v b = true -> block_used fs v' b = true) ->
  the_dir fs v' ino = the_dir fs v ino /\ (wf_dir fs v ino -> wf_dir fs v' ino).
Proof.
  intros Hi Hv Hu.
  assert (Hbs : blocks_of fs v' ino = blocks_of fs v ino) by (unfold blocks_of; by rewrite Hi).
  assert (Hes : dir_entries v' (i_blocks (inode_at fs v ino))
                = dir_entries v (i_blocks (inode_at fs v ino))).
  { unfold dir_entries. f_equal. apply map_ext_in. intros b Hb%list_elem_of_In. by rewrite Hv. }
  split; [by unfold the_dir, dir_map; rewrite Hi, Hes|]. intros [H1 H2 H3 H4 H5 H6 H7].
  split; rewrite ?Hbs, ?Hi, ?Hes; try assumption; rewrite Forall_forall in *.
  - intros b Hb. destruct (H4 b Hb). auto.
  - intros b Hb. rewrite Hv by done. by apply H6.
Qed.

(** A data block of the directory is rewritten. *)
Lemma dir_frame_block fs ino v v' b :
  wf_fs fs -> in_table fs ino -> b ∈ blocks_of fs v ino -> in_data fs b ->
  (forall b', b' <> b -> v' b' = v b') ->
  dir_frame fs ino v v' /\ inode_at fs v' ino = inode_at fs v ino /\
  (forall b', block_used fs v' b' = block_used fs v b').
Proof.
  intros Hfs Hin Hb [Hb1 Hb2] Hv. pose proof Hfs as [].
  assert (Hi : forall ino', in_table fs ino' -> inode_at fs v' ino' = inode_at fs v ino').
  { intros ino' Hin'. apply inode_at_ext; [done..|]. intros b' Hb'. apply Hv. lia. }
  assert (Hu : forall b', block_used fs v' b' = block_used fs v b').
  { intros b'. unfold block_used. rewrite Hv; [done|lia]. }
  split_and!; [split|by apply Hi|done].
  - auto.
  - by rewrite Hi.
  - apply Hv. lia.
  - intros b' _. by rewrite Hu.
  - intros b' _ _ Hnin. apply Hv. by intros ->.
  - intros b'. unfold blocks_of. rewrite Hi by done. auto.
Qed.

(** ** A slot of the directory is filled, or cleared *)

Lemma dir_entries_change (v v' : Z -> block) blocks b x :
  NoDup (dir_blocks blocks) -> b ∈ dir_blocks blocks ->
  (forall b', b' <> b -> v' b' = v b') -> block_entries (v' b) ≡ₚ x :: block_entries (v b) ->
  dir_entries v' blocks ≡ₚ x :: dir_entries v blocks.
Proof.
  intros Hnd Hin Hv He. unfold dir_entries.
  apply (concat_map_one (fun b => block_entries (v b)) (fun b => block_entries (v' b)) _ b);
    [done|done|done|]. intros b' _ Hne. by rewrite Hv.
Qed.

(** The well-formedness of a directory of which one block has changed. *)
Lemma wf_dir_block_changed fs ino v v' b :
  wf_fs fs -> wf_dir fs v ino -> b ∈ blocks_of fs v ino ->
  (forall b', b' <> b -> v' b' = v b') -> wf_dir_block (v' b) ->
  NoDup (dir_entries v' (i_blocks (inode_at fs v ino))).*1 ->
  wf_dir fs v' ino.
Proof.
  intros Hfs Hd Hb Hv Hwf Hnames. pose proof Hd as [H1 H2 H3 H4 H5 H6 H7].
  assert (Hdata : in_data fs b) by (rewrite Forall_forall in H4; by apply H4).
  destruct (dir_frame_block fs ino v v' b Hfs H1 Hb Hdata Hv) as (_ & Hi & Hu).
  assert (Hbs : blocks_of fs v' ino = blocks_of fs v ino) by (unfold blocks_of; by rewrite Hi).
  split; rewrite ?Hbs, ?Hi; try assumption.
  - eapply Forall_impl; [exact H4|]. intros b'. by rewrite Hu.
  - rewrite Forall_forall in *. intros b' Hb'. destruct (decide (b' = b)) as [->|Hne]; [done|].
    rewrite Hv by done. by apply H6.
Qed.

Lemma dir_map_insert (es es' : list entry) name x :
  NoDup es.*1 -> (list_to_map es : gmap _ (Z * Z)) !! name = None -> es' ≡ₚ (name, x) :: es ->
  NoDup es'.*1 /\ (list_to_map es' : gmap _ (Z * Z)) = <[name := x]> (list_to_map es).
Proof.
  intros Hnd Hnone Hp. assert (Hnd' : NoDup es'.*1).
  { rewrite Hp. cbn [fmap list_fmap fst]. apply NoDup_cons. split; [|done].
    by apply not_elem_of_list_to_map_2. }
  split; [done|]. by rewrite (list_to_map_proper _ _ Hnd' Hp).
Qed.

Lemma dir_map_delete (es es' : list entry) name x :
  NoDup es.*1 -> es ≡ₚ (name, x) :: es' ->
  NoDup es'.*1 /\ (list_to_map es' : gmap _ (Z * Z)) = delete name (list_to_map es).
Proof.
  intros Hnd Hp. pose proof Hnd as Hnd'. rewrite Hp in Hnd'. cbn [fmap list_fmap fst] in Hnd'.
  apply NoDup_cons in Hnd' as [Hnin Hnd']. split; [done|].
  rewrite (list_to_map_proper _ _ Hnd Hp). cbn [list_to_map foldr fst snd]. symmetry.
  apply delete_insert_id. by apply not_elem_of_list_to_map_1.
Qed.

Section one_slot.
Context (fs : logfs_super) (a : contents) (ino b : Z) (e : nat) (d : logfs_dirent).
Let v := c_view a.
Let a' := put b (put_dirent e d (v b)) (touch b a).
Hypothesis Hfs : wf_fs fs.
Hypothesis Hdir : wf_dir fs v ino.
Hypothesis Hb : b ∈ blocks_of fs v ino.
Hypothesis He : (e < slots_per_block)%nat.
Hypothesis Hd : wf_dirent d.
Hypothesis Hlen : forall b, length (v b) = block_len.
Hypothesis Hname : de_ino d <> 0 -> 1 <= de_name_len d <= LOGFS_NAME_MAX.

Lemma slot_view b' : c_view a' b' = if decide (b = b') then put_dirent e d (v b) else v b'.
Proof. done. Qed.

Lemma slot_others b' : b' <> b -> c_view a' b' = v b'.
Proof. intros Hne. rewrite slot_view. by rewrite decide_False. Qed.

Lemma slot_facts :
  same_env a a' /\ dir_frame fs ino v (c_view a') /\
  inode_at fs (c_view a') ino = inode_at fs v ino /\ wf_dir_block (c_view a' b).
Proof.
  pose proof (dir_data _ _ _ Hdir) as Hdata. rewrite Forall_forall in Hdata.
  destruct (Hdata b Hb) as [Hin _].
  destruct (dir_frame_block fs ino v (c_view a') b Hfs (dir_table _ _ _ Hdir) Hb Hin slot_others)
    as (Hf & Hi & _).
  split_and!; [|done|done|].
  - etrans; [apply same_env_touch|apply same_env_put].
  - rewrite slot_view, decide_True by done. apply wf_dir_block_put; auto.
    pose proof (dir_slots _ _ _ Hdir) as Hs. rewrite Forall_forall in Hs. by apply Hs.
Qed.

Lemma fill_slot name x :
  entry_of (dirent_at (v b) e) = None -> entry_of d = Some (name, x) ->
  the_dir fs v ino !! name = None ->
  wf_dir fs (c_view a') ino /\ the_dir fs (c_view a') ino = <[name := x]> (the_dir fs v ino).
Proof.
  intros Hold Hnew Hnone. destruct slot_facts as (_ & _ & Hi & Hwf).
  assert (Hp : dir_entries (c_view a') (i_blocks (inode_at fs v ino))
               ≡ₚ (name, x) :: dir_entries v (i_blocks (inode_at fs v ino))).
  { apply (dir_entries_change v _ _ b); [apply Hdir|exact Hb|exact slot_others|].
    rewrite slot_view, decide_True by done. by apply block_entries_add. }
  destruct (dir_map_insert _ _ name x (dir_names _ _ _ Hdir) Hnone Hp) as [Hnd Hmap].
  split; [by eapply wf_dir_block_changed; [..|exact slot_others| |]|].
  unfold the_dir at 1, dir_map. rewrite Hi. exact Hmap.
Qed.

Lemma clear_slot name x :
  entry_of (dirent_at (v b) e) = Some (name, x) -> entry_of d = None ->
  wf_dir fs (c_view a') ino /\ the_dir fs (c_view a') ino = delete name (the_dir fs v ino).
Proof.
  intros Hold Hnew. destruct slot_facts as (_ & _ & Hi & Hwf).
  assert (Hp : dir_entries v (i_blocks (inode_at fs v ino))
               ≡ₚ (name, x) :: dir_entries (c_view a') (i_blocks (inode_at fs v ino))).
  { apply (dir_entries_change _ _ _ b); [apply Hdir|exact Hb|by intros; rewrite slot_others|].
    rewrite slot_view, decide_True by done. by apply block_entries_remove. }
  destruct (dir_map_delete _ _ name x (dir_names _ _ _ Hdir) Hp) as [Hnd Hmap].
  split; [by eapply wf_dir_block_changed; [..|exact slot_others| |]|].
  unfold the_dir at 1, dir_map. rewrite Hi. exact Hmap.
Qed.
End one_slot.

(** ** The entry that is written *)

Lemma new_dirent_wf old name ino type :
  wf_dirent old -> bad_name name = false -> 0 < ino < 2 ^ 32 -> 0 <= type < 2 ^ 8 ->
  wf_dirent (new_dirent old name ino type) /\
  entry_of (new_dirent old name ino type) = Some (name, (ino, type)) /\
  1 <= de_name_len (new_dirent old name ino type) <= LOGFS_NAME_MAX.
Proof.
  intros [_ _ _ Hpad _] Hname Hino Htype. unfold bad_name, LOGFS_NAME_MAX in Hname. zify_bool.
  assert (Hlen : u8 (Z.of_nat (length name)) = Z.of_nat (length name)) by (apply Z.mod_small; lia).
  split; [|split].
  - split; cbn [new_dirent de_ino de_name_len de_file_type de_pad de_name]; try lia.
    unfold name_field. autorewrite with layout. lia.
  - unfold entry_of. cbn [new_dirent de_ino de_name_len de_file_type de_name].
    rewrite (proj2 (Z.eqb_neq _ _)) by lia. rewrite Hlen, Nat2Z.id. unfold name_field.
    by rewrite take_app_length.
  - cbn [new_dirent de_name_len]. unfold LOGFS_NAME_MAX. lia.
Qed.

Lemma entry_free_none buf e : entry_free buf e = true -> entry_of (dirent_at buf e) = None.
Proof. unfold entry_free, entry_of. by intros ->. Qed.
