(* ===== verification/InodeDirAdd.v ===== *)
(** [logfs_dir_add] and [logfs_dir_remove] on whole directories: filling a
    free slot, growing by a block, clearing a slot. *)

From S2P Require Import Prelude.
From S2P Require Import Bytes.
From S2P Require Import DiskFormat.
From S2P Require Import TxnApi.
From S2P Require Import FsFormat.
From S2P Require Import Inode.
From S2P Require Import InodeBits.
From S2P Require Import InodeSpec.
From S2P Require Import InodeDir.
From S2P Require Import InodeDirSpec.

(** ** Allocated blocks keep their contents *)

(** Nothing that is in use differs; more blocks may be in use. *)
Record extends (fs : logfs_super) (v v' : Z -> block) : Prop := {
  ext_meta b : sb_inode_bitmap_start fs <= b < sb_data_start fs ->
               b <> sb_block_bitmap_start fs -> v' b = v b;
  ext_used b : in_data fs b -> block_used fs v b = true -> block_used fs v' b = true;
  ext_data b : in_data fs b -> block_used fs v b = true -> v' b = v b;
}.

Lemma extends_refl fs v : extends fs v v.
Proof. by split. Qed.

Lemma extends_trans fs v1 v2 v3 : extends fs v1 v2 -> extends fs v2 v3 -> extends fs v1 v3.
Proof.
  intros [M1 U1 D1] [M2 U2 D2]. split.
  - intros b Hb Hne. by rewrite M2, M1.
  - auto.
  - intros b Hb Hu. rewrite D2, D1; auto.
Qed.

Lemma extends_inode fs v v' ino :
  wf_fs fs -> extends fs v v' -> in_table fs ino -> inode_at fs v' ino = inode_at fs v ino.
Proof.
  intros Hfs [M _ _] Hin. apply inode_at_ext; [done..|]. intros b Hb. destruct Hfs. apply M; lia.
Qed.

Lemma extends_frame fs v v' ino :
  wf_fs fs -> in_table fs ino -> extends fs v v' -> dir_frame fs ino v v'.
Proof.
  intros Hfs Hin He. split.
  - intros ino' Hin' _. by apply extends_inode.
  - cbv zeta. by rewrite (extends_inode fs v v' ino).
  - destruct Hfs. apply (ext_meta _ _ _ He); lia.
  - apply He.
  - intros b Hb Hu _. by apply (ext_data _ _ _ He).
  - intros b. unfold blocks_of. rewrite (extends_inode fs v v' ino) by done. auto.
Qed.

Lemma extends_dir fs v v' ino :
  wf_fs fs -> extends fs v v' -> wf_dir fs v ino ->
  wf_dir fs v' ino /\ the_dir fs v' ino = the_dir fs v ino.
Proof.
  intros Hfs He Hd. pose proof (dir_data _ _ _ Hd) as Hdata. rewrite Forall_forall in Hdata.
  destruct (dir_same fs v v' ino) as [Hm Hd'].
  - apply extends_inode; [done|done|apply Hd].
  - intros b Hb. destruct (Hdata b Hb). by apply (ext_data _ _ _ He).
  - intros b Hb. destruct (Hdata b Hb). by apply (ext_used _ _ _ He).
  - auto.
Qed.

(** ** A free block *)

Lemma free_block_no_spec fs a i :
  wf_fs fs -> free_block_no fs a = Some i ->
  0 <= i < bitmap_bits /\ in_data fs (sb_data_start fs + i) /\
  block_used fs (c_view a) (sb_data_start fs + i) = false.
Proof.
  intros Hfs Hf. unfold free_block_no in Hf.
  pose proof (find_clear_spec (c_view a (sb_block_bitmap_start fs)) 0
    (Z.to_nat (sb_total_blocks fs - sb_data_start fs))) as Hs. rewrite Hf in Hs.
  destruct Hs as (Hi & Hc & _). destruct Hfs. split_and!; [lia..| |].
  - unfold in_data. lia.
  - unfold block_used. by replace (sb_data_start fs + i - sb_data_start fs) with i by lia.
Qed.

Lemma extends_alloc fs a i :
  wf_fs fs -> (forall b, length (c_view a b) = block_len) -> free_block_no fs a = Some i ->
  let a1 := take_bit (sb_block_bitmap_start fs) i a in
  extends fs (c_view a) (c_view a1) /\ same_env a a1 /\
  block_used fs (c_view a1) (sb_data_start fs + i) = true.
Proof.
  intros Hfs Hlen Hf a1. destruct (free_block_no_spec fs a i Hfs Hf) as (Hi & Hin & Hu).
  split_and!.
  - split.
    + intros b _ Hne. by apply take_bit_other.
    + intros b [Hb1 Hb2] Hb. unfold a1, block_used. rewrite take_bit_view by (done || lia).
      by case_decide.
    + intros b [Hb1 Hb2] _. apply take_bit_other. destruct Hfs. lia.
  - etrans; [apply same_env_touch|apply same_env_put].
  - unfold a1, block_used. rewrite take_bit_view by (done || lia). case_decide; [done|lia].
Qed.

(** Writing a block that is free in [v0]. *)
Lemma extends_put fs v0 a b c :
  wf_fs fs -> in_data fs b -> block_used fs v0 b = false ->
  extends fs v0 (c_view a) -> extends fs v0 (c_view (put b c (touch b a))).
Proof.
  intros Hfs [Hb1 Hb2] Hfree [M U D]. destruct Hfs. split; cbn [put touch c_view].
  - intros b' Hb' Hne. rewrite decide_False by lia. by apply M.
  - intros b' Hb' Hu. unfold block_used in *. cbn [put touch c_view].
    rewrite decide_False by lia. by apply U.
  - intros b' Hb' Hu. rewrite decide_False by congruence. by apply D.
Qed.

(** ** The list of blocks *)

Lemma dir_blocks_zeros k : dir_blocks (replicate k 0) = [].
Proof. by destruct k. Qed.

Lemma dir_blocks_app bs l : 0 ∉ bs -> dir_blocks (bs ++ l) = bs ++ dir_blocks l.
Proof.
  induction bs as [|b bs IH]; intros Hn; [done|]. cbn [app dir_blocks].
  rewrite (proj2 (Z.eqb_neq b 0)) by set_solver. by rewrite IH by set_solver.
Qed.

Lemma dir_blocks_nonzero l : 0 ∉ dir_blocks l.
Proof.
  induction l as [|b l IH]; cbn [dir_blocks]; [set_solver|].
  destruct (Z.eqb_spec b 0); set_solver.
Qed.

(** The inode with one block more. *)
Lemma blocks_append l k nb :
  l = dir_blocks l ++ replicate (S k) 0 -> nb <> 0 ->
  <[length (dir_blocks l) := nb]> l = (dir_blocks l ++ [nb]) ++ replicate k 0 /\
  dir_blocks (<[length (dir_blocks l) := nb]> l) = dir_blocks l ++ [nb].
Proof.
  intros Hl Hnb. assert (E : <[length (dir_blocks l) := nb]> l = (dir_blocks l ++ [nb]) ++ replicate k 0).
  { rewrite Hl at 2. rewrite <-(Nat.add_0_r (length _)), insert_app_r. cbn [replicate].
    by rewrite <-app_assoc. }
  split; [done|]. rewrite E, dir_blocks_app, dir_blocks_zeros, app_nil_r; [done|].
  intros [Hz|Hz]%elem_of_app; [by apply (dir_blocks_nonzero l)|set_solver].
Qed.

(** ** A directory grows *)

Lemma wf_inode_at fs v ino : wf_inode (inode_at fs v ino).
Proof. unfold inode_at. destruct (inode_location fs ino). apply wf_decode_inode. Qed.

Lemma wf_set_dir_block i k nb :
  wf_inode i -> 0 <= nb < 2 ^ 64 -> wf_inode (set_dir_block k nb i).
Proof.
  intros [H32 H64 Hb Hn] Hnb. split; cbn [set_dir_block i_mode i_nlink i_uid i_gid i_size i_atime
    i_mtime i_ctime i_blocks]; [done| | |by rewrite length_insert].
  - apply Forall_cons in H64 as [_ H64]. apply Forall_cons. split; [apply u64_range|done].
  - by apply Forall_insert.
Qed.

Section grow.
Context (fs : logfs_super) (v : Z -> block) (a2 : contents) (ino nb : Z).
Context (name : list byte) (x : Z * Z).
Let inode' := set_dir_block (length (blocks_of fs v ino)) nb (inode_at fs v ino).
Let v2 := c_view a2.
Let v3 := c_view (write_inode fs ino inode' a2).
Hypothesis Hfs : wf_fs fs.
Hypothesis Hdir : wf_dir fs v ino.
Hypothesis Hext : extends fs v v2.
Hypothesis Hlen : forall b, length (v2 b) = block_len.
Hypothesis Hnb : in_data fs nb.
Hypothesis Hfree : block_used fs v nb = false.
Hypothesis Hused : block_used fs v2 nb = true.
Hypothesis Hroom : (length (blocks_of fs v ino) < Z.to_nat LOGFS_NDIR_BLOCKS)%nat.
Hypothesis Hes : block_entries (v2 nb) ≡ₚ [(name, x)].
Hypothesis Hwf : wf_dir_block (v2 nb).
Hypothesis Hnone : the_dir fs v ino !! name = None.

Let Hin : in_table fs ino := dir_table _ _ _ Hdir.

Lemma grow_wf_inode : wf_inode inode'.
Proof.
  apply wf_set_dir_block; [apply wf_inode_at|]. destruct Hfs, Hnb. lia.
Qed.

Lemma grow_inode ino' :
  in_table fs ino' ->
  inode_at fs v3 ino' = if decide (ino = ino') then inode' else inode_at fs v ino'.
Proof.
  intros Hin'. unfold v3. rewrite inode_at_write by (done || apply grow_wf_inode).
  by rewrite (extends_inode fs v (c_view a2)).
Qed.

Lemma grow_other b :
  ~ (sb_inode_table_start fs <= b < sb_data_start fs) -> v3 b = v2 b.
Proof. apply write_inode_other; done. Qed.

Lemma grow_used b : block_used fs v3 b = block_used fs v2 b.
Proof. unfold block_used. rewrite grow_other; [done|]. destruct Hfs. lia. Qed.

Lemma grow_blocks :
  blocks_of fs v3 ino = blocks_of fs v ino ++ [nb] /\
  exists k, i_blocks inode' = blocks_of fs v ino ++ nb :: replicate k 0.
Proof.
  destruct (dir_holes _ _ _ Hdir) as [k Hk]. pose proof (wi_nblocks _ (wf_inode_at fs v ino)) as Hn.
  destruct k as [|k]; [exfalso; rewrite Hk, app_nil_r in Hn; lia|].
  destruct (blocks_append _ k nb Hk) as [E1 E2]; [destruct Hfs, Hnb; lia|].
  unfold blocks_of at 1. rewrite grow_inode, decide_True by done.
  split; [exact E2|]. exists k. cbn [inode' set_dir_block i_blocks].
  unfold inode', blocks_of in *. cbn [set_dir_block i_blocks]. by rewrite E1, <-app_assoc.
Qed.

Lemma grow_data b : b ∈ blocks_of fs v ino -> v3 b = v b /\ b <> nb.
Proof.
  intros Hb. pose proof (dir_data _ _ _ Hdir) as Hd. rewrite Forall_forall in Hd.
  destruct (Hd b Hb) as [Hbd Hbu]. split; [|congruence].
  rewrite grow_other by (destruct Hbd; lia). by apply (ext_data _ _ _ Hext).
Qed.

Lemma grow_entries :
  dir_entries v3 (i_blocks (inode_at fs v3 ino))
  ≡ₚ (name, x) :: dir_entries v (i_blocks (inode_at fs v ino)).
Proof.
  unfold dir_entries. change (dir_blocks (i_blocks (inode_at fs v3 ino))) with (blocks_of fs v3 ino).
  rewrite (proj1 grow_blocks), map_app, concat_app. cbn [map concat].
  rewrite app_nil_r, (grow_other nb) by (destruct Hnb; lia). rewrite Hes.
  replace (map (fun b => block_entries (v3 b)) (blocks_of fs v ino))
    with (map (fun b => block_entries (v b)) (blocks_of fs v ino)).
  - symmetry. apply Permutation_cons_append.
  - apply map_ext_in. intros b Hb%list_elem_of_In. by rewrite (proj1 (grow_data b Hb)).
Qed.

Lemma grow_dir :
  dir_frame fs ino v v3 /\ wf_dir fs v3 ino /\ the_dir fs v3 ino = <[name := x]> (the_dir fs v ino).
Proof.
  destruct (dir_map_insert _ _ name x (dir_names _ _ _ Hdir) Hnone grow_entries) as [Hnd Hmap].
  destruct grow_blocks as [Hbs [k Hk]]. pose proof Hdir as [_ H2 _ H4 H5 H6 _].
  split_and!; [split|split|done].
  - intros ino' Hin' Hne. rewrite grow_inode, decide_False by congruence. done.
  - rewrite grow_inode, decide_True by done. by repeat split.
  - rewrite grow_other by (destruct Hfs; lia). destruct Hfs. apply (ext_meta _ _ _ Hext); lia.
  - intros b Hb Hu. rewrite grow_used. by apply (ext_used _ _ _ Hext).
  - intros b Hb Hu _. rewrite grow_other by (destruct Hb; lia). by apply (ext_data _ _ _ Hext).
  - intros b. rewrite Hbs. intros [Hb|Hb%list_elem_of_singleton]%elem_of_app; [by left|].
    right. by subst b.
  - done.
  - rewrite grow_inode, decide_True by done. exact H2.
  - rewrite Hbs. rewrite grow_inode, decide_True by done. exists k. by rewrite Hk, <-app_assoc.
  - rewrite Hbs. apply Forall_app_2; [|apply Forall_singleton; split; [done|by rewrite grow_used]].
    eapply Forall_impl; [exact H4|]. intros b [Hb Hu]. split; [done|]. rewrite grow_used.
    by apply (ext_used _ _ _ Hext).
  - rewrite Hbs. apply NoDup_app. split_and!; [done| |apply NoDup_singleton].
    intros b Hb ->%list_elem_of_singleton. by destruct (grow_data nb Hb).
  - rewrite Hbs. apply Forall_app_2.
    + rewrite Forall_forall in *. intros b Hb. rewrite (proj1 (grow_data b Hb)). by apply H6.
    + apply Forall_singleton. by rewrite grow_other by (destruct Hnb; lia).
  - done.
Qed.
End grow.

(** ** [logfs_dir_add] *)

(** How adding an entry may end: with the entry in the map, or with a full
    directory or disk, or a failed call, and the map as it was. *)
Definition add_post (fs : logfs_super) (ino : Z) (name : list byte) (x : Z * Z) (a : contents)
    (r : result unit) (a' : contents) : Prop :=
  same_env a a' /\ dir_frame fs ino (c_view a) (c_view a') /\ wf_dir fs (c_view a') ino /\
  match r with
  | Ok _ => the_dir fs (c_view a') ino = <[name := x]> (the_dir fs (c_view a) ino)
  | Err rc => the_dir fs (c_view a') ino = the_dir fs (c_view a) ino /\
              (rc = - ENOSPC \/ c_calm a = false /\ rc < 0)
  end.

Lemma add_post_extends fs ino name x a a' rc :
  wf_fs fs -> wf_dir fs (c_view a) ino -> same_env a a' -> extends fs (c_view a) (c_view a') ->
  (rc = - ENOSPC \/ c_calm a = false /\ rc < 0) ->
  add_post fs ino name x a (Err rc) a'.
Proof.
  intros Hfs Hd Hse He Hrc. destruct (extends_dir _ _ _ _ Hfs He Hd) as [Hd' Hm].
  split_and!; [done|by apply extends_frame, He; try apply Hd|done|done|done].
Qed.

(** The first block of entries: one entry. *)
Lemma fresh_block_entries d x :
  wf_dirent d -> entry_of d = Some x -> 1 <= de_name_len d <= LOGFS_NAME_MAX ->
  let c := put_dirent 0 d zero_block in
  block_entries c ≡ₚ [x] /\ wf_dir_block c /\ length c = block_len.
Proof.
  intros Hd Hx Hn c. assert (Hz : (0 < slots_per_block)%nat) by (rewrite slots_per_block_eq; lia).
  assert (Hz0 : forall e, (e < slots_per_block)%nat -> de_ino (dirent_at zero_block e) = 0).
  { assert (Hall : forallb (fun e => de_ino (dirent_at zero_block e) =? 0) (seq 0 slots_per_block) = true)
      by (vm_compute; reflexivity).
    rewrite forallb_forall in Hall. intros e He. apply Z.eqb_eq, Hall, in_seq. lia. }
  split_and!.
  - assert (E0 : block_entries zero_block = []) by (vm_compute; reflexivity).
    rewrite <-E0. apply block_entries_add; [done|apply length_zero_block|done| |done].
    unfold entry_of. by rewrite Hz0.
  - apply wf_dir_block_put; [done|apply length_zero_block|done| |done].
    intros e He Hne. by rewrite Hz0 in Hne.
  - apply length_put_dirent; [done|apply length_zero_block|done].
Qed.

(** Block bit [i] taken and the block filled. *)
Definition fresh_block (fs : logfs_super) (i : Z) (c : block) (a : contents) : contents :=
  let nb := sb_data_start fs + i in
  put nb c (touch nb (take_bit (sb_block_bitmap_start fs) i a)).

Lemma fresh_block_facts fs i c a :
  wf_fs fs -> (forall b, length (c_view a b) = block_len) -> free_block_no fs a = Some i ->
  length c = block_len ->
  let nb := sb_data_start fs + i in
  let a2 := fresh_block fs i c a in
  extends fs (c_view a) (c_view a2) /\ same_env a a2 /\ c_view a2 nb = c /\
  block_used fs (c_view a2) nb = true /\ (forall b, length (c_view a2 b) = block_len).
Proof.
  intros Hfs Hlen Hi Hlc nb a2.
  destruct (free_block_no_spec fs a i Hfs Hi) as (Hir & Hin & Hfree).
  destruct (extends_alloc fs a i Hfs Hlen Hi) as (He1 & Hse1 & Hu1).
  assert (Hlen1 : forall b, length (c_view (take_bit (sb_block_bitmap_start fs) i a) b) = block_len).
  { intros b. cbn [take_bit put touch c_view]. case_decide; [by rewrite length_set_bit|done]. }
  split_and!.
  - by apply extends_put.
  - etrans; [exact Hse1|]. etrans; [apply same_env_touch|apply same_env_put].
  - unfold a2, fresh_block. cbn [put touch c_view]. by rewrite decide_True.
  - unfold a2, fresh_block, block_used in *. cbn [put touch c_view].
    rewrite decide_False; [exact Hu1|]. destruct Hfs, Hin. lia.
  - intros b. unfold a2, fresh_block. cbn [put touch c_view]. case_decide; [done|apply Hlen1].
Qed.

Section add.
Context {S : Type} `{TxnLaws S} (fs : logfs_super) (Hfs : wf_fs fs).
Context (a : contents) (h dino ino type : Z) (name : list byte).
Hypothesis Hb : fs_blocks fs a.
Hypothesis Hh : h = c_gen a.
Hypothesis Hdir : wf_dir fs (c_view a) dino.
Hypothesis Hname : bad_name name = false.
Hypothesis Hino : 0 < ino < 2 ^ 32.
Hypothesis Htype : 0 <= type < 2 ^ 8.
Hypothesis Hnone : the_dir fs (c_view a) dino !! name = None.
Hypothesis Hlen : forall b, length (c_view a b) = block_len.

Abbreviation post := (add_post fs dino name (ino, type) a).

Lemma add_post_same rc : c_calm a = false -> rc < 0 -> post (Err rc) a.
Proof. intros Hc Hrc. apply add_post_extends; [done|done|done|apply extends_refl|by right]. Qed.

Lemma dir_add_block_spec :
  (length (blocks_of fs (c_view a) dino) < Z.to_nat LOGFS_NDIR_BLOCKS)%nat ->
  triple rep a
    (dir_add_block h fs dino (inode_at fs (c_view a) dino) name ino type
       (length (blocks_of fs (c_view a) dino))) post.
Proof.
  intros Hroom. unfold dir_add_block. apply triple_bind.
  eapply triple_wand; [apply (alloc_block_spec fs Hfs a h Hb Hh)|].
  unfold alloc_outcome. destruct (free_block_no fs a) as [i|] eqn:Hi.
  2: { intros r a1 [[-> ->]|[(Hc & rc & Hrc & ->) ->]]; [|by apply add_post_same].
       apply add_post_extends; [done|done|apply same_env_touch|by apply extends_refl|by left]. }
  intros r a1 [[-> ->]|[(Hc & rc & Hrc & ->) ->]]; [|by apply add_post_same].
  destruct (free_block_no_spec fs a i Hfs Hi) as (Hir & Hin & Hfree).
  destruct (extends_alloc fs a i Hfs Hlen Hi) as (He1 & Hse1 & _).
  pose proof (wf_dirent_at zero_block 0 ltac:(rewrite length_zero_block; blia)) as Hz.
  destruct (new_dirent_wf _ name ino type Hz Hname Hino Htype) as (Hd & Hx & Hnl).
  destruct (fresh_block_entries _ _ Hd Hx Hnl) as (Hes & Hwf & Hlc).
  destruct (fresh_block_facts fs i _ a Hfs Hlen Hi Hlc) as (He2 & Hse2 & Hview & Hu2 & Hlen2).
  unfold fresh_block in *. set (c := put_dirent 0 _ zero_block) in *.
  set (a1 := take_bit _ _ a) in *. set (nb := sb_data_start fs + i) in *.
  assert (Hblk : c_block a1 nb) by (rewrite (se_block _ _ Hse1); by eapply data_client).
  apply triple_access; [done|by rewrite (se_gen _ _ Hse1)| |].
  { intros rc Hc Hrc. rewrite (se_calm _ _ Hse1) in Hc. apply add_post_extends; [done..|by right]. }
  apply triple_store; [auto with txn|done|]. apply triple_dirty; [auto with txn|].
  set (a2 := put nb c (touch nb a1)) in *. rewrite <-Hview in Hes, Hwf.
  assert (Hb2 : fs_blocks fs a2) by (intros b; rewrite (se_block _ _ Hse2); apply Hb).
  pose proof (grow_dir fs (c_view a) a2 dino nb name (ino, type) Hfs Hdir He2 Hlen2 Hin Hfree Hu2
    Hroom Hes Hwf Hnone) as (Hfr & Hd' & Hm).
  eapply triple_outcome_last.
  - apply (inode_write_spec fs Hfs a2 h dino); [done|by apply Hdir|by rewrite (se_gen _ _ Hse2)|].
    by apply grow_wf_inode.
  - intros rc Hc Hrc. rewrite (se_calm _ _ Hse2) in Hc. apply add_post_extends; [done..|by right].
  - split_and!; [|done..]. etrans; [exact Hse2|]. unfold write_inode.
    destruct (inode_location fs dino). etrans; [apply same_env_touch|apply same_env_put].
Qed.

(** An entry written into a free slot of one of the directory's blocks. *)
Lemma dir_add_slot_spec b e :
  b ∈ blocks_of fs (c_view a) dino -> (e < slots_per_block)%nat ->
  entry_free (c_view a b) e = true ->
  triple rep a
    (wbuf ← txn_get_write_access h b;
     txn_store b (put_dirent e (new_dirent (dirent_at wbuf e) name ino type) wbuf) ;;
     txn_dirty_metadata h b) post.
Proof.
  intros Hin He Hfree. pose proof (dir_data_client fs a dino Hfs Hb Hdir) as Hc.
  rewrite Forall_forall in Hc. destruct (Hc b Hin) as [Hcb _].
  assert (Hat : wf_dirent (dirent_at (c_view a b) e)).
  { apply wf_dirent_at. rewrite Hlen. rewrite slots_per_block_eq in He. blia. }
  destruct (new_dirent_wf _ name ino type Hat Hname Hino Htype) as (Hd & Hx & Hnl).
  apply triple_access; [done|done|apply add_post_same|].
  apply triple_store; [auto with txn|by apply length_put_dirent|].
  apply triple_dirty_last; [auto with txn|].
  destruct (slot_facts fs a dino b e _ Hfs Hdir Hin He Hd Hlen (fun _ => Hnl)) as (Hse & Hfr & _ & _).
  destruct (fill_slot fs a dino b e _ Hfs Hdir Hin He Hd Hlen (fun _ => Hnl) name (ino, type)
    (entry_free_none _ _ Hfree) Hx Hnone) as [Hwf Hm].
  by split_and!.
Qed.

Lemma dir_add_loop_spec k n :
  (k <= length (blocks_of fs (c_view a) dino))%nat ->
  (k + n = Z.to_nat LOGFS_NDIR_BLOCKS)%nat ->
  triple rep a (dir_add_loop h fs dino (inode_at fs (c_view a) dino) name ino type k n) post.
Proof.
  set (bs := blocks_of fs (c_view a) dino). destruct (dir_holes _ _ _ Hdir) as [z Hz].
  revert k. induction n as [|n IH]; intros k Hk Hkn; cbn [dir_add_loop].
  { apply triple_fail. apply add_post_extends; [done|done|done|apply extends_refl|by left]. }
  destruct (decide (k = length bs)) as [->|Hne].
  - assert (Hzero : nth (length bs) (i_blocks (inode_at fs (c_view a) dino)) 0 = 0).
    { rewrite Hz, app_nth2, Nat.sub_diag by (unfold bs; lia). by destruct z. }
    rewrite Hzero. apply dir_add_block_spec. fold bs. lia.
  - destruct (lookup_lt_is_Some_2 bs k ltac:(lia)) as [b Hbk].
    assert (Hnth : nth k (i_blocks (inode_at fs (c_view a) dino)) 0 = b).
    { rewrite Hz, app_nth1 by (fold bs; lia). by apply (nth_lookup_Some bs k 0 b). }
    pose proof (list_elem_of_lookup_2 _ _ _ Hbk) as Hin. rewrite Hnth.
    pose proof (dir_data_client fs a dino Hfs Hb Hdir) as Hc.
    rewrite Forall_forall in Hc. destruct (Hc b Hin) as [Hcb _].
    assert (Hb0 : b <> 0) by (intros ->; by apply (dir_blocks_nonzero _ Hin)).
    rewrite (proj2 (Z.eqb_neq _ _) Hb0). apply triple_read; [done|apply add_post_same|].
    pose proof (find_slot_spec (entry_free (c_view a b)) 0 slots_per_block) as Hs.
    destruct (find_slot _ 0 slots_per_block) as [e|]; [|apply IH; lia].
    destruct Hs as (He & Hfree & _). apply dir_add_slot_spec; [done|lia|done].
Qed.
End add.

Section dir_add.
Context {S : Type} `{TxnLaws S} (fs : logfs_super) (Hfs : wf_fs fs).

(** An absent name is added, or the call fails and the map is as it was. *)
Lemma dir_add_spec a h dino name ino type :
  fs_blocks fs a -> h = c_gen a -> wf_dir fs (c_view a) dino -> bad_name name = false ->
  0 < ino < 2 ^ 32 -> 0 <= type < 2 ^ 8 -> the_dir fs (c_view a) dino !! name = None ->
  triple rep a (logfs_dir_add h fs dino name ino type) (add_post fs dino name (ino, type) a).
Proof.
  intros Hb Hh Hdir Hname Hino Htype Hnone. apply triple_whole. intros Hlen. unfold logfs_dir_add.
  eapply triple_outcome; [apply (inode_read_spec fs Hfs a dino Hb), Hdir|by apply add_post_same|].
  rewrite (dir_isdir _ _ _ Hdir), Hname. cbn [negb].
  apply triple_bind, triple_attempt.
  eapply triple_wand; [apply (dir_lookup_spec fs Hfs a dino name Hb Hdir Hname)|].
  rewrite Hnone. intros r a' [-> Hr]. assert (Hno : is_ok r = false).
  { destruct Hr as [->|(_ & rc & _ & ->)]; done. }
  rewrite Hno. apply dir_add_loop_spec; done || lia.
Qed.

(** A present name is refused, when it can be looked up. *)
Lemma dir_add_exists a h dino name ino type x :
  fs_blocks fs a -> wf_dir fs (c_view a) dino -> bad_name name = false -> c_calm a = true ->
  the_dir fs (c_view a) dino !! name = Some x ->
  triple rep a (logfs_dir_add h fs dino name ino type) (fun r a' => r = Err (- EEXIST) /\ a' = a).
Proof.
  intros Hb Hdir Hname Hcalm Hsome. unfold logfs_dir_add.
  eapply triple_outcome; [apply (inode_read_spec fs Hfs a dino Hb), Hdir|by rewrite Hcalm|].
  rewrite (dir_isdir _ _ _ Hdir), Hname. cbn [negb].
  apply triple_bind, triple_attempt.
  eapply triple_wand; [apply (dir_lookup_spec fs Hfs a dino name Hb Hdir Hname)|].
  rewrite Hsome. intros r a' [-> [->|[Hc _]]]; [by apply triple_fail|by rewrite Hcalm in Hc].
Qed.
End dir_add.

(** ** [logfs_dir_remove] *)

Definition remove_post (fs : logfs_super) (ino : Z) (name : list byte) (a : contents)
    (r : result unit) (a' : contents) : Prop :=
  same_env a a' /\ dir_frame fs ino (c_view a) (c_view a') /\ wf_dir fs (c_view a') ino /\
  same_bitmaps fs (c_view a) (c_view a') /\
  match r with
  | Ok _ => the_dir fs (c_view a) ino !! name <> None /\
            the_dir fs (c_view a') ino = delete name (the_dir fs (c_view a) ino)
  | Err rc => the_dir fs (c_view a') ino = the_dir fs (c_view a) ino /\
              (rc = - ENOENT /\ the_dir fs (c_view a) ino !! name = None \/
               c_calm a = false /\ rc < 0)
  end.

Section remove.
Context {S : Type} `{TxnLaws S} (fs : logfs_super) (Hfs : wf_fs fs).
Context (a : contents) (h dino : Z) (name : list byte).
Hypothesis Hb : fs_blocks fs a.
Hypothesis Hh : h = c_gen a.
Hypothesis Hdir : wf_dir fs (c_view a) dino.
Hypothesis Hlen : forall b, length (c_view a b) = block_len.

Abbreviation post := (remove_post fs dino name a).

Lemma remove_post_same rc :
  rc = - ENOENT /\ the_dir fs (c_view a) dino !! name = None \/ c_calm a = false /\ rc < 0 ->
  post (Err rc) a.
Proof. intros Hrc. split_and!; [done|apply dir_frame_refl|done|done|done|done]. Qed.

Lemma dir_remove_slot_spec b e :
  b ∈ blocks_of fs (c_view a) dino -> (e < slots_per_block)%nat ->
  entry_is name (c_view a b) e = true ->
  triple rep a
    (wbuf ← txn_get_write_access h b;
     txn_store b (put_dirent e (set_ino 0 (dirent_at wbuf e)) wbuf) ;;
     txn_dirty_metadata h b) post.
Proof.
  intros Hin He Hent. pose proof (dir_data_client fs a dino Hfs Hb Hdir) as Hc.
  rewrite Forall_forall in Hc. destruct (Hc b Hin) as [Hcb Hwfb].
  destruct (proj1 (entry_is_spec name _ e Hwfb (Hlen b) He) Hent) as [x Hx].
  assert (Hd : wf_dirent (set_ino 0 (dirent_at (c_view a b) e))).
  { destruct (wf_dirent_at (c_view a b) e) as [? ? ? ? ?];
      [rewrite Hlen; rewrite slots_per_block_eq in He; blia|]. by split. }
  apply triple_access; [done|done|intros; apply remove_post_same; by right|].
  apply triple_store; [auto with txn|by apply length_put_dirent|].
  apply triple_dirty_last; [auto with txn|].
  assert (Hnl : de_ino (set_ino 0 (dirent_at (c_view a b) e)) <> 0 ->
    1 <= de_name_len (set_ino 0 (dirent_at (c_view a b) e)) <= LOGFS_NAME_MAX) by done.
  destruct (slot_facts fs a dino b e _ Hfs Hdir Hin He Hd Hlen Hnl) as (Hse & Hfr & _ & _).
  destruct (clear_slot fs a dino b e _ Hfs Hdir Hin He Hd Hlen Hnl name x Hx eq_refl) as [Hwf Hm].
  assert (Hbm : same_bitmaps fs (c_view a) (c_view (put b (put_dirent e (set_ino 0 (dirent_at (c_view a b) e)) (c_view a b)) (touch b a)))).
  { pose proof (dir_data _ _ _ Hdir) as Hdata. rewrite Forall_forall in Hdata.
    destruct (Hdata b Hin) as [[? ?] _], Hfs. split; cbn [put touch c_view]; by rewrite decide_False by lia. }
  split_and!; try done. unfold the_dir, dir_map.
  intros Hn%not_elem_of_list_to_map_2. apply Hn. apply (list_elem_of_fmap_2 fst _ (name, x)).
  unfold dir_entries. apply list_elem_of_In, in_concat.
  exists (block_entries (c_view a b)). split.
  - apply in_map_iff. exists b. split; [done|]. by apply list_elem_of_In.
  - apply list_elem_of_In, list_elem_of_omap. exists e. split; [|done].
    apply elem_of_seq. lia.
Qed.

Lemma dir_remove_loop_spec bs blocks :
  (exists l, blocks_of fs (c_view a) dino = l ++ dir_blocks blocks) ->
  (dir_map (c_view a) blocks !! name = None -> the_dir fs (c_view a) dino !! name = None) ->
  bs = blocks ->
  triple rep a (dir_remove_loop h name blocks) post.
Proof.
  intros Hl Hnone ->. revert Hl Hnone.
  induction blocks as [|b blocks IH]; intros [l Hl] Hnone; cbn [dir_remove_loop].
  { apply triple_fail, remove_post_same. left. split; [done|]. by apply Hnone. }
  unfold dir_map, dir_entries in Hnone. cbn [dir_blocks] in *.
  destruct (b =? 0).
  { apply triple_fail, remove_post_same. left. split; [done|]. by apply Hnone. }
  assert (Hin : b ∈ blocks_of fs (c_view a) dino) by (rewrite Hl; set_solver).
  pose proof (dir_data_client fs a dino Hfs Hb Hdir) as Hc.
  rewrite Forall_forall in Hc. destruct (Hc b Hin) as [Hcb Hwfb].
  cbn [map concat] in Hnone. rewrite list_to_map_app, lookup_union, block_lookup in Hnone by done.
  apply triple_read; [done|intros; apply remove_post_same; by right|].
  pose proof (find_slot_spec (entry_is name (c_view a b)) 0 slots_per_block) as Hs.
  destruct (find_slot _ 0 slots_per_block) as [e|].
  - destruct Hs as (He & Hent & _). apply dir_remove_slot_spec; [done|lia|done].
  - rewrite option_union_left_id in Hnone. apply IH; [|done].
    exists (l ++ [b]). by rewrite Hl, <-app_assoc.
Qed.
End remove.

Section dir_remove.
Context {S : Type} `{TxnLaws S} (fs : logfs_super) (Hfs : wf_fs fs).

Lemma dir_remove_spec a h dino name :
  fs_blocks fs a -> h = c_gen a -> wf_dir fs (c_view a) dino ->
  triple rep a (logfs_dir_remove h fs dino name) (remove_post fs dino name a).
Proof.
  intros Hb Hh Hdir. apply triple_whole. intros Hlen. unfold logfs_dir_remove.
  eapply triple_outcome; [apply (inode_read_spec fs Hfs a dino Hb), Hdir| |].
  { intros rc Hc Hrc. apply remove_post_same; [done|by right]. }
  rewrite (dir_isdir _ _ _ Hdir). cbn [negb].
  eapply dir_remove_loop_spec; try done. by exists [].
Qed.
End dir_remove.
