(* ===== verification/InodeWalk.v ===== *)
(** The read-only walks: [logfs_dir_is_empty] decides whether a directory has
    no entry but "." and "..", and [logfs_path_lookup] resolves a path the way
    the abstract tree does. *)

From S2P Require Import Prelude.
From S2P Require Import Bytes.
From S2P Require Import DiskFormat.
From S2P Require Import TxnApi.
From S2P Require Import FsFormat.
From S2P Require Import Inode.
From S2P Require Import InodeSpec.
From S2P Require Import InodeDir.
From S2P Require Import InodeDirSpec.

(** ** [logfs_dir_is_empty] *)

(** The names every directory has. *)
Definition dot : list byte := [Byte.x2e].
Definition dotdot : list byte := [Byte.x2e; Byte.x2e].

(** No name but "." and "..". *)
Definition dir_vacant (m : gmap (list byte) (Z * Z)) : Prop :=
  forall name x, m !! name = Some x -> name = dot \/ name = dotdot.

Lemma take_name_1 (l : list byte) : length l = 56%nat ->
  take 1 l = dot <-> nth 0 l Byte.x00 = Byte.x2e.
Proof. intros Hl. destruct l as [|c l]; [done|]. cbn. unfold dot. by split; [intros [= ->]|intros ->]. Qed.

Lemma take_name_2 (l : list byte) : length l = 56%nat ->
  take 2 l = dotdot <-> nth 0 l Byte.x00 = Byte.x2e /\ nth 1 l Byte.x00 = Byte.x2e.
Proof.
  intros Hl. destruct l as [|c [|c' l]]; [done..|]. cbn. unfold dotdot. split.
  - by intros [= -> ->].
  - by intros [-> ->].
Qed.

(** The test on one slot: live, and neither "." nor "..". *)
Definition other_entry (buf : block) (e : nat) : bool :=
  negb (entry_free buf e) && negb (is_dot buf e) && negb (is_dotdot buf e).

Lemma dot_spec buf e :
  length buf = block_len -> (e < slots_per_block)%nat ->
  let d := dirent_at buf e in
  (is_dot buf e = true <-> de_name_len d = 1 /\ take 1 (de_name d) = dot) /\
  (is_dotdot buf e = true <-> de_name_len d = 2 /\ take 2 (de_name d) = dotdot).
Proof.
  rewrite slots_per_block_eq. intros Hl He d.
  pose proof (wf_dirent_at buf e ltac:(rewrite Hl; blia)) as [_ _ _ _ Hn]. fold d in Hn.
  unfold is_dot, is_dotdot. fold d. rewrite (take_name_1 _ Hn), (take_name_2 _ Hn).
  rewrite !andb_true_iff, !Z.eqb_eq, !bool_decide_eq_true. tauto.
Qed.

Lemma other_entry_spec buf e :
  wf_dir_block buf -> length buf = block_len -> (e < slots_per_block)%nat ->
  other_entry buf e = true <->
  exists name x, entry_of (dirent_at buf e) = Some (name, x) /\ name <> dot /\ name <> dotdot.
Proof.
  intros Hwf Hl He. destruct (dot_spec buf e Hl He) as [H1 H2].
  unfold other_entry, entry_free, entry_of in *.
  destruct (Z.eqb_spec (de_ino (dirent_at buf e)) 0) as [Hz|Hz]; cbn [negb andb].
  { split; [done|]. by intros (? & ? & ? & _). }
  specialize (Hwf e He Hz). unfold LOGFS_NAME_MAX in Hwf.
  pose proof Hl as Hl'. rewrite slots_per_block_eq in He.
  pose proof (wf_dirent_at buf e ltac:(rewrite Hl; blia)) as [_ _ _ _ Hn].
  set (d := dirent_at buf e) in *. rewrite andb_true_iff, !negb_true_iff.
  rewrite <-!not_true_iff_false, H1, H2.
  assert (Hdot : take (Z.to_nat (de_name_len d)) (de_name d) = dot <->
    de_name_len d = 1 /\ take 1 (de_name d) = dot).
  { split; [|by intros [-> ?]]. intros E. assert (Hk : de_name_len d = 1).
    { apply (f_equal length) in E. rewrite length_take, Hn in E. change (length dot) with 1%nat in E. lia. }
    rewrite Hk in E. done. }
  assert (Hdd : take (Z.to_nat (de_name_len d)) (de_name d) = dotdot <->
    de_name_len d = 2 /\ take 2 (de_name d) = dotdot).
  { split; [|by intros [-> ?]]. intros E. assert (Hk : de_name_len d = 2).
    { apply (f_equal length) in E. rewrite length_take, Hn in E. change (length dotdot) with 2%nat in E. lia. }
    rewrite Hk in E. done. }
  rewrite <-Hdot, <-Hdd. split; [|by intros (? & ? & [= <- _] & ? & ?)].
  intros [? ?]. eexists _, _. split; [reflexivity|done].
Qed.

(** The entries of a directory and its map. *)
Lemma the_dir_entries fs v ino name x :
  wf_dir fs v ino ->
  the_dir fs v ino !! name = Some x <-> (name, x) ∈ dir_entries v (i_blocks (inode_at fs v ino)).
Proof.
  intros Hd. unfold the_dir, dir_map. symmetry. apply elem_of_list_to_map, Hd.
Qed.

Lemma elem_of_dir_entries (v : Z -> block) blocks p :
  p ∈ dir_entries v blocks <->
  exists b e, b ∈ dir_blocks blocks /\ (e < slots_per_block)%nat /\
    entry_of (dirent_at (v b) e) = Some p.
Proof.
  unfold dir_entries. rewrite list_elem_of_In, in_concat. split.
  - intros (l & Hl & Hp). apply in_map_iff in Hl as (b & <- & Hb).
    apply list_elem_of_In, list_elem_of_omap in Hp as (e & He & Hp).
    apply elem_of_seq in He. exists b, e. split; [by apply list_elem_of_In|]. split; [lia|done].
  - intros (b & e & Hb & He & Hp). exists (block_entries (v b)). split.
    + apply in_map_iff. exists b. split; [done|]. by apply list_elem_of_In.
    + apply list_elem_of_In, list_elem_of_omap. exists e. split; [|done]. apply elem_of_seq. lia.
Qed.

Section is_empty.
Context {S : Type} `{TxnLaws S} (fs : logfs_super) (Hfs : wf_fs fs).

(** The answer of [logfs_dir_is_empty]. *)
Definition empty_outcome (a : contents) (dino : Z) (r : result Z) (a' : contents) : Prop :=
  a' = a /\
  (r = Ok 1 /\ dir_vacant (the_dir fs (c_view a) dino) \/
   r = Ok 0 /\ ~ dir_vacant (the_dir fs (c_view a) dino) \/ io_error a r).

Lemma dir_empty_loop_spec a dino blocks :
  fs_blocks fs a -> wf_dir fs (c_view a) dino ->
  (forall b, length (c_view a b) = block_len) ->
  (exists l, blocks_of fs (c_view a) dino = l ++ dir_blocks blocks /\
     forall b e, b ∈ l -> (e < slots_per_block)%nat -> other_entry (c_view a b) e = false) ->
  triple rep a (dir_empty_loop blocks) (empty_outcome a dino).
Proof.
  intros Hb Hd Hlen. pose proof (dir_data_client fs a dino Hfs Hb Hd) as Hc.
  rewrite Forall_forall in Hc.
  assert (Hdone : (forall b e, b ∈ blocks_of fs (c_view a) dino -> (e < slots_per_block)%nat ->
    other_entry (c_view a b) e = false) -> dir_vacant (the_dir fs (c_view a) dino)).
  { intros Hall name x Hx%the_dir_entries; [|done].
    apply elem_of_dir_entries in Hx as (b & e & Hin & He & Hx).
    pose proof (other_entry_spec _ e (proj2 (Hc b Hin)) (Hlen b) He) as Hs.
    rewrite (Hall b e Hin He) in Hs.
    destruct (decide (name = dot)); [by left|]. destruct (decide (name = dotdot)); [by right|].
    assert (false = true); [|done]. apply Hs. by exists name, x. }
  induction blocks as [|b blocks IH]; intros (l & Hl & Hprev); cbn [dir_empty_loop dir_blocks] in *.
  { apply triple_ret. split; [done|]. left. split; [done|]. apply Hdone.
    intros b e Hin. apply Hprev. by rewrite Hl, app_nil_r in Hin. }
  destruct (b =? 0).
  { apply triple_ret. split; [done|]. left. split; [done|]. apply Hdone.
    intros b' e Hin. apply Hprev. by rewrite Hl, app_nil_r in Hin. }
  assert (Hin : b ∈ blocks_of fs (c_view a) dino) by (rewrite Hl; set_solver).
  destruct (Hc b Hin) as [Hcb Hwfb]. apply triple_read; [done| |].
  { intros rc Hcalm Hrc. split; [done|]. right. right. split; [done|]. by exists rc. }
  pose proof (find_slot_spec (other_entry (c_view a b)) 0 slots_per_block) as Hs.
  unfold other_entry at 1 in Hs. destruct (find_slot _ 0 slots_per_block) as [e|].
  - destruct Hs as (He & Hent & _). apply triple_ret. split; [done|]. right. left. split; [done|].
    apply other_entry_spec in Hent as (name & x & Hx & Hn1 & Hn2); [|done|done|lia].
    intros Hv. destruct (Hv name x); [|done|done]. apply the_dir_entries; [done|].
    apply elem_of_dir_entries. exists b, e. split; [done|]. split; [lia|done].
  - apply IH. exists (l ++ [b]). split; [by rewrite Hl, <-app_assoc|].
    intros b' e Hb' He. apply elem_of_app in Hb' as [Hb'|Hb'%list_elem_of_singleton]; [by apply Hprev|].
    subst b'. apply Hs. lia.
Qed.

Lemma dir_is_empty_spec a dino :
  fs_blocks fs a -> wf_dir fs (c_view a) dino ->
  triple rep a (logfs_dir_is_empty fs dino) (empty_outcome a dino).
Proof.
  intros Hb Hd. apply triple_whole. intros Hlen. unfold logfs_dir_is_empty.
  eapply triple_outcome; [apply (inode_read_spec fs Hfs a dino Hb), Hd| |].
  { intros rc Hc Hrc. split; [done|]. right. right. split; [done|]. by exists rc. }
  rewrite (dir_isdir _ _ _ Hd). cbn [negb].
  apply dir_empty_loop_spec; [done..|]. exists []. split; [done|]. set_solver.
Qed.
End is_empty.

(** ** Paths *)

(** The path cut at every slash. *)
Fixpoint split_path (path : list byte) : list (list byte) :=
  match path with
  | [] => [[]]
  | c :: rest =>
      if decide (c = slash) then [] :: split_path rest
      else match split_path rest with
           | w :: ws => (c :: w) :: ws
           | [] => [[c]]
           end
  end.

(** The names along the path: repeated slashes count once. *)
Definition components (path : list byte) : list (list byte) :=
  filter (fun w => w <> []) (split_path path).

Section walk.
Context (fs : logfs_super) (v : Z -> block).

(** The inode a list of names leads to, in the tree of directory maps. *)
Fixpoint resolve (cur : Z) (names : list (list byte)) : result Z :=
  match names with
  | [] => Ok cur
  | name :: names =>
      if LOGFS_NAME_MAX <? Z.of_nat (length name) then Err (- ENAMETOOLONG) else
      if negb (S_ISDIR (i_mode (inode_at fs v cur))) then Err (- ENOTDIR) else
      match the_dir fs v cur !! name with
      | Some x => resolve x.1 names
      | None => Err (- ENOENT)
      end
  end.

(** An inode the tree may name: in the table, and well-formed if it is a
    directory. *)
Definition wf_node (ino : Z) : Prop :=
  in_table fs ino /\ (S_ISDIR (i_mode (inode_at fs v ino)) = true -> wf_dir fs v ino).

(** A set of such inodes that has the root and is closed under the names of
    its directories. *)
Record wf_tree (live : Z -> Prop) : Prop := {
  tree_root : live (sb_root_ino fs);
  tree_nodes ino : live ino -> wf_node ino;
  tree_names dino name x :
    live dino -> wf_dir fs v dino -> the_dir fs v dino !! name = Some x -> live x.1;
}.
End walk.

Lemma split_path_cons path : split_path path <> [].
Proof.
  destruct path as [|c path]; [done|]. cbn [split_path]. case_decide; [done|].
  by destruct (split_path path).
Qed.

Lemma split_path_app comp rest :
  slash ∉ comp ->
  split_path (comp ++ rest)
  = match split_path rest with w :: ws => (comp ++ w) :: ws | [] => [comp] end.
Proof.
  induction comp as [|c comp IH]; intros Hc; cbn [app split_path].
  { pose proof (split_path_cons rest). by destruct (split_path rest). }
  rewrite decide_False by set_solver. rewrite IH by set_solver. by destruct (split_path rest).
Qed.

Lemma take_component_spec path comp rest :
  take_component path = (comp, rest) ->
  path = comp ++ rest /\ (slash ∉ comp) /\ (rest = [] \/ (exists rest', rest = slash :: rest')).
Proof.
  revert comp. induction path as [|c path IH]; intros comp; cbn [take_component].
  { intros [= <- <-]. split_and!; [done|set_solver|by left]. }
  destruct (decide (c = slash)) as [->|Hc].
  - rewrite bool_decide_true by done. intros [= <- <-]. split_and!; [done|set_solver|eauto].
  - rewrite bool_decide_false by done. destruct (take_component path) as [comp' rest'] eqn:E.
    intros [= <- <-]. destruct (IH comp' eq_refl) as (-> & Hn & Hr). split_and!; [done|set_solver|done].
Qed.

Lemma skip_slashes_spec path :
  components (skip_slashes path) = components path /\
  (length (skip_slashes path) <= length path)%nat /\
  (forall c rest, skip_slashes path = c :: rest -> c <> slash).
Proof.
  induction path as [|c path (IH1 & IH2 & IH3)]; cbn [skip_slashes]; [by split_and!|].
  destruct (decide (c = slash)) as [->|Hc].
  - rewrite bool_decide_true by done. split_and!; [|cbn [length]; lia|done].
    rewrite IH1. unfold components. cbn [split_path]. rewrite decide_True by done.
    by rewrite filter_cons_False by auto.
  - rewrite bool_decide_false by done. split_and!; [done|done|]. by intros c' rest [= -> _].
Qed.

(** One turn of the loop takes the first component off. *)
Lemma components_step path :
  match skip_slashes path with
  | [] => components path = []
  | p => let (comp, rest) := take_component p in
         components path = comp :: components rest /\ comp <> [] /\
         (length rest < length path)%nat
  end.
Proof.
  destruct (skip_slashes_spec path) as (H1 & H2 & H3).
  destruct (skip_slashes path) as [|c p] eqn:E; [by rewrite <-H1|].
  specialize (H3 c p eq_refl).
  destruct (take_component (c :: p)) as [comp rest] eqn:Et.
  assert (Hne : comp <> []).
  { cbn [take_component] in Et. rewrite bool_decide_false in Et by done.
    destruct (take_component p). by injection Et as <- _. }
  apply take_component_spec in Et as (Hp & Hn & Hr). split_and!; [|done|].
  - rewrite <-H1, Hp. unfold components. rewrite split_path_app by done.
    destruct Hr as [->|[rest' ->]]; cbn [split_path].
    + rewrite app_nil_r, filter_cons_True by done. by rewrite !filter_cons_False by auto.
    + rewrite decide_True, app_nil_r, filter_cons_True by done.
      by rewrite filter_cons_False by auto.
  - apply (f_equal length) in Hp. rewrite length_app in Hp.
    destruct comp; [done|]. cbn [length] in *. lia.
Qed.

Section path.
Context {S : Type} `{TxnLaws S} (fs : logfs_super) (Hfs : wf_fs fs).

(** The walk answers as the tree does, unless a call fails. *)
Definition walk_outcome (a : contents) (x : result Z) (r : result Z) (a' : contents) : Prop :=
  a' = a /\ (r = x \/ io_error a r).

Lemma path_walk_spec live a fuel cur path :
  fs_blocks fs a -> wf_tree fs (c_view a) live -> live cur ->
  (length path < fuel)%nat ->
  triple rep a (path_walk fuel fs cur path)
    (walk_outcome a (resolve fs (c_view a) cur (components path))).
Proof.
  intros Hb Htree. revert cur path. induction fuel as [|fuel IH]; intros cur path Hcur Hf; [lia|].
  cbn [path_walk]. pose proof (components_step path) as Hstep.
  destruct (skip_slashes path) as [|c p].
  { rewrite Hstep. apply triple_ret. split; [done|by left]. }
  destruct (take_component (c :: p)) as [comp rest]. destruct Hstep as (Hcs & Hne & Hlen).
  rewrite Hcs. cbn [resolve].
  destruct (LOGFS_NAME_MAX <? Z.of_nat (length comp)) eqn:Hmax.
  { apply triple_fail. split; [done|by left]. }
  assert (Hname : bad_name comp = false).
  { unfold bad_name. rewrite Hmax, orb_false_r. apply Z.eqb_neq. destruct comp; [done|]. cbn. lia. }
  destruct (tree_nodes _ _ _ Htree cur Hcur) as [Hin Hd]. apply triple_bind.
  destruct (S_ISDIR (i_mode (inode_at fs (c_view a) cur))) eqn:Hisdir; cbn [negb].
  - specialize (Hd eq_refl).
    eapply triple_wand; [apply (dir_lookup_spec fs Hfs a cur comp Hb Hd Hname)|].
    intros r a' [-> Hr]. destruct (the_dir fs (c_view a) cur !! comp) as [x|] eqn:Hx.
    + destruct Hr as [->|(Hc & rc & Hrc & ->)].
      * apply IH; [by eapply (tree_names _ _ _ Htree)|lia].
      * split; [done|]. right. split; [done|]. by exists rc.
    + destruct Hr as [->|(Hc & rc & Hrc & ->)]; (split; [done|]); [by left|].
      right. split; [done|]. by exists rc.
  - unfold logfs_dir_lookup.
    eapply triple_outcome; [apply (inode_read_spec fs Hfs a cur Hb Hin)| |].
    + intros rc Hc Hrc. split; [done|]. right. split; [done|]. by exists rc.
    + rewrite Hisdir. cbn [negb]. apply triple_fail. split; [done|by left].
Qed.

(** What a path names. *)
Definition resolve_path (v : Z -> block) (path : list byte) : result Z :=
  match path with
  | c :: rest => if decide (c = slash) then resolve fs v (sb_root_ino fs) (components rest)
                 else Err (- EINVAL)
  | [] => Err (- EINVAL)
  end.

Lemma path_lookup_spec live a path :
  fs_blocks fs a -> wf_tree fs (c_view a) live ->
  triple rep a (logfs_path_lookup fs path) (walk_outcome a (resolve_path (c_view a) path)).
Proof.
  intros Hb Htree. unfold logfs_path_lookup, resolve_path.
  destruct path as [|c rest]; [apply triple_fail; split; [done|by left]|].
  destruct (decide (c = slash)) as [->|Hc].
  - rewrite bool_decide_true by done. apply (path_walk_spec live); [done|done|apply Htree|cbn [length]; lia].
  - rewrite bool_decide_false by done. apply triple_fail. split; [done|by left].
Qed.
End path.
