(* ===== verification/Fs.v ===== *)
(** [src/fs.c]: laying out a file system, mounting and unmounting it.
    Definitions only.

    [time(NULL)] is the argument [now]; the backing file is named by its size
    before the call, if it exists.  [logfs_fs_t] is split into the superblock
    and the manager, which a successful mount returns, and the device, which
    is the state; they are put together in [tst]. *)

From S2P Require Import Prelude.
From S2P Require Import Bytes.
From S2P Require Import Crc32.
From S2P Require Import DiskFormat.
From S2P Require Import Blockdev.
From S2P Require Import Journal.
From S2P Require Import JournalReplay.
From S2P Require Import JournalSafety.
From S2P Require Import Txn.
From S2P Require Import FsFormat.
From S2P Require Import Inode.

Definition LOGFS_JOURNAL_REGION_START : Z := 3.

Definition LOGFS_FS_MAX_BITMAP_UNITS : Z := LOGFS_BLOCK_SIZE * 8.

(** ** The superblock *)

Definition set_checksum (c : Z) (sb : logfs_super) : logfs_super :=
  mkSuper (sb_magic sb) (sb_version sb) (sb_block_size sb) (sb_data_mode sb)
    (sb_total_blocks sb) (sb_journal_start sb) (sb_journal_len sb) (sb_inode_bitmap_start sb)
    (sb_block_bitmap_start sb) (sb_inode_table_start sb) (sb_inode_table_len sb)
    (sb_data_start sb) (sb_total_inodes sb) (sb_root_ino sb) (sb_last_orphan sb) c (sb_reserved sb).

Definition super_checksum (sb : logfs_super) : Z :=
  logfs_crc32_final (logfs_crc32_update logfs_crc32_init (encode_super (set_checksum 0 sb))).

Definition write_super (sb : logfs_super) : M bdev unit :=
  logfs_bdev_write_fua LOGFS_SUPER_BLOCKNO (pad_block (encode_super sb)).

(** The enum's numbers. *)
Definition mode_num (m : logfs_data_mode) : Z :=
  match m with
  | LOGFS_MODE_WRITEBACK => 0
  | LOGFS_MODE_ORDERED => 1
  | LOGFS_MODE_JOURNAL => 2
  | LOGFS_MODE_OTHER n => n
  end.

Definition num_mode (n : Z) : logfs_data_mode :=
  if n =? 0 then LOGFS_MODE_WRITEBACK
  else if n =? 1 then LOGFS_MODE_ORDERED
  else if n =? 2 then LOGFS_MODE_JOURNAL
  else LOGFS_MODE_OTHER n.

(** ** mkfs *)

(** Inodes of a file system of that many blocks: one for every four blocks,
    at least 16, at most what one bitmap block covers. *)
Definition mkfs_total_inodes (total_blocks : Z) : Z :=
  let total_inodes := total_blocks / 4 in
  let total_inodes := if LOGFS_FS_MAX_BITMAP_UNITS - 1 <? total_inodes
                      then LOGFS_FS_MAX_BITMAP_UNITS - 1 else total_inodes in
  if total_inodes <? 16 then 16 else total_inodes.

Definition mkfs_inode_table_len (total_inodes : Z) : Z :=
  u64 (total_inodes * Z.of_nat sizeof_inode + LOGFS_BLOCK_SIZE - 1) / LOGFS_BLOCK_SIZE.

(** The superblock [logfs_fs_format] fills in. *)
Definition mkfs_super (total_blocks journal_len : Z) (mode : logfs_data_mode) : logfs_super :=
  let journal_start := LOGFS_JOURNAL_REGION_START in
  let inode_bitmap_start := u64 (journal_start + journal_len) in
  let block_bitmap_start := u64 (inode_bitmap_start + 1) in
  let inode_table_start := u64 (block_bitmap_start + 1) in
  let total_inodes := mkfs_total_inodes total_blocks in
  let inode_table_len := mkfs_inode_table_len total_inodes in
  let data_start := u64 (inode_table_start + inode_table_len) in
  let sb := mkSuper LOGFS_SUPER_MAGIC LOGFS_FORMAT_VERSION LOGFS_BLOCK_SIZE (mode_num mode)
              total_blocks journal_start journal_len inode_bitmap_start block_bitmap_start
              inode_table_start inode_table_len data_start total_inodes LOGFS_ROOT_INO 0 0 0 in
  set_checksum (super_checksum sb) sb.

Definition mkfs_inode_bitmap : block := set_bit (set_bit zero_block 0) LOGFS_ROOT_INO.

Definition mkfs_block_bitmap : block := set_bit zero_block 0.

Definition root_inode (data_start now : Z) : logfs_inode :=
  mkInode (Z.lor S_IFDIR 0x1ED) 2 0 0 LOGFS_BLOCK_SIZE now now now
    (data_start :: replicate 11 0).

(** [ents[0]] is ".", [ents[1]] is "..", in a cleared block. *)
Definition dot_dirent (ino : Z) : logfs_dirent :=
  mkDirent ino 1 LOGFS_FT_DIR 0 (name_field [Byte.x2e]).

Definition dotdot_dirent (ino : Z) : logfs_dirent :=
  mkDirent ino 2 LOGFS_FT_DIR 0 (name_field [Byte.x2e; Byte.x2e]).

Definition dir_block (self parent : Z) : block :=
  put_dirent 1 (dotdot_dirent parent) (put_dirent 0 (dot_dirent self) zero_block).

(** The loop that clears the inode table. *)
Fixpoint write_zeros (start : Z) (n : nat) : M bdev unit :=
  match n with
  | O => mret tt
  | S n => logfs_bdev_write start zero_block ;; write_zeros (u64 (start + 1)) n
  end.

(** Everything between the checks and the superblock. *)
Definition mkfs_write (sb : logfs_super) (now : Z) : M bdev unit :=
  logfs_journal_format (sb_journal_start sb) (sb_journal_len sb) ;;
  logfs_bdev_write (sb_inode_bitmap_start sb) mkfs_inode_bitmap ;;
  logfs_bdev_write (sb_block_bitmap_start sb) mkfs_block_bitmap ;;
  write_zeros (sb_inode_table_start sb) (Z.to_nat (sb_inode_table_len sb)) ;;
  logfs_bdev_write (sb_inode_table_start sb)
    (pad_block (encode_inode (root_inode (sb_data_start sb) (u64 now)))) ;;
  logfs_bdev_write (sb_data_start sb) (dir_block LOGFS_ROOT_INO LOGFS_ROOT_INO).

Definition logfs_fs_format (size : option Z) (total_blocks journal_len : Z)
    (default_mode : logfs_data_mode) (now : Z) : M bdev unit :=
  if total_blocks <? u64 (LOGFS_JOURNAL_REGION_START + journal_len + 4) then fail (- EINVAL) else
  logfs_bdev_open size total_blocks true ;;
  let sb := mkfs_super total_blocks journal_len default_mode in
  if total_blocks <=? sb_data_start sb then fail (- ENOSPC) else
  if LOGFS_FS_MAX_BITMAP_UNITS <? u64 (total_blocks - sb_data_start sb) then fail (- EFBIG) else
  mkfs_write sb now ;;
  write_super sb.

(** ** Mount and unmount *)

(** [logfs_txnmgr_create]: its allocation and the threads it starts.  When the
    second thread cannot be started the first one is stopped; it has nothing
    to do. *)
Definition txnmgr_start (j : logfs_journal) (mode : logfs_data_mode) : M bdev txn_mgr :=
  ok ← malloc;
  if negb ok then fail (- ENOMEM) else
  r ← attempt syscall;
  if negb (is_ok r) then fail (- EAGAIN) else
  r ← (if bool_decide (mode = LOGFS_MODE_WRITEBACK) then attempt syscall else mret (Ok tt));
  if negb (is_ok r) then fail (- EAGAIN) else
  mret (logfs_txnmgr_create j mode).

(** The checks on the superblock. *)
Definition super_error (sb : logfs_super) (nblocks : Z) : option Z :=
  if negb (sb_magic sb =? LOGFS_SUPER_MAGIC) then Some EINVAL else
  if negb (sb_checksum sb =? super_checksum sb) then Some EUCLEAN else
  if negb (sb_total_blocks sb =? nblocks) then Some EINVAL else None.

Definition logfs_fs_mount (size : option Z) (mode_override : Z) : M bdev (logfs_super * txn_mgr) :=
  logfs_bdev_open size 0 false ;;
  block ← logfs_bdev_read LOGFS_SUPER_BLOCKNO;
  let sb := decode_super block in
  n ← gets (fun d => nblocks (b_disk d));
  match super_error sb n with
  | Some e => fail (- e)
  | None =>
      j ← mount_journal (sb_journal_start sb) (sb_journal_len sb);
      logfs_bdev_flush ;;
      let mode := num_mode (if mode_override <? 0 then sb_data_mode sb else mode_override) in
      mgr ← txnmgr_start j mode;
      mret (sb, mgr)
  end.

Definition logfs_fs_unmount : M tst unit := logfs_txnmgr_destroy.
