(* ===== verification/FsOps.v ===== *)
(** [src/fs_ops.c]: the FUSE operations.  Definitions only.

    Every operation holds [g_fs_lock] for its whole duration, so it is one
    function from state to state.  [fuse_file_info] is its [fh]; [time(NULL)]
    is the argument [now]; an [off_t] argument is its value, which the source
    casts to [uint64_t]; the buffer an operation fills is its result. *)

From S2P Require Import Prelude.
From S2P Require Import Bytes.
From S2P Require Import DiskFormat.
From S2P Require Import Blockdev.
From S2P Require Import Txn.
From S2P Require Import TxnApi.
From S2P Require Import FsFormat.
From S2P Require Import Inode.
From S2P Require Import Fs.

(** [<limits.h>] *)
Definition PATH_MAX : Z := 4096.

(** Conversion to a signed 64-bit type. *)
Definition s64 (z : Z) : Z := (z + 2 ^ 63) mod 2 ^ 64 - 2 ^ 63.

(** ** [struct stat] *)

Record stat := mkStat {
  st_ino : Z;
  st_mode : Z;
  st_nlink : Z;
  st_uid : Z;
  st_gid : Z;
  st_size : Z;
  st_blocks : Z;
  st_atime : Z;
  st_mtime : Z;
  st_ctime : Z;
}.

Definition inode_to_stat (ino : Z) (i : logfs_inode) : stat :=
  mkStat ino (i_mode i) (i_nlink i) (i_uid i) (i_gid i) (s64 (i_size i))
    (s64 (u64 (i_size i + 511) / 512)) (s64 (i_atime i)) (s64 (i_mtime i)) (s64 (i_ctime i)).

(** ** Paths *)

(** [strrchr(path, '/')], as an index. *)
Fixpoint last_slash (path : list byte) : option nat :=
  match path with
  | [] => None
  | c :: rest =>
      match last_slash rest with
      | Some i => Some (S i)
      | None => if bool_decide (c = slash) then Some O else None
      end
  end.

(** The path of the parent directory and the name in it. *)
Definition split_parent (path : list byte) (parent_cap : Z) : result (list byte * list byte) :=
  match last_slash path with
  | None => Err (- EINVAL)
  | Some i =>
      let name := drop (S i) path in
      let check (parent : list byte) :=
        if bool_decide (name = []) then Err (- EINVAL) else
        if LOGFS_NAME_MAX <? Z.of_nat (length name) then Err (- ENAMETOOLONG) else
        Ok (parent, name) in
      if (i =? 0)%nat
      then if parent_cap <? 2 then Err (- ENAMETOOLONG) else check [slash]
      else if parent_cap <? Z.of_nat i + 1 then Err (- ENAMETOOLONG) else check (take i path)
  end.

(** ** Inodes *)

Definition set_blocks (blocks : list Z) (i : logfs_inode) : logfs_inode :=
  mkInode (i_mode i) (i_nlink i) (i_uid i) (i_gid i) (i_size i) (i_atime i) (i_mtime i)
    (i_ctime i) blocks.

Definition set_size_mtime (size mtime : Z) (i : logfs_inode) : logfs_inode :=
  mkInode (i_mode i) (i_nlink i) (i_uid i) (i_gid i) size (i_atime i) mtime (i_ctime i)
    (i_blocks i).

Definition set_nlink (nlink : Z) (i : logfs_inode) : logfs_inode :=
  mkInode (i_mode i) nlink (i_uid i) (i_gid i) (i_size i) (i_atime i) (i_mtime i) (i_ctime i)
    (i_blocks i).

Definition set_mtime (mtime : Z) (i : logfs_inode) : logfs_inode :=
  mkInode (i_mode i) (i_nlink i) (i_uid i) (i_gid i) (i_size i) (i_atime i) mtime (i_ctime i)
    (i_blocks i).

(** The inode of a new directory, and of a new file. *)
Definition new_dir_inode (mode now block : Z) : logfs_inode :=
  mkInode (Z.lor S_IFDIR (Z.land mode 0x1FF)) 2 0 0 LOGFS_BLOCK_SIZE now now now
    (block :: replicate 11 0).

Definition new_file_inode (mode now : Z) : logfs_inode :=
  mkInode (Z.lor S_IFREG (Z.land mode 0x1FF)) 1 0 0 0 now now now (replicate 12 0).

(** ** Directory listings *)

(** The C string in a buffer. *)
Fixpoint c_string (l : list byte) : list byte :=
  match l with
  | [] => []
  | c :: l => if bool_decide (c = Byte.x00) then [] else c :: c_string l
  end.

Definition dirent_name (d : logfs_dirent) : list byte :=
  c_string (take (Z.to_nat (de_name_len d)) (de_name d)).

(** The names of the live entries of a block, in order. *)
Definition block_names (buf : block) : list (list byte) :=
  omap (fun e => if entry_free buf e then None else Some (dirent_name (dirent_at buf e)))
    (seq 0 slots_per_block).

(** Never a return code of the source: a copy loop ran out of fuel. *)
Definition OPS_OUT_OF_FUEL : Z := 7.

(** The largest file: twelve direct blocks. *)
Definition max_file_size : Z := LOGFS_NDIR_BLOCKS * LOGFS_BLOCK_SIZE.

Section operations.
Context {S : Type} `{TxnApi S}.
Implicit Types (fs : logfs_super) (path : list byte).

Definition lift {A} (r : result A) : M S A := fun s => (r, s).

(** [logfs_txn_start], the body up to [stop:], [logfs_txn_stop]. *)
Definition with_handle {A} (body : Z -> M S A) : M S A :=
  h ← txn_start;
  r ← attempt (body h);
  txn_stop h ;;
  lift r.

Fixpoint truncate_loop (h : Z) fs (b n : nat) (blocks : list Z) : M S (list Z) :=
  match n with
  | O => mret blocks
  | Datatypes.S n =>
      let blockno := nth b blocks 0 in
      if blockno =? 0 then truncate_loop h fs (Datatypes.S b) n blocks else
      logfs_free_block h fs blockno ;;
      truncate_loop h fs (Datatypes.S b) n (<[b := 0]> blocks)
  end.

Definition truncate_blocks (h : Z) fs (i : logfs_inode) (keep_blocks : nat) : M S logfs_inode :=
  blocks ← truncate_loop h fs keep_blocks (Z.to_nat LOGFS_NDIR_BLOCKS - keep_blocks) (i_blocks i);
  mret (set_blocks blocks i).

Definition logfs_op_getattr fs path : M S stat :=
  ino ← logfs_path_lookup fs path;
  i ← logfs_inode_read fs ino;
  mret (inode_to_stat ino i).

(** [room] is the number of names the [filler] takes; the names it took. *)
Fixpoint readdir_loop (room : nat) (blocks : list Z) : M S (list (list byte)) :=
  match blocks with
  | [] => mret []
  | b :: blocks =>
      if b =? 0 then mret [] else
      buf ← txn_read_block b;
      let names := block_names buf in
      if (room <? length names)%nat then mret (take room names) else
      rest ← readdir_loop (room - length names) blocks;
      mret (names ++ rest)
  end.

Definition logfs_op_readdir fs path (room : nat) : M S (list (list byte)) :=
  dir_ino ← logfs_path_lookup fs path;
  dir ← logfs_inode_read fs dir_ino;
  if negb (S_ISDIR (i_mode dir)) then fail (- ENOTDIR) else
  readdir_loop room (i_blocks dir).

Definition mkdir_body fs (parent_ino : Z) (name : list byte) (mode now h : Z) : M S unit :=
  new_ino ← logfs_alloc_inode h fs;
  data_block ← logfs_alloc_block h fs;
  buf ← txn_get_write_access h data_block;
  txn_store data_block (dir_block new_ino parent_ino) ;;
  txn_dirty_metadata h data_block ;;
  logfs_inode_write h fs new_ino (new_dir_inode mode now data_block) ;;
  logfs_dir_add h fs parent_ino name new_ino LOGFS_FT_DIR ;;
  pdir ← logfs_inode_read fs parent_ino;
  logfs_inode_write h fs parent_ino (set_mtime now (set_nlink (u32 (i_nlink pdir + 1)) pdir)).

Definition logfs_op_mkdir fs path (mode now : Z) : M S unit :=
  pn ← lift (split_parent path PATH_MAX);
  parent_ino ← logfs_path_lookup fs pn.1;
  with_handle (mkdir_body fs parent_ino pn.2 mode (u64 now)).

Definition rmdir_body fs (parent_ino target_ino : Z) (name : list byte) (now h : Z) : M S unit :=
  target ← logfs_inode_read fs target_ino;
  truncate_blocks h fs target 0 ;;
  logfs_free_inode h fs target_ino ;;
  logfs_dir_remove h fs parent_ino name ;;
  pdir ← logfs_inode_read fs parent_ino;
  logfs_inode_write h fs parent_ino (set_mtime now (set_nlink (u32 (i_nlink pdir - 1)) pdir)).

Definition logfs_op_rmdir fs path (now : Z) : M S unit :=
  pn ← lift (split_parent path PATH_MAX);
  parent_ino ← logfs_path_lookup fs pn.1;
  target ← logfs_dir_lookup fs parent_ino pn.2;
  if negb (target.2 =? LOGFS_FT_DIR) then fail (- ENOTDIR) else
  empty ← logfs_dir_is_empty fs target.1;
  if empty =? 0 then fail (- ENOTEMPTY) else
  with_handle (rmdir_body fs parent_ino target.1 pn.2 (u64 now)).

Definition create_body fs (parent_ino : Z) (name : list byte) (mode now h : Z) : M S Z :=
  new_ino ← logfs_alloc_inode h fs;
  logfs_inode_write h fs new_ino (new_file_inode mode now) ;;
  logfs_dir_add h fs parent_ino name new_ino LOGFS_FT_REG ;;
  mret new_ino.

(** The result is [fi->fh]. *)
Definition logfs_op_create fs path (mode now : Z) : M S Z :=
  pn ← lift (split_parent path PATH_MAX);
  parent_ino ← logfs_path_lookup fs pn.1;
  with_handle (create_body fs parent_ino pn.2 mode (u64 now)).

Definition logfs_op_open fs path : M S Z := logfs_path_lookup fs path.

(** The part of a block that holds the next bytes: index, offset, length. *)
Definition chunk_of (pos left : Z) : nat * nat * nat :=
  let in_block := pos mod LOGFS_BLOCK_SIZE in
  let chunk := LOGFS_BLOCK_SIZE - in_block in
  let chunk := if left <? chunk then left else chunk in
  (Z.to_nat (pos / LOGFS_BLOCK_SIZE), Z.to_nat in_block, Z.to_nat chunk).

(** The loop of [logfs_op_read]; an index past the twelve blocks, which the
    source would read out of bounds, reads as a hole. *)
Fixpoint read_loop (fuel : nat) (blocks : list Z) (pos left : Z) : M S (list byte) :=
  match fuel with
  | O => fail OPS_OUT_OF_FUEL
  | Datatypes.S fuel =>
      if left <=? 0 then mret [] else
      let '(b, in_block, chunk) := chunk_of pos left in
      let blockno := nth b blocks 0 in
      data ← (if blockno =? 0 then mret (replicate chunk Byte.x00)
              else buf ← txn_read_block blockno; mret (take chunk (drop in_block buf)));
      rest ← read_loop fuel blocks (pos + Z.of_nat chunk) (left - Z.of_nat chunk);
      mret (data ++ rest)
  end.

(** Enough for any transfer: a turn per block, and the last test. *)
Definition copy_fuel (size : Z) : nat := Z.to_nat (size / LOGFS_BLOCK_SIZE + 3).

Definition logfs_op_read fs (fh size offset : Z) : M S (list byte) :=
  i ← logfs_inode_read fs (u32 fh);
  let offset := u64 offset in
  if i_size i <=? offset then mret [] else
  let size := if i_size i <? u64 (offset + size) then i_size i - offset else size in
  read_loop (copy_fuel size) (i_blocks i) offset size.

(** The loop of [logfs_op_write]: the block numbers it leaves in the inode. *)
Fixpoint write_loop (fuel : nat) (h : Z) fs (blocks : list Z) (pos : Z) (buf : list byte)
    : M S (list Z) :=
  match fuel with
  | O => fail OPS_OUT_OF_FUEL
  | Datatypes.S fuel =>
      if Z.of_nat (length buf) <=? 0 then mret blocks else
      let '(b, in_block, chunk) := chunk_of pos (Z.of_nat (length buf)) in
      blocks ← (if nth b blocks 0 =? 0
                then nb ← logfs_alloc_block h fs; mret (<[b := nb]> blocks)
                else mret blocks);
      let blockno := nth b blocks 0 in
      block ← (if negb (in_block =? 0)%nat || negb (chunk =? block_len)%nat
               then txn_read_block blockno else mret zero_block);
      txn_write_data h blockno (splice block in_block (take chunk buf)) ;;
      write_loop fuel h fs blocks (pos + Z.of_nat chunk) (drop chunk buf)
  end.

Definition op_write_body fs (ino offset : Z) (buf : list byte) (now h : Z) : M S Z :=
  i ← logfs_inode_read fs ino;
  let size := Z.of_nat (length buf) in
  blocks ← write_loop (copy_fuel size) h fs (i_blocks i) offset buf;
  let end_ := u64 (offset + size) in
  logfs_inode_write h fs ino
    (set_size_mtime (if i_size i <? end_ then end_ else i_size i) now (set_blocks blocks i)) ;;
  mret size.

Definition logfs_op_write fs (fh : Z) (buf : list byte) (offset now : Z) : M S Z :=
  let offset := u64 offset in
  if max_file_size <? u64 (offset + Z.of_nat (length buf)) then fail (- EFBIG) else
  with_handle (op_write_body fs (u32 fh) offset buf (u64 now)).

Definition truncate_body fs (ino size now h : Z) : M S unit :=
  i ← logfs_inode_read fs ino;
  let keep_blocks := Z.to_nat (u64 (size + LOGFS_BLOCK_SIZE - 1) / LOGFS_BLOCK_SIZE) in
  i ← (if size <? i_size i then truncate_blocks h fs i keep_blocks else mret i);
  logfs_inode_write h fs ino (set_size_mtime size now i).

(** By handle or by path. *)
Definition logfs_op_truncate fs (fi : option Z) path (size now : Z) : M S unit :=
  let size := u64 size in
  if max_file_size <? size then fail (- EFBIG) else
  ino ← match fi with
        | Some fh => mret (u32 fh)
        | None => logfs_path_lookup fs path
        end;
  with_handle (truncate_body fs ino size (u64 now)).

Definition unlink_body fs (parent_ino target_ino : Z) (name : list byte) (h : Z) : M S unit :=
  target ← logfs_inode_read fs target_ino;
  logfs_dir_remove h fs parent_ino name ;;
  let nlink := u32 (i_nlink target - 1) in
  if nlink =? 0 then
    truncate_blocks h fs (set_nlink nlink target) 0 ;;
    logfs_free_inode h fs target_ino
  else logfs_inode_write h fs target_ino (set_nlink nlink target).

Definition logfs_op_unlink fs path : M S unit :=
  pn ← lift (split_parent path PATH_MAX);
  parent_ino ← logfs_path_lookup fs pn.1;
  target ← logfs_dir_lookup fs parent_ino pn.2;
  with_handle (unlink_body fs parent_ino target.1 pn.2).

Definition logfs_op_release : M S unit := mret tt.
End operations.

(** The loop of [logfs_txn_commit_sync].  The lock is held from the request to
    the first test; a turn of the loop gives it up and lets other threads run
    until the caller is woken, and [wakes] is what they do before each time.
    With nobody left to wake it the caller is [BLOCKED]. *)
Fixpoint commit_sync_wait (target : Z) (wakes : list (M tst unit)) : M tst unit :=
  m ← gets mg;
  if commit_sync_done target m then mret tt else
  match wakes with
  | [] => fail BLOCKED
  | others :: wakes => others ;; commit_sync_wait target wakes
  end.

Definition logfs_txn_commit_sync (wakes : list (M tst unit)) : M tst unit :=
  target ← commit_sync_request;
  commit_sync_wait target wakes.

Definition logfs_op_fsync (wakes : list (M tst unit)) : M tst unit := logfs_txn_commit_sync wakes.
