(* ===== verification/FsTree.v ===== *)
(** The file system as a tree of names: the abstract specification of
    [fs_ops.c].

    [wf_names] is what a tree of directories is, over any function that gives
    for each inode number the map of its directory, or [None] for a file, and
    a set of inodes; the lemmas say how adding and removing a name keep it.
    [FsImage] reads such a function off the disk. *)

From S2P Require Import Prelude.
From S2P Require Import Bytes.
From S2P Require Import DiskFormat.
From S2P Require Import TxnApi.
From S2P Require Import FsFormat.
From S2P Require Import Inode.
From S2P Require Import InodeBits.
From S2P Require Import InodeSpec.
From S2P Require Import InodeDir.
From S2P Require Import InodeDirSpec.
From S2P Require Import InodeDirAdd.
From S2P Require Import InodeWalk.
From S2P Require Import FsOps.

(** ** Trees of names *)

Abbreviation dirmap := (gmap (list byte) (Z * Z)).

Definition proper (name : list byte) : Prop := name <> dot /\ name <> dotdot.

#[export] Instance proper_dec name : Decision (proper name).
Proof. unfold proper. apply _. Defined.

(** The type recorded in an entry for an inode. *)
Definition entry_type (t : option dirmap) : Z :=
  match t with Some _ => LOGFS_FT_DIR | None => LOGFS_FT_REG end.

Record wf_names (L : gset Z) (T : Z -> option dirmap) : Prop := {
  nm_root : LOGFS_ROOT_INO ∈ L /\ T LOGFS_ROOT_INO <> None;
  nm_names d m name x :
    d ∈ L -> T d = Some m -> m !! name = Some x -> x.1 ∈ L /\ x.2 = entry_type (T x.1);
  nm_unique d1 m1 n1 d2 m2 n2 x1 x2 :
    d1 ∈ L -> T d1 = Some m1 -> m1 !! n1 = Some x1 -> proper n1 ->
    d2 ∈ L -> T d2 = Some m2 -> m2 !! n2 = Some x2 -> proper n2 ->
    x1.1 = x2.1 -> d1 = d2 /\ n1 = n2;
  nm_root_name d m name x :
    d ∈ L -> T d = Some m -> m !! name = Some x -> proper name -> x.1 <> LOGFS_ROOT_INO;
  nm_dots d m :
    d ∈ L -> T d = Some m ->
    m !! dot = Some (d, LOGFS_FT_DIR) /\
    exists p, m !! dotdot = Some (p, LOGFS_FT_DIR) /\
      (d = LOGFS_ROOT_INO /\ p = LOGFS_ROOT_INO \/
       exists mp name, p ∈ L /\ T p = Some mp /\ proper name /\ mp !! name = Some (d, LOGFS_FT_DIR));
}.

Lemma wf_names_ext L T T' : (forall i, i ∈ L -> T' i = T i) -> wf_names L T -> wf_names L T'.
Proof.
  intros HT [[H1 H1'] H2 H3 H4 H5]. split.
  - split; [done|]. by rewrite HT.
  - intros d m name x Hd Hm Hx. rewrite HT in Hm by done.
    destruct (H2 d m name x Hd Hm Hx) as [Hin Ht]. split; [done|]. by rewrite HT.
  - intros d1 m1 n1 d2 m2 n2 x1 x2 Hd1 Hm1 ? ? Hd2 Hm2. rewrite HT in Hm1, Hm2 by done. by eapply H3.
  - intros d m name x Hd Hm. rewrite HT in Hm by done. by eapply H4.
  - intros d m Hd Hm. rewrite HT in Hm by done. destruct (H5 d m Hd Hm) as (Hdot & p & Hp & Hpar).
    split; [done|]. exists p. split; [done|].
    destruct Hpar as [|(mp & name & Hp' & Hmp & Hrest)]; [by left|right].
    exists mp, name. split; [done|]. by rewrite HT.
Qed.

(** The map of a new directory. *)
Definition new_dir (self parent : Z) : dirmap :=
  {[ dot := (self, LOGFS_FT_DIR); dotdot := (parent, LOGFS_FT_DIR) ]}.

Lemma new_dir_proper self parent name x : new_dir self parent !! name = Some x -> ~ proper name.
Proof.
  unfold new_dir. intros Hx [H1 H2].
  apply lookup_insert_Some in Hx as [[E _]|[_ [E _]%lookup_singleton_Some]]; [by apply H1|by apply H2].
Qed.

Lemma new_dir_entry self parent name x :
  new_dir self parent !! name = Some x -> x = (self, LOGFS_FT_DIR) \/ x = (parent, LOGFS_FT_DIR).
Proof.
  unfold new_dir. intros [[_ <-]|[_ [_ <-]%lookup_singleton_Some]]%lookup_insert_Some; auto.
Qed.

Lemma new_dir_dots self parent :
  new_dir self parent !! dot = Some (self, LOGFS_FT_DIR) /\
  new_dir self parent !! dotdot = Some (parent, LOGFS_FT_DIR).
Proof.
  unfold new_dir. split; [apply lookup_insert_eq|].
  by rewrite lookup_insert_ne, lookup_singleton_eq by (intros E; discriminate E).
Qed.

Lemma dotdot_dot : dotdot <> dot.
Proof. intros H. discriminate H. Qed.

Lemma elem_new (n : Z) (L : gset Z) : n ∈ ({[n]} ∪ L : gset Z).
Proof. set_solver. Qed.

Lemma elem_old (n i : Z) (L : gset Z) : i ∈ L -> i ∈ ({[n]} ∪ L : gset Z).
Proof. set_solver. Qed.

Lemma elem_rest (t i : Z) (L : gset Z) : i ∈ L ∖ {[t]} <-> i ∈ L /\ i <> t.
Proof. set_solver. Qed.

(** A name for an inode that is not in the tree: a file, or a directory with
    only the dots. *)
Section insert.
Context (L : gset Z) (T T' : Z -> option dirmap) (p : Z) (mp : dirmap) (name : list byte) (n : Z).
Context (t : option dirmap).
Hypothesis Hp : p ∈ L.
Hypothesis Hmp : T p = Some mp.
Hypothesis Hnone : mp !! name = None.
Hypothesis Ht : t = None \/ t = Some (new_dir n p).
Hypothesis HTp : T' p = Some (<[name := (n, entry_type t)]> mp).
Hypothesis HTn : T' n = t.
Hypothesis HT : forall i, i ∈ L -> i <> p -> T' i = T i.

(** Every entry of the new tree is the new one, an old one, or a dot of the
    new directory. *)
Lemma insert_entry d m k x :
  d ∈ ({[n]} ∪ L : gset Z) -> T' d = Some m -> m !! k = Some x ->
  (d = p /\ k = name /\ x = (n, entry_type t)) \/
  (exists m0, d ∈ L /\ T d = Some m0 /\ m0 !! k = Some x /\ (d = p -> k <> name)) \/
  (d = n /\ ~ proper k /\ (x = (n, LOGFS_FT_DIR) \/ x = (p, LOGFS_FT_DIR)) /\ t <> None).
Proof.
  intros [->%elem_of_singleton|Hd]%elem_of_union Hm Hk.
  - right. right. rewrite HTn in Hm. destruct Ht as [->| ->]; [done|]. injection Hm as <-.
    split; [done|]. split; [by eapply new_dir_proper|]. split; [|done].
    by apply new_dir_entry in Hk.
  - destruct (decide (d = p)) as [->|Hdp].
    + rewrite HTp in Hm. injection Hm as <-.
      apply lookup_insert_Some in Hk as [[<- <-]|[Hne Hk]]; [by left|right; left].
      exists mp. by split_and!.
    + right. left. exists m. rewrite HT in Hm by done. by split_and!.
Qed.

Lemma insert_type i : i ∈ L -> entry_type (T' i) = entry_type (T i).
Proof. intros Hi. destruct (decide (i = p)) as [->|]; [by rewrite HTp, Hmp|by rewrite HT]. Qed.

Lemma wf_names_insert : wf_names L T -> n ∉ L -> proper name -> wf_names ({[n]} ∪ L) T'.
Proof.
  intros [[R1 R2] N U RN D] Hn [Hn1 Hn2].
  split.
  - split; [by apply elem_old|]. destruct (decide (LOGFS_ROOT_INO = p)) as [<-|]; [by rewrite HTp|by rewrite HT].
  - intros d m k x Hd Hm Hk.
    destruct (insert_entry d m k x Hd Hm Hk) as [(-> & -> & ->)|[(m0 & Hd0 & Hm0 & Hk0 & _)|(-> & _ & Hx & Ht')]].
    + split; [apply elem_new|]. cbn [fst snd]. by rewrite HTn.
    + destruct (N d m0 k x Hd0 Hm0 Hk0) as [Hin Hty]. split; [by apply elem_old|]. by rewrite insert_type.
    + destruct Ht as [->| ->]; [done|]. destruct Hx as [->| ->]; cbn [fst snd].
      * split; [apply elem_new|]. by rewrite HTn.
      * split; [by apply elem_old|]. by rewrite HTp.
  - intros d1 m1 n1 d2 m2 n2 x1 x2 Hd1 Hm1 Hk1 Hp1 Hd2 Hm2 Hk2 Hp2 Heq.
    destruct (insert_entry d1 m1 n1 x1 Hd1 Hm1 Hk1) as [(-> & -> & ->)|[(m10 & Hd10 & Hm10 & Hk10 & _)|(_ & Hbad & _)]];
      [..|done];
    destruct (insert_entry d2 m2 n2 x2 Hd2 Hm2 Hk2) as [(-> & -> & ->)|[(m20 & Hd20 & Hm20 & Hk20 & _)|(_ & Hbad & _)]];
      try done.
    + destruct (N d2 m20 n2 x2 Hd20 Hm20 Hk20) as [Hin _]. rewrite <-Heq in Hin. done.
    + destruct (N d1 m10 n1 x1 Hd10 Hm10 Hk10) as [Hin _]. rewrite Heq in Hin. done.
    + by eapply U.
  - intros d m k x Hd Hm Hk Hpk.
    destruct (insert_entry d m k x Hd Hm Hk) as [(-> & -> & ->)|[(m0 & Hd0 & Hm0 & Hk0 & _)|(_ & Hbad & _)]]; [|by eapply RN|done].
    cbn [fst]. by intros ->.
  - intros d m [->%elem_of_singleton|Hd]%elem_of_union Hm.
    + rewrite HTn in Hm. destruct Ht as [->| ->]; [done|]. injection Hm as <-.
      split; [apply new_dir_dots|]. exists p. split; [apply new_dir_dots|].
      right. exists (<[name := (n, LOGFS_FT_DIR)]> mp), name.
      split; [by apply elem_old|]. split; [done|]. split; [by split|]. apply lookup_insert_eq.
    + assert (exists m0, T d = Some m0 /\ m !! dot = m0 !! dot /\ m !! dotdot = m0 !! dotdot) as (m0 & Hm0 & E1 & E2).
      { destruct (decide (d = p)) as [->|]; [|exists m; by rewrite HT in Hm].
        exists mp. rewrite HTp in Hm. injection Hm as <-. by rewrite !lookup_insert_ne by auto. }
      destruct (D d m0 Hd Hm0) as (Hdot & q & Hq & Hpar). rewrite E1, E2. split; [done|].
      exists q. split; [done|]. destruct Hpar as [|(mq & nq & Hq' & Hmq & Hnq & Hdq)]; [by left|right].
      destruct (decide (q = p)) as [->|].
      * exists (<[name := (n, entry_type t)]> mp), nq. split; [by apply elem_old|]. split; [done|].
        split; [done|]. rewrite lookup_insert_ne; [congruence|]. intros <-. congruence.
      * exists mq, nq. split; [by apply elem_old|]. rewrite HT by done. done.
Qed.
End insert.

(** Removing a name, and with it the inode it led to: a file, or a directory
    without proper names. *)
Section remove.
Context (L : gset Z) (T T' : Z -> option dirmap) (p : Z) (mp : dirmap) (name : list byte) (t ty : Z).
Hypothesis Hwf : wf_names L T.
Hypothesis Hp : p ∈ L.
Hypothesis Hmp : T p = Some mp.
Hypothesis Hprop : proper name.
Hypothesis Hname : mp !! name = Some (t, ty).
Hypothesis Hvac : forall m k x, T t = Some m -> m !! k = Some x -> ~ proper k.
Hypothesis HTp : T' p = Some (delete name mp).
Hypothesis HT : forall i, i ∈ L -> i <> p -> i <> t -> T' i = T i.

Lemma remove_not_root : t <> LOGFS_ROOT_INO.
Proof. exact (nm_root_name _ _ Hwf p mp name _ Hp Hmp Hname Hprop). Qed.

Lemma remove_not_parent : t <> p.
Proof. intros ->. by apply (Hvac mp name _ Hmp Hname). Qed.

Lemma remove_entry d m k x :
  d ∈ L ∖ {[t]} -> T' d = Some m -> m !! k = Some x ->
  exists m0, d ∈ L /\ T d = Some m0 /\ m0 !! k = Some x /\ (d = p -> k <> name).
Proof.
  intros [Hd Hdt]%elem_rest Hm Hk. destruct (decide (d = p)) as [->|].
  - rewrite HTp in Hm. injection Hm as <-. apply lookup_delete_Some in Hk as [Hne Hk].
    exists mp. by split_and!.
  - exists m. rewrite HT in Hm by done. by split_and!.
Qed.

(** No remaining name leads to [t]. *)
Lemma remove_gone d m k x :
  d ∈ L ∖ {[t]} -> T' d = Some m -> m !! k = Some x -> x.1 <> t.
Proof.
  intros Hd Hm Hk Hx. destruct (remove_entry d m k x Hd Hm Hk) as (m0 & Hd0 & Hm0 & Hk0 & Hne).
  destruct (decide (proper k)) as [Hpk|Hpk].
  - destruct (nm_unique _ _ Hwf d m0 k p mp name x (t, ty) Hd0 Hm0 Hk0 Hpk Hp Hmp Hname Hprop Hx) as [-> ->].
    by apply Hne.
  - destruct (nm_dots _ _ Hwf d m0 Hd0 Hm0) as (Hdot & q & Hq & Hpar).
    destruct (decide (k = dot)) as [->|Hk1].
    { rewrite Hdot in Hk0. injection Hk0 as <-. cbn [fst] in Hx. apply elem_rest in Hd as [_ Hd]. done. }
    destruct (decide (k = dotdot)) as [->|Hk2]; [|by destruct Hpk].
    rewrite Hq in Hk0. injection Hk0 as <-. cbn [fst] in Hx. subst q.
    destruct Hpar as [[_ Hr]|(mq & nq & _ & Hmq & Hnq & Hdq)]; [by apply remove_not_root|].
    by apply (Hvac mq nq _ Hmq Hdq).
Qed.

Lemma remove_type i : i ∈ L -> i <> t -> entry_type (T' i) = entry_type (T i).
Proof. intros Hi Hit. destruct (decide (i = p)) as [->|]; [by rewrite HTp, Hmp|by rewrite HT]. Qed.

Lemma wf_names_remove : wf_names (L ∖ {[t]}) T'.
Proof.
  pose proof Hwf as [[R1 R2] N U RN D]. pose proof remove_not_root. pose proof remove_not_parent.
  destruct Hprop as [Hn1 Hn2].
  split.
  - split; [by apply elem_rest|]. destruct (decide (LOGFS_ROOT_INO = p)) as [<-|]; [by rewrite HTp|by rewrite HT by auto].
  - intros d m k x Hd Hm Hk. pose proof (remove_gone d m k x Hd Hm Hk) as Hx.
    destruct (remove_entry d m k x Hd Hm Hk) as (m0 & Hd0 & Hm0 & Hk0 & _).
    destruct (N d m0 k x Hd0 Hm0 Hk0) as [Hin Hty]. split; [by apply elem_rest|]. by rewrite remove_type.
  - intros d1 m1 n1 d2 m2 n2 x1 x2 Hd1 Hm1 Hk1 Hp1 Hd2 Hm2 Hk2 Hp2 Heq.
    destruct (remove_entry _ _ _ _ Hd1 Hm1 Hk1) as (? & ? & ? & ? & _).
    destruct (remove_entry _ _ _ _ Hd2 Hm2 Hk2) as (? & ? & ? & ? & _). by eapply U.
  - intros d m k x Hd Hm Hk Hpk. destruct (remove_entry _ _ _ _ Hd Hm Hk) as (? & ? & ? & ? & _). by eapply RN.
  - intros d m Hd Hm.
    assert (exists m0, d ∈ L /\ T d = Some m0 /\ m !! dot = m0 !! dot /\ m !! dotdot = m0 !! dotdot)
      as (m0 & HdL & Hm0 & E1 & E2).
    { apply elem_rest in Hd as [Hd Hdt]. destruct (decide (d = p)) as [->|].
      - exists mp. rewrite HTp in Hm. injection Hm as <-. by rewrite !lookup_delete_ne by auto.
      - exists m. rewrite HT in Hm by done. by split_and!. }
    destruct (D d m0 HdL Hm0) as (Hdot & q & Hq & Hpar). rewrite E1, E2. split; [done|].
    exists q. split; [done|]. destruct Hpar as [|(mq & nq & Hq' & Hmq & Hnq & Hdq)]; [by left|right].
    assert (Hqt : q <> t) by (intros ->; by apply (Hvac mq nq _ Hmq Hdq)).
    destruct (decide (q = p)) as [->|].
    + exists (delete name mp), nq. split; [by apply elem_rest|]. split; [done|]. split; [done|].
      rewrite lookup_delete_ne; [congruence|]. intros <-.
      rewrite Hmp in Hmq. injection Hmq as <-. rewrite Hname in Hdq. injection Hdq as E. apply elem_rest in Hd as [_ Hd]. congruence.
    + exists mq, nq. split; [by apply elem_rest|]. rewrite HT by done. done.
Qed.
End remove.
