(* ===== verification/FsNewDir.v ===== *)
(** A new directory: the block with "." and "..", and the inode that points
    to it. *)

From S2P Require Import Prelude.
From S2P Require Import Bytes.
From S2P Require Import DiskFormat.
From S2P Require Import TxnApi.
From S2P Require Import FsFormat.
From S2P Require Import Inode.
From S2P Require Import InodeBits.
From S2P Require Import InodeSpec.
From S2P Require Import InodeDir.
From S2P Require Import InodeDirSpec.
From S2P Require Import InodeWalk.
From S2P Require Import Fs.
From S2P Require Import FsOps.
From S2P Require Import FsTree.

(** ** The block *)

Lemma dot_dirents_wf self parent :
  0 < self < 2 ^ 32 -> 0 < parent < 2 ^ 32 ->
  wf_dirent (dot_dirent self) /\ wf_dirent (dotdot_dirent parent) /\
  entry_of (dot_dirent self) = Some (dot, (self, LOGFS_FT_DIR)) /\
  entry_of (dotdot_dirent parent) = Some (dotdot, (parent, LOGFS_FT_DIR)).
Proof.
  intros Hs Hp. unfold entry_of, dot_dirent, dotdot_dirent.
  cbn [de_ino de_name_len de_file_type de_name].
  rewrite !(proj2 (Z.eqb_neq _ _)) by lia. unfold LOGFS_FT_DIR.
  split; [|split; [|done]]; split; cbn [de_ino de_name_len de_file_type de_pad de_name]; lia || done.
Qed.

Lemma zero_block_free e : (e < slots_per_block)%nat -> de_ino (dirent_at zero_block e) = 0.
Proof.
  assert (Hall : forallb (fun e => de_ino (dirent_at zero_block e) =? 0) (seq 0 slots_per_block) = true)
    by (vm_compute; reflexivity).
  rewrite forallb_forall in Hall. intros He. apply Z.eqb_eq, Hall, in_seq. lia.
Qed.

Lemma dir_block_spec self parent :
  0 < self < 2 ^ 32 -> 0 < parent < 2 ^ 32 ->
  block_entries (dir_block self parent)
  ≡ₚ [(dotdot, (parent, LOGFS_FT_DIR)); (dot, (self, LOGFS_FT_DIR))] /\
  wf_dir_block (dir_block self parent) /\ length (dir_block self parent) = block_len.
Proof.
  intros Hs Hp. destruct (dot_dirents_wf self parent Hs Hp) as (W1 & W2 & E1 & E2).
  assert (H0 : (0 < slots_per_block)%nat) by (rewrite slots_per_block_eq; lia).
  assert (H1 : (1 < slots_per_block)%nat) by (rewrite slots_per_block_eq; lia).
  pose proof length_zero_block as Hz.
  assert (Hwz : wf_dir_block zero_block) by (intros e He Hne; by rewrite zero_block_free in Hne).
  unfold dir_block. set (c := put_dirent 0 (dot_dirent self) zero_block).
  assert (Hc : length c = block_len) by by apply length_put_dirent.
  assert (Ez : block_entries zero_block = []) by (vm_compute; reflexivity).
  split; [|split].
  - rewrite (block_entries_add c 1 _ W2 Hc H1 (dotdot, (parent, LOGFS_FT_DIR))); [|..|done].
    + constructor. unfold c. rewrite (block_entries_add _ 0 _ W1 Hz H0 (dot, (self, LOGFS_FT_DIR)));
        [by rewrite Ez| |done].
      unfold entry_of. by rewrite zero_block_free.
    + unfold c, entry_of. rewrite dirent_at_put_other by done. by rewrite zero_block_free.
  - apply wf_dir_block_put; [exact W2|exact Hc|exact H1| |intros _; split; discriminate].
    apply wf_dir_block_put; [exact W1|exact Hz|exact H0|exact Hwz|intros _; split; discriminate].
  - by apply length_put_dirent.
Qed.

(** ** The directory *)

Section new_dir.
Context (fs : logfs_super) (v : Z -> block) (self parent b : Z).
Hypothesis Hfs : wf_fs fs.
Hypothesis Hself : in_table fs self.
Hypothesis Hparent : 0 < parent < 2 ^ 32.
Hypothesis Hmode : S_ISDIR (i_mode (inode_at fs v self)) = true.
Hypothesis Hblocks : i_blocks (inode_at fs v self) = b :: replicate 11 0.
Hypothesis Hb : in_data fs b.
Hypothesis Hused : block_used fs v b = true.
Hypothesis Hv : v b = dir_block self parent.

Lemma new_dir_blocks : blocks_of fs v self = [b].
Proof.
  unfold blocks_of. rewrite Hblocks. cbn [dir_blocks].
  rewrite (proj2 (Z.eqb_neq _ _)); [done|]. destruct Hfs, Hb. lia.
Qed.

Lemma table_32 ino : in_table fs ino -> 0 < ino < 2 ^ 32.
Proof. intros [Hi _]. destruct Hfs. unfold bitmap_bits, LOGFS_BLOCK_SIZE in *. lia. Qed.

Lemma new_dir_entries :
  dir_entries v (i_blocks (inode_at fs v self))
  ≡ₚ [(dotdot, (parent, LOGFS_FT_DIR)); (dot, (self, LOGFS_FT_DIR))].
Proof.
  unfold dir_entries. change (dir_blocks _) with (blocks_of fs v self).
  rewrite new_dir_blocks. cbn [map concat]. rewrite app_nil_r, Hv.
  apply dir_block_spec; [by apply table_32|done].
Qed.

Lemma new_dir_wf : wf_dir fs v self.
Proof.
  split; rewrite ?new_dir_blocks.
  - done.
  - done.
  - exists 11%nat. by rewrite Hblocks.
  - by apply Forall_singleton.
  - apply NoDup_singleton.
  - apply Forall_singleton. rewrite Hv. apply dir_block_spec; [by apply table_32|done].
  - rewrite new_dir_entries. cbn. apply NoDup_cons. split; [|apply NoDup_singleton].
    intros E%list_elem_of_singleton. discriminate E.
Qed.

Lemma new_dir_map : the_dir fs v self = new_dir self parent.
Proof.
  unfold the_dir, dir_map, new_dir.
  rewrite (list_to_map_proper _ _ (dir_names _ _ _ new_dir_wf) new_dir_entries).
  cbn [list_to_map foldr fst snd]. by rewrite insert_insert_ne by (intros E; discriminate E).
Qed.
End new_dir.
