(* ===== verification/FsImage.v ===== *)
(** The invariant of a mounted file system and what keeps it.  [tree] reads
    the directory maps off the disk, [wf_store] says how the inodes of a set
    share the device, and [wf_image] is both with [FsTree.wf_names]; the set
    holds the inodes the tree reaches, so a leaked inode or block is in
    nobody's way. *)

From S2P Require Import Prelude.
From S2P Require Import Bytes.
From S2P Require Import DiskFormat.
From S2P Require Import TxnApi.
From S2P Require Import FsFormat.
From S2P Require Import Inode.
From S2P Require Import InodeBits.
From S2P Require Import InodeSpec.
From S2P Require Import InodeDir.
From S2P Require Import InodeDirSpec.
From S2P Require Import InodeDirAdd.
From S2P Require Import InodeWalk.
From S2P Require Import FsOps.
From S2P Require Import FsTree.

(** ** The invariant *)

Section image.
Context (fs : logfs_super).
Implicit Types (v : Z -> block) (L : gset Z).

(** The blocks an inode points to. *)
Definition ino_blocks v (ino : Z) : list Z :=
  filter (fun b => b <> 0) (i_blocks (inode_at fs v ino)).

Definition is_dir v (ino : Z) : bool := S_ISDIR (i_mode (inode_at fs v ino)).

(** The abstraction: a directory's map, or a file. *)
Definition tree v (ino : Z) : option dirmap :=
  if is_dir v ino then Some (the_dir fs v ino) else None.

Record wf_store L v : Prop := {
  st_table ino : ino ∈ L -> in_table fs ino /\ inode_used fs v ino = true;
  st_used ino b : ino ∈ L -> b ∈ ino_blocks v ino -> in_data fs b /\ block_used fs v b = true;
  st_nodup ino : ino ∈ L -> NoDup (ino_blocks v ino);
  st_disjoint i1 i2 b :
    i1 ∈ L -> i2 ∈ L -> b ∈ ino_blocks v i1 -> b ∈ ino_blocks v i2 -> i1 = i2;
  st_dirs ino : ino ∈ L -> is_dir v ino = true -> wf_dir fs v ino;
  st_size ino : ino ∈ L -> is_dir v ino = false -> i_size (inode_at fs v ino) <= max_file_size;
}.

Record wf_image L v : Prop := {
  im_store : wf_store L v;
  im_names : wf_names L (tree v);
}.

Lemma elem_ino_blocks v ino b :
  b ∈ ino_blocks v ino <-> b <> 0 /\ b ∈ i_blocks (inode_at fs v ino).
Proof. unfold ino_blocks. by rewrite list_elem_of_filter. Qed.

Lemma blocks_of_ino v ino b : b ∈ blocks_of fs v ino -> b ∈ ino_blocks v ino.
Proof.
  intros Hb. apply elem_ino_blocks. split; [intros ->; by apply (dir_blocks_nonzero _ Hb)|].
  unfold blocks_of in Hb. induction (i_blocks (inode_at fs v ino)) as [|b' l IH]; [done|].
  cbn [dir_blocks] in Hb. destruct (b' =? 0); [by apply elem_of_nil in Hb|].
  apply elem_of_cons in Hb as [->|Hb]; [apply list_elem_of_here|]. by apply list_elem_of_further, IH.
Qed.

Lemma filter_zeros k : filter (fun b => b <> 0) (replicate k 0) = [].
Proof. induction k as [|k IH]; [done|]. cbn [replicate]. by rewrite filter_cons_False by auto. Qed.

Lemma ino_blocks_dir v ino : wf_dir fs v ino -> ino_blocks v ino = blocks_of fs v ino.
Proof.
  intros Hd. destruct (dir_holes _ _ _ Hd) as [k Hk]. unfold ino_blocks. rewrite Hk, filter_app.
  rewrite filter_zeros, app_nil_r. clear k Hk. pose proof (dir_blocks_nonzero (i_blocks (inode_at fs v ino))) as Hn.
  fold (blocks_of fs v ino) in Hn. induction (blocks_of fs v ino) as [|b l IH]; [done|].
  rewrite filter_cons_True by (intros ->; apply Hn, list_elem_of_here).
  f_equal. apply IH. intros Hin. by apply Hn, list_elem_of_further.
Qed.

(** ** What leaves the inodes of [L] alone *)

Record keeps L v v' : Prop := {
  kp_inode ino : ino ∈ L -> inode_at fs v' ino = inode_at fs v ino;
  kp_iused ino : ino ∈ L -> inode_used fs v ino = true -> inode_used fs v' ino = true;
  kp_bused ino b :
    ino ∈ L -> b ∈ ino_blocks v ino -> block_used fs v b = true -> block_used fs v' b = true;
  kp_data ino b : ino ∈ L -> b ∈ ino_blocks v ino -> v' b = v b;
}.

Lemma keeps_refl L v : keeps L v v.
Proof. by split. Qed.

Lemma keeps_blocks L v v' ino : keeps L v v' -> ino ∈ L -> ino_blocks v' ino = ino_blocks v ino.
Proof. intros Hk Hin. unfold ino_blocks. by rewrite (kp_inode _ _ _ Hk). Qed.

Lemma keeps_trans L v1 v2 v3 : keeps L v1 v2 -> keeps L v2 v3 -> keeps L v1 v3.
Proof.
  intros H12 H23. assert (Hbs : forall ino b, ino ∈ L -> b ∈ ino_blocks v1 ino -> b ∈ ino_blocks v2 ino)
    by (intros ino b Hin; by rewrite (keeps_blocks L v1 v2)).
  destruct H12 as [I1 U1 B1 D1], H23 as [I2 U2 B2 D2]. split.
  - intros ino Hin. by rewrite I2, I1.
  - auto.
  - intros ino b Hin Hb Hu. apply (B2 ino); [done|by apply Hbs|by eapply B1].
  - intros ino b Hin Hb. rewrite (D2 ino); [by eapply D1|done|by apply Hbs].
Qed.

Lemma keeps_sub L L' v v' : L' ⊆ L -> keeps L v v' -> keeps L' v v'.
Proof. intros Hs [I U B D]. split; intros; eauto. Qed.

Lemma keeps_dir L v v' ino : keeps L v v' -> ino ∈ L -> is_dir v' ino = is_dir v ino.
Proof. intros Hk Hin. unfold is_dir. by rewrite (kp_inode _ _ _ Hk). Qed.

(** A directory the change leaves alone. *)
Lemma keeps_dir_same L v v' ino :
  keeps L v v' -> ino ∈ L ->
  the_dir fs v' ino = the_dir fs v ino /\ (wf_dir fs v ino -> wf_dir fs v' ino).
Proof.
  intros Hk Hin. apply dir_same.
  - by apply (kp_inode _ _ _ Hk).
  - intros b Hb. by apply (kp_data _ _ _ Hk ino), blocks_of_ino.
  - intros b Hb. by apply (kp_bused _ _ _ Hk ino), blocks_of_ino.
Qed.

Lemma keeps_tree L v v' ino : keeps L v v' -> ino ∈ L -> tree v' ino = tree v ino.
Proof.
  intros Hk Hin. unfold tree. rewrite (keeps_dir L v v') by done.
  by rewrite (proj1 (keeps_dir_same _ _ _ _ Hk Hin)).
Qed.

Lemma store_keeps L v v' : wf_store L v -> keeps L v v' -> wf_store L v'.
Proof.
  intros [T U N D W Z] Hk. split.
  - intros ino Hin. destruct (T ino Hin). split; [done|]. by apply (kp_iused _ _ _ Hk).
  - intros ino b Hin. rewrite (keeps_blocks L v) by done. intros Hb. destruct (U ino b Hin Hb).
    split; [done|]. by apply (kp_bused _ _ _ Hk ino).
  - intros ino Hin. rewrite (keeps_blocks L v) by done. by apply N.
  - intros i1 i2 b H1 H2. rewrite (keeps_blocks L v v' i1), (keeps_blocks L v v' i2) by done. by apply D.
  - intros ino Hin. rewrite (keeps_dir L v) by done. intros Hd.
    apply (keeps_dir_same _ _ _ _ Hk Hin). by apply W.
  - intros ino Hin. rewrite (keeps_dir L v), (kp_inode _ _ _ Hk) by done. by apply Z.
Qed.

Lemma store_sub L L' v : L' ⊆ L -> wf_store L v -> wf_store L' v.
Proof. intros Hs [T U N D W Z]. split; eauto. Qed.

Lemma image_keeps L v v' : wf_image L v -> keeps L v v' -> wf_image L v'.
Proof.
  intros [Hs Hn] Hk. split; [by eapply store_keeps|].
  eapply wf_names_ext; [|exact Hn]. intros i Hi. by eapply keeps_tree.
Qed.

(** ** One inode changes *)

(** Its blocks after the change are its own or were free. *)
Record changed v v' (ino : Z) : Prop := {
  ch_iused : inode_used fs v' ino = true;
  ch_blocks b : b ∈ ino_blocks v' ino ->
    in_data fs b /\ block_used fs v' b = true /\
    (b ∈ ino_blocks v ino \/ block_used fs v b = false);
  ch_nodup : NoDup (ino_blocks v' ino);
  ch_dir : is_dir v' ino = true -> wf_dir fs v' ino;
  ch_size : is_dir v' ino = false -> i_size (inode_at fs v' ino) <= max_file_size;
}.

Lemma store_change L v v' ino :
  wf_store L v -> ino ∈ L -> keeps (L ∖ {[ino]}) v v' -> changed v v' ino -> wf_store L v'.
Proof.
  intros Hs Hino Hk [C1 C2 C3 C4 C5]. pose proof (store_sub L (L ∖ {[ino]}) v ltac:(set_solver) Hs) as Hs0.
  pose proof (store_keeps _ _ _ Hs0 Hk) as [T U N D W Z].
  assert (Hcase : forall i, i ∈ L -> i = ino \/ i ∈ L ∖ {[ino]}).
  { intros i Hi. destruct (decide (i = ino)); [by left|right]. by apply elem_rest. }
  assert (Hdis : forall i b, i ∈ L ∖ {[ino]} -> b ∈ ino_blocks v' i -> b ∈ ino_blocks v' ino -> False).
  { intros i b Hi Hb Hb'. rewrite (keeps_blocks _ v) in Hb by done.
    apply elem_rest in Hi as [Hi Hne]. destruct (C2 b Hb') as (_ & _ & [Hold|Hfree]).
    - by apply Hne, (st_disjoint _ _ Hs i ino b).
    - destruct (st_used _ _ Hs i b Hi Hb). congruence. }
  split.
  - intros i [->|Hi]%Hcase; [split; [by apply (st_table _ _ Hs)|done]|by apply T].
  - intros i b [->|Hi]%Hcase Hb; [split; by apply C2|by apply (U i)].
  - intros i [->|Hi]%Hcase; [done|by apply N].
  - intros i1 i2 b [->|H1]%Hcase [->|H2]%Hcase Hb1 Hb2; [done| | |by eapply D]; exfalso.
    + by apply (Hdis i2 b).
    + by apply (Hdis i1 b).
  - intros i [->|Hi]%Hcase; [done|by apply W].
  - intros i [->|Hi]%Hcase; [done|by apply Z].
Qed.

(** An inode joins. *)
Lemma store_add L v n :
  wf_store L v -> in_table fs n -> inode_used fs v n = true ->
  (forall b, b ∈ ino_blocks v n ->
     in_data fs b /\ block_used fs v b = true /\ forall i, i ∈ L -> b ∉ ino_blocks v i) ->
  NoDup (ino_blocks v n) -> (is_dir v n = true -> wf_dir fs v n) ->
  (is_dir v n = false -> i_size (inode_at fs v n) <= max_file_size) ->
  wf_store ({[n]} ∪ L) v.
Proof.
  intros [T U N D W Z] Ht Hu Hb Hnd Hd Hz. split.
  - intros i [->%elem_of_singleton|Hi]%elem_of_union; [done|by apply T].
  - intros i b [->%elem_of_singleton|Hi]%elem_of_union Hin; [split; by apply Hb|by apply (U i)].
  - intros i [->%elem_of_singleton|Hi]%elem_of_union; [done|by apply N].
  - intros i1 i2 b [->%elem_of_singleton|H1]%elem_of_union [->%elem_of_singleton|H2]%elem_of_union Hb1 Hb2;
      [done| | |by eapply D]; exfalso.
    + destruct (Hb b Hb1) as (_ & _ & Hn). by apply (Hn i2).
    + destruct (Hb b Hb2) as (_ & _ & Hn). by apply (Hn i1).
  - intros i [->%elem_of_singleton|Hi]%elem_of_union; [done|by apply W].
  - intros i [->%elem_of_singleton|Hi]%elem_of_union; [done|by apply Z].
Qed.

(** ** Directory operations *)

Lemma frame_keeps L v v' p :
  wf_store L v -> p ∈ L -> dir_frame fs p v v' -> keeps (L ∖ {[p]}) v v'.
Proof.
  intros Hs Hp [Fi _ Fb Fu Fd _]. split.
  - intros i [Hi Hne]%elem_rest. apply Fi; [by apply (st_table _ _ Hs)|done].
  - intros i _ Hu. unfold inode_used in *. by rewrite Fb.
  - intros i b [Hi _]%elem_rest Hb. apply Fu, (st_used _ _ Hs i b Hi Hb).
  - intros i b [Hi Hne]%elem_rest Hb. destruct (st_used _ _ Hs i b Hi Hb) as [Hin Hu].
    apply Fd; [done|done|]. intros Hb'%blocks_of_ino. by apply Hne, (st_disjoint _ _ Hs i p b).
Qed.

Lemma frame_dir v v' p : dir_frame fs p v v' -> is_dir v' p = is_dir v p.
Proof. intros [_ Fa _ _ _ _]. unfold is_dir. by rewrite (proj1 Fa). Qed.

Lemma frame_changed L v v' p :
  wf_store L v -> p ∈ L -> is_dir v p = true -> dir_frame fs p v v' -> wf_dir fs v' p ->
  changed v v' p.
Proof.
  intros Hs Hp Hd Hf Hwf. pose proof (frame_dir _ _ _ Hf) as Hd'. split.
  - pose proof (st_table _ _ Hs p Hp) as [_ Hu]. unfold inode_used in *.
    by rewrite (fr_inode_bitmap _ _ _ _ Hf).
  - intros b. rewrite (ino_blocks_dir v') by done. intros Hb.
    pose proof (dir_data _ _ _ Hwf) as Hdata. rewrite Forall_forall in Hdata.
    destruct (Hdata b Hb) as [Hin Hu]. split; [done|]. split; [done|].
    destruct (fr_blocks _ _ _ _ Hf b Hb) as [Hold|]; [left; by apply blocks_of_ino|by right].
  - rewrite (ino_blocks_dir v') by done. apply Hwf.
  - done.
  - rewrite Hd', Hd. done.
Qed.
End image.
