(* ===== verification/FsStep.v ===== *)
(** The primitive changes of the operations of [fs_ops.c] and the inodes they
    leave alone: taking and returning a bit of a bitmap, writing a block no
    inode has, writing an inode, freeing an inode's blocks. *)

From S2P Require Import Prelude.
From S2P Require Import Bytes.
From S2P Require Import DiskFormat.
From S2P Require Import TxnApi.
From S2P Require Import FsFormat.
From S2P Require Import Inode.
From S2P Require Import InodeBits.
From S2P Require Import InodeSpec.
From S2P Require Import InodeDir.
From S2P Require Import InodeDirSpec.
From S2P Require Import InodeDirAdd.
From S2P Require Import InodeWalk.
From S2P Require Import FsOps.
From S2P Require Import FsTree.
From S2P Require Import FsImage.

Section step.
Context (fs : logfs_super) (Hfs : wf_fs fs).
Implicit Types (L : gset Z) (a : contents) (v : Z -> block).

(** The client's environment and the inodes of [L] are as before. *)
Definition step L a a' : Prop := same_env a a' /\ keeps fs L (c_view a) (c_view a').

Lemma step_refl L a : step L a a.
Proof. split; [done|apply keeps_refl]. Qed.

Lemma step_trans L a1 a2 a3 : step L a1 a2 -> step L a2 a3 -> step L a1 a3.
Proof. intros [E1 K1] [E2 K2]. split; [by etrans|by eapply keeps_trans]. Qed.

Lemma step_sub L L' a a' : L' ⊆ L -> step L a a' -> step L' a a'.
Proof. intros Hs [E K]. split; [done|by eapply keeps_sub]. Qed.

Lemma step_blocks L a a' : step L a a' -> fs_blocks fs a -> fs_blocks fs a'.
Proof. intros [E _]. by apply fs_blocks_env. Qed.

Lemma step_image L a a' : step L a a' -> wf_image fs L (c_view a) -> wf_image fs L (c_view a').
Proof. intros [_ K] Hi. by eapply image_keeps. Qed.

Lemma step_store L a a' : step L a a' -> wf_store fs L (c_view a) -> wf_store fs L (c_view a').
Proof. intros [_ K] Hi. by eapply store_keeps. Qed.

(** A block some inode of [L] has. *)
Definition owned L v (b : Z) : Prop := exists i, i ∈ L /\ b ∈ ino_blocks fs v i.

Lemma owned_used L v b : wf_store fs L v -> owned L v b -> in_data fs b /\ block_used fs v b = true.
Proof. intros Hs (i & Hi & Hb). by apply (st_used _ _ _ Hs i). Qed.

Lemma owned_keeps L v v' b : keeps fs L v v' -> owned L v' b -> owned L v b.
Proof. intros K (i & Hi & Hb). exists i. split; [done|]. by rewrite (keeps_blocks fs L v v') in Hb. Qed.

(** What has to hold of the blocks. *)
Lemma keeps_blocks_ext L v v' :
  wf_store fs L v ->
  (forall b, sb_inode_table_start fs <= b < sb_data_start fs -> v' b = v b) ->
  (forall i, i ∈ L -> inode_used fs v i = true -> inode_used fs v' i = true) ->
  (forall b, owned L v b -> block_used fs v' b = true) ->
  (forall b, owned L v b -> v' b = v b) ->
  keeps fs L v v'.
Proof.
  intros Hs Ht Hi Hu Hv. split.
  - intros ino Hin. apply inode_at_ext; [done| |done]. by apply (st_table _ _ _ Hs).
  - done.
  - intros ino b Hin Hb _. apply Hu. by exists ino.
  - intros ino b Hin Hb. apply Hv. by exists ino.
Qed.

(** ** Bitmaps *)

Lemma keeps_inode_bitmap L v v' :
  wf_store fs L v -> (forall b, b <> sb_inode_bitmap_start fs -> v' b = v b) ->
  (forall i, i ∈ L -> inode_used fs v' i = true) -> keeps fs L v v'.
Proof.
  intros Hs Hv Hi. pose proof Hfs as []. apply keeps_blocks_ext; [done| |auto|..].
  - intros b Hb. apply Hv. lia.
  - intros b Hb. destruct (owned_used L v b Hs Hb). unfold block_used in *. rewrite Hv by lia. done.
  - intros b [[H1 H2] _]%(owned_used L v b Hs). apply Hv. lia.
Qed.

Lemma keeps_block_bitmap L v v' :
  wf_store fs L v -> (forall b, b <> sb_block_bitmap_start fs -> v' b = v b) ->
  (forall b, owned L v b -> block_used fs v' b = true) -> keeps fs L v v'.
Proof.
  intros Hs Hv Hu. pose proof Hfs as []. apply keeps_blocks_ext; [done|..|done|].
  - intros b Hb. apply Hv. lia.
  - intros i Hi. unfold inode_used. by rewrite Hv by lia.
  - intros b [[H1 H2] _]%(owned_used L v b Hs). apply Hv. lia.
Qed.

Lemma env_bit bm f a : same_env a (put bm f (touch bm a)).
Proof. etrans; [apply same_env_touch|apply same_env_put]. Qed.

Lemma table_bits L v i : wf_store fs L v -> i ∈ L -> 0 <= i < bitmap_bits.
Proof. intros Hs Hi. destruct (st_table _ _ _ Hs i Hi) as [[? _] _]. destruct Hfs. lia. Qed.

Lemma data_bits b : in_data fs b -> 0 <= b - sb_data_start fs < bitmap_bits.
Proof. intros [? ?]. destruct Hfs. lia. Qed.

Section bits.
Context (L : gset Z) (a : contents).
Hypothesis Hs : wf_store fs L (c_view a).
Hypothesis Hlen : forall b, length (c_view a b) = block_len.

Lemma step_take_inode n :
  0 <= n < bitmap_bits -> step L a (take_bit (sb_inode_bitmap_start fs) n a) /\
  inode_used fs (c_view (take_bit (sb_inode_bitmap_start fs) n a)) n = true.
Proof.
  intros Hn. split; [split; [apply env_bit|]|].
  - apply keeps_inode_bitmap; [done|apply take_bit_other|]. intros i Hi.
    pose proof (table_bits L _ i Hs Hi). destruct (st_table _ _ _ Hs i Hi) as [_ Hu].
    unfold inode_used in *. rewrite take_bit_view by (done || lia). by case_decide.
  - unfold inode_used. rewrite take_bit_view by (done || lia). by rewrite decide_True.
Qed.

Lemma step_drop_inode n :
  0 <= n < bitmap_bits -> n ∉ L -> step L a (drop_bit (sb_inode_bitmap_start fs) n a).
Proof.
  intros Hn HnL. split; [apply env_bit|].
  apply keeps_inode_bitmap; [done|apply drop_bit_other|]. intros i Hi.
  pose proof (table_bits L _ i Hs Hi). destruct (st_table _ _ _ Hs i Hi) as [_ Hu].
  unfold inode_used in *. rewrite drop_bit_view by (done || lia).
  rewrite decide_False; [done|]. by intros ->.
Qed.

Lemma step_take_block i :
  0 <= i < bitmap_bits -> step L a (take_bit (sb_block_bitmap_start fs) i a).
Proof.
  intros Hi. split; [apply env_bit|]. apply keeps_block_bitmap; [done|apply take_bit_other|].
  intros b Hb. destruct (owned_used L _ b Hs Hb) as [Hin Hu]. pose proof (data_bits b Hin).
  unfold block_used in *. rewrite take_bit_view by (done || lia). by case_decide.
Qed.

Lemma step_drop_block b :
  in_data fs b -> ~ owned L (c_view a) b ->
  step L a (drop_bit (sb_block_bitmap_start fs) (b - sb_data_start fs) a).
Proof.
  intros Hin Hno. split; [apply env_bit|]. apply keeps_block_bitmap; [done|apply drop_bit_other|].
  intros b' Hb'. destruct (owned_used L _ b' Hs Hb') as [Hin' Hu].
  pose proof (data_bits b Hin). pose proof (data_bits b' Hin').
  unfold block_used in *. rewrite drop_bit_view by (done || lia).
  rewrite decide_False; [done|]. intros E. apply Hno. by replace b with b' by lia.
Qed.

(** ** Blocks and inodes *)

Lemma step_put b c a' :
  in_data fs b -> ~ owned L (c_view a) b -> same_env a a' ->
  (forall b', c_view a' b' = if decide (b = b') then c else c_view a b') -> step L a a'.
Proof.
  intros [Hb1 Hb2] Hno Henv Hv. pose proof Hfs as []. split; [done|].
  apply keeps_blocks_ext; [done|..].
  - intros b' Hb'. rewrite Hv. by rewrite decide_False by lia.
  - intros i Hi. unfold inode_used. rewrite Hv. by rewrite decide_False by lia.
  - intros b' Hb'. destruct (owned_used L _ b' Hs Hb') as [_ Hu]. unfold block_used in *.
    rewrite Hv. by rewrite decide_False by lia.
  - intros b' Hb'. rewrite Hv. rewrite decide_False; [done|]. by intros ->.
Qed.

Lemma write_inode_bits ino inode :
  in_table fs ino ->
  (forall i, inode_used fs (c_view (write_inode fs ino inode a)) i = inode_used fs (c_view a) i) /\
  (forall b, block_used fs (c_view (write_inode fs ino inode a)) b = block_used fs (c_view a) b).
Proof.
  intros Hin. pose proof Hfs as []. unfold inode_used, block_used.
  split; intros; by rewrite write_inode_other by (done || lia).
Qed.

Lemma step_write_inode ino inode :
  in_table fs ino -> wf_inode inode -> ino ∉ L -> step L a (write_inode fs ino inode a).
Proof.
  intros Hin Hw Hno. destruct (write_inode_bits ino inode Hin) as [Hi Hb].
  split; [apply same_env_write_inode|]. split.
  - intros i Hi'. rewrite inode_at_write by (done || by apply (st_table _ _ _ Hs)).
    rewrite decide_False; [done|]. by intros ->.
  - intros i _. by rewrite Hi.
  - intros i b _ _. by rewrite Hb.
  - intros i b Hi' Hb'. destruct (st_used _ _ _ Hs i b Hi' Hb') as [[? ?] _].
    apply write_inode_other; [done..|lia].
Qed.
End bits.
End step.
