(* ===== verification/FsPath.v ===== *)
(** What every operation of [fs_ops.c] starts with: the parent directory and
    the name in it, the directories of an image, the handle. *)

From S2P Require Import Prelude.
From S2P Require Import Bytes.
From S2P Require Import DiskFormat.
From S2P Require Import TxnApi.
From S2P Require Import FsFormat.
From S2P Require Import Inode.
From S2P Require Import InodeBits.
From S2P Require Import InodeSpec.
From S2P Require Import InodeDir.
From S2P Require Import InodeDirSpec.
From S2P Require Import InodeDirAdd.
From S2P Require Import InodeWalk.
From S2P Require Import FsOps.
From S2P Require Import FsTree.
From S2P Require Import FsImage.
From S2P Require Import FsStep.

(** ** [split_parent] *)

Lemma last_slash_spec path :
  match last_slash path with
  | Some i => path = take i path ++ slash :: drop (S i) path /\ (slash ∉ drop (S i) path) /\
              (i < length path)%nat
  | None => slash ∉ path
  end.
Proof.
  induction path as [|c path IH]; cbn [last_slash]; [apply not_elem_of_nil|].
  destruct (last_slash path) as [i|].
  - destruct IH as (E & Hn & Hi). cbn [take drop length app]. split; [by rewrite <-E|].
    split; [done|lia].
  - destruct (decide (c = slash)) as [->|Hc].
    + rewrite bool_decide_true by done. cbn [take drop length app]. split; [done|]. split; [done|lia].
    + rewrite bool_decide_false by done. by intros [E|H]%elem_of_cons.
Qed.

(** The name [split_parent] returns fits a directory entry and has no slash;
    the parent and the name are the path. *)
Lemma split_parent_ok path cap parent name :
  split_parent path cap = Ok (parent, name) ->
  bad_name name = false /\ (slash ∉ name) /\ Z.of_nat (length parent) < cap /\
  (path = parent ++ slash :: name \/ parent = [slash] /\ path = slash :: name).
Proof.
  unfold split_parent. pose proof (last_slash_spec path) as Hs.
  destruct (last_slash path) as [i|]; [|done]. destruct Hs as (E & Hn & Hi).
  cbv zeta.
  set (check := fun parent : list byte =>
    if bool_decide (drop (S i) path = []) then Err (- EINVAL)
    else if LOGFS_NAME_MAX <? Z.of_nat (length (drop (S i) path)) then Err (- ENAMETOOLONG)
    else Ok (parent, drop (S i) path)).
  assert (Hcheck : forall p, check p = Ok (parent, name) ->
    parent = p /\ name = drop (S i) path /\ bad_name name = false).
  { unfold check. intros p. destruct (decide (drop (S i) path = [])) as [Hnil|Hnil];
      [by rewrite bool_decide_true|rewrite bool_decide_false by done].
    destruct (LOGFS_NAME_MAX <? _) eqn:Hmax; [done|]. intros [= -> <-].
    split; [done|]. split; [done|]. unfold bad_name. rewrite Hmax, orb_false_r.
    apply Z.eqb_neq. destruct (drop _ _); [done|]. cbn [length]. lia. }
  destruct (Nat.eqb_spec i 0) as [->|Hi0].
  - destruct (Z.ltb_spec cap 2); [done|]. intros H'%Hcheck. destruct H' as (-> & -> & Hb).
    split; [done|]. split; [done|]. split; [cbn [length]; lia|]. right. split; [done|]. exact E.
  - destruct (Z.ltb_spec cap (Z.of_nat i + 1)); [done|]. intros H'%Hcheck.
    destruct H' as (-> & -> & Hb). split; [done|]. split; [done|].
    rewrite length_take. split; [lia|]. by left.
Qed.

(** Cutting at the last slash. *)
Lemma split_path_snoc path name :
  slash ∉ name -> split_path (path ++ slash :: name) = split_path path ++ [name].
Proof.
  intros Hn. induction path as [|c path IH]; cbn [app split_path].
  - rewrite decide_True by done. pose proof (split_path_app name [] Hn) as E.
    rewrite app_nil_r in E. cbn [split_path] in E. by rewrite E, app_nil_r.
  - rewrite IH. case_decide; [done|].
    pose proof (split_path_cons path). by destruct (split_path path).
Qed.

Lemma components_snoc path name :
  (slash ∉ name) -> name <> [] -> components (path ++ slash :: name) = components path ++ [name].
Proof.
  intros Hn Hne. unfold components. rewrite split_path_snoc by done.
  by rewrite filter_app, filter_cons_True.
Qed.

Section path.
Context (fs : logfs_super) (Hfs : wf_fs fs).
Implicit Types (L : gset Z) (a : contents) (v : Z -> block).

(** The directory an operation works in, and the name. *)
Definition target v (path : list byte) : result (Z * list byte) :=
  match split_parent path PATH_MAX with
  | Ok (parent, name) =>
      match resolve_path fs v parent with
      | Ok p => Ok (p, name)
      | Err rc => Err rc
      end
  | Err rc => Err rc
  end.

(** ** An image's tree *)

Lemma image_tree L v : wf_image fs L v -> wf_tree fs v (fun i => i ∈ L).
Proof.
  intros [[T U N D W Z] [[R _] Nm _ _ _]]. split.
  - by rewrite (wf_root _ Hfs).
  - intros i Hi. split; [by apply T|]. by apply W.
  - intros d name x Hd Hwf Hx. assert (Htree : tree fs v d = Some (the_dir fs v d)).
    { unfold tree, is_dir. by rewrite (dir_isdir _ _ _ Hwf). }
    by destruct (Nm d _ name x Hd Htree Hx).
Qed.

Lemma resolve_live L v cur names n :
  wf_image fs L v -> cur ∈ L -> resolve fs v cur names = Ok n -> n ∈ L.
Proof.
  intros Hi. revert cur. induction names as [|name names IH]; intros cur Hc; cbn [resolve].
  { by intros [= <-]. }
  destruct (_ <? _); [done|]. destruct (S_ISDIR _) eqn:Hd; [|done]. cbn [negb].
  destruct (the_dir fs v cur !! name) as [x|] eqn:Hx; [|done]. apply IH.
  pose proof (image_tree L v Hi) as Ht.
  eapply (tree_names _ _ _ Ht); [done| |done]. by apply (st_dirs _ _ _ (im_store _ _ _ Hi)).
Qed.

Lemma resolve_path_live L v path n : wf_image fs L v -> resolve_path fs v path = Ok n -> n ∈ L.
Proof.
  intros Hi. unfold resolve_path. destruct path as [|c rest]; [done|].
  destruct (decide (c = slash)); [|done]. apply (resolve_live L); [done|].
  rewrite (wf_root _ Hfs). apply (im_names _ _ _ Hi).
Qed.

Lemma target_ok L v path p name :
  wf_image fs L v -> target v path = Ok (p, name) -> p ∈ L /\ bad_name name = false.
Proof.
  intros Hi. unfold target. destruct (split_parent path PATH_MAX) as [[parent nm]|] eqn:E; [|done].
  destruct (resolve_path fs v parent) as [q|] eqn:Er; [|done]. intros [= <- <-].
  split; [by eapply resolve_path_live|]. by apply split_parent_ok in E as [? _].
Qed.

Lemma tree_dir L v p m :
  wf_image fs L v -> p ∈ L -> tree fs v p = Some m ->
  is_dir fs v p = true /\ wf_dir fs v p /\ m = the_dir fs v p.
Proof.
  intros Hi Hp. unfold tree. destruct (is_dir fs v p) eqn:E; [|done]. intros [= <-].
  split; [done|]. split; [|done]. by apply (st_dirs _ _ _ (im_store _ _ _ Hi)).
Qed.

Lemma tree_file v p : tree fs v p = None -> is_dir fs v p = false.
Proof. unfold tree. by destruct (is_dir fs v p). Qed.

(** A name that is not in the directory is neither "." nor "..". *)
Lemma absent_proper L v p m name :
  wf_image fs L v -> p ∈ L -> tree fs v p = Some m -> m !! name = None -> proper name.
Proof.
  intros Hi Hp Hm Hn. destruct (nm_dots _ _ (im_names _ _ _ Hi) p m Hp Hm) as (H1 & q & H2 & _).
  split; congruence.
Qed.

(** The path itself leads to what its name stands for in the directory. *)
Lemma resolve_app v cur l k :
  resolve fs v cur (l ++ k)
  = match resolve fs v cur l with Ok p => resolve fs v p k | Err rc => Err rc end.
Proof.
  revert cur. induction l as [|name l IH]; intros cur; cbn [app resolve]; [done|].
  destruct (_ <? _); [done|]. destruct (negb _); [done|].
  destruct (the_dir fs v cur !! name); [apply IH|done].
Qed.

Lemma resolve_name v p name m :
  bad_name name = false -> tree fs v p = Some m ->
  resolve fs v p [name] = match m !! name with Some x => Ok x.1 | None => Err (- ENOENT) end.
Proof.
  intros Hn Hm. apply orb_false_iff in Hn as [_ Hn]. cbn [resolve]. rewrite Hn.
  unfold tree, is_dir in Hm. destruct (S_ISDIR _); [|done]. injection Hm as <-. cbn [negb].
  by destruct (the_dir fs v p !! name).
Qed.

Lemma target_names v path p name :
  target v path = Ok (p, name) ->
  exists names, bad_name name = false /\ resolve fs v (sb_root_ino fs) names = Ok p /\
    forall v', resolve_path fs v' path = resolve fs v' (sb_root_ino fs) (names ++ [name]).
Proof.
  unfold target. destruct (split_parent path PATH_MAX) as [[parent nm]|] eqn:E; [|done].
  destruct (resolve_path fs v parent) as [q|] eqn:Er; [|done]. intros [= <- <-].
  apply split_parent_ok in E as (Hb & Hn & _ & Hpath).
  assert (Hne : nm <> []) by (intros ->; done).
  assert (Hone : components nm = [nm]).
  { pose proof (split_path_app nm [] Hn) as H. rewrite app_nil_r in H. cbn [split_path] in H.
    unfold components. by rewrite H, app_nil_r, filter_cons_True. }
  unfold resolve_path in *. destruct Hpath as [->|[-> ->]].
  - destruct parent as [|c rest]; [done|]. cbn [app]. destruct (decide (c = slash)); [|done].
    exists (components rest). split; [done|]. split; [done|]. intros v'. by rewrite components_snoc.
  - rewrite decide_True in Er by done. exists []. split; [done|]. split; [done|]. intros v'.
    by rewrite decide_True, Hone by done.
Qed.

(** What a path leads to stays when directories only get names. *)
Definition grows L v v' : Prop :=
  forall i m, i ∈ L -> tree fs v i = Some m -> exists m', tree fs v' i = Some m' /\ m ⊆ m'.

Lemma resolve_grows L v v' cur names n :
  wf_image fs L v -> grows L v v' -> cur ∈ L ->
  resolve fs v cur names = Ok n -> resolve fs v' cur names = Ok n.
Proof.
  intros Hi Hg. revert cur. induction names as [|name names IH]; intros cur Hc; cbn [resolve]; [done|].
  destruct (_ <? _); [done|]. destruct (S_ISDIR (i_mode (inode_at fs v cur))) eqn:Hd; [|done].
  destruct (the_dir fs v cur !! name) as [x|] eqn:Hx; [|done]. cbn [negb].
  assert (Hm : tree fs v cur = Some (the_dir fs v cur)) by (unfold tree, is_dir; by rewrite Hd).
  destruct (Hg cur _ Hc Hm) as (m' & Hm' & Hsub). unfold tree, is_dir in Hm'.
  destruct (S_ISDIR (i_mode (inode_at fs v' cur))); [|done]. injection Hm' as <-. cbn [negb].
  rewrite (lookup_weaken _ _ _ _ Hx Hsub). apply IH.
  by destruct (nm_names _ _ (im_names _ _ _ Hi) cur _ name x Hc Hm Hx).
Qed.

(** When directories only lose names, it stays or is gone; [L'] are the
    inodes that are left. *)
Definition shrinks L' v v' : Prop :=
  forall i m, i ∈ L' -> tree fs v i = Some m -> exists m', tree fs v' i = Some m' /\ m' ⊆ m.

Lemma resolve_shrinks L' v v' cur names n :
  wf_image fs L' v' -> shrinks L' v v' -> cur ∈ L' ->
  resolve fs v cur names = Ok n ->
  resolve fs v' cur names = Ok n \/ resolve fs v' cur names = Err (- ENOENT).
Proof.
  intros Hi Hg. revert cur. induction names as [|name names IH]; intros cur Hc; cbn [resolve]; [by left|].
  destruct (_ <? _); [done|]. destruct (S_ISDIR (i_mode (inode_at fs v cur))) eqn:Hd; [|done].
  destruct (the_dir fs v cur !! name) as [x|] eqn:Hx; [|done]. cbn [negb].
  assert (Hm : tree fs v cur = Some (the_dir fs v cur)) by (unfold tree, is_dir; by rewrite Hd).
  destruct (Hg cur _ Hc Hm) as (m' & Hm' & Hsub). pose proof Hm' as Ht. unfold tree, is_dir in Hm'.
  destruct (S_ISDIR (i_mode (inode_at fs v' cur))); [|done]. injection Hm' as <-. cbn [negb].
  destruct (the_dir fs v' cur !! name) as [x'|] eqn:Hx'; [|by right].
  pose proof (lookup_weaken _ _ _ _ Hx' Hsub) as E. replace x with x' by congruence. apply IH.
  by destruct (nm_names _ _ (im_names _ _ _ Hi) cur _ name x' Hc Ht Hx').
Qed.

(** ** The calls *)

Context {S : Type} `{TxnLaws S}.

Lemma triple_split {B} a path (k : list byte * list byte -> M S B) (Q : result B -> contents -> Prop) :
  (forall rc, split_parent path PATH_MAX = Err rc -> Q (Err rc) a) ->
  (forall pn, split_parent path PATH_MAX = Ok pn -> triple rep a (k pn) Q) ->
  triple rep a (lift (split_parent path PATH_MAX) ≫= k) Q.
Proof.
  intros He Hk. apply triple_bind. destruct (split_parent path PATH_MAX) as [pn|rc].
  - apply triple_ret. by apply Hk.
  - apply triple_fail. by apply He.
Qed.

Lemma triple_lookup {B} L a path (k : Z -> M S B) (Q : result B -> contents -> Prop) :
  fs_blocks fs a -> wf_image fs L (c_view a) ->
  (forall rc, resolve_path fs (c_view a) path = Err rc -> Q (Err rc) a) ->
  (forall rc, c_calm a = false -> rc < 0 -> Q (Err rc) a) ->
  (forall p, resolve_path fs (c_view a) path = Ok p -> triple rep a (k p) Q) ->
  triple rep a (logfs_path_lookup fs path ≫= k) Q.
Proof.
  intros Hb Hi He Hio Hk. apply triple_bind.
  eapply triple_wand; [apply (path_lookup_spec fs Hfs (fun i => i ∈ L) a path Hb), image_tree, Hi|].
  intros r a' [-> [->|(Hc & rc & Hrc & ->)]]; [|by apply Hio].
  destruct (resolve_path fs (c_view a) path) as [p|rc]; auto.
Qed.

(** The two together. *)
Lemma triple_target {B} L a path (k : Z -> list byte -> M S B) (Q : result B -> contents -> Prop) :
  fs_blocks fs a -> wf_image fs L (c_view a) ->
  (forall rc, target (c_view a) path = Err rc -> Q (Err rc) a) ->
  (forall rc, c_calm a = false -> rc < 0 -> Q (Err rc) a) ->
  (forall p name, target (c_view a) path = Ok (p, name) -> triple rep a (k p name) Q) ->
  triple rep a
    (pn ← lift (split_parent path PATH_MAX);
     parent_ino ← logfs_path_lookup fs pn.1; k parent_ino pn.2) Q.
Proof.
  intros Hb Hi He Hio Hk. apply triple_split.
  - intros rc E. apply He. unfold target. by rewrite E.
  - intros [parent name] E. cbn [fst snd]. apply (triple_lookup L); [done|done| |done|].
    + intros rc Er. apply He. unfold target. by rewrite E, Er.
    + intros p Er. apply Hk. unfold target. by rewrite E, Er.
Qed.

(** [logfs_txn_start] and [logfs_txn_stop] around a body change nothing. *)
Lemma triple_handle {A} a (body : Z -> M S A) (Q : result A -> contents -> Prop) :
  triple rep a (body (c_gen a)) Q -> triple rep a (with_handle body) Q.
Proof.
  intros Hbody. unfold with_handle. apply triple_start, triple_bind, triple_attempt.
  eapply triple_wand; [exact Hbody|]. intros r a' HQ. cbv beta. apply triple_stop.
  intros s Hs. exists a'. split; [exact Hs|exact HQ].
Qed.

(** [logfs_dir_add] on a file. *)
Lemma dir_add_not_dir a h d name ino type :
  fs_blocks fs a -> in_table fs d -> is_dir fs (c_view a) d = false ->
  triple rep a (logfs_dir_add h fs d name ino type)
    (fun r a' => a' = a /\ (r = Err (- ENOTDIR) \/ io_error a r)).
Proof.
  intros Hb Hin Hd. unfold logfs_dir_add, is_dir in *.
  eapply triple_outcome; [by apply inode_read_spec| |].
  - intros rc Hc Hrc. split; [done|]. right. split; [done|]. by exists rc.
  - rewrite Hd. cbn [negb]. apply triple_fail. split; [done|by left].
Qed.
End path.
