(* ===== verification/FsChange.v ===== *)
(** How an operation changes the tree: not at all, a name more, a name less,
    or the attributes of one inode. *)

From S2P Require Import Prelude.
From S2P Require Import Bytes.
From S2P Require Import DiskFormat.
From S2P Require Import TxnApi.
From S2P Require Import FsFormat.
From S2P Require Import Inode.
From S2P Require Import InodeBits.
From S2P Require Import InodeSpec.
From S2P Require Import InodeDir.
From S2P Require Import InodeDirSpec.
From S2P Require Import InodeDirAdd.
From S2P Require Import InodeWalk.
From S2P Require Import FsOps.
From S2P Require Import FsTree.
From S2P Require Import FsImage.
From S2P Require Import FsStep.
From S2P Require Import FsPath.

Section change.
Context (fs : logfs_super) (Hfs : wf_fs fs).
Implicit Types (L : gset Z) (a : contents) (v : Z -> block).

(** A file's inode and blocks. *)
Definition same_file v v' (i : Z) : Prop :=
  inode_at fs v' i = inode_at fs v i /\ forall b, b ∈ ino_blocks fs v i -> v' b = v b.

Lemma same_file_trans v1 v2 v3 i : same_file v1 v2 i -> same_file v2 v3 i -> same_file v1 v3 i.
Proof.
  intros [E1 D1] [E2 D2]. split; [congruence|]. intros b Hb. rewrite D2; [by apply D1|].
  unfold ino_blocks in *. by rewrite E1.
Qed.

Lemma same_file_keeps L v v' i : keeps fs L v v' -> i ∈ L -> same_file v v' i.
Proof.
  intros K Hi. split; [by apply (kp_inode _ _ _ _ K)|]. intros b. by apply (kp_data _ _ _ _ K i).
Qed.

Lemma same_file_dir v v' i : same_file v v' i -> is_dir fs v' i = is_dir fs v i.
Proof. intros [E _]. unfold is_dir. by rewrite E. Qed.

(** The tree is as it was. *)
Record unchanged L v v' : Prop := {
  un_image : wf_image fs L v';
  un_tree i : i ∈ L -> tree fs v' i = tree fs v i;
  un_files i : i ∈ L -> is_dir fs v i = false -> same_file v v' i;
}.

Lemma unchanged_keeps L v v' : wf_image fs L v -> keeps fs L v v' -> unchanged L v v'.
Proof.
  intros Hi K. split.
  - by eapply image_keeps.
  - intros i. by apply keeps_tree.
  - intros i Hin _. by eapply same_file_keeps.
Qed.

Lemma unchanged_refl L v : wf_image fs L v -> unchanged L v v.
Proof. intros Hi. apply unchanged_keeps; [done|apply keeps_refl]. Qed.

Lemma tree_is_dir v v' i : tree fs v' i = tree fs v i -> is_dir fs v' i = is_dir fs v i.
Proof. unfold tree. by destruct (is_dir fs v' i), (is_dir fs v i). Qed.

Lemma unchanged_trans L v1 v2 v3 : unchanged L v1 v2 -> unchanged L v2 v3 -> unchanged L v1 v3.
Proof.
  intros [I1 T1 F1] [I2 T2 F2]. split; [done|..].
  - intros i Hi. by rewrite T2, T1.
  - intros i Hi Hd. eapply same_file_trans; [by apply F1|]. apply F2; [done|].
    by rewrite (tree_is_dir v1 v2 i (T1 i Hi)).
Qed.

(** One directory's storage changes, its map does not. *)
Lemma unchanged_dir L v v' p :
  wf_image fs L v -> p ∈ L -> is_dir fs v p = true -> dir_frame fs p v v' -> wf_dir fs v' p ->
  the_dir fs v' p = the_dir fs v p -> unchanged L v v'.
Proof.
  intros [Hs Hn] Hp Hd Hf Hwf Hm. pose proof (frame_keeps fs L v v' p Hs Hp Hf) as K.
  assert (HT : forall i, i ∈ L -> tree fs v' i = tree fs v i).
  { intros i Hi. destruct (decide (i = p)) as [->|].
    - unfold tree. by rewrite (frame_dir _ _ _ _ Hf), Hd, Hm.
    - eapply keeps_tree; [exact K|by apply elem_rest]. }
  split; [split|done|].
  - apply (store_change fs L v v' p); [done..|]. by apply (frame_changed fs L).
  - by apply (wf_names_ext L (tree fs v)).
  - intros i Hi Hfile. eapply same_file_keeps; [exact K|]. apply elem_rest. split; [done|].
    intros ->. by rewrite Hd in Hfile.
Qed.

(** ** A name more *)

Record inserted L v v' (p : Z) (name : list byte) (n : Z) (t : option dirmap) : Prop := {
  ins_fresh : n ∉ L;
  ins_image : wf_image fs ({[n]} ∪ L) v';
  ins_parent : p ∈ L;
  ins_map : exists m, tree fs v p = Some m /\ m !! name = None /\
              tree fs v' p = Some (<[name := (n, entry_type t)]> m);
  ins_new : tree fs v' n = t;
  ins_rest i : i ∈ L -> i <> p -> tree fs v' i = tree fs v i;
  ins_files i : i ∈ L -> is_dir fs v i = false -> same_file v v' i;
}.

(** First the new inode, beside the tree; then the name. *)
Lemma insert_image L v v1 v2 p m name n t :
  wf_image fs L v -> keeps fs L v v1 -> wf_store fs ({[n]} ∪ L) v1 -> tree fs v1 n = t -> n ∉ L ->
  t = None \/ t = Some (new_dir n p) -> p ∈ L -> tree fs v p = Some m -> m !! name = None ->
  dir_frame fs p v1 v2 -> wf_dir fs v2 p ->
  the_dir fs v2 p = <[name := (n, entry_type t)]> (the_dir fs v1 p) ->
  inserted L v v2 p name n t.
Proof.
  intros Hi K Hs1 Ht HnL Hnew Hp Hm Hnone Hf Hwf Hmap.
  destruct (tree_dir fs L v p m Hi Hp Hm) as (Hd & Hdir & ->).
  assert (Hnp : n <> p) by (intros ->; done).
  assert (Hd1 : is_dir fs v1 p = true) by (by rewrite (keeps_dir fs L v)).
  pose proof (frame_keeps fs _ v1 v2 p Hs1 (elem_old n p L Hp) Hf) as K2.
  assert (K12 : keeps fs (L ∖ {[p]}) v v2).
  { eapply keeps_trans; [eapply keeps_sub; [|exact K]|eapply keeps_sub; [|exact K2]]; set_solver. }
  assert (HTp : tree fs v2 p = Some (<[name := (n, entry_type t)]> (the_dir fs v p))).
  { unfold tree. rewrite (frame_dir _ _ _ _ Hf), Hd1, Hmap.
    by rewrite (proj1 (keeps_dir_same fs L v v1 p K Hp)). }
  assert (HTn : tree fs v2 n = t).
  { rewrite (keeps_tree fs _ v1 v2 n K2); [done|]. apply elem_rest. split; [apply elem_new|done]. }
  assert (HT : forall i, i ∈ L -> i <> p -> tree fs v2 i = tree fs v i).
  { intros i Hin Hne. apply (keeps_tree fs _ v v2 i K12). by apply elem_rest. }
  split; [done| |done|by exists (the_dir fs v p)|done|done|].
  - split; [|by apply (wf_names_insert L (tree fs v) (tree fs v2) p (the_dir fs v p) name n t);
      [..|apply Hi| |apply (absent_proper fs L v p (the_dir fs v p))]].
    apply (store_change fs _ v1 v2 p); [done|by apply elem_old|done|].
    by apply (frame_changed fs ({[n]} ∪ L)); [|apply elem_old| | |].
  - intros i Hin Hfile. eapply same_file_keeps; [exact K12|]. apply elem_rest. split; [done|].
    intros ->. by rewrite Hd in Hfile.
Qed.

(** The path of the new name leads to the new inode. *)
Lemma inserted_resolves L v v' path p name n t :
  wf_image fs L v -> target fs v path = Ok (p, name) -> inserted L v v' p name n t ->
  resolve_path fs v' path = Ok n.
Proof.
  intros Hi Ht [F I P (m & Hm & Hn & Hm') N R Fi].
  assert (Hg : grows fs L v v').
  { intros i mi Hin Hmi. destruct (decide (i = p)) as [->|Hne].
    - eexists. split; [exact Hm'|]. replace mi with m by congruence. by apply insert_subseteq.
    - exists mi. by rewrite R. }
  destruct (target_names fs v path p name Ht) as (names & Hb & Hp & ->).
  rewrite (resolve_app fs v'), (resolve_grows fs L v v' _ _ p Hi Hg); [| |done].
  - by rewrite (resolve_name fs v' p name _ Hb Hm'), lookup_insert_eq.
  - rewrite (wf_root _ Hfs). apply (im_names _ _ _ Hi).
Qed.

(** The attributes of the parent may change as well. *)
Lemma inserted_attrs L v v1 v2 p name n t :
  inserted L v v1 p name n t -> wf_image fs ({[n]} ∪ L) v2 ->
  (forall i, i ∈ {[n]} ∪ L -> tree fs v2 i = tree fs v1 i) ->
  (forall i, i ∈ {[n]} ∪ L -> i <> p -> same_file v1 v2 i) -> inserted L v v2 p name n t.
Proof.
  intros [F I P (m & Hm & Hn & Hm') N R Fi] I2 HT HF. split; [done..| | | |].
  - exists m. split; [done|]. split; [done|]. rewrite HT; [done|by apply elem_old].
  - rewrite HT; [done|apply elem_new].
  - intros i Hi Hne. rewrite HT; [by apply R|by apply elem_old].
  - intros i Hi Hd. eapply same_file_trans; [by apply Fi|]. apply HF; [by apply elem_old|].
    intros ->. unfold tree in Hm. by rewrite Hd in Hm.
Qed.

(** ** A name less *)

Record removed L v v' (p : Z) (name : list byte) (t : Z) : Prop := {
  rem_image : wf_image fs (L ∖ {[t]}) v';
  rem_parent : p ∈ L ∖ {[t]};
  rem_map : exists m ty, tree fs v p = Some m /\ m !! name = Some (t, ty) /\
              tree fs v' p = Some (delete name m);
  rem_rest i : i ∈ L ∖ {[t]} -> i <> p -> tree fs v' i = tree fs v i;
  rem_files i : i ∈ L ∖ {[t]} -> is_dir fs v i = false -> same_file v v' i;
}.

(** The path of the old name leads nowhere. *)
Lemma removed_resolves L v v' path p name t :
  target fs v path = Ok (p, name) -> removed L v v' p name t ->
  resolve_path fs v' path = Err (- ENOENT).
Proof.
  intros Ht [I P (m & ty & Hm & Hx & Hm') R Fi].
  assert (Hg : shrinks fs (L ∖ {[t]}) v v').
  { intros i mi Hin Hmi. destruct (decide (i = p)) as [->|Hne].
    - eexists. split; [exact Hm'|]. replace mi with m by congruence. apply delete_subseteq.
    - exists mi. by rewrite R. }
  destruct (target_names fs v path p name Ht) as (names & Hb & Hp & ->).
  assert (Hroot : sb_root_ino fs ∈ L ∖ {[t]}) by (rewrite (wf_root _ Hfs); apply (im_names _ _ _ I)).
  rewrite (resolve_app fs v').
  destruct (resolve_shrinks fs _ v v' _ names p I Hg Hroot Hp) as [->| ->]; [|done].
  by rewrite (resolve_name fs v' p name _ Hb Hm'), lookup_delete_eq.
Qed.

(** What may be removed: a file or a vacant directory, under a proper name. *)
Definition removable L v (p : Z) (name : list byte) (t ty : Z) : Prop :=
  p ∈ L /\ proper name /\ (exists m, tree fs v p = Some m /\ m !! name = Some (t, ty)) /\
  forall m, tree fs v t = Some m -> dir_vacant m.

Lemma removable_facts L v p name t ty :
  wf_image fs L v -> removable L v p name t ty ->
  t ∈ L /\ t <> p /\ ty = entry_type (tree fs v t) /\ p ∈ L ∖ {[t]}.
Proof.
  intros Hi (Hp & Hprop & (m & Hm & Hx) & Hvac).
  destruct (nm_names _ _ (im_names _ _ _ Hi) p m name (t, ty) Hp Hm Hx) as [Ht Hty].
  assert (t <> p).
  { intros ->. destruct (Hvac m Hm name _ Hx); by destruct Hprop. }
  split; [done|]. split; [done|]. split; [done|]. apply elem_rest. split; [done|congruence].
Qed.

Lemma remove_image L v v1 v2 p name t ty :
  wf_image fs L v -> removable L v p name t ty -> keeps fs (L ∖ {[t]}) v v1 ->
  dir_frame fs p v1 v2 -> wf_dir fs v2 p -> the_dir fs v2 p = delete name (the_dir fs v1 p) ->
  removed L v v2 p name t.
Proof.
  intros Hi Hrem K Hf Hwf Hmap. destruct (removable_facts _ _ _ _ _ _ Hi Hrem) as (Ht & Htp & _ & Hp').
  destruct Hrem as (Hp & Hprop & (m & Hm & Hx) & Hvac).
  destruct (tree_dir fs L v p m Hi Hp Hm) as (Hd & Hdir & ->).
  assert (Hsub : L ∖ {[t]} ⊆ L) by set_solver.
  pose proof (store_keeps fs _ _ _ (store_sub fs _ _ _ Hsub (im_store _ _ _ Hi)) K) as Hs1.
  assert (Hd1 : is_dir fs v1 p = true) by (by rewrite (keeps_dir fs (L ∖ {[t]}) v)).
  pose proof (frame_keeps fs _ v1 v2 p Hs1 Hp' Hf) as K2.
  assert (K12 : keeps fs (L ∖ {[t]} ∖ {[p]}) v v2).
  { eapply keeps_trans; [eapply keeps_sub; [|exact K]; set_solver|exact K2]. }
  assert (HTp : tree fs v2 p = Some (delete name (the_dir fs v p))).
  { unfold tree. rewrite (frame_dir _ _ _ _ Hf), Hd1, Hmap.
    by rewrite (proj1 (keeps_dir_same fs _ v v1 p K Hp')). }
  assert (HT : forall i, i ∈ L ∖ {[t]} -> i <> p -> tree fs v2 i = tree fs v i).
  { intros i Hin Hne. apply (keeps_tree fs _ v v2 i K12). by apply elem_rest. }
  split; [|done|by exists (the_dir fs v p), ty|done|].
  - split; [apply (store_change fs _ v1 v2 p); [done..|by apply (frame_changed fs (L ∖ {[t]}))]|].
    apply (wf_names_remove L (tree fs v) (tree fs v2) p (the_dir fs v p) name t ty);
      [apply Hi|done..| |done|].
    + intros mt k x Hmt Hk [Hk1 Hk2]. by destruct (Hvac mt Hmt k x Hk).
    + intros i Hin Hne Hnt. apply HT; [|done]. by apply elem_rest.
  - intros i Hin Hfile. eapply same_file_keeps; [exact K12|]. apply elem_rest. split; [done|].
    intros ->. by rewrite Hd in Hfile.
Qed.

(** ** The attributes of one inode *)

Section attrs.
Context (L : gset Z) (a : contents) (ino : Z) (inode : logfs_inode).
Let v := c_view a.
Let v' := c_view (write_inode fs ino inode a).
Hypothesis Hi : wf_image fs L v.
Hypothesis Hino : ino ∈ L.
Hypothesis Hw : wf_inode inode.
Hypothesis Hmode : S_ISDIR (i_mode inode) = is_dir fs v ino.
Hypothesis Hblocks : i_blocks inode = i_blocks (inode_at fs v ino).
Hypothesis Hsize : is_dir fs v ino = false -> i_size inode <= max_file_size.
Hypothesis Hlen : forall b, length (v b) = block_len.

Let Hs : wf_store fs L v := im_store _ _ _ Hi.
Let Hin : in_table fs ino := proj1 (st_table _ _ _ Hs ino Hino).

Lemma attrs_inode i : in_table fs i -> inode_at fs v' i = if decide (ino = i) then inode else inode_at fs v i.
Proof. intros Hi'. by apply inode_at_write. Qed.

Lemma attrs_keeps : keeps fs (L ∖ {[ino]}) v v'.
Proof.
  apply (step_write_inode fs Hfs (L ∖ {[ino]}) a); [|exact Hlen|done|done|].
  - eapply store_sub; [|exact Hs]. set_solver.
  - intros [_ H]%elem_rest. done.
Qed.

Lemma attrs_dir : is_dir fs v' ino = is_dir fs v ino.
Proof. unfold is_dir. by rewrite attrs_inode, decide_True. Qed.

Lemma attrs_blocks : ino_blocks fs v' ino = ino_blocks fs v ino.
Proof. unfold ino_blocks. by rewrite attrs_inode, decide_True, Hblocks by done. Qed.

Lemma attrs_same_dir :
  is_dir fs v ino = true -> the_dir fs v' ino = the_dir fs v ino /\ wf_dir fs v' ino.
Proof.
  intros Hd. pose proof (st_dirs _ _ _ Hs ino Hino Hd) as Hwf.
  pose proof (dir_data _ _ _ Hwf) as Hdata. rewrite Forall_forall in Hdata.
  destruct (write_inode_bits fs Hfs a ino inode Hin) as [_ Hu].
  assert (E : i_blocks (inode_at fs v' ino) = i_blocks (inode_at fs v ino))
    by (by rewrite attrs_inode, decide_True).
  assert (Hv : forall b, b ∈ blocks_of fs v ino -> v' b = v b).
  { intros b Hb. destruct (Hdata b Hb) as [[? ?] _]. apply write_inode_other; [done..|lia]. }
  assert (Hes : dir_entries v' (i_blocks (inode_at fs v ino)) = dir_entries v (i_blocks (inode_at fs v ino))).
  { unfold dir_entries. f_equal. apply map_ext_in. intros b Hb%list_elem_of_In. by rewrite Hv. }
  split; [unfold the_dir, dir_map; by rewrite E, Hes|].
  destruct Hwf as [H1 H2 H3 H4 H5 H6 H7].
  split; unfold blocks_of; rewrite ?E, ?Hes; try assumption.
  - change (is_dir fs v' ino = true). by rewrite attrs_dir.
  - rewrite Forall_forall. intros b Hb. destruct (Hdata b Hb). split; [done|]. unfold v'. by rewrite Hu.
  - rewrite Forall_forall in *. intros b Hb. rewrite Hv by done. by apply H6.
Qed.

Lemma attrs_changed : changed fs v v' ino.
Proof.
  destruct (write_inode_bits fs Hfs a ino inode Hin) as [Hiu Hbu]. split.
  - unfold v'. rewrite Hiu. by apply (st_table _ _ _ Hs).
  - intros b. rewrite attrs_blocks. intros Hb. destruct (st_used _ _ _ Hs ino b Hino Hb).
    split; [done|]. split; [unfold v'; by rewrite Hbu|by left].
  - rewrite attrs_blocks. by apply (st_nodup _ _ _ Hs).
  - rewrite attrs_dir. apply attrs_same_dir.
  - rewrite attrs_dir. intros Hd. rewrite attrs_inode, decide_True by done. by apply Hsize.
Qed.

Lemma attrs_tree : tree fs v' ino = tree fs v ino.
Proof.
  unfold tree. rewrite attrs_dir. pose proof attrs_same_dir as Hd.
  destruct (is_dir fs v ino); [|done]. by rewrite (proj1 (Hd eq_refl)).
Qed.

(** The tree is as it was, and so is every other file. *)
Lemma attrs_image :
  wf_image fs L v' /\ (forall i, i ∈ L -> tree fs v' i = tree fs v i) /\
  (forall i, i ∈ L -> i <> ino -> same_file v v' i).
Proof.
  assert (HT : forall i, i ∈ L -> tree fs v' i = tree fs v i).
  { intros i Hi'. destruct (decide (i = ino)) as [->|].
    - exact attrs_tree.
    - eapply keeps_tree; [exact attrs_keeps|by apply elem_rest]. }
  split; [split|split; [done|]].
  - apply (store_change fs L v v' ino); [done|done|exact attrs_keeps|exact attrs_changed].
  - apply (wf_names_ext L (tree fs v)); [done|apply Hi].
  - intros i Hi' Hne. eapply same_file_keeps; [exact attrs_keeps|by apply elem_rest].
Qed.
End attrs.
(** ** The contents of one file *)

Lemma file_changed L v v' ino :
  wf_image fs L v -> ino ∈ L -> is_dir fs v ino = false -> is_dir fs v' ino = false ->
  keeps fs (L ∖ {[ino]}) v v' -> changed fs v v' ino ->
  wf_image fs L v' /\ (forall i, i ∈ L -> tree fs v' i = tree fs v i) /\
  (forall i, i ∈ L -> i <> ino -> same_file v v' i).
Proof.
  intros [Hs Hn] Hino Hd Hd' K Hc.
  assert (HT : forall i, i ∈ L -> tree fs v' i = tree fs v i).
  { intros i Hi. destruct (decide (i = ino)) as [->|].
    - unfold tree. by rewrite Hd, Hd'.
    - eapply keeps_tree; [exact K|by apply elem_rest]. }
  split; [split|split; [done|]].
  - by apply (store_change fs L v v' ino).
  - by apply (wf_names_ext L (tree fs v)).
  - intros i Hi Hne. eapply same_file_keeps; [exact K|by apply elem_rest].
Qed.
End change.
