(* ===== verification/FsCalls.v ===== *)
(** The calls of [inode.c] the way [fs_ops.c] uses them, on an image: a new
    inode, a name added or removed, the blocks of an inode freed. *)

From S2P Require Import Prelude.
From S2P Require Import Bytes.
From S2P Require Import DiskFormat.
From S2P Require Import TxnApi.
From S2P Require Import FsFormat.
From S2P Require Import Inode.
From S2P Require Import InodeBits.
From S2P Require Import InodeSpec.
From S2P Require Import InodeDir.
From S2P Require Import InodeDirSpec.
From S2P Require Import InodeDirAdd.
From S2P Require Import InodeWalk.
From S2P Require Import FsOps.
From S2P Require Import FsTree.
From S2P Require Import FsImage.
From S2P Require Import FsStep.
From S2P Require Import FsPath.
From S2P Require Import FsChange.

Lemma wf_parent_attrs now nlink i :
  0 <= now < 2 ^ 64 -> wf_inode i -> wf_inode (set_mtime now (set_nlink (u32 nlink) i)).
Proof.
  intros Hn [H32 H64 Hb Hl]. pose proof (Z.mod_pos_bound nlink (2 ^ 32) ltac:(lia)) as Hu.
  split; cbn [set_mtime set_nlink i_mode i_nlink i_uid i_gid i_size i_atime i_mtime i_ctime i_blocks];
    [| |done|done].
  - rewrite !Forall_cons in *. change (u32 nlink) with (nlink mod 2 ^ 32). tauto.
  - rewrite !Forall_cons in *. tauto.
Qed.

Section calls.
Context {S : Type} `{TxnLaws S} (fs : logfs_super) (Hfs : wf_fs fs).
Implicit Types (L : gset Z) (a : contents) (v : Z -> block).

(** The inode number the bitmap gives next, if any, has a slot in the table.
    mkfs can lay out fewer slots than the bitmap has inodes
    ([FsProps.inode_past_table]): then this fails once all slots are used. *)
Definition table_room a : Prop :=
  forall n, free_inode_no fs a = Some n -> n <= 28 * sb_inode_table_len fs.

(** Where every inode has a slot there is always room; where not, as long as
    the inode of one slot is free. *)
Lemma table_room_whole a : sb_total_inodes fs <= 28 * sb_inode_table_len fs -> table_room a.
Proof.
  intros Hw n Hn. pose proof (find_clear_spec (c_view a (sb_inode_bitmap_start fs)) 1
    (Z.to_nat (sb_total_inodes fs))) as Hf. fold (free_inode_no fs a) in Hf. rewrite Hn in Hf.
  destruct Hf as (Hr & _). destruct Hfs. lia.
Qed.

Lemma table_room_slot a i :
  1 <= i <= sb_total_inodes fs -> i <= 28 * sb_inode_table_len fs ->
  inode_used fs (c_view a) i = false -> table_room a.
Proof.
  intros Hi Hslot Hfree n Hn. pose proof (find_clear_spec (c_view a (sb_inode_bitmap_start fs)) 1
    (Z.to_nat (sb_total_inodes fs))) as Hf. fold (free_inode_no fs a) in Hf. rewrite Hn in Hf.
  destruct Hf as (_ & _ & Hmin). destruct (decide (n <= i)) as [|Hlt]; [lia|].
  unfold inode_used in Hfree. rewrite Hmin in Hfree by lia. done.
Qed.

(** A disk without room, or a failed call. *)
Definition no_room a (rc : Z) : Prop := rc = - ENOSPC \/ c_calm a = false /\ rc < 0.

Lemma no_room_env a a' rc : same_env a a' -> no_room a' rc -> no_room a rc.
Proof. intros E. unfold no_room. by rewrite (se_calm _ _ E). Qed.

(** ** Allocation *)

(** A new inode is none of the tree's. *)
Lemma alloc_inode_step L a :
  table_room a -> fs_blocks fs a -> wf_store fs L (c_view a) ->
  triple rep a (logfs_alloc_inode (c_gen a) fs)
    (fun r a' => step fs L a a' /\
       match r with
       | Ok n => in_table fs n /\ (n ∉ L) /\ inode_used fs (c_view a') n = true
       | Err rc => no_room a rc
       end).
Proof.
  intros Hroom Hb Hs. apply triple_whole. intros Hlen.
  eapply triple_wand; [by apply alloc_inode_spec|]. intros r a'. unfold alloc_outcome.
  pose proof (find_clear_spec (c_view a (sb_inode_bitmap_start fs)) 1
    (Z.to_nat (sb_total_inodes fs))) as Hf. fold (free_inode_no fs a) in Hf.
  destruct (free_inode_no fs a) as [n|] eqn:Ef.
  - destruct Hf as (Hn & Hclear & _).
    intros [[-> ->]|[(Hc & rc & Hrc & ->) ->]]; [|split; [apply step_refl|by right]].
    assert (Hbits : 0 <= n < bitmap_bits) by (destruct Hfs; lia).
    destruct (step_take_inode fs Hfs L a Hs Hlen n Hbits) as [Hst Hu].
    split; [done|]. split; [pose proof (Hroom n Ef); split; lia|]. split; [|done].
    intros HnL. destruct (st_table _ _ _ Hs n HnL) as [_ Hused]. unfold inode_used in Hused. congruence.
  - intros [[-> ->]|[(Hc & rc & Hrc & ->) ->]]; (split; [|by (left + right)]); [|apply step_refl].
    split; [apply same_env_touch|apply keeps_refl].
Qed.

(** A new block is nobody's. *)
Lemma alloc_block_step L a :
  fs_blocks fs a -> wf_store fs L (c_view a) ->
  triple rep a (logfs_alloc_block (c_gen a) fs)
    (fun r a' => step fs L a a' /\
       (forall b, b <> sb_block_bitmap_start fs -> c_view a' b = c_view a b) /\
       match r with
       | Ok nb => in_data fs nb /\ block_used fs (c_view a) nb = false /\
                  a' = take_bit (sb_block_bitmap_start fs) (nb - sb_data_start fs) a /\
                  forall b, in_data fs b ->
                    block_used fs (c_view a') b = bool_decide (b = nb) || block_used fs (c_view a) b
       | Err rc => no_room a rc /\ (a' = a \/ a' = touch (sb_block_bitmap_start fs) a)
       end).
Proof.
  intros Hb Hs. apply triple_whole. intros Hlen.
  eapply triple_wand; [by apply alloc_block_spec|]. intros r a'. unfold alloc_outcome.
  destruct (free_block_no fs a) as [i|] eqn:Ef.
  - destruct (free_block_no_spec fs a i Hfs Ef) as (Hi & Hin & Hfree).
    intros [[-> ->]|[(Hc & rc & Hrc & ->) ->]]; [|split; [apply step_refl|split; [done|split; [by right|by left]]]].
    split; [by apply step_take_block|]. split; [intros b Hne; by apply take_bit_other|].
    split; [done|]. split; [done|]. split; [f_equal; lia|]. intros b Hb'. unfold block_used.
    rewrite take_bit_view; [|done|done|apply (data_bits fs Hfs) in Hb'; lia].
    case_decide; [rewrite bool_decide_true by lia|rewrite bool_decide_false by lia]; done.
  - intros [[-> ->]|[(Hc & rc & Hrc & ->) ->]].
    + split; [split; [apply same_env_touch|apply keeps_refl]|]. split; [done|].
      split; [by left|by right].
    + split; [apply step_refl|]. split; [done|]. split; [by right|by left].
Qed.

Lemma used_not_owned L v b : wf_store fs L v -> block_used fs v b = false -> ~ owned fs L v b.
Proof. intros Hs Hf [_ Hu]%owned_used; [congruence|done]. Qed.

(** ** A name is added *)

(** Why [logfs_dir_add] refuses. *)
Definition add_refused a (p : Z) (name : list byte) (rc : Z) : Prop :=
  match tree fs (c_view a) p with
  | None => rc = - ENOTDIR
  | Some m => m !! name <> None /\ rc = - EEXIST
  end.

(** A lookup that fails is taken for an absent name: then the name has to be
    absent. *)
Definition lookup_safe a (p : Z) (name : list byte) : Prop :=
  c_calm a = true \/ forall m, tree fs (c_view a) p = Some m -> m !! name = None.

Lemma lookup_safe_step L a a' p name : step fs L a a' -> p ∈ L -> lookup_safe a p name -> lookup_safe a' p name.
Proof.
  intros [E K] Hp. unfold lookup_safe. by rewrite (se_calm _ _ E), (keeps_tree fs L _ _ p K Hp).
Qed.

Definition add_done a (p : Z) (name : list byte) (x : Z * Z) (r : result unit) a' : Prop :=
  same_env a a' /\
  match r with
  | Ok _ => exists m, tree fs (c_view a) p = Some m /\ m !! name = None /\
              dir_frame fs p (c_view a) (c_view a') /\ wf_dir fs (c_view a') p /\
              the_dir fs (c_view a') p = <[name := x]> (the_dir fs (c_view a) p)
  | Err rc =>
      (c_view a' = c_view a \/
       is_dir fs (c_view a) p = true /\ dir_frame fs p (c_view a) (c_view a') /\
       wf_dir fs (c_view a') p /\ the_dir fs (c_view a') p = the_dir fs (c_view a) p) /\
      (add_refused a p name rc \/ no_room a rc)
  end.

Lemma dir_add_step L a p name n type :
  fs_blocks fs a -> wf_store fs L (c_view a) -> p ∈ L -> bad_name name = false ->
  in_table fs n -> 0 <= type < 2 ^ 8 -> lookup_safe a p name ->
  triple rep a (logfs_dir_add (c_gen a) fs p name n type) (add_done a p name (n, type)).
Proof.
  intros Hb Hs Hp Hname Hn Hty Hsafe.
  assert (Hn' : 0 < n < 2 ^ 32).
  { destruct Hn as [Hn _], Hfs. unfold bitmap_bits, LOGFS_BLOCK_SIZE in *. lia. }
  unfold add_done, add_refused. destruct (is_dir fs (c_view a) p) eqn:Hd.
  - pose proof (st_dirs _ _ _ Hs p Hp Hd) as Hwf.
    assert (Htree : tree fs (c_view a) p = Some (the_dir fs (c_view a) p)) by (unfold tree; by rewrite Hd).
    rewrite Htree. destruct (the_dir fs (c_view a) p !! name) as [x|] eqn:Hx.
    + assert (Hcalm : c_calm a = true).
      { destruct Hsafe as [|Hab]; [done|]. specialize (Hab _ Htree). congruence. }
      eapply triple_wand; [by eapply dir_add_exists|]. intros r a' [-> ->].
      split; [done|]. split; [by left|]. left. by split.
    + eapply triple_wand; [by apply dir_add_spec|]. intros r a' (He & Hf & Hwf' & Hr).
      split; [done|]. destruct r as [u|rc].
      * by exists (the_dir fs (c_view a) p).
      * destruct Hr as [Hm Hrc]. split; [by right|]. by right.
  - assert (Htree : tree fs (c_view a) p = None) by (unfold tree; by rewrite Hd).
    rewrite Htree. eapply triple_wand;
      [apply dir_add_not_dir; [exact Hfs|exact Hb|by apply (st_table _ _ _ Hs)|exact Hd]|].
    intros r a' [-> [->|(Hc & rc & Hrc & ->)]]; (split; [done|]); (split; [by left|]).
    + by left.
    + right. by right.
Qed.

(** An addition that failed. *)
Lemma add_failed L a a' p :
  wf_image fs L (c_view a) -> p ∈ L ->
  (c_view a' = c_view a \/
   is_dir fs (c_view a) p = true /\ dir_frame fs p (c_view a) (c_view a') /\
   wf_dir fs (c_view a') p /\ the_dir fs (c_view a') p = the_dir fs (c_view a) p) ->
  unchanged fs L (c_view a) (c_view a').
Proof.
  intros Hi Hp [->|(Hd & Hf & Hwf & Hm)]; [by apply unchanged_refl|by eapply unchanged_dir].
Qed.

(** ** Freeing the blocks of an inode *)

(** The blocks of an inode the tree names once are its own. *)
Lemma target_blocks L v t b :
  wf_store fs L v -> t ∈ L -> b ∈ i_blocks (inode_at fs v t) -> b <> 0 ->
  in_data fs b /\ block_used fs v b = true /\ ~ owned fs (L ∖ {[t]}) v b.
Proof.
  intros Hs Ht Hb Hne. assert (Hb' : b ∈ ino_blocks fs v t) by (by apply elem_ino_blocks).
  destruct (st_used _ _ _ Hs t b Ht Hb') as [Hin Hu]. split; [done|]. split; [done|].
  intros (i & [Hi Hit]%elem_rest & Hbi). by apply Hit, (st_disjoint _ _ _ Hs i t b).
Qed.

(** The bitmap has lost blocks of [freed] only; nothing else changed. *)
Record dropped (freed : list Z) a a' : Prop := {
  dr_env : same_env a a';
  dr_view b : b <> sb_block_bitmap_start fs -> c_view a' b = c_view a b;
  dr_used b : in_data fs b -> b ∉ freed -> block_used fs (c_view a') b = block_used fs (c_view a) b;
}.

Lemma dropped_refl freed a : dropped freed a a.
Proof. by split. Qed.

Lemma dropped_step L freed a a' :
  wf_store fs L (c_view a) -> (forall b, b ∈ freed -> b <> 0 -> ~ owned fs L (c_view a) b) ->
  dropped freed a a' -> step fs L a a'.
Proof.
  intros Hs Hf [E V U]. split; [done|]. apply keeps_block_bitmap; [done|done|done|].
  intros b Hb. destruct (owned_used fs L _ b Hs Hb) as [Hin Hu]. rewrite U; [done|done|].
  intros Hbf. apply (Hf b Hbf); [|done]. destruct Hin, Hfs. lia.
Qed.

Lemma dropped_one freed a b :
  (forall b, length (c_view a b) = block_len) -> in_data fs b -> b ∈ freed ->
  dropped freed a (drop_bit (sb_block_bitmap_start fs) (b - sb_data_start fs) a) /\
  block_used fs (c_view (drop_bit (sb_block_bitmap_start fs) (b - sb_data_start fs) a)) b = false.
Proof.
  intros Hlen Hin Hb. pose proof (data_bits fs Hfs b Hin). split; [split|].
  - apply env_bit.
  - apply drop_bit_other.
  - intros b' Hin' Hb'. pose proof (data_bits fs Hfs b' Hin'). unfold block_used.
    rewrite drop_bit_view by (done || lia). rewrite decide_False; [done|]. intros E. apply Hb'.
    by replace b' with b by lia.
  - unfold block_used. rewrite drop_bit_view by (done || lia). by rewrite decide_True.
Qed.

Lemma dropped_trans freed a1 a2 a3 : dropped freed a1 a2 -> dropped freed a2 a3 -> dropped freed a1 a3.
Proof.
  intros [E1 V1 U1] [E2 V2 U2]. split; [by etrans|..].
  - intros b Hb. by rewrite V2, V1.
  - intros b Hin Hb. by rewrite U2, U1.
Qed.

Lemma dropped_sub f1 f2 a a' : (forall b, b ∈ f1 -> b ∈ f2) -> dropped f1 a a' -> dropped f2 a a'.
Proof. intros Hs [E V U]. split; [done..|]. intros b Hin Hb. apply U; auto. Qed.

(** Clearing one block pointer. *)
Lemma zeroed_nodup (blocks : list Z) k b :
  NoDup (filter (fun b => b <> 0) blocks) -> blocks !! k = Some b -> b <> 0 ->
  NoDup (filter (fun b => b <> 0) (<[k := 0]> blocks)) /\ b ∉ drop (Datatypes.S k) blocks.
Proof.
  intros Hnd Hbk Hb0. pose proof (lookup_lt_Some _ _ _ Hbk) as Hk.
  rewrite <-(take_drop_middle blocks k b Hbk) in Hnd.
  rewrite filter_app, filter_cons_True in Hnd by done. split.
  - rewrite insert_take_drop by lia. rewrite filter_app, filter_cons_False by auto.
    eapply sublist_NoDup; [exact Hnd|]. apply sublist_app; [done|by apply sublist_cons].
  - apply NoDup_app in Hnd as (_ & _ & Hnd). apply NoDup_cons in Hnd as [Hnin _].
    intros Hin. apply Hnin. by apply list_elem_of_filter.
Qed.

Lemma truncate_loop_spec n k a blocks :
  fs_blocks fs a -> (k + n = length blocks)%nat -> NoDup (filter (fun b => b <> 0) blocks) ->
  (forall b, b ∈ drop k blocks -> b <> 0 -> in_data fs b) ->
  triple rep a (truncate_loop (c_gen a) fs k n blocks)
    (fun r a' => dropped (drop k blocks) a a' /\
       match r with
       | Ok bs => bs = take k blocks ++ replicate n 0 /\
                  forall b, b ∈ drop k blocks -> b <> 0 -> block_used fs (c_view a') b = false
       | Err rc => c_calm a = false /\ rc < 0
       end).
Proof.
  revert k a blocks. induction n as [|n IH]; intros k a blocks Hb Hk Hnd Hin; cbn [truncate_loop].
  { apply triple_ret. split; [apply dropped_refl|]. rewrite drop_ge, take_ge, app_nil_r by lia.
    split; [done|]. by intros b Hb'%elem_of_nil. }
  destruct (lookup_lt_is_Some_2 blocks k ltac:(lia)) as [b Hbk].
  rewrite (nth_lookup_Some blocks k 0 b Hbk), (drop_S blocks b k Hbk) in *.
  assert (Htake : take (Datatypes.S k) blocks = take k blocks ++ [b]) by (by apply take_S_r).
  destruct (Z.eqb_spec b 0) as [->|Hb0].
  - eapply triple_wand; [apply (IH (Datatypes.S k) a blocks Hb); [lia|done|]|].
    { intros b' Hb'. apply Hin. by apply list_elem_of_further. }
    intros r a' [Hd Hr]. split; [eapply dropped_sub; [|exact Hd]; intros; by apply list_elem_of_further|].
    destruct r as [bs|rc]; [|done]. destruct Hr as [-> Hf].
    split; [by rewrite Htake, <-app_assoc|]. intros b' [->|Hb']%elem_of_cons Hne; [done|by apply Hf].
  - apply triple_whole. intros Hlen. pose proof (Hin b (list_elem_of_here _ _) Hb0) as Hbd.
    destruct (dropped_one (b :: drop (Datatypes.S k) blocks) a b Hlen Hbd (list_elem_of_here _ _)) as [Hd1 Hf1].
    set (a1 := drop_bit _ _ a) in *.
    eapply triple_outcome; [by apply (free_block_spec fs Hfs a (c_gen a) b Hb)| |].
    { intros rc Hc Hrc. split; [apply dropped_refl|done]. }
    rewrite <-(se_gen _ _ (dr_env _ _ _ Hd1)).
    assert (Hdrop : drop (Datatypes.S k) (<[k := 0]> blocks) = drop (Datatypes.S k) blocks)
      by (apply drop_insert_lt; lia).
    eapply triple_wand; [apply (IH (Datatypes.S k) a1 (<[k := 0]> blocks))|].
    + apply (fs_blocks_env fs a); [apply Hd1|exact Hb].
    + rewrite length_insert. lia.
    + by apply (zeroed_nodup blocks k b).
    + rewrite Hdrop. intros b' Hb'. apply Hin. by apply list_elem_of_further.
    + rewrite Hdrop. intros r a' [Hd2 Hr]. split.
      { eapply dropped_trans; [exact Hd1|]. eapply dropped_sub; [|exact Hd2].
        intros; by apply list_elem_of_further. }
      rewrite (se_calm _ _ (dr_env _ _ _ Hd1)) in Hr.
      destruct r as [bs|rc]; [|done]. destruct Hr as [-> Hf]. split.
      { rewrite (take_S_r (<[k:=0]> blocks) k 0), take_insert_ge, <-app_assoc; [done|lia|].
        apply list_lookup_insert_eq. lia. }
      intros b' [->|Hb']%elem_of_cons Hne; [|by apply Hf].
      rewrite (dr_used _ _ _ Hd2); [done|done|]. by apply (zeroed_nodup blocks k b).
Qed.

(** Blocks that can be given to another file. *)
Definition freed v (blocks : list Z) : Prop :=
  forall b, b ∈ blocks -> b <> 0 -> block_used fs v b = false.

(** The inode too. *)
Definition released v (t : Z) (blocks : list Z) : Prop :=
  inode_used fs v t = false /\ freed v blocks.

Lemma freed_bitmaps v v' blocks : same_bitmaps fs v v' -> freed v blocks -> freed v' blocks.
Proof. intros [_ E] F b Hb Hne. unfold block_used. rewrite E. by apply F. Qed.

Lemma released_bitmaps v v' t blocks : same_bitmaps fs v v' -> released v t blocks -> released v' t blocks.
Proof.
  intros E [I F]. split; [|by eapply freed_bitmaps]. unfold inode_used. by rewrite (proj1 E).
Qed.

Lemma write_inode_bitmaps i inode a : in_table fs i -> (forall b, length (c_view a b) = block_len) ->
  same_bitmaps fs (c_view a) (c_view (write_inode fs i inode a)).
Proof. intros Hi Hlen. pose proof Hfs as []. split; apply write_inode_other; (done || lia). Qed.

(** All the blocks of an inode from [keep] on. *)
Lemma truncate_blocks_spec a i keep :
  fs_blocks fs a -> wf_inode i -> (keep <= 12)%nat -> NoDup (filter (fun b => b <> 0) (i_blocks i)) ->
  (forall b, b ∈ i_blocks i -> b <> 0 -> in_data fs b) ->
  triple rep a (truncate_blocks (c_gen a) fs i keep)
    (fun r a' => dropped (drop keep (i_blocks i)) a a' /\ 
       match r with
       | Ok i' => i' = set_blocks (take keep (i_blocks i) ++ replicate (12 - keep) 0) i /\
                  freed (c_view a') (drop keep (i_blocks i))
       | Err rc => c_calm a = false /\ rc < 0
       end).
Proof.
  intros Hb Hw Hk Hnd Hin. unfold truncate_blocks. change (Z.to_nat LOGFS_NDIR_BLOCKS) with 12%nat.
  apply triple_bind. eapply triple_wand; [apply truncate_loop_spec; [done| |done|]|].
  - rewrite (wi_nblocks _ Hw). change (Z.to_nat LOGFS_NDIR_BLOCKS) with 12%nat. lia.
  - intros b Hb'. apply Hin. rewrite <-(take_drop keep (i_blocks i)). apply elem_of_app. by right.
  - intros r a' [Hd Hr]. destruct r as [bs|rc]; [|done]. destruct Hr as [-> Hfr].
    by apply triple_ret.
Qed.

(** An inode that is no longer in the tree gives its blocks back. *)
Lemma truncate_step L t a i :
  fs_blocks fs a -> wf_store fs L (c_view a) -> wf_inode i -> t ∉ L ->
  NoDup (filter (fun b => b <> 0) (i_blocks i)) ->
  (forall b, b ∈ i_blocks i -> b <> 0 -> in_data fs b /\ ~ owned fs L (c_view a) b) ->
  triple rep a (truncate_blocks (c_gen a) fs i 0)
    (fun r a' => step fs L a a' /\ 
       match r with Ok _ => freed (c_view a') (i_blocks i) | Err rc => c_calm a = false /\ rc < 0 end).
Proof.
  intros Hb Hs Hw Ht Hnd Hin. eapply triple_wand; [apply truncate_blocks_spec; [done..|lia|done|]|].
  - intros b Hb' Hne. by apply Hin.
  - intros r a' [Hd Hr]. split; [|by destruct r; [apply Hr|]].
    eapply dropped_step; [done| |exact Hd]. intros b Hb' Hne. by apply (Hin b).
Qed.
(** ** The parent's attributes *)

Lemma parent_attrs_step L a p (g : Z -> Z) now (Q : result unit -> contents -> Prop) :
  fs_blocks fs a -> wf_image fs L (c_view a) -> p ∈ L -> is_dir fs (c_view a) p = true ->
  0 <= now < 2 ^ 64 ->
  (forall rc, c_calm a = false -> rc < 0 -> Q (Err rc) a) ->
  (forall a', same_env a a' -> wf_image fs L (c_view a') ->
     (forall i, i ∈ L -> tree fs (c_view a') i = tree fs (c_view a) i) ->
     (forall i, i ∈ L -> i <> p -> same_file fs (c_view a) (c_view a') i) ->
     same_bitmaps fs (c_view a) (c_view a') ->
     i_nlink (inode_at fs (c_view a') p) = u32 (g (i_nlink (inode_at fs (c_view a) p))) ->
     Q (Ok tt) a') ->
  triple rep a
    (pdir ← logfs_inode_read fs p;
     logfs_inode_write (c_gen a) fs p (set_mtime now (set_nlink (u32 (g (i_nlink pdir))) pdir))) Q.
Proof.
  intros Hb Hi Hp Hd Hnow Herr Hok.
  pose proof (st_table _ _ _ (im_store _ _ _ Hi) p Hp) as [Hpt _].
  eapply triple_outcome; [by apply (inode_read_spec fs Hfs a p Hb Hpt)|done|].
  apply triple_whole. intros Hlen. set (pd := set_mtime _ _).
  assert (Hw : wf_inode pd) by (apply wf_parent_attrs; [done|apply wf_inode_at]).
  eapply triple_outcome_last; [by apply (inode_write_spec fs Hfs a (c_gen a) p pd Hb Hpt)|done|].
  destruct (attrs_image fs Hfs L a p pd Hi Hp Hw) as (Hi2 & HT & HF);
    [done|done|by rewrite Hd|exact Hlen|].
  apply Hok; [apply same_env_write_inode|done|done|done|by apply write_inode_bitmaps|].
  rewrite inode_at_write by done. by rewrite decide_True.
Qed.
End calls.
