(* ===== verification/FsCreate.v ===== *)
(** [logfs_op_create] and [logfs_op_mkdir]: the tree gains one name, or is
    as it was. *)

From S2P Require Import Prelude.
From S2P Require Import Bytes.
From S2P Require Import DiskFormat.
From S2P Require Import TxnApi.
From S2P Require Import FsFormat.
From S2P Require Import Inode.
From S2P Require Import InodeBits.
From S2P Require Import InodeSpec.
From S2P Require Import InodeDir.
From S2P Require Import InodeDirSpec.
From S2P Require Import InodeDirAdd.
From S2P Require Import InodeWalk.
From S2P Require Import Fs.
From S2P Require Import FsOps.
From S2P Require Import FsTree.
From S2P Require Import FsNewDir.
From S2P Require Import FsImage.
From S2P Require Import FsStep.
From S2P Require Import FsPath.
From S2P Require Import FsChange.
From S2P Require Import FsCalls.

(** ** The new inodes *)

Lemma mode_bits mode fmt : Z.land (Z.lor fmt (Z.land mode 0x1FF)) S_IFMT = Z.land fmt S_IFMT.
Proof.
  rewrite Z.land_lor_distr_l, <-Z.land_assoc. change (Z.land 0x1FF S_IFMT) with 0.
  by rewrite Z.land_0_r, Z.lor_0_r.
Qed.

Lemma new_dir_isdir mode now b : S_ISDIR (i_mode (new_dir_inode mode now b)) = true.
Proof. unfold S_ISDIR. cbn [new_dir_inode i_mode]. by rewrite mode_bits. Qed.

Lemma new_file_isdir mode now : S_ISDIR (i_mode (new_file_inode mode now)) = false.
Proof. unfold S_ISDIR. cbn [new_file_inode i_mode]. by rewrite mode_bits. Qed.

Lemma mode_range mode fmt : 0 <= fmt < 2 ^ 16 -> 0 <= Z.lor fmt (Z.land mode 0x1FF) < 2 ^ 32.
Proof.
  intros Hf. assert (Hm : 0 <= Z.land mode 0x1FF < 2 ^ 9).
  { change 0x1FF with (Z.ones 9). rewrite Z.land_ones by lia. apply Z.mod_pos_bound. lia. }
  assert (Hnn : 0 <= Z.lor fmt (Z.land mode 0x1FF)) by (apply Z.lor_nonneg; lia).
  split; [done|]. apply Z.log2_lt_cancel. rewrite Z.log2_pow2 by lia.
  rewrite Z.log2_lor by lia. apply Z.max_lub_lt.
  - destruct (decide (fmt = 0)) as [->|]; [done|]. 
    assert (Z.log2 fmt < 16) by (apply Z.log2_lt_pow2; lia). lia.
  - destruct (decide (Z.land mode 0x1FF = 0)) as [->|]; [done|].
    assert (Z.log2 (Z.land mode 0x1FF) < 9) by (apply Z.log2_lt_pow2; lia). lia.
Qed.

Lemma wf_new_dir mode now b : 0 <= b < 2 ^ 64 -> 0 <= now < 2 ^ 64 -> wf_inode (new_dir_inode mode now b).
Proof.
  intros Hb Hn. pose proof (mode_range mode S_IFDIR ltac:(unfold S_IFDIR; lia)).
  split; cbn [new_dir_inode i_mode i_nlink i_uid i_gid i_size i_atime i_mtime i_ctime i_blocks].
  - repeat (apply Forall_cons; split; [done || lia|]). apply Forall_nil_2.
  - repeat (apply Forall_cons; split; [done || lia|]). apply Forall_nil_2.
  - apply Forall_cons. split; [lia|]. apply Forall_replicate. lia.
  - done.
Qed.

Lemma wf_new_file mode now : 0 <= now < 2 ^ 64 -> wf_inode (new_file_inode mode now).
Proof.
  intros Hn. pose proof (mode_range mode S_IFREG ltac:(unfold S_IFREG; lia)).
  split; cbn [new_file_inode i_mode i_nlink i_uid i_gid i_size i_atime i_mtime i_ctime i_blocks].
  - repeat (apply Forall_cons; split; [done || lia|]). apply Forall_nil_2.
  - repeat (apply Forall_cons; split; [done || lia|]). apply Forall_nil_2.
  - apply Forall_replicate. lia.
  - done.
Qed.

Section create.
Context {S : Type} `{TxnLaws S} (fs : logfs_super) (Hfs : wf_fs fs).
Context (L : gset Z) (a : contents) (p : Z) (name : list byte).
Hypothesis Hroom : table_room fs a.
Hypothesis Hb : fs_blocks fs a.
Hypothesis Hi : wf_image fs L (c_view a).
Hypothesis Hp : p ∈ L.
Hypothesis Hname : bad_name name = false.
Hypothesis Hsafe : lookup_safe fs a p name.

(** The tree is as before and the code says why. *)
Definition refused (rc : Z) (a' : contents) : Prop :=
  unchanged fs L (c_view a) (c_view a') /\ (add_refused fs a p name rc \/ no_room a rc).

Lemma refused_step a1 rc : step fs L a a1 -> no_room a rc -> refused rc a1.
Proof. intros [_ K] Hrc. split; [by apply unchanged_keeps|by right]. Qed.

(** [logfs_dir_add] of a new inode [n], written beside the tree in [a1]. *)
Lemma add_new_step a1 n t :
  step fs L a a1 -> wf_store fs ({[n]} ∪ L) (c_view a1) -> tree fs (c_view a1) n = t -> n ∉ L ->
  t = None \/ t = Some (new_dir n p) ->
  triple rep a1 (logfs_dir_add (c_gen a1) fs p name n (entry_type t))
    (fun r a2 => same_env a a2 /\ keeps fs (({[n]} ∪ L) ∖ {[p]}) (c_view a1) (c_view a2) /\
       i_nlink (inode_at fs (c_view a2) p) = i_nlink (inode_at fs (c_view a1) p) /\
       match r with
       | Ok _ => inserted fs L (c_view a) (c_view a2) p name n t
       | Err rc => refused rc a2
       end).
Proof.
  intros Hst Hs1 Ht HnL Hnew. pose proof Hst as [He K].
  pose proof (st_table _ _ _ Hs1 n (elem_new n L)) as [Hin _].
  eapply triple_wand.
  - apply (dir_add_step fs Hfs ({[n]} ∪ L)); [by eapply step_blocks|done|by apply elem_old|done|done| |].
    + destruct Hnew as [->| ->]; cbn [entry_type]; unfold LOGFS_FT_DIR, LOGFS_FT_REG; lia.
    + by eapply lookup_safe_step.
  - intros r a2 [He2 Hr]. split; [by etrans|]. pose proof (step_image fs L a a1 Hst Hi) as Hi1.
    assert (Htp : tree fs (c_view a1) p = tree fs (c_view a) p) by (by eapply keeps_tree).
    destruct r as [u|rc].
    + destruct Hr as (m & Hm & Hnone & Hf & Hwf & Hmap). split; [|split].
      * apply frame_keeps; [done|by apply elem_old|done].
      * apply (fr_attrs _ _ _ _ Hf).
      * rewrite Htp in Hm. by apply (insert_image fs Hfs L (c_view a) (c_view a1) (c_view a2) p m).
    + destruct Hr as [Hsame Hrc]. split; [|split; [|split]].
      * destruct Hsame as [->|(_ & Hf & _ & _)]; [apply keeps_refl|].
        apply frame_keeps; [done|by apply elem_old|done].
      * destruct Hsame as [->|(_ & Hf & _ & _)]; [done|apply (fr_attrs _ _ _ _ Hf)].
      * eapply unchanged_trans; [by apply unchanged_keeps|]. by eapply add_failed.
      * unfold add_refused in *. rewrite Htp in Hrc.
        destruct Hrc as [Hrc|Hrc]; [by left|right]. by eapply no_room_env.
Qed.

Lemma create_body_spec mode now :
  0 <= now < 2 ^ 64 ->
  triple rep a (create_body fs p name mode now (c_gen a))
    (fun r a' => same_env a a' /\
       match r with
       | Ok n => inserted fs L (c_view a) (c_view a') p name n None /\
                 inode_at fs (c_view a') n = new_file_inode mode now
       | Err rc => refused rc a'
       end).
Proof.
  intros Hnow. unfold create_body. pose proof (im_store _ _ _ Hi) as Hs. apply triple_bind.
  eapply triple_wand; [by apply (alloc_inode_step fs Hfs L)|]. intros r a1 [Hst1 Hr].
  destruct r as [n|rc]; [|split; [apply Hst1|by apply refused_step]].
  destruct Hr as (Hin & HnL & Hused). apply triple_whole. intros Hlen1.
  pose proof (step_store _ _ _ _ Hst1 Hs) as Hs1. pose proof (wf_new_file mode now Hnow) as Hwi.
  eapply triple_outcome.
  { apply (inode_write_spec fs Hfs a1 (c_gen a) n); [by eapply step_blocks|done| |done].
    by rewrite (se_gen _ _ (proj1 Hst1)). }
  { intros rc Hc Hrc. split; [apply Hst1|]. apply refused_step; [done|]. right.
    by rewrite <-(se_calm _ _ (proj1 Hst1)). }
  set (a2 := write_inode fs n _ a1).
  pose proof (step_write_inode fs Hfs L a1 Hs1 Hlen1 n _ Hin Hwi HnL) as Hst2. fold a2 in Hst2.
  pose proof (step_trans _ _ _ _ _ Hst1 Hst2) as Hst.
  assert (Hat : inode_at fs (c_view a2) n = new_file_inode mode now).
  { unfold a2. rewrite inode_at_write by done. by rewrite decide_True. }
  assert (Hdir : is_dir fs (c_view a2) n = false) by (unfold is_dir; rewrite Hat; apply new_file_isdir).
  assert (Hbs : ino_blocks fs (c_view a2) n = []) by (unfold ino_blocks; rewrite Hat; done).
  assert (Hs2 : wf_store fs ({[n]} ∪ L) (c_view a2)).
  { apply store_add; [by eapply step_store|done| | | | |].
    - destruct (write_inode_bits fs Hfs a1 n (new_file_inode mode now) Hin) as [Hu _].
      unfold a2. by rewrite Hu.
    - rewrite Hbs. by intros b Hb'%elem_of_nil.
    - rewrite Hbs. apply NoDup_nil_2.
    - by rewrite Hdir.
    - intros _. rewrite Hat. done. }
  apply triple_bind. rewrite <-(se_gen _ _ (proj1 Hst)).
  eapply triple_wand; [apply (add_new_step a2 n None Hst Hs2)|].
  - unfold tree. by rewrite Hdir.
  - done.
  - by left.
  - intros r a3 (He & K & _ & Hr). destruct r as [u|rc]; [|done].
    apply triple_ret. split; [done|]. split; [done|].
    rewrite (kp_inode _ _ _ _ K); [done|]. apply elem_rest. split; [apply elem_new|]. by intros ->.
Qed.
(** The directory [n] of [logfs_op_mkdir], before it has a name: its block
    is free in [a1], then filled, then the inode is written. *)
Section new_node.
Context (a1 a2 : contents) (n nb mode now : Z).
Let a3 := put nb (dir_block n p) (touch nb a2).
Let a4 := write_inode fs n (new_dir_inode mode now nb) a3.
Hypothesis Hnow : 0 <= now < 2 ^ 64.
Hypothesis Hst1 : step fs L a a1.
Hypothesis Hst2 : step fs L a1 a2.
Hypothesis Hlen : forall b, length (c_view a2 b) = block_len.
Hypothesis Hin : in_table fs n.
Hypothesis HnL : n ∉ L.
Hypothesis Hused : inode_used fs (c_view a2) n = true.
Hypothesis Hnb : in_data fs nb.
Hypothesis Hfree : block_used fs (c_view a1) nb = false.
Hypothesis Htaken : block_used fs (c_view a2) nb = true.

Let Hs1 : wf_store fs L (c_view a1) := step_store fs L a a1 Hst1 (im_store _ _ _ Hi).
Let Hs2 : wf_store fs L (c_view a2) := step_store fs L a1 a2 Hst2 Hs1.

Lemma node_dir_block : 0 < p < 2 ^ 32 /\ length (dir_block n p) = block_len.
Proof.
  pose proof (st_table _ _ _ (im_store _ _ _ Hi) p Hp) as [Hpt _].
  pose proof (table_32 fs Hfs p Hpt). split; [done|]. apply dir_block_spec; [|done]. by apply (table_32 fs Hfs).
Qed.

Lemma node_step3 : step fs L a1 a3.
Proof.
  eapply step_trans; [exact Hst2|]. apply (step_put fs Hfs L a2 Hs2 nb (dir_block n p)); [done| | |done].
  - intros Ho%(owned_keeps fs L _ _ _ (proj2 Hst2)). by apply (used_not_owned fs L _ _ Hs1 Hfree).
  - etrans; [apply same_env_touch|apply same_env_put].
Qed.

Lemma node_len b : length (c_view a3 b) = block_len.
Proof. cbn [a3 put touch c_view]. case_decide; [apply node_dir_block|apply Hlen]. Qed.

Lemma node_wf_inode : wf_inode (new_dir_inode mode now nb).
Proof. apply wf_new_dir; [|done]. destruct Hnb, Hfs. lia. Qed.

Lemma node_step : step fs L a a4.
Proof.
  eapply step_trans; [exact Hst1|]. eapply step_trans; [exact node_step3|].
  apply step_write_inode; [done| |exact node_len|done|exact node_wf_inode|done].
  eapply step_store; [exact node_step3|exact Hs1].
Qed.

Lemma node_view :
  inode_at fs (c_view a4) n = new_dir_inode mode now nb /\ c_view a4 nb = dir_block n p /\
  inode_used fs (c_view a4) n = true /\ block_used fs (c_view a4) nb = true.
Proof.
  destruct (write_inode_bits fs Hfs a3 n (new_dir_inode mode now nb) Hin) as [Hu Hbu].
  pose proof Hfs as []. destruct Hnb as [Hnb1 Hnb2]. split_and!.
  - unfold a4. rewrite inode_at_write by (done || apply node_wf_inode || apply node_len).
    by rewrite decide_True.
  - unfold a4. rewrite write_inode_other by (done || lia). cbn [a3 put touch c_view].
    by rewrite decide_True.
  - unfold a4. rewrite Hu. unfold inode_used. cbn [a3 put touch c_view].
    by rewrite decide_False by lia.
  - unfold a4. rewrite Hbu. unfold block_used. cbn [a3 put touch c_view].
    by rewrite decide_False by lia.
Qed.

Lemma node_store : wf_store fs ({[n]} ∪ L) (c_view a4) /\ tree fs (c_view a4) n = Some (new_dir n p).
Proof.
  destruct node_view as (Hat & Hvb & Hu & Hbu).
  assert (Hmode : S_ISDIR (i_mode (inode_at fs (c_view a4) n)) = true)
    by (rewrite Hat; apply new_dir_isdir).
  assert (Hbs : i_blocks (inode_at fs (c_view a4) n) = nb :: replicate 11 0) by (by rewrite Hat).
  pose proof (new_dir_wf fs _ n p nb Hfs Hin (proj1 node_dir_block) Hmode Hbs Hnb Hbu Hvb) as Hwf.
  pose proof (new_dir_map fs _ n p nb Hfs Hin (proj1 node_dir_block) Hmode Hbs Hnb Hbu Hvb) as Hmap.
  assert (Hib : ino_blocks fs (c_view a4) n = [nb]).
  { rewrite ino_blocks_dir by done. by apply new_dir_blocks. }
  split; [|unfold tree, is_dir; by rewrite Hmode, Hmap].
  apply store_add; [by eapply step_store; [exact node_step|apply Hi]|done|done| | |done|].
  - rewrite Hib. intros b ->%list_elem_of_singleton. split; [done|]. split; [done|].
    intros i Hin' Hb'. apply (used_not_owned fs L _ _ Hs1 Hfree).
    apply (owned_keeps fs L (c_view a1) (c_view a4)); [|by exists i].
    apply (step_trans fs L a1 a3 a4 node_step3). apply step_write_inode;
      [done|eapply step_store; [exact node_step3|exact Hs1]|exact node_len|done|exact node_wf_inode|done].
  - rewrite Hib. apply NoDup_singleton.
  - unfold is_dir. by rewrite Hmode.
Qed.
End new_node.

Definition mkdir_done mode now (r : result unit) a' : Prop :=
  same_env a a' /\
  match r with
  | Ok _ => exists n nb,
      inserted fs L (c_view a) (c_view a') p name n (Some (new_dir n p)) /\
      inode_at fs (c_view a') n = new_dir_inode mode now nb /\
      i_nlink (inode_at fs (c_view a') p) = u32 (i_nlink (inode_at fs (c_view a) p) + 1)
  | Err rc =>
      refused rc a' \/
      (c_calm a = false /\ rc < 0 /\
       exists n, inserted fs L (c_view a) (c_view a') p name n (Some (new_dir n p)))
  end.

Lemma mkdir_refused mode now a' rc :
  same_env a a' -> unchanged fs L (c_view a) (c_view a') -> no_room a rc ->
  mkdir_done mode now (Err rc) a'.
Proof. intros He Hu Hrc. split; [done|]. left. split; [done|by right]. Qed.

(** From the new node on: the name, then the parent's attributes. *)
Lemma mkdir_name_step a4 n nb mode now :
  0 <= now < 2 ^ 64 -> step fs L a a4 -> wf_store fs ({[n]} ∪ L) (c_view a4) ->
  tree fs (c_view a4) n = Some (new_dir n p) -> n ∉ L ->
  inode_at fs (c_view a4) n = new_dir_inode mode now nb ->
  triple rep a4
    (logfs_dir_add (c_gen a) fs p name n LOGFS_FT_DIR ;;
     pdir ← logfs_inode_read fs p;
     logfs_inode_write (c_gen a) fs p (set_mtime now (set_nlink (u32 (i_nlink pdir + 1)) pdir)))
    (mkdir_done mode now).
Proof.
  intros Hnow Hst Hs4 Ht HnL Hat. pose proof Hst as [He K].
  assert (Hnp : n <> p) by (intros ->; done).
  rewrite <-(se_gen _ _ He). apply triple_bind.
  eapply triple_wand; [apply (add_new_step a4 n (Some (new_dir n p)) Hst Hs4 Ht HnL); by right|].
  intros r a5 (He5 & K5 & Hn5 & Hr). destruct r as [u|rc]; [|split; [done|by left]].
  assert (Hat5 : inode_at fs (c_view a5) n = new_dir_inode mode now nb).
  { rewrite (kp_inode _ _ _ _ K5); [done|]. apply elem_rest. split; [apply elem_new|done]. }
  rewrite (se_gen _ _ He), <-(se_gen _ _ He5).
  assert (Hd5 : is_dir fs (c_view a5) p = true).
  { destruct (ins_map _ _ _ _ _ _ _ _ Hr) as (m & _ & _ & Hm).
    unfold tree in Hm. by destruct (is_dir fs (c_view a5) p). }
  apply (parent_attrs_step fs Hfs ({[n]} ∪ L) a5 p (fun k => k + 1) now);
    [by eapply fs_blocks_env|apply Hr|by apply elem_old|done|done| |].
  - intros rc Hc Hrc. split; [done|]. right. split; [by rewrite <-(se_calm _ _ He5)|].
    split; [done|by exists n].
  - intros a6 He6 Hi6 HT HF _ Hnl. split; [by etrans|]. exists n, nb. split; [|split].
    + by eapply inserted_attrs.
    + rewrite (proj1 (HF n (elem_new _ _) Hnp)). done.
    + by rewrite Hnl, Hn5, (kp_inode _ _ _ _ K).
Qed.

Lemma mkdir_body_spec mode now :
  0 <= now < 2 ^ 64 ->
  triple rep a (mkdir_body fs p name mode now (c_gen a)) (mkdir_done mode now).
Proof.
  intros Hnow. unfold mkdir_body. pose proof (im_store _ _ _ Hi) as Hs. apply triple_bind.
  eapply triple_wand; [by apply (alloc_inode_step fs Hfs L)|]. intros r a1 [Hst1 Hr].
  destruct r as [n|rc]; [|apply mkdir_refused; [apply Hst1|by apply unchanged_keeps, Hst1|done]].
  destruct Hr as (Hin & HnL & Hused). pose proof (step_store _ _ _ _ Hst1 Hs) as Hs1.
  pose proof (step_blocks fs L _ _ Hst1 Hb) as Hb1.
  rewrite <-(se_gen _ _ (proj1 Hst1)). apply triple_bind.
  eapply triple_wand; [by apply (alloc_block_step fs Hfs L)|].
  intros r a2 (Hst2 & Hview & Hr). pose proof (step_trans _ _ _ _ _ Hst1 Hst2) as Hst12.
  assert (Hrefuse : forall a' rc, step fs L a a' -> no_room a1 rc -> mkdir_done mode now (Err rc) a').
  { intros a' rc [He K] Hrc. apply mkdir_refused; [done|by apply unchanged_keeps|].
    by eapply no_room_env; [apply Hst1|]. }
  destruct r as [nb|rc]; [|apply Hrefuse; [done|apply Hr]]. destruct Hr as (Hnb & Hfree & _ & Hbits).
  assert (Htaken : block_used fs (c_view a2) nb = true)
    by (rewrite Hbits by done; by rewrite bool_decide_true).
  assert (Hused2 : inode_used fs (c_view a2) n = true).
  { unfold inode_used in *. rewrite Hview; [done|]. destruct Hfs. lia. }
  apply triple_whole. intros Hlen2.
  apply triple_access; [|by rewrite (se_gen _ _ (proj1 Hst2))| |].
  { eapply data_client; [done| |done]. by eapply step_blocks. }
  { intros rc Hc Hrc. apply Hrefuse; [done|]. right. by rewrite <-(se_calm _ _ (proj1 Hst2)). }
  apply triple_store; [auto with txn|by apply node_dir_block|]. apply triple_dirty; [auto with txn|].
  set (a3 := put nb (dir_block n p) (touch nb a2)).
  pose proof (node_step3 a1 a2 n nb Hst1 Hst2 Hnb Hfree) as Hst3.
  assert (Hlen3 : forall b, length (c_view a3 b) = block_len) by (by apply node_len).
  eapply triple_outcome.
  { apply (inode_write_spec fs Hfs a3); [by eapply step_blocks|done| |].
    - exact (eq_sym (se_gen _ _ (proj1 Hst3))).
    - by apply wf_new_dir; [destruct Hnb, Hfs; lia|]. }
  { intros rc Hc Hrc. apply Hrefuse; [exact (step_trans fs L _ _ _ Hst1 Hst3)|]. right.
    split; [|done]. rewrite <-Hc. exact (eq_sym (se_calm _ _ (proj1 Hst3))). }
  destruct (node_store a1 a2 n nb mode now) as [Hs4 Ht4]; [done..|].
  rewrite (se_gen _ _ (proj1 Hst1)).
  apply (mkdir_name_step _ n nb); [done|by apply (node_step a1 a2)|done|done|done|].
  by apply (node_view a2).
Qed.
End create.
