(* ===== verification/FsRemove.v ===== *)
(** [logfs_op_unlink] and [logfs_op_rmdir]: the tree loses one name and the
    inode it led to. *)

From S2P Require Import Prelude.
From S2P Require Import Bytes.
From S2P Require Import DiskFormat.
From S2P Require Import TxnApi.
From S2P Require Import FsFormat.
From S2P Require Import Inode.
From S2P Require Import InodeBits.
From S2P Require Import InodeSpec.
From S2P Require Import InodeDir.
From S2P Require Import InodeDirSpec.
From S2P Require Import InodeDirAdd.
From S2P Require Import InodeWalk.
From S2P Require Import FsOps.
From S2P Require Import FsTree.
From S2P Require Import FsImage.
From S2P Require Import FsStep.
From S2P Require Import FsPath.
From S2P Require Import FsChange.
From S2P Require Import FsCalls.

Section remove.
Context {S : Type} `{TxnLaws S} (fs : logfs_super) (Hfs : wf_fs fs).
Implicit Types (L : gset Z) (a : contents) (v : Z -> block).

(** ** The entry *)

Definition del_done a (p : Z) (name : list byte) (r : result unit) a' : Prop :=
  same_env a a' /\
  match r with
  | Ok _ => dir_frame fs p (c_view a) (c_view a') /\ wf_dir fs (c_view a') p /\
            same_bitmaps fs (c_view a) (c_view a') /\
            the_dir fs (c_view a') p = delete name (the_dir fs (c_view a) p)
  | Err rc => dir_frame fs p (c_view a) (c_view a') /\ wf_dir fs (c_view a') p /\
              the_dir fs (c_view a') p = the_dir fs (c_view a) p /\ c_calm a = false /\ rc < 0
  end.

Lemma dir_remove_step L a p name :
  fs_blocks fs a -> wf_store fs L (c_view a) -> p ∈ L -> is_dir fs (c_view a) p = true ->
  the_dir fs (c_view a) p !! name <> None ->
  triple rep a (logfs_dir_remove (c_gen a) fs p name) (del_done a p name).
Proof.
  intros Hb Hs Hp Hd Hx. pose proof (st_dirs _ _ _ Hs p Hp Hd) as Hwf.
  eapply triple_wand; [by apply dir_remove_spec|]. intros r a' (He & Hf & Hwf' & Hbm & Hr).
  split; [done|]. destruct r as [u|rc]; [by destruct Hr|].
  destruct Hr as [Hm [[_ Hno]|[Hc Hrc]]]; [congruence|done].
Qed.

(** ** The inode *)

(** Also after the directory has changed. *)
Lemma frame_not_owned L v v' p b :
  wf_store fs L v -> p ∈ L -> dir_frame fs p v v' -> wf_dir fs v' p ->
  block_used fs v b = true -> ~ owned fs L v b -> ~ owned fs L v' b.
Proof.
  intros Hs Hp Hf Hwf Hu Hno (i & Hi & Hb). destruct (decide (i = p)) as [->|Hne].
  - rewrite ino_blocks_dir in Hb by done.
    destruct (fr_blocks _ _ _ _ Hf b Hb) as [Hold|Hfree]; [|congruence].
    apply Hno. exists p. split; [done|]. by apply blocks_of_ino.
  - apply Hno. exists i. split; [done|]. unfold ino_blocks in *.
    rewrite (fr_inodes _ _ _ _ Hf) in Hb; [done|by apply (st_table _ _ _ Hs)|done].
Qed.

(** Freeing an inode that is no longer in the tree. *)
Lemma free_target_step L a t i (Q : result unit -> contents -> Prop) :
  fs_blocks fs a -> wf_store fs L (c_view a) -> t ∉ L -> in_table fs t -> wf_inode i ->
  NoDup (filter (fun b => b <> 0) (i_blocks i)) ->
  (forall b, b ∈ i_blocks i -> b <> 0 -> in_data fs b /\ ~ owned fs L (c_view a) b) ->
  (forall rc a', c_calm a = false -> rc < 0 -> step fs L a a' -> Q (Err rc) a') ->
  (forall a', step fs L a a' -> released fs (c_view a') t (i_blocks i) -> Q (Ok tt) a') ->
  triple rep a (truncate_blocks (c_gen a) fs i 0 ;; logfs_free_inode (c_gen a) fs t) Q.
Proof.
  intros Hb Hs Ht Hin Hw Hnd Hbs Herr Hok. apply triple_bind.
  eapply triple_wand; [by apply (truncate_step fs Hfs L t)|]. intros r a1 [Hst Hr].
  destruct r as [i'|rc]; [|destruct Hr; by apply Herr].
  apply triple_whole. intros Hlen. rewrite <-(se_gen _ _ (proj1 Hst)).
  eapply triple_outcome_last; [apply (free_inode_spec fs Hfs a1 _ t)| |].
  - by eapply step_blocks.
  - done.
  - apply Hin.
  - intros rc Hc Hrc. apply Herr; [by rewrite <-(se_calm _ _ (proj1 Hst))|done..].
  - assert (Ht' : 0 <= t < bitmap_bits) by (destruct Hin as [? _], Hfs; lia). apply Hok.
    { eapply step_trans; [exact Hst|]. apply step_drop_inode; [done|by eapply step_store|done..]. }
    split; [unfold inode_used; rewrite drop_bit_view by (done || lia); by rewrite decide_True|].
    intros b Hbb Hne. unfold block_used. rewrite drop_bit_other by (destruct Hfs; lia). by apply Hr.
Qed.

(** ** [logfs_op_unlink] *)

Lemma removed_keeps L v v1 v2 p name t :
  removed fs L v v1 p name t -> keeps fs (L ∖ {[t]}) v1 v2 -> removed fs L v v2 p name t.
Proof.
  intros [I P (m & ty & M1 & M2 & M3) R F] K. split.
  - by eapply image_keeps.
  - done.
  - exists m, ty. split; [done|]. split; [done|]. by rewrite (keeps_tree fs _ v1 v2 p K).
  - intros i Hi Hne. rewrite (keeps_tree fs _ v1 v2 i K) by done. by apply R.
  - intros i Hi Hd. eapply same_file_trans; [by apply F|]. by eapply same_file_keeps.
Qed.

(** An error after the entry is gone leaks the inode, no more. *)
Definition unlink_done L a (p : Z) (name : list byte) (t : Z) (r : result unit) a' : Prop :=
  same_env a a' /\
  match r with
  | Ok _ => removed fs L (c_view a) (c_view a') p name t /\
            (i_nlink (inode_at fs (c_view a) t) = 1 ->
             released fs (c_view a') t (i_blocks (inode_at fs (c_view a) t)))
  | Err rc => c_calm a = false /\ rc < 0 /\
              (unchanged fs L (c_view a) (c_view a') \/ removed fs L (c_view a) (c_view a') p name t)
  end.

Lemma wf_set_nlink nlink i : wf_inode i -> wf_inode (set_nlink (u32 nlink) i).
Proof.
  intros [H32 H64 Hb Hl]. pose proof (Z.mod_pos_bound nlink (2 ^ 32) ltac:(lia)) as Hu.
  split; cbn [set_nlink i_mode i_nlink i_uid i_gid i_size i_atime i_mtime i_ctime i_blocks];
    [|done|done|done].
  rewrite !Forall_cons in *. change (u32 nlink) with (nlink mod 2 ^ 32). tauto.
Qed.

Lemma unlink_body_spec L a p name t ty :
  fs_blocks fs a -> wf_image fs L (c_view a) -> removable fs L (c_view a) p name t ty ->
  triple rep a (unlink_body fs p t name (c_gen a)) (unlink_done L a p name t).
Proof.
  intros Hb Hi Hrem. pose proof (im_store _ _ _ Hi) as Hs.
  destruct (removable_facts fs L _ _ _ _ _ Hi Hrem) as (Ht & Htp & _ & Hp').
  pose proof Hrem as (Hp & Hprop & (m & Hm & Hx) & Hvac).
  destruct (tree_dir fs L _ p m Hi Hp Hm) as (Hd & Hdir & ->).
  pose proof (st_table _ _ _ Hs t Ht) as [Htt _]. unfold unlink_body.
  eapply triple_outcome; [by apply (inode_read_spec fs Hfs a t Hb Htt)| |].
  { intros rc Hc Hrc. split; [done|]. split; [done|]. split; [done|]. left. by apply unchanged_refl. }
  apply triple_bind. eapply triple_wand; [apply (dir_remove_step L); [done..|by rewrite Hx]|].
  intros r a1 [He Hr]. destruct r as [u|rc].
  2: { destruct Hr as (Hf & Hwf & Hmap & Hc & Hrc). split; [done|]. split; [done|]. split; [done|].
       left. by eapply unchanged_dir. }
  destruct Hr as (Hf & Hwf & _ & Hmap).
  pose proof (remove_image fs Hfs L _ (c_view a) _ p name t ty Hi Hrem (keeps_refl _ _ _) Hf Hwf Hmap) as Hr.
  assert (Hdone : forall r a2, step fs (L ∖ {[t]}) a1 a2 ->
    match r with
    | Ok _ => i_nlink (inode_at fs (c_view a) t) = 1 ->
              released fs (c_view a2) t (i_blocks (inode_at fs (c_view a) t))
    | Err rc => c_calm a = false /\ rc < 0
    end -> unlink_done L a p name t r a2).
  { intros r a2 [He2 K2] Hrc. split; [by etrans|]. pose proof (removed_keeps _ _ _ _ _ _ _ Hr K2).
    destruct r as [u'|rc]; [done|]. destruct Hrc. split; [done|]. split; [done|]. by right. }
  pose proof (im_store _ _ _ (rem_image _ _ _ _ _ _ _ Hr)) as Hs1.
  assert (Hb1 : fs_blocks fs a1) by (by eapply fs_blocks_env).
  assert (HtL : t ∉ L ∖ {[t]}) by (intros [_ E]%elem_rest; done).
  pose proof (wf_set_nlink (i_nlink (inode_at fs (c_view a) t) - 1) _ (wf_inode_at fs (c_view a) t)) as Hw.
  rewrite <-(se_gen _ _ He). cbv zeta. destruct (Z.eqb_spec (u32 (i_nlink (inode_at fs (c_view a) t) - 1)) 0) as [E|E].
  - apply (free_target_step (L ∖ {[t]})); [done..| | | |].
    + by apply (st_nodup _ _ _ Hs).
    + cbn [set_nlink i_blocks]. intros b Hbb Hne.
      destruct (target_blocks fs L _ t b Hs Ht Hbb Hne) as (Hin & Hu & Hno). split; [done|].
      eapply (frame_not_owned _ _ _ p); [|done|exact Hf|done|done|done].
      eapply store_sub; [|exact Hs]. set_solver.
    + intros rc a2 Hc Hrc Hst. apply Hdone; [done|]. by rewrite <-(se_calm _ _ He).
    + intros a2 Hst Hrel. by apply Hdone.
  - apply triple_whole. intros Hlen.
    eapply triple_outcome_last; [by apply (inode_write_spec fs Hfs a1 _ t)| |].
    + intros rc Hc Hrc. apply Hdone; [apply step_refl|]. by rewrite <-(se_calm _ _ He).
    + apply Hdone; [by apply step_write_inode|]. intros E1. by rewrite E1 in E.
Qed.

(** ** [logfs_op_rmdir] *)

Lemma removed_attrs L v v1 v2 p name t :
  removed fs L v v1 p name t -> wf_image fs (L ∖ {[t]}) v2 ->
  (forall i, i ∈ L ∖ {[t]} -> tree fs v2 i = tree fs v1 i) ->
  (forall i, i ∈ L ∖ {[t]} -> i <> p -> same_file fs v1 v2 i) -> removed fs L v v2 p name t.
Proof.
  intros [I P (m & ty & M1 & M2 & M3) R F] I2 HT HF. split; [done..| | |].
  - exists m, ty. split; [done|]. split; [done|]. by rewrite HT.
  - intros i Hi Hne. rewrite HT by done. by apply R.
  - intros i Hi Hd. eapply same_file_trans; [by apply F|]. apply HF; [done|].
    intros ->. unfold tree in M1. by rewrite Hd in M1.
Qed.

(** The blocks and the inode are given up before the entry: when a later
    call fails the name may lead nowhere, and only the storage of the other
    inodes is sound. *)
Definition rmdir_done L a (p : Z) (name : list byte) (t : Z) (r : result unit) a' : Prop :=
  same_env a a' /\
  match r with
  | Ok _ => removed fs L (c_view a) (c_view a') p name t /\
            released fs (c_view a') t (i_blocks (inode_at fs (c_view a) t)) /\
            i_nlink (inode_at fs (c_view a') p) = u32 (i_nlink (inode_at fs (c_view a) p) - 1)
  | Err rc => c_calm a = false /\ rc < 0 /\ wf_store fs (L ∖ {[t]}) (c_view a')
  end.

Section rmdir.
Context (L : gset Z) (a : contents) (p : Z) (name : list byte) (t ty now : Z).
Hypothesis Hb : fs_blocks fs a.
Hypothesis Hi : wf_image fs L (c_view a).
Hypothesis Hrem : removable fs L (c_view a) p name t ty.
Hypothesis Hnow : 0 <= now < 2 ^ 64.

Abbreviation done_ := (rmdir_done L a p name t).

Lemma rmdir_failed a' rc : step fs (L ∖ {[t]}) a a' -> c_calm a = false -> rc < 0 -> done_ (Err rc) a'.
Proof.
  intros Hst Hc Hrc. split; [apply Hst|]. split; [done|]. split; [done|].
  eapply step_store; [exact Hst|]. eapply store_sub; [|apply Hi]. set_solver.
Qed.

(** Once the target is given up: the entry, then the parent's attributes. *)
Lemma rmdir_name_step a2 :
  step fs (L ∖ {[t]}) a a2 -> released fs (c_view a2) t (i_blocks (inode_at fs (c_view a) t)) ->
  triple rep a2
    (logfs_dir_remove (c_gen a2) fs p name ;;
     pdir ← logfs_inode_read fs p;
     logfs_inode_write (c_gen a2) fs p (set_mtime now (set_nlink (u32 (i_nlink pdir - 1)) pdir)))
    done_.
Proof.
  intros Hst Hrel. destruct (removable_facts fs L _ _ _ _ _ Hi Hrem) as (Ht & Htp & _ & Hp').
  pose proof Hrem as (Hp & Hprop & (m & Hm & Hx) & Hvac).
  destruct (tree_dir fs L _ p m Hi Hp Hm) as (Hd & Hdir & ->).
  assert (Hs : wf_store fs (L ∖ {[t]}) (c_view a)) by (eapply store_sub; [|apply Hi]; set_solver).
  pose proof (step_store fs _ _ _ Hst Hs) as Hs2. pose proof Hst as [He2 K2].
  destruct (keeps_dir_same fs _ _ _ p K2 Hp') as [Hmap2 _].
  assert (Hd2 : is_dir fs (c_view a2) p = true) by (by rewrite (keeps_dir fs (L ∖ {[t]}) (c_view a))).
  apply triple_bind. eapply triple_wand.
  { apply (dir_remove_step (L ∖ {[t]})); [by eapply fs_blocks_env|done|done|done|]. by rewrite Hmap2, Hx. }
  intros r a3 [He3 Hr]. destruct r as [u|rc].
  2: { destruct Hr as (Hf & Hwf & _ & Hc & Hrc). split; [by etrans|].
       split; [by rewrite <-(se_calm _ _ He2)|]. split; [done|].
       apply (store_change fs _ (c_view a2) _ p); [done|done|by apply frame_keeps|].
       by apply (frame_changed fs (L ∖ {[t]})). }
  destruct Hr as (Hf & Hwf & Hbm & Hmap).
  pose proof (remove_image fs Hfs L _ _ _ p name t ty Hi Hrem K2 Hf Hwf Hmap) as Hr.
  assert (He : same_env a a3) by (by etrans). rewrite <-(se_gen _ _ He3).
  apply (parent_attrs_step fs Hfs (L ∖ {[t]}) a3 p (fun k => k - 1) now);
    [by eapply fs_blocks_env|apply Hr|done| |done| |].
  - by rewrite (frame_dir _ _ _ _ Hf).
  - intros rc Hc Hrc. split; [done|]. split; [by rewrite <-(se_calm _ _ He)|]. split; [done|].
    apply (rem_image _ _ _ _ _ _ _ Hr).
  - intros a4 He4 Hi4 HT HF Hbm4 Hnl. split; [by etrans|]. split; [by eapply removed_attrs|].
    split; [eapply released_bitmaps; [exact Hbm4|]; by eapply released_bitmaps|].
    rewrite Hnl. destruct (fr_attrs _ _ _ _ Hf) as (_ & -> & _). by rewrite (kp_inode _ _ _ _ K2).
Qed.

Lemma rmdir_body_spec : triple rep a (rmdir_body fs p t name now (c_gen a)) done_.
Proof.
  destruct (removable_facts fs L _ _ _ _ _ Hi Hrem) as (Ht & Htp & _ & Hp').
  pose proof (im_store _ _ _ Hi) as Hs0. pose proof (st_table _ _ _ Hs0 t Ht) as [Htt _].
  assert (Hs : wf_store fs (L ∖ {[t]}) (c_view a)) by (eapply store_sub; [|exact Hs0]; set_solver).
  assert (HtL : t ∉ L ∖ {[t]}) by (intros [_ E]%elem_rest; done).
  unfold rmdir_body.
  eapply triple_outcome; [by apply (inode_read_spec fs Hfs a t Hb Htt)| |].
  { intros rc Hc Hrc. apply rmdir_failed; [apply step_refl|done|done]. }
  apply (triple_assoc rep).
  apply triple_bind. apply (free_target_step (L ∖ {[t]})); [done|done|done|done|apply wf_inode_at| | | |].
  - by apply (st_nodup _ _ _ Hs0).
  - intros b Hbb Hne. by destruct (target_blocks fs L _ t b Hs0 Ht Hbb Hne) as (Hin & _ & Hno).
  - intros rc a' Hc Hrc Hst. by apply rmdir_failed.
  - intros a2 Hst Hrel. rewrite <-(se_gen _ _ (proj1 Hst)). by apply rmdir_name_step.
Qed.
End rmdir.
End remove.
