(* ===== verification/FsFile.v ===== *)
(** A file as its bytes: what [logfs_op_read] returns is a piece of them. *)

From S2P Require Import Prelude.
From S2P Require Import Bytes.
From S2P Require Import DiskFormat.
From S2P Require Import TxnApi.
From S2P Require Import FsFormat.
From S2P Require Import Inode.
From S2P Require Import InodeSpec.
From S2P Require Import InodeDir.
From S2P Require Import InodeDirSpec.
From S2P Require Import InodeDirAdd.
From S2P Require Import FsOps.
From S2P Require Import FsTree.
From S2P Require Import FsImage.
From S2P Require Import FsChange.

(** ** Bytes *)

(** A byte of the blocks of a file; a hole is zeros. *)
Definition file_byte (v : Z -> block) (blocks : list Z) (x : Z) : byte :=
  let b := nth (Z.to_nat (x / LOGFS_BLOCK_SIZE)) blocks 0 in
  if b =? 0 then Byte.x00 else nth (Z.to_nat (x mod LOGFS_BLOCK_SIZE)) (v b) Byte.x00.

Definition bytes_at (v : Z -> block) (blocks : list Z) (pos : Z) (n : nat) : list byte :=
  map (fun k => file_byte v blocks (pos + Z.of_nat k)) (seq 0 n).

(** The contents of a file. *)
Definition file_data (fs : logfs_super) (v : Z -> block) (ino : Z) : list byte :=
  let i := inode_at fs v ino in bytes_at v (i_blocks i) 0 (Z.to_nat (i_size i)).

Lemma length_bytes_at v blocks pos n : length (bytes_at v blocks pos n) = n.
Proof. unfold bytes_at. by rewrite length_map, length_seq. Qed.

Lemma lookup_bytes_at v blocks pos n k :
  (k < n)%nat -> bytes_at v blocks pos n !! k = Some (file_byte v blocks (pos + Z.of_nat k)).
Proof. intros Hk. unfold bytes_at. by rewrite list_lookup_fmap, lookup_seq_lt. Qed.

Lemma bytes_at_app v blocks pos n m :
  bytes_at v blocks pos (n + m) = bytes_at v blocks pos n ++ bytes_at v blocks (pos + Z.of_nat n) m.
Proof.
  unfold bytes_at. rewrite seq_app, map_app. f_equal. rewrite <-(Nat.add_0_r (0 + n)).
  rewrite <-fmap_add_seq. cbn [Nat.add]. rewrite <-list_fmap_compose. apply list_fmap_ext.
  intros _ k _. cbn. f_equal. lia.
Qed.

Lemma bytes_at_slice v blocks pos m k n :
  take n (drop k (bytes_at v blocks pos m))
  = bytes_at v blocks (pos + Z.of_nat k) (Nat.min n (m - k)).
Proof.
  destruct (decide (k <= m)%nat) as [Hk|Hk].
  - replace m with (k + (m - k))%nat at 1 by lia. rewrite bytes_at_app, drop_app_length'
      by by rewrite length_bytes_at.
    destruct (decide (n <= m - k)%nat) as [Hn|Hn].
    + rewrite Nat.min_l by done. replace (m - k)%nat with (n + (m - k - n))%nat by lia.
      rewrite bytes_at_app, take_app_length'; [done|by rewrite length_bytes_at].
    + rewrite Nat.min_r by lia. apply take_ge. rewrite length_bytes_at. lia.
  - rewrite drop_ge, take_nil by (rewrite length_bytes_at; lia).
    replace (Nat.min n (m - k)) with 0%nat by lia. done.
Qed.

Lemma bytes_at_take v blocks pos m n :
  take n (bytes_at v blocks pos m) = bytes_at v blocks pos (Nat.min n m).
Proof.
  pose proof (bytes_at_slice v blocks pos m 0 n) as E. rewrite drop_0, Z.add_0_r in E.
  by rewrite E, Nat.sub_0_r.
Qed.

Lemma bytes_at_drop v blocks pos m k :
  drop k (bytes_at v blocks pos m) = bytes_at v blocks (pos + Z.of_nat k) (m - k).
Proof.
  pose proof (bytes_at_slice v blocks pos m k (m - k)) as E. rewrite Nat.min_id in E.
  by rewrite <-E, take_ge by by rewrite length_drop, length_bytes_at.
Qed.

Lemma bytes_at_ext v v' blocks blocks' pos n :
  (forall x, pos <= x < pos + Z.of_nat n -> file_byte v' blocks' x = file_byte v blocks x) ->
  bytes_at v' blocks' pos n = bytes_at v blocks pos n.
Proof.
  intros E. unfold bytes_at. apply map_ext_in. intros k Hk%in_seq. apply E. lia.
Qed.

(** The bytes within one block. *)
Lemma bytes_at_block v blocks pos n :
  let b := nth (Z.to_nat (pos / LOGFS_BLOCK_SIZE)) blocks 0 in
  0 <= pos -> pos mod LOGFS_BLOCK_SIZE + Z.of_nat n <= LOGFS_BLOCK_SIZE ->
  length (v b) = block_len ->
  bytes_at v blocks pos n
  = if b =? 0 then replicate n Byte.x00
    else take n (drop (Z.to_nat (pos mod LOGFS_BLOCK_SIZE)) (v b)).
Proof.
  intros b Hpos Hn Hlen. apply list_eq. intros k.
  pose proof (Z.mod_pos_bound pos LOGFS_BLOCK_SIZE ltac:(done)) as Hm.
  destruct (decide (k < n)%nat) as [Hk|Hk].
  - rewrite lookup_bytes_at by done.
    assert (E : pos + Z.of_nat k = (pos mod LOGFS_BLOCK_SIZE + Z.of_nat k) + (pos / LOGFS_BLOCK_SIZE) * LOGFS_BLOCK_SIZE).
    { pose proof (Z.div_mod pos LOGFS_BLOCK_SIZE ltac:(done)). lia. }
    assert (Ediv : (pos + Z.of_nat k) / LOGFS_BLOCK_SIZE = pos / LOGFS_BLOCK_SIZE).
    { rewrite E, Z.div_add by done. rewrite (Z.div_small (_ + _)) by lia. lia. }
    assert (Emod : (pos + Z.of_nat k) mod LOGFS_BLOCK_SIZE = pos mod LOGFS_BLOCK_SIZE + Z.of_nat k).
    { rewrite E, Z.mod_add by done. apply Z.mod_small. lia. }
    unfold file_byte. rewrite Ediv, Emod. fold b. destruct (b =? 0); [by rewrite lookup_replicate_2|].
    rewrite lookup_take_lt, lookup_drop by done. rewrite Z2Nat.inj_add, Nat2Z.id by lia.
    rewrite nth_lookup. unfold LOGFS_BLOCK_SIZE in *.
    destruct (lookup_lt_is_Some_2 (v b) (Z.to_nat (pos mod 4096) + k)) as [c ->]; [|done].
    rewrite Hlen. blia.
  - rewrite !lookup_ge_None_2; [done| |by rewrite length_bytes_at; lia].
    destruct (b =? 0); [rewrite length_replicate; lia|]. rewrite length_take. lia.
Qed.

(** What a file holds depends on its inode and its blocks. *)
Lemma same_file_data fs v v' i : same_file fs v v' i -> file_data fs v' i = file_data fs v i.
Proof.
  intros [E D]. unfold file_data. rewrite E. apply bytes_at_ext. intros x _. unfold file_byte. cbv zeta.
  set (b := nth _ _ _). destruct (Z.eqb_spec b 0) as [|Hne]; [done|].
  rewrite D; [done|]. apply elem_ino_blocks. split; [done|]. unfold b in *.
  destruct (nth_in_or_default (Z.to_nat (x / LOGFS_BLOCK_SIZE)) (i_blocks (inode_at fs v i)) 0);
    [by apply list_elem_of_In|done].
Qed.

(** The files among [L] have their attributes and their contents. *)
Definition files_kept (fs : logfs_super) (L : gset Z) (v v' : Z -> block) : Prop :=
  forall i, i ∈ L -> is_dir fs v i = false ->
    inode_at fs v' i = inode_at fs v i /\ file_data fs v' i = file_data fs v i.

Lemma files_kept_same fs L v v' :
  (forall i, i ∈ L -> is_dir fs v i = false -> same_file fs v v' i) -> files_kept fs L v v'.
Proof.
  intros H i Hi Hd. specialize (H i Hi Hd). split; [apply H|by apply same_file_data].
Qed.

(** ** The loop of [logfs_op_read] *)

Lemma chunk_of_spec pos left :
  0 <= pos -> 0 < left ->
  exists b k n, chunk_of pos left = (b, k, n) /\
    b = Z.to_nat (pos / LOGFS_BLOCK_SIZE) /\ k = Z.to_nat (pos mod LOGFS_BLOCK_SIZE) /\
    (0 < n)%nat /\ Z.of_nat n <= left /\
    (k + n <= block_len)%nat /\
    (Z.of_nat n = left \/ (k + n)%nat = block_len).
Proof.
  intros Hpos Hleft. unfold chunk_of. cbv zeta.
  pose proof (Z.mod_pos_bound pos LOGFS_BLOCK_SIZE ltac:(done)) as Hm.
  eexists _, _, _. split; [reflexivity|]. unfold LOGFS_BLOCK_SIZE in *. pose proof block_len_Z.
  destruct (Z.ltb_spec left (4096 - pos mod 4096)); (split; [done|]); (split; [done|]); lia.
Qed.

(** Fuel for a transfer: a turn per block it meets, and the last test. *)
Definition enough_fuel (fuel : nat) (pos left : Z) : Prop :=
  (0 < fuel)%nat /\
  (left <= 0 \/ pos mod LOGFS_BLOCK_SIZE + left <= LOGFS_BLOCK_SIZE * (Z.of_nat fuel - 1)).

Lemma copy_fuel_enough pos size : 0 <= size -> enough_fuel (copy_fuel size) pos size.
Proof.
  intros Hs. unfold enough_fuel, copy_fuel, LOGFS_BLOCK_SIZE.
  pose proof (Z.mod_pos_bound pos 4096 ltac:(lia)). pose proof (Z.div_mod size 4096 ltac:(lia)).
  pose proof (Z.mod_pos_bound size 4096 ltac:(lia)). pose proof (Z.div_pos size 4096 Hs ltac:(lia)). lia.
Qed.

Lemma enough_fuel_next fuel pos left n :
  0 <= pos -> enough_fuel (Datatypes.S fuel) pos left -> 0 < left ->
  0 < n <= left -> pos mod LOGFS_BLOCK_SIZE + n <= LOGFS_BLOCK_SIZE ->
  n = left \/ pos mod LOGFS_BLOCK_SIZE + n = LOGFS_BLOCK_SIZE ->
  enough_fuel fuel (pos + n) (left - n).
Proof.
  intros Hp [_ Hf] Hl Hn Hle Hcase. unfold enough_fuel, LOGFS_BLOCK_SIZE in *.
  pose proof (Z.mod_pos_bound pos 4096 ltac:(lia)). destruct Hcase as [->|E]; [split; lia|].
  assert (E' : (pos + n) mod 4096 = 0).
  { rewrite (Z.div_mod pos 4096) by lia.
    replace (4096 * (pos / 4096) + pos mod 4096 + n) with ((pos / 4096 + 1) * 4096) by lia.
    by rewrite Z.mod_mul by lia. }
  rewrite E'. split; lia.
Qed.

Section read.
Context {S : Type} `{TxnLaws S}.

Lemma read_loop_spec a blocks fuel pos left :
  (forall b, b ∈ blocks -> b <> 0 -> c_block a b) ->
  (forall b, length (c_view a b) = block_len) ->
  0 <= pos -> enough_fuel fuel pos left ->
  triple rep a (read_loop fuel blocks pos left)
    (fun r a' => a' = a /\ (r = Ok (bytes_at (c_view a) blocks pos (Z.to_nat left)) \/ io_error a r)).
Proof.
  intros Hb Hlen. revert pos left. induction fuel as [|fuel IH]; intros pos left Hpos Hf;
    [by destruct Hf; lia|]. cbn [read_loop].
  destruct (Z.leb_spec left 0) as [Hl|Hl].
  { apply triple_ret. split; [done|]. left. by replace (Z.to_nat left) with 0%nat by lia. }
  destruct (chunk_of_spec pos left Hpos Hl) as (b & k & n & -> & Hbdef & Hk & Hn0 & Hnl & Hkn & Hcase).
  set (blockno := nth b blocks 0).
  pose proof (Z.mod_pos_bound pos LOGFS_BLOCK_SIZE ltac:(done)) as Hm.
  assert (HBS : LOGFS_BLOCK_SIZE = Z.of_nat block_len) by (by rewrite block_len_Z).
  assert (Hf' : enough_fuel fuel (pos + Z.of_nat n) (left - Z.of_nat n))
    by (apply enough_fuel_next; [done|done|done|lia|lia|lia]).
  assert (Hsplit : bytes_at (c_view a) blocks pos (Z.to_nat left)
    = bytes_at (c_view a) blocks pos n
      ++ bytes_at (c_view a) blocks (pos + Z.of_nat n) (Z.to_nat (left - Z.of_nat n))).
  { rewrite <-bytes_at_app. f_equal. lia. }
  pose proof (bytes_at_block (c_view a) blocks pos n Hpos ltac:(lia) (Hlen _)) as Hchunk.
  rewrite <-Hbdef, <-Hk in Hchunk. cbv zeta in Hchunk. fold blockno in Hchunk.
  rewrite Hchunk in Hsplit.
  assert (Hrest : forall data, triple rep a
    (rest ← read_loop fuel blocks (pos + Z.of_nat n) (left - Z.of_nat n); mret (data ++ rest))
    (fun r a' => a' = a /\
       (r = Ok (data ++ bytes_at (c_view a) blocks (pos + Z.of_nat n) (Z.to_nat (left - Z.of_nat n)))
        \/ io_error a r))).
  { intros data. apply triple_bind. eapply triple_wand; [apply IH; [lia|done]|].
    intros r a' [-> [->|(Hc & rc & Hrc & ->)]].
    - apply triple_ret. split; [done|by left].
    - split; [done|]. right. split; [done|by exists rc]. }
  rewrite Hsplit. destruct (Z.eqb_spec blockno 0) as [E|E].
  - apply triple_bind, triple_ret. apply Hrest.
  - apply triple_bind. apply triple_read.
    + apply Hb; [|done]. unfold blockno in *. destruct (nth_in_or_default b blocks 0) as [Hin|]; [|done].
      by apply list_elem_of_In.
    + intros rc Hc Hrc. split; [done|]. right. split; [done|by exists rc].
    + apply triple_ret. apply Hrest.
Qed.

Lemma op_read_spec (fs : logfs_super) L a fh size offset :
  wf_fs fs -> fs_blocks fs a -> wf_store fs L (c_view a) ->
  u32 fh ∈ L -> is_dir fs (c_view a) (u32 fh) = false ->
  0 <= size -> u64 offset + size < 2 ^ 64 ->
  triple rep a (logfs_op_read fs fh size offset)
    (fun r a' => a' = a /\
       (r = Ok (take (Z.to_nat size)
                  (drop (Z.to_nat (u64 offset)) (file_data fs (c_view a) (u32 fh)))) \/
        io_error a r)).
Proof.
  intros Hfs Hb Hs Hin Hd Hsize Hmax. apply triple_whole. intros Hlen. unfold logfs_op_read.
  destruct (st_table _ _ _ Hs _ Hin) as [Ht _].
  eapply triple_outcome; [by apply inode_read_spec| |].
  { intros rc Hc Hrc. split; [done|]. right. split; [done|by exists rc]. }
  pose proof (u64_range offset) as Hoff. pose proof (wi_64 _ (wf_inode_at fs (c_view a) (u32 fh))) as H64.
  apply Forall_cons in H64 as [Hsz _].
  unfold file_data. set (i := inode_at fs (c_view a) (u32 fh)) in *. cbv zeta.
  rewrite bytes_at_slice, Z.add_0_l.
  destruct (Z.leb_spec (i_size i) (u64 offset)) as [Hpast|Hpast].
  { apply triple_ret. split; [done|]. left. by replace (Nat.min _ _) with 0%nat by lia. }
  rewrite (u64_small (u64 offset + size)) by lia. set (n := if _ <? _ then _ else size).
  assert (Hn : 0 <= n /\ Nat.min (Z.to_nat size) (Z.to_nat (i_size i) - Z.to_nat (u64 offset)) = Z.to_nat n).
  { unfold n. destruct (Z.ltb_spec (i_size i) (u64 offset + size)); lia. }
  destruct Hn as [Hn ->]. rewrite Z2Nat.id by lia.
  apply read_loop_spec; [|done|lia|by apply copy_fuel_enough].
  intros b Hbb Hne. eapply data_client; [done|done|].
  apply (st_used _ _ _ Hs (u32 fh) b); [done|]. by apply elem_ino_blocks.
Qed.
End read.
