(* ===== verification/FsWrite.v ===== *)
(** [logfs_op_write]: the file's bytes in the written range are the buffer,
    the other inodes keep theirs - also when the call fails half-way. *)

From S2P Require Import Prelude.
From S2P Require Import Bytes.
From S2P Require Import DiskFormat.
From S2P Require Import Blockdev.
From S2P Require Import TxnApi.
From S2P Require Import FsFormat.
From S2P Require Import Inode.
From S2P Require Import InodeBits.
From S2P Require Import InodeSpec.
From S2P Require Import InodeDir.
From S2P Require Import InodeDirSpec.
From S2P Require Import InodeDirAdd.
From S2P Require Import FsOps.
From S2P Require Import FsTree.
From S2P Require Import FsImage.
From S2P Require Import FsStep.
From S2P Require Import FsPath.
From S2P Require Import FsChange.
From S2P Require Import FsCalls.
From S2P Require Import FsFile.

(** ** The contents of a list of blocks *)

(** The range of a transfer. *)
Definition in_range (pos : Z) (n : nat) (x : Z) : Prop := pos <= x < pos + Z.of_nat n.

Definition block_index (x : Z) : nat := Z.to_nat (x / LOGFS_BLOCK_SIZE).

(** [buf] written at [pos]: bytes outside the range are as they were, except
    in a block that was a hole and now is not - what such a block holds
    beside the written bytes is what the disk held. *)
Record written (v v' : Z -> block) (blocks blocks' : list Z) (pos : Z) (buf : list byte) : Prop := {
  wr_old j : nth j blocks 0 <> 0 -> nth j blocks' 0 = nth j blocks 0;
  wr_hole j : nth j blocks 0 = 0 -> (forall x, in_range pos (length buf) x -> block_index x <> j) ->
              nth j blocks' 0 = 0;
  wr_in x : in_range pos (length buf) x ->
            nth (block_index x) blocks' 0 <> 0 /\
            file_byte v' blocks' x = nth (Z.to_nat (x - pos)) buf Byte.x00;
  wr_out x : 0 <= x -> ~ in_range pos (length buf) x ->
             nth (block_index x) blocks 0 <> 0 \/ nth (block_index x) blocks' 0 = 0 ->
             file_byte v' blocks' x = file_byte v blocks x;
}.

Lemma written_nil v blocks pos : written v v blocks blocks pos [].
Proof. split; [done|done| |done]. unfold in_range. cbn [length]. lia. Qed.

Lemma written_view v v1 v2 blocks blocks' pos buf :
  (forall b, b ∈ blocks' -> b <> 0 -> v2 b = v1 b) ->
  written v v1 blocks blocks' pos buf -> written v v2 blocks blocks' pos buf.
Proof.
  intros Hv [O H I X].
  assert (E : forall x, file_byte v2 blocks' x = file_byte v1 blocks' x).
  { intros x. unfold file_byte. destruct (Z.eqb_spec (nth (Z.to_nat (x / LOGFS_BLOCK_SIZE)) blocks' 0) 0)
      as [|Hne]; [done|]. rewrite Hv; [done| |done].
    destruct (nth_in_or_default (Z.to_nat (x / LOGFS_BLOCK_SIZE)) blocks' 0); [by apply list_elem_of_In|done]. }
  split; [done|done| |]; intros x; rewrite E; auto.
Qed.

Lemma nth_drop {A} (l : list A) k n d : nth k (drop n l) d = nth (n + k) l d.
Proof. by rewrite !nth_lookup, lookup_drop. Qed.

Lemma nth_take {A} (l : list A) k n d : (k < n)%nat -> nth k (take n l) d = nth k l d.
Proof. intros. by rewrite !nth_lookup, lookup_take_lt. Qed.

(** A transfer in two parts. *)
Lemma written_app v1 v2 v3 b1 b2 b3 pos n buf :
  0 <= pos -> (n <= length buf)%nat ->
  written v1 v2 b1 b2 pos (take n buf) ->
  written v2 v3 b2 b3 (pos + Z.of_nat n) (drop n buf) ->
  written v1 v3 b1 b3 pos buf.
Proof.
  intros Hpos Hn [O1 H1 I1 X1] [O2 H2 I2 X2]. rewrite length_take, Nat.min_l in * by done.
  rewrite length_drop in *.
  assert (Hr1 : forall x, in_range pos n x -> in_range pos (length buf) x) by (unfold in_range; lia).
  assert (Hr2 : forall x, in_range (pos + Z.of_nat n) (length buf - n) x -> in_range pos (length buf) x)
    by (unfold in_range; lia).
  assert (O12 : forall j, nth j b1 0 <> 0 -> nth j b2 0 <> 0) by (intros j Hj; by rewrite O1).
  split.
  - intros j Hj. rewrite O2 by auto. auto.
  - intros j Hj Hx. apply H2; [apply H1|]; auto.
  - intros x Hx. destruct (decide (x < pos + Z.of_nat n)) as [Hlt|Hlt].
    + destruct (I1 x) as [Hm Hb]; [unfold in_range in *; lia|]. split; [by rewrite O2|].
      rewrite X2 by (unfold in_range in *; (by left) || lia). rewrite Hb.
      apply nth_take. unfold in_range in *. lia.
    + destruct (I2 x) as [Hm Hb]; [unfold in_range in *; lia|]. split; [done|].
      rewrite Hb, nth_drop. f_equal. unfold in_range in *. lia.
  - intros x Hx0 Hx Hcase. rewrite X2, X1; [done| | | | | | ]; try done; try (intros H'; apply Hx; auto).
    + destruct Hcase as [Hm|Hh]; [by left|]. destruct (decide (nth (block_index x) b2 0 = 0)); [by right|].
      rewrite O2 in Hh by done. done.
    + destruct Hcase as [Hm|Hh]; [left; auto|by right].
Qed.

(** The written bytes read back. *)
Lemma written_slice v v' blocks blocks' pos buf :
  written v v' blocks blocks' pos buf -> bytes_at v' blocks' pos (length buf) = buf.
Proof.
  intros W. apply list_eq_same_length with (n := length buf); [done|by rewrite length_bytes_at|].
  intros k c' c Hk Hc' Hc. rewrite lookup_bytes_at in Hc' by done. injection Hc' as <-.
  rewrite (proj2 (wr_in _ _ _ _ _ _ W (pos + Z.of_nat k) ltac:(unfold in_range; lia))).
  replace (Z.to_nat (pos + Z.of_nat k - pos)) with k by lia. rewrite nth_lookup, Hc. done.
Qed.

(** A file without holes. *)
Definition dense (blocks : list Z) (size : Z) : Prop :=
  forall x, 0 <= x < size -> nth (block_index x) blocks 0 <> 0.

(** Written into or after such a file, the buffer replaces what was there and
    the rest stays. *)
Lemma written_dense v v' blocks blocks' size pos buf :
  let n := Z.of_nat (length buf) in
  let old := bytes_at v blocks 0 (Z.to_nat size) in
  0 <= pos <= size -> dense blocks size -> written v v' blocks blocks' pos buf ->
  dense blocks' (Z.max size (pos + n)) /\
  bytes_at v' blocks' 0 (Z.to_nat (Z.max size (pos + n)))
  = take (Z.to_nat pos) old ++ buf ++ drop (Z.to_nat (pos + n)) old.
Proof.
  intros n old Hpos Hd W. split.
  { intros x Hx. destruct (decide (x < size)) as [Hlt|Hge].
    - rewrite (wr_old _ _ _ _ _ _ W); apply Hd; lia.
    - apply (wr_in _ _ _ _ _ _ W). unfold in_range. lia. }
  assert (Hout : forall p k, 0 <= p -> p + Z.of_nat k <= size ->
    p + Z.of_nat k <= pos \/ pos + n <= p -> bytes_at v' blocks' p k = bytes_at v blocks p k).
  { intros p k Hp Hk Hcase. apply bytes_at_ext. intros x Hx.
    apply (wr_out _ _ _ _ _ _ W); [lia|unfold in_range; lia|]. left. apply Hd. lia. }
  replace (Z.to_nat (Z.max size (pos + n)))
    with (Z.to_nat pos + (length buf + (Z.to_nat size - Z.to_nat (pos + n))))%nat by lia.
  rewrite !bytes_at_app. unfold old. rewrite bytes_at_take, bytes_at_drop, Nat.min_l by lia.
  rewrite !Z.add_0_l, !Z2Nat.id by lia. rewrite (written_slice _ _ _ _ _ _ W).
  rewrite (Hout 0) by lia. f_equal. f_equal. destruct (decide (pos + n <= size)).
  - rewrite Hout by lia. done.
  - by replace (Z.to_nat size - Z.to_nat (pos + n))%nat with 0%nat by lia.
Qed.

(** ** One block *)

Lemma length_splice_block file k d :
  length file = block_len -> (k + length d <= block_len)%nat -> length (splice file k d) = block_len.
Proof. intros Hf Hd. unfold splice. rewrite !length_app, length_take, length_drop. lia. Qed.

Lemma nth_splice file k d x :
  length file = block_len -> (k + length d <= block_len)%nat ->
  nth x (splice file k d) Byte.x00
  = if decide (k <= x < k + length d)%nat then nth (x - k) d Byte.x00 else nth x file Byte.x00.
Proof.
  intros Hf Hd. unfold splice. assert (Hk : length (take k file) = k) by (rewrite length_take; lia).
  destruct (decide _) as [Hx|Hx].
  - rewrite app_nth2, Hk by lia. by rewrite app_nth1 by lia.
  - destruct (decide (x < k)%nat).
    + rewrite app_nth1 by lia. by apply nth_take.
    + rewrite app_nth2, app_nth2, Hk by lia. rewrite nth_drop. f_equal. lia.
Qed.

Lemma block_index_in pos n x :
  0 <= pos -> pos mod LOGFS_BLOCK_SIZE + Z.of_nat n <= LOGFS_BLOCK_SIZE -> in_range pos n x ->
  block_index x = block_index pos /\
  Z.to_nat (x mod LOGFS_BLOCK_SIZE) = (Z.to_nat (pos mod LOGFS_BLOCK_SIZE) + Z.to_nat (x - pos))%nat.
Proof.
  unfold in_range, block_index, LOGFS_BLOCK_SIZE. intros Hpos Hn Hx.
  pose proof (Z.mod_pos_bound pos 4096 ltac:(lia)). pose proof (Z.div_mod pos 4096 ltac:(lia)).
  assert (E : x = (pos mod 4096 + (x - pos)) + (pos / 4096) * 4096) by lia.
  rewrite E. rewrite Z.div_add, Z.mod_add by lia.
  rewrite (Z.div_small (pos mod 4096 + (x - pos))) by lia.
  rewrite (Z.mod_small (pos mod 4096 + (x - pos))) by lia. split; [lia|].
  rewrite <-E. lia.
Qed.

(** Converse: a byte of the same block with an offset in the range. *)
Lemma block_index_out pos n x :
  0 <= pos -> 0 <= x -> block_index x = block_index pos ->
  (Z.to_nat (pos mod LOGFS_BLOCK_SIZE) <= Z.to_nat (x mod LOGFS_BLOCK_SIZE)
   < Z.to_nat (pos mod LOGFS_BLOCK_SIZE) + n)%nat -> in_range pos n x.
Proof.
  unfold in_range, block_index, LOGFS_BLOCK_SIZE. intros Hpos Hx Hb Hk.
  pose proof (Z.mod_pos_bound pos 4096 ltac:(lia)). pose proof (Z.div_mod pos 4096 ltac:(lia)).
  pose proof (Z.mod_pos_bound x 4096 ltac:(lia)). pose proof (Z.div_mod x 4096 ltac:(lia)).
  pose proof (Z.div_pos x 4096). pose proof (Z.div_pos pos 4096). lia.
Qed.

(** The block at [pos] gets [d], in the block it was or in a new one. *)
Lemma written_block v v' blocks nb pos d old :
  let j := block_index pos in
  let k := Z.to_nat (pos mod LOGFS_BLOCK_SIZE) in
  let blockno := nth j blocks 0 in
  let blocks' := if blockno =? 0 then <[j := nb]> blocks else blocks in
  0 <= pos -> (j < length blocks)%nat -> (0 < length d)%nat -> (k + length d <= block_len)%nat ->
  nth j blocks' 0 = nb -> nb <> 0 -> length old = block_len ->
  ((k = 0 /\ length d = block_len)%nat \/ old = v nb) ->
  v' nb = splice old k d ->
  (forall i, i <> j -> nth i blocks 0 <> 0 -> v' (nth i blocks 0) = v (nth i blocks 0)) ->
  written v v' blocks blocks' pos d.
Proof.
  intros j k blockno blocks' Hpos Hj Hd Hkd Hnb Hnb0 Hold Hcase Hv Hother.
  assert (Hoth : forall i, i <> j -> nth i blocks' 0 = nth i blocks 0).
  { intros i Hi. unfold blocks'. destruct (blockno =? 0); [|done].
    by rewrite nth_insert, decide_False by (done || congruence). }
  assert (Hmap : blockno <> 0 -> blocks' = blocks) by (intros Hb; unfold blocks'; by rewrite (proj2 (Z.eqb_neq _ _) Hb)).
  assert (HBS : LOGFS_BLOCK_SIZE = Z.of_nat block_len) by (by rewrite block_len_Z).
  pose proof (Z.mod_pos_bound pos LOGFS_BLOCK_SIZE ltac:(done)) as Hmod.
  split.
  - intros i Hi. destruct (decide (i = j)) as [->|Hne]; [by rewrite Hmap|by apply Hoth].
  - intros i Hi Hx. destruct (decide (i = j)) as [->|Hne]; [|by rewrite Hoth].
    exfalso. apply (Hx pos); [|done]. unfold in_range. lia.
  - intros x Hx. destruct (block_index_in pos (length d) x Hpos ltac:(lia) Hx) as [Hbi Hmi].
    fold j in Hbi. fold k in Hmi. rewrite Hbi. split; [congruence|].
    unfold file_byte. fold (block_index x). rewrite Hbi, Hnb, (proj2 (Z.eqb_neq _ _) Hnb0), Hv, Hmi.
    rewrite nth_splice by done. unfold in_range in Hx. rewrite decide_True by lia. f_equal. lia.
  - intros x Hx0 Hx Hm. unfold file_byte. fold (block_index x).
    destruct (decide (block_index x = j)) as [E|Hne].
    + rewrite E in *. fold blockno in Hm |- *.
      assert (Hb : blockno <> 0) by (intros Hb; destruct Hm as [Hm|Hm]; congruence).
      pose proof (Hmap Hb) as Heq. rewrite Heq in Hnb. fold blockno in Hnb. rewrite Heq. fold blockno.
      rewrite Hnb, (proj2 (Z.eqb_neq _ _) Hnb0), Hv, nth_splice by done.
      assert (Hout : ~ (k <= Z.to_nat (x mod LOGFS_BLOCK_SIZE) < k + length d)%nat).
      { intros Hk. by apply Hx, block_index_out. }
      rewrite decide_False by done. destruct Hcase as [[Hk0 Hl]| ->]; [|done].
      exfalso. apply Hout. pose proof (Z.mod_pos_bound x LOGFS_BLOCK_SIZE ltac:(done)). lia.
    + rewrite Hoth by done. destruct (Z.eqb_spec (nth (block_index x) blocks 0) 0) as [|Hb]; [done|].
      by rewrite Hother.
Qed.

(** ** The state during a transfer *)

Section transfer.
Context {S : Type} `{TxnLaws S} (fs : logfs_super) (Hfs : wf_fs fs) (L : gset Z).
Implicit Types (a : contents) (blocks : list Z).

(** A data write to a block of no inode of [L] is visible at once
    ([FsOpsProps.modes_with_visible_writes]).  In journal mode every block is
    so; in ordered mode the blocks no commit and no checkpoint still holds a
    copy of; in writeback mode, where the write waits in a queue, none. *)
Definition writes_visible a : Prop := forall b, in_data fs b -> ~ owned fs L (c_view a) b -> c_data a b.

(** Blocks are taken from the free ones and data blocks written that no
    inode of [L] has. *)
Record data_step a a' : Prop := {
  ds_env : same_env a a';
  ds_meta b : ~ in_data fs b -> b <> sb_block_bitmap_start fs -> c_view a' b = c_view a b;
  ds_used b : in_data fs b -> block_used fs (c_view a) b = true -> block_used fs (c_view a') b = true;
  ds_data b : owned fs L (c_view a) b -> c_view a' b = c_view a b;
}.

Lemma data_step_refl a : data_step a a.
Proof. by split. Qed.

Lemma data_step_inode a a' i :
  data_step a a' -> in_table fs i -> inode_at fs (c_view a') i = inode_at fs (c_view a) i.
Proof.
  intros D Hi. apply inode_at_ext; [done..|]. intros b Hb. destruct Hfs.
  apply (ds_meta _ _ D); unfold in_data; lia.
Qed.

Lemma data_step_keeps a a' :
  wf_store fs L (c_view a) -> data_step a a' -> keeps fs L (c_view a) (c_view a').
Proof.
  intros Hs D. pose proof Hfs as []. apply keeps_blocks_ext; [done|done|..].
  - intros b Hb. apply (ds_meta _ _ D); unfold in_data; lia.
  - intros i _. unfold inode_used. rewrite (ds_meta _ _ D); [done|unfold in_data; lia..].
  - intros b Hb. destruct (owned_used fs L _ b Hs Hb). by apply (ds_used _ _ D).
  - apply (ds_data _ _ D).
Qed.

Lemma data_step_trans a1 a2 a3 :
  wf_store fs L (c_view a1) -> data_step a1 a2 -> data_step a2 a3 -> data_step a1 a3.
Proof.
  intros Hs D1 D2. pose proof (data_step_keeps _ _ Hs D1) as K.
  destruct D1 as [E1 M1 U1 V1], D2 as [E2 M2 U2 V2]. split.
  - by etrans.
  - intros b Hb Hne. by rewrite M2, M1.
  - auto.
  - intros b Hb. rewrite V2; [by apply V1|]. destruct Hb as (i & Hi & Hb). exists i. split; [done|].
    by rewrite (keeps_blocks fs L (c_view a1)).
Qed.

(** The blocks in the inode's copy on the stack. *)
Record mine a blocks : Prop := {
  mi_len : length blocks = 12%nat;
  mi_data b : b ∈ blocks -> b <> 0 ->
              in_data fs b /\ block_used fs (c_view a) b = true /\ ~ owned fs L (c_view a) b;
  mi_nodup : NoDup (filter (fun b => b <> 0) blocks);
}.

Lemma mine_step a a' blocks :
  wf_store fs L (c_view a) -> mine a blocks -> data_step a a' -> mine a' blocks.
Proof.
  intros Hs [Hl Hd Hn] D. split; [done| |done]. intros b Hb Hne. destruct (Hd b Hb Hne) as (Hin & Hu & Hno).
  split; [done|]. split; [by apply (ds_used _ _ D)|].
  intros Ho. apply Hno. eapply owned_keeps; [by apply data_step_keeps|done].
Qed.

Lemma mine_nth a blocks j :
  mine a blocks -> nth j blocks 0 <> 0 -> nth j blocks 0 ∈ blocks /\ (j < 12)%nat.
Proof.
  intros [Hl _ _] Hj. destruct (decide (j < 12)%nat) as [Hlt|Hlt].
  - split; [|done]. apply list_elem_of_In, nth_In. lia.
  - by rewrite nth_overflow in Hj by lia.
Qed.

(** No block is twice in the inode. *)
Lemma nonzero_inj (l : list Z) i j b :
  NoDup (filter (fun b => b <> 0) l) -> b <> 0 -> l !! i = Some b -> l !! j = Some b -> i = j.
Proof.
  revert i j. induction l as [|c l IH]; intros i j Hnd Hb Hi Hj; [done|].
  assert (Hin : forall k, l !! k = Some b -> b ∈ filter (fun b => b <> 0) l).
  { intros k Hk. apply list_elem_of_filter. split; [done|by eapply list_elem_of_lookup_2]. }
  assert (Hnd' : NoDup (filter (fun b => b <> 0) l) /\ (c = b -> b ∉ filter (fun b => b <> 0) l)).
  { rewrite filter_cons in Hnd. case_decide as Hc; [|split; [done|intros ->; congruence]].
    apply NoDup_cons in Hnd as [Hn Hnd]. split; [done|by intros <-]. }
  destruct Hnd' as [Hnd' Hc]. destruct i as [|i], j as [|j]; [done|..].
  - injection Hi as ->. by destruct (Hc eq_refl (Hin j Hj)).
  - injection Hj as ->. by destruct (Hc eq_refl (Hin i Hi)).
  - f_equal. by apply IH.
Qed.

Lemma mine_inj a blocks i j :
  mine a blocks -> nth i blocks 0 <> 0 -> nth i blocks 0 = nth j blocks 0 -> i = j.
Proof.
  intros Hm Hi Hij. assert (Hj : nth j blocks 0 <> 0) by congruence.
  destruct (mine_nth a blocks i Hm Hi) as [_ Hi12], (mine_nth a blocks j Hm Hj) as [_ Hj12].
  destruct Hm as [Hl _ Hnd]. apply (nonzero_inj blocks i j (nth i blocks 0) Hnd Hi).
  - destruct (nth_lookup_or_length blocks i 0); [done|lia].
  - rewrite Hij. destruct (nth_lookup_or_length blocks j 0); [done|lia].
Qed.

Lemma elem_insert (l : list Z) j x b : b ∈ <[j := x]> l -> b = x \/ b ∈ l.
Proof.
  intros [i Hi]%list_elem_of_lookup_1. apply list_lookup_insert_Some in Hi as [(_ & <- & _)|[_ Hi]];
    [by left|right]. by eapply list_elem_of_lookup_2.
Qed.

Lemma elem_take (l : list Z) n b : b ∈ take n l -> b ∈ l.
Proof. intros Hb. rewrite <-(take_drop n l). apply elem_of_app. by left. Qed.

Lemma elem_drop (l : list Z) n b : b ∈ drop n l -> b ∈ l.
Proof. intros Hb. rewrite <-(take_drop n l). apply elem_of_app. by right. Qed.

(** The transfer may use the blocks it has and the free ones. *)
Record transferable a blocks : Prop := {
  tr_client : fs_blocks fs a;
  tr_store : wf_store fs L (c_view a);
  tr_mine : mine a blocks;
  tr_plain : writes_visible a;
}.

(** Where the block pointers come from. *)
Definition fresh_from a blocks blocks' : Prop :=
  forall b, b ∈ blocks' -> b <> 0 -> b ∈ blocks \/ block_used fs (c_view a) b = false.

Lemma ready_step a a' blocks :
  transferable a blocks -> data_step a a' ->
  (forall b, in_data fs b -> c_data a b -> c_data a' b) -> transferable a' blocks.
Proof.
  intros [Hb Hs Hm Hp] D Hd. pose proof (data_step_keeps _ _ Hs D) as K. split.
  - eapply fs_blocks_env; [apply D|done].
  - by eapply store_keeps.
  - by eapply mine_step.
  - intros b Hin Hno. apply Hd; [done|]. apply Hp; [done|]. intros (i & Hi & Hbi). apply Hno.
    exists i. split; [done|]. by rewrite (keeps_blocks fs L (c_view a)).
Qed.

Lemma mine_add a blocks j nb :
  mine a blocks -> nth j blocks 0 = 0 -> in_data fs nb -> block_used fs (c_view a) nb = true ->
  ~ owned fs L (c_view a) nb -> nb ∉ blocks -> mine a (<[j := nb]> blocks).
Proof.
  intros [Hl Hd Hn] Hj Hin Hu Hno Hnew. split; [by rewrite length_insert| |].
  - intros b [->|Hb]%elem_insert Hne; [done|by apply Hd].
  - destruct (decide (j < length blocks)%nat) as [Hlt|Hge]; [|by rewrite list_insert_ge by lia].
    rewrite insert_take_drop, filter_app, filter_cons by done.
    assert (Hsub : NoDup (filter (fun b => b <> 0) (take j blocks) ++ filter (fun b => b <> 0) (drop (Datatypes.S j) blocks))).
    { destruct (lookup_lt_is_Some_2 blocks j Hlt) as [c Hc].
      rewrite <-(take_drop_middle blocks j c Hc), filter_app, filter_cons in Hn.
      eapply sublist_NoDup; [exact Hn|]. apply sublist_app; [done|]. case_decide; [by apply sublist_cons|done]. }
    case_decide; [|done]. rewrite <-Permutation_middle. apply NoDup_cons. split; [|done].
    rewrite <-filter_app. intros [_ [Hin'|Hin']%elem_of_app]%list_elem_of_filter; apply Hnew.
    + by eapply elem_take.
    + by eapply elem_drop.
Qed.

(** The allocation at the head of a turn. *)
Lemma write_alloc_step a blocks j :
  transferable a blocks -> (j < 12)%nat ->
  triple rep a
    (if nth j blocks 0 =? 0
     then nb ← logfs_alloc_block (c_gen a) fs; mret (<[j := nb]> blocks)
     else mret blocks)
    (fun r a1 => data_step a a1 /\
       (forall b, b <> sb_block_bitmap_start fs -> c_view a1 b = c_view a b) /\
       match r with
       | Ok blocks1 =>
           blocks1 = (if nth j blocks 0 =? 0 then <[j := nth j blocks1 0]> blocks else blocks) /\
           nth j blocks1 0 <> 0 /\ transferable a1 blocks1 /\ fresh_from a blocks blocks1
       | Err rc => no_room a rc
       end).
Proof.
  intros Hrd Hj. pose proof Hrd as [Hb Hs Hm Hp]. pose proof (mi_len _ _ Hm) as Hl.
  destruct (Z.eqb_spec (nth j blocks 0) 0) as [Hz|Hz].
  2: { apply triple_ret. split; [apply data_step_refl|]. split; [done|]. split; [done|]. split; [done|].
       split; [done|]. intros b Hbb _. by left. }
  apply triple_whole. intros Hlen.
  apply triple_bind. eapply triple_wand; [by apply (alloc_block_step fs Hfs L)|].
  intros r a1 ([He K] & Hv & Hr1).
  assert (Hmeta : forall b, ~ in_data fs b -> b <> sb_block_bitmap_start fs -> c_view a1 b = c_view a b) by auto.
  assert (Hown : forall b, owned fs L (c_view a) b -> c_view a1 b = c_view a b).
  { intros b (i & Hi & Hbi). by apply (kp_data _ _ _ _ K i). }
  destruct r as [nb|rc].
  2: { destruct Hr1 as [Hrc Ha1]. split; [|done]. split; [done|done| |done].
       intros b _. by destruct Ha1 as [->| ->]. }
  destruct Hr1 as (Hin & Hfree & Ha1 & Hbits). pose proof Hfs as [].
  assert (Hnb0 : nb <> 0) by (destruct Hin; lia).
  assert (D : data_step a a1).
  { split; [done|done| |done]. intros b Hbd Hbu. rewrite Hbits, Hbu by done. apply orb_true_r. }
  assert (Hnew : nb ∉ blocks).
  { intros Hnb. destruct (mi_data _ _ Hm nb Hnb Hnb0) as (_ & Hu & _). congruence. }
  assert (Hr : transferable a1 blocks).
  { apply (ready_step a); [done|done|]. intros b [Hbd1 Hbd2] Hd. rewrite Ha1.
    cbn [take_bit put touch c_data]. split; [done|]. lia. }
  apply triple_ret. split; [done|]. split; [done|].
  rewrite nth_insert, decide_True by (done || lia). split; [done|]. split; [done|].
  pose proof Hr as [Hb1 Hs1 Hm1 Hp1]. split; [split; [done|done| |done]|].
  - apply mine_add; [done|done|done| | |done].
    + rewrite Hbits by done. by rewrite bool_decide_true.
    + intros Ho%(owned_keeps fs L _ _ _ (data_step_keeps _ _ Hs D)).
      by apply (used_not_owned fs L _ _ Hs Hfree).
  - intros b [->|Hbb]%elem_insert _; [by right|by left].
Qed.

(** The data write of a turn. *)
Lemma data_step_put a a' b c :
  wf_store fs L (c_view a) -> in_data fs b -> ~ owned fs L (c_view a) b -> same_env a a' ->
  (forall b', c_view a' b' = if decide (b = b') then c else c_view a b') -> data_step a a'.
Proof.
  intros Hs [Hb1 Hb2] Hno He Hv. pose proof Hfs as []. split; [done|..].
  - intros b' Hb' _. rewrite Hv, decide_False; [done|]. intros ->. by apply Hb'.
  - intros b' _. unfold block_used. rewrite Hv. by rewrite decide_False by lia.
  - intros b' Ho. rewrite Hv, decide_False; [done|]. by intros ->.
Qed.

Lemma wrote_env b c a : same_env a (wrote b c a).
Proof. unfold wrote. destruct (c_logs a); [apply env_bit|apply same_env_put]. Qed.

Lemma wrote_view b c a b' :
  c_view (wrote b c a) b' = if decide (b = b') then c else c_view a b'.
Proof. unfold wrote. by destruct (c_logs a). Qed.

Lemma wrote_data b c a b' : c_data a b' -> c_data (wrote b c a) b'.
Proof. intros Hd. unfold wrote. destruct (c_logs a) eqn:E; [|done]. cbn [put touch c_data]. by rewrite E. Qed.

Lemma write_block_step {B} a blocks nb k n d (f : unit -> M S B) (Q : result B -> contents -> Prop) :
  transferable a blocks -> nb ∈ blocks -> nb <> 0 -> length d = n -> (k + n <= block_len)%nat ->
  (forall rc a', data_step a a' -> c_calm a = false -> rc < 0 -> Q (Err rc) a') ->
  (forall old a', data_step a a' -> transferable a' blocks -> length old = block_len ->
     ((k = 0 /\ n = block_len)%nat \/ old = c_view a nb) -> c_view a' nb = splice old k d ->
     (forall b, b <> nb -> c_view a' b = c_view a b) -> triple rep a' (f tt) Q) ->
  triple rep a
    (block ← (if negb (k =? 0)%nat || negb (n =? block_len)%nat
              then txn_read_block nb else mret zero_block);
     txn_write_data (c_gen a) nb (splice block k d) ≫= f) Q.
Proof.
  intros Hrd Hin Hnb0 Hd Hkd Herr Hok. pose proof Hrd as [Hb Hs Hm Hp].
  destruct (mi_data _ _ Hm nb Hin Hnb0) as (Hdata & Hu & Hno).
  assert (Hc : c_block a nb) by (by eapply data_client).
  apply triple_whole. intros Hlen.
  assert (Hwrite : forall old, length old = block_len ->
    ((k = 0 /\ n = block_len)%nat \/ old = c_view a nb) ->
    triple rep a (txn_write_data (c_gen a) nb (splice old k d) ≫= f) Q).
  { intros old Hold Hcase. apply triple_write; [done|by apply Hp|done| | |].
    - apply length_splice_block; [done|lia].
    - intros rc c' Hcalm Hrc Hc'. apply Herr; [|done|done].
      by apply (data_step_put a _ nb c' Hs Hdata Hno (same_env_put _ _ _)).
    - assert (D : data_step a (wrote nb (splice old k d) a)).
      { apply (data_step_put a _ nb (splice old k d) Hs Hdata Hno (wrote_env _ _ _)). apply wrote_view. }
      apply (Hok old); [done| |done|done| |].
      + apply (ready_step a); [done|done|]. intros b _. apply wrote_data.
      + rewrite wrote_view. by rewrite decide_True.
      + intros b Hne. rewrite wrote_view. by rewrite decide_False by congruence. }
  apply triple_bind. destruct (negb _ || negb _) eqn:Hpart.
  - eapply triple_wand; [by apply law_read|]. intros r a' (-> & [->|(Hcalm & rc & Hrc & ->)]).
    + apply Hwrite; [apply Hlen|by right].
    + apply Herr; [apply data_step_refl|done|done].
  - apply triple_ret. apply Hwrite; [apply length_zero_block|left].
    apply orb_false_iff in Hpart as [H1 H2]. apply negb_false_iff in H1, H2.
    by apply Nat.eqb_eq in H1, H2.
Qed.

(** ** The loop of [logfs_op_write] *)

Definition write_done a blocks pos buf (r : result (list Z)) a' : Prop :=
  data_step a a' /\
  match r with
  | Ok blocks' => transferable a' blocks' /\ fresh_from a blocks blocks' /\
                  written (c_view a) (c_view a') blocks blocks' pos buf
  | Err rc => no_room a rc
  end.

Lemma fresh_from_trans a a1 b1 b2 b3 :
  fresh_from a b1 b2 -> (forall b, b ∈ b2 -> b <> 0 -> in_data fs b) -> data_step a a1 ->
  (forall b, b ∈ b3 -> b <> 0 -> in_data fs b) ->
  fresh_from a1 b2 b3 -> fresh_from a b1 b3.
Proof.
  intros F1 Hd2 D Hd3 F2 b Hb Hne. destruct (F2 b Hb Hne) as [Hb2|Hfree]; [by apply F1|right].
  destruct (block_used fs (c_view a) b) eqn:E; [|done].
  rewrite (ds_used _ _ D) in Hfree by (done || by apply Hd3). done.
Qed.

(** What one turn has written. *)
Lemma turn_written a a1 a2 blocks blocks1 pos d old :
  let j := block_index pos in
  let k := Z.to_nat (pos mod LOGFS_BLOCK_SIZE) in
  let nb := nth j blocks1 0 in
  transferable a blocks -> transferable a1 blocks1 -> 0 <= pos -> (j < 12)%nat ->
  blocks1 = (if nth j blocks 0 =? 0 then <[j := nb]> blocks else blocks) -> nb <> 0 ->
  (0 < length d)%nat -> (k + length d <= block_len)%nat -> length old = block_len ->
  ((k = 0 /\ length d = block_len)%nat \/ old = c_view a nb) ->
  c_view a2 nb = splice old k d ->
  (forall b, b <> nb -> c_view a2 b = c_view a1 b) ->
  (forall b, b <> sb_block_bitmap_start fs -> c_view a1 b = c_view a b) ->
  written (c_view a) (c_view a2) blocks blocks1 pos d.
Proof.
  intros j k nb Hrd Hrd1 Hpos Hj Hb1 Hnb0 Hd Hkd Hold Hpart Hvnb Hv2 Hv1.
  pose proof (mi_len _ _ (tr_mine _ _ Hrd)) as Hl12. pose proof (tr_mine _ _ Hrd1) as Hm1.
  rewrite Hb1. apply (written_block _ _ blocks nb pos d old); try done.
  - fold j. lia.
  - fold j. by rewrite <-Hb1.
  - intros i Hi Hne.
    assert (E : nth i blocks1 0 = nth i blocks 0).
    { rewrite Hb1. destruct (_ =? 0); [|done]. by rewrite nth_insert, decide_False by (lia || congruence). }
    rewrite <-E in Hne. assert (Hnb : nth i blocks1 0 <> nb).
    { intros Heq. by apply Hi, (mine_inj a1 blocks1). }
    rewrite <-E, Hv2 by done. apply Hv1. destruct (mine_nth a1 blocks1 i Hm1 Hne) as [Hin _].
    destruct (mi_data _ _ Hm1 _ Hin Hne) as ([? ?] & _). destruct Hfs. lia.
Qed.

Lemma write_loop_spec fuel a blocks pos buf :
  transferable a blocks -> 0 <= pos -> pos + Z.of_nat (length buf) <= max_file_size ->
  enough_fuel fuel pos (Z.of_nat (length buf)) ->
  triple rep a (write_loop fuel (c_gen a) fs blocks pos buf) (write_done a blocks pos buf).
Proof.
  revert a blocks pos buf. induction fuel as [|fuel IH]; intros a blocks pos buf Hrd Hpos Hmax Hf;
    [by destruct Hf; lia|]. cbn [write_loop].
  destruct (Z.leb_spec (Z.of_nat (length buf)) 0) as [Hl|Hl].
  { apply triple_ret. destruct buf; [|cbn [length] in Hl; lia].
    split; [apply data_step_refl|]. split; [done|]. split; [intros b Hb _; by left|apply written_nil]. }
  destruct (chunk_of_spec pos _ Hpos Hl) as (j & k & n & -> & Hj & Hk & Hn0 & Hnl & Hkn & Hcase).
  assert (HBS : LOGFS_BLOCK_SIZE = Z.of_nat block_len) by (by rewrite block_len_Z).
  pose proof (Z.mod_pos_bound pos LOGFS_BLOCK_SIZE ltac:(done)) as Hmod.
  assert (Hj12 : (j < 12)%nat).
  { rewrite Hj. unfold max_file_size, LOGFS_NDIR_BLOCKS in Hmax.
    assert (pos / LOGFS_BLOCK_SIZE < 12) by (apply Z.div_lt_upper_bound; lia). lia. }
  apply triple_bind. eapply triple_wand; [by apply write_alloc_step|].
  intros r a1 (D1 & Hv1 & Hr). destruct r as [blocks1|rc]; [|done].
  destruct Hr as (Hb1 & Hnb0 & Hrd1 & Hfresh1). set (nb := nth j blocks1 0) in *.
  pose proof (tr_mine _ _ Hrd1) as Hm1. destruct (mine_nth a1 blocks1 j Hm1 Hnb0) as [Hnbin _].
  assert (Hlt : length (take n buf) = n) by (rewrite length_take; lia).
  cbv beta zeta. rewrite <-(se_gen _ _ (ds_env _ _ D1)).
  apply (write_block_step a1 blocks1 nb k n (take n buf)); [done..| |].
  { intros rc a2 D2 Hc Hrc. split; [by eapply data_step_trans; [apply Hrd|..]|]. right.
    by rewrite <-(se_calm _ _ (ds_env _ _ D1)). }
  intros old a2 D2 Hrd2 Hold Hpart Hvnb Hv2.
  pose proof (data_step_trans a a1 a2 (tr_store _ _ Hrd) D1 D2) as D12.
  assert (Hview : c_view a1 nb = c_view a nb).
  { apply Hv1. destruct (mi_data _ _ Hm1 nb Hnbin Hnb0) as ([? ?] & _). destruct Hfs. lia. }
  assert (Hw1 : written (c_view a) (c_view a2) blocks blocks1 pos (take n buf)).
  { change (Z.to_nat (pos / LOGFS_BLOCK_SIZE)) with (block_index pos) in Hj.
    apply (turn_written a a1 a2 blocks blocks1 pos (take n buf) old); rewrite ?Hlt, <-?Hj, <-?Hk; try done.
    destruct Hpart as [|Hold']; [by left|right]. fold nb. congruence. }
  rewrite <-(se_gen _ _ (ds_env _ _ D2)).
  eapply triple_wand; [apply IH; [done|lia|rewrite length_drop; lia|]|].
  - rewrite length_drop, Nat2Z.inj_sub by lia. apply enough_fuel_next; [done|done|done|lia|lia|lia].
  - intros r a3 [D3 Hr3]. pose proof (data_step_trans a a2 a3 (tr_store _ _ Hrd) D12 D3) as D.
    split; [done|]. destruct r as [blocks3|rc].
    + destruct Hr3 as (Hrd3 & Hfresh3 & Hw3). split; [done|]. split.
      * apply (fresh_from_trans a a2 blocks blocks1); [done| |done| |done];
          intros b Hb Hne; [by apply (mi_data _ _ Hm1)|by apply (mi_data _ _ (tr_mine _ _ Hrd3))].
      * eapply (written_app _ (c_view a2)); [done| |exact Hw1|exact Hw3]. lia.
    + eapply no_room_env; [apply (ds_env _ _ D12)|done].
Qed.
End transfer.

(** ** A file's inode is written *)

Section file.
Context {S : Type} `{TxnLaws S} (fs : logfs_super) (Hfs : wf_fs fs).
Context (L : gset Z) (a : contents) (ino now : Z).
Let v := c_view a.
Let L' := L ∖ {[ino]}.
Let i := inode_at fs v ino.
Hypothesis Hi : wf_image fs L v.
Hypothesis Hino : ino ∈ L.
Hypothesis Hfile : is_dir fs v ino = false.
Hypothesis Hnow : 0 <= now < 2 ^ 64.

(** Whatever the outcome, the tree and the other files are as before. *)
Definition file_only a' : Prop :=
  same_env a a' /\ wf_image fs L (c_view a') /\
  (forall k, k ∈ L -> tree fs (c_view a') k = tree fs v k) /\
  (forall k, k ∈ L -> k <> ino -> same_file fs v (c_view a') k).

Let Hs : wf_store fs L v := im_store _ _ _ Hi.
Let Hin : in_table fs ino := proj1 (st_table _ _ _ Hs ino Hino).

Lemma file_rest_store : wf_store fs L' v.
Proof. eapply store_sub; [|exact Hs]. unfold L'. set_solver. Qed.

Section finish.
Context (a1 : contents) (blocks' : list Z) (size : Z).
Let inode := set_size_mtime size now (set_blocks blocks' i).
Let a2 := write_inode fs ino inode a1.
Hypothesis D : step fs L' a a1.
Hypothesis Hused : inode_used fs (c_view a1) ino = true.
Hypothesis Hm : mine fs L' a1 blocks'.
Hypothesis Hfresh : fresh_from fs a (i_blocks i) blocks'.
Hypothesis Hsize : 0 <= size <= max_file_size.
Hypothesis Hlen : forall b, length (c_view a1 b) = block_len.

Lemma finish_wf : wf_inode inode.
Proof.
  pose proof Hm as [Hl Hd _]. destruct (wf_inode_at fs v ino) as [H32 H64 _ _].
  fold i in H32, H64. split; cbn [inode set_size_mtime set_blocks i_mode i_nlink i_uid i_gid i_size i_atime i_mtime i_ctime i_blocks].
  - done.
  - rewrite !Forall_cons in *. unfold max_file_size, LOGFS_NDIR_BLOCKS, LOGFS_BLOCK_SIZE in Hsize.
    split; [lia|tauto].
  - apply Forall_forall. intros b Hbb. destruct (decide (b = 0)) as [->|Hne]; [lia|].
    destruct (Hd b Hbb Hne) as ([? ?] & _). destruct Hfs. lia.
  - done.
Qed.

Lemma finish_inode : inode_at fs (c_view a2) ino = inode.
Proof. unfold a2. rewrite inode_at_write by (done || apply finish_wf). by rewrite decide_True. Qed.

Lemma finish_step : step fs L' a1 a2.
Proof.
  apply step_write_inode; [done| |done|done|apply finish_wf|].
  { eapply step_store; [exact D|apply file_rest_store]. }
  intros [_ E]%elem_rest. done.
Qed.

Lemma finish_dir : is_dir fs (c_view a2) ino = false.
Proof. unfold is_dir. rewrite finish_inode. exact Hfile. Qed.

Lemma finish_changed : changed fs v (c_view a2) ino.
Proof.
  pose proof Hm as [Hl Hd Hn].
  destruct (write_inode_bits fs Hfs a1 ino inode Hin) as [Hiu Hbu].
  assert (Eb : ino_blocks fs (c_view a2) ino = filter (fun b => b <> 0) blocks')
    by (unfold ino_blocks; by rewrite finish_inode).
  split; rewrite ?Eb, ?finish_dir, ?finish_inode.
  - unfold a2. by rewrite Hiu.
  - intros b [Hne Hbb]%list_elem_of_filter. destruct (Hd b Hbb Hne) as (Hbd & Hu & _).
    split; [done|]. split; [unfold a2; by rewrite Hbu|].
    destruct (Hfresh b Hbb Hne) as [Hold|]; [left|by right]. by apply elem_ino_blocks.
  - done.
  - done.
  - intros _. apply Hsize.
Qed.

Lemma finish_file_only : file_only a2.
Proof.
  split; [etrans; [apply D|apply finish_step]|].
  apply (file_changed fs L v (c_view a2) ino); [done|done|done|apply finish_dir| |apply finish_changed].
  eapply keeps_trans; [apply D|apply finish_step].
Qed.

Lemma finish_view b : b ∈ blocks' -> b <> 0 -> c_view a2 b = c_view a1 b.
Proof.
  intros Hbb Hne. destruct (mi_data _ _ _ _ Hm b Hbb Hne) as ([? ?] & _).
  apply write_inode_other; [done..|lia].
Qed.
End finish.
End file.

(** ** The whole call *)

Section write.
Context {S : Type} `{TxnLaws S} (fs : logfs_super) (Hfs : wf_fs fs).
Context (L : gset Z) (a : contents) (ino pos : Z) (buf : list byte) (now : Z).
Let v := c_view a.
Let L' := L ∖ {[ino]}.
Let i := inode_at fs v ino.
Hypothesis Hb : fs_blocks fs a.
Hypothesis Hi : wf_image fs L v.
Hypothesis Hino : ino ∈ L.
Hypothesis Hfile : is_dir fs v ino = false.
Hypothesis Hplain : writes_visible fs L' a.
Hypothesis Hpos : 0 <= pos.
Hypothesis Hmax : pos + Z.of_nat (length buf) <= max_file_size.
Hypothesis Hnow : 0 <= now < 2 ^ 64.

Definition write_post (r : result Z) a' : Prop :=
  file_only fs L a ino a' /\
  match r with
  | Ok n => n = Z.of_nat (length buf) /\
      exists blocks', inode_at fs (c_view a') ino
          = set_size_mtime (Z.max (i_size i) (pos + Z.of_nat (length buf))) now (set_blocks blocks' i) /\
        written v (c_view a') (i_blocks i) blocks' pos buf
  | Err rc => inode_at fs (c_view a') ino = i /\ no_room a rc
  end.

Let Hs : wf_store fs L v := im_store _ _ _ Hi.
Let Hin : in_table fs ino := proj1 (st_table _ _ _ Hs ino Hino).

Lemma write_ready : transferable fs L' a (i_blocks i).
Proof.
  split; [done| | |done].
  - by apply (file_rest_store fs Hfs L a ino now).
  - split.
    + apply wf_inode_at.
    + intros b Hbb Hne. by apply (target_blocks fs L).
    + by apply (st_nodup _ _ _ Hs).
Qed.

(** The loop alone: the inode is as before. *)
Lemma write_unfinished a1 : data_step fs L' a a1 -> file_only fs L a ino a1.
Proof.
  intros D. split; [apply D|]. pose proof (data_step_inode fs Hfs L' a a1 ino D Hin) as E. fold v in E.
  pose proof (tr_store _ _ _ _ write_ready) as Hs'.
  assert (Hd1 : is_dir fs (c_view a1) ino = false) by (unfold is_dir; by rewrite E).
  apply (file_changed fs L v (c_view a1) ino); [done|done|done|done| |].
  - by apply (data_step_keeps fs Hfs L').
  - assert (Eb : ino_blocks fs (c_view a1) ino = ino_blocks fs v ino) by (unfold ino_blocks; by rewrite E).
    pose proof Hfs as []. split; rewrite ?Eb.
    + unfold inode_used. rewrite (ds_meta _ _ _ _ D); [by apply (st_table _ _ _ Hs)|unfold in_data; lia..].
    + intros b Hbb. destruct (st_used _ _ _ Hs ino b Hino Hbb) as [Hd Hu].
      split; [done|]. split; [by apply (ds_used _ _ _ _ D)|by left].
    + by apply (st_nodup _ _ _ Hs).
    + by rewrite Hd1.
    + intros _. rewrite E. by apply (st_size _ _ _ Hs).
Qed.

Lemma op_write_body_spec : triple rep a (op_write_body fs ino pos buf now (c_gen a)) write_post.
Proof.
  unfold op_write_body. pose proof write_ready as Hrd. eapply triple_outcome.
  { by apply (inode_read_spec fs Hfs a ino). }
  { intros rc Hc Hrc. split; [apply write_unfinished, data_step_refl|]. split; [done|by right]. }
  fold v. fold i. cbv zeta. apply triple_bind. eapply triple_wand.
  { apply (write_loop_spec fs Hfs L'); [done|done|done|]. apply copy_fuel_enough. lia. }
  intros r a1 [D Hr]. destruct r as [blocks'|rc].
  2: { split; [by apply write_unfinished|]. split; [by apply (data_step_inode fs Hfs L')|done]. }
  destruct Hr as (Hr & Hfresh & Hw). apply triple_bind, triple_whole. intros Hlen1.
  assert (Hend : u64 (pos + Z.of_nat (length buf)) = pos + Z.of_nat (length buf)).
  { apply u64_small. unfold max_file_size, LOGFS_NDIR_BLOCKS, LOGFS_BLOCK_SIZE in Hmax. lia. }
  rewrite Hend.
  replace (if i_size i <? _ then _ else _) with (Z.max (i_size i) (pos + Z.of_nat (length buf)))
    by (destruct (Z.ltb_spec (i_size i) (pos + Z.of_nat (length buf))); lia).
  assert (Hsize : 0 <= Z.max (i_size i) (pos + Z.of_nat (length buf)) <= max_file_size).
  { pose proof (st_size _ _ _ Hs ino Hino Hfile) as Hz. fold i in Hz. lia. }
  assert (Dst : step fs L' a a1) by (split; [apply D|apply (data_step_keeps fs Hfs L'); [apply Hrd|done]]).
  assert (Hused : inode_used fs (c_view a1) ino = true).
  { pose proof Hfs as []. unfold inode_used.
    rewrite (ds_meta _ _ _ _ D); [by apply (st_table _ _ _ Hs)|unfold in_data; lia..]. }
  pose proof (tr_mine _ _ _ _ Hr) as Hm.
  eapply triple_outcome_last.
  - apply (inode_write_spec fs Hfs a1); [apply Hr|done|by rewrite (se_gen _ _ (ds_env _ _ _ _ D))|].
    by apply (finish_wf fs Hfs L a ino now Hnow a1).
  - intros rc Hc Hrc. split; [by apply write_unfinished|]. split; [by apply (data_step_inode fs Hfs L')|].
    right. by rewrite <-(se_calm _ _ (ds_env _ _ _ _ D)).
  - apply triple_ret. split; [by apply finish_file_only|]. split; [done|]. exists blocks'.
    split; [by apply (finish_inode fs Hfs L)|]. eapply written_view; [|exact Hw].
    intros b Hbb Hne. by apply (finish_view fs Hfs L a ino now Hi Hino a1 blocks').
Qed.
End write.
