(* ===== verification/FsTruncate.v ===== *)
(** [logfs_op_truncate]: the size is the one asked for, and the bytes below
    it are as they were. *)

From S2P Require Import Prelude.
From S2P Require Import Bytes.
From S2P Require Import DiskFormat.
From S2P Require Import TxnApi.
From S2P Require Import FsFormat.
From S2P Require Import Inode.
From S2P Require Import InodeBits.
From S2P Require Import InodeSpec.
From S2P Require Import InodeDir.
From S2P Require Import InodeDirSpec.
From S2P Require Import InodeDirAdd.
From S2P Require Import FsOps.
From S2P Require Import FsTree.
From S2P Require Import FsImage.
From S2P Require Import FsStep.
From S2P Require Import FsPath.
From S2P Require Import FsChange.
From S2P Require Import FsCalls.
From S2P Require Import FsFile.
From S2P Require Import FsWrite.

Section truncate.
Context {S : Type} `{TxnLaws S} (fs : logfs_super) (Hfs : wf_fs fs).
Context (L : gset Z) (a : contents) (ino size now : Z).
Let v := c_view a.
Let L' := L ∖ {[ino]}.
Let i := inode_at fs v ino.
Hypothesis Hb : fs_blocks fs a.
Hypothesis Hi : wf_image fs L v.
Hypothesis Hino : ino ∈ L.
Hypothesis Hfile : is_dir fs v ino = false.
Hypothesis Hsize : 0 <= size <= max_file_size.
Hypothesis Hnow : 0 <= now < 2 ^ 64.

(** The blocks that stay: all of them when the file grows. *)
Definition keep_blocks : nat := Z.to_nat ((size + LOGFS_BLOCK_SIZE - 1) / LOGFS_BLOCK_SIZE).

Definition kept : list Z :=
  if size <? i_size i then take keep_blocks (i_blocks i) ++ replicate (12 - keep_blocks) 0
  else i_blocks i.

(** When the inode cannot be written after its blocks are freed, it still
    names them: only the other inodes are sound. *)
Definition truncate_post (r : result unit) a' : Prop :=
  match r with
  | Ok _ => file_only fs L a ino a' /\
            inode_at fs (c_view a') ino = set_size_mtime size now (set_blocks kept i) /\
            (size < i_size i -> freed fs (c_view a') (drop keep_blocks (i_blocks i))) /\
            forall x, 0 <= x < size ->
              file_byte (c_view a') kept x = file_byte v (i_blocks i) x
  | Err rc => c_calm a = false /\ rc < 0 /\ step fs L' a a'
  end.

Let Hs : wf_store fs L v := im_store _ _ _ Hi.
Let Hin : in_table fs ino := proj1 (st_table _ _ _ Hs ino Hino).
Lemma rest_sub : L' ⊆ L.
Proof. unfold L'. set_solver. Qed.

Let Hs' : wf_store fs L' v := store_sub fs L L' v rest_sub Hs.

Lemma keep_blocks_12 : (keep_blocks <= 12)%nat.
Proof.
  unfold keep_blocks, max_file_size, LOGFS_NDIR_BLOCKS, LOGFS_BLOCK_SIZE in *.
  assert ((size + 4096 - 1) / 4096 < 13) by (apply Z.div_lt_upper_bound; lia). lia.
Qed.

(** A byte below the new size is in a block that stays. *)
Lemma index_kept x : 0 <= x < size -> (block_index x < keep_blocks)%nat.
Proof.
  intros Hx. unfold block_index, keep_blocks, LOGFS_BLOCK_SIZE.
  assert (x / 4096 < (size + 4096 - 1) / 4096); [|pose proof (Z.div_pos x 4096); lia].
  pose proof (Z.div_mod x 4096 ltac:(lia)). pose proof (Z.mod_pos_bound x 4096 ltac:(lia)).
  apply (Z.lt_le_trans _ (x / 4096 + 1)); [lia|]. apply Z.div_le_lower_bound; lia.
Qed.

Lemma nth_kept x : 0 <= x < size -> nth (block_index x) kept 0 = nth (block_index x) (i_blocks i) 0.
Proof.
  intros Hx. unfold kept. destruct (size <? i_size i); [|done].
  pose proof (index_kept x Hx). pose proof keep_blocks_12.
  pose proof (wi_nblocks _ (wf_inode_at fs v ino)) as Hl. fold i in Hl.
  change (Z.to_nat LOGFS_NDIR_BLOCKS) with 12%nat in Hl.
  rewrite app_nth1 by (rewrite length_take; lia). by apply nth_take.
Qed.

Lemma elem_kept b : b ∈ kept -> b <> 0 -> (b ∈ i_blocks i) /\ ((size <? i_size i) = true -> b ∉ drop keep_blocks (i_blocks i)).
Proof.
  intros Hbk Hne. unfold kept in Hbk. destruct (size <? i_size i); [|done].
  apply elem_of_app in Hbk as [Hbk|[-> _]%elem_of_replicate]; [|done].
  split; [by eapply elem_take|]. intros _ Hd.
  pose proof (st_nodup _ _ _ Hs ino Hino) as Hnd. unfold ino_blocks in Hnd. fold i in Hnd.
  rewrite <-(take_drop keep_blocks (i_blocks i)), filter_app in Hnd.
  apply NoDup_app in Hnd as (_ & Hdis & _). apply (Hdis b); by apply list_elem_of_filter.
Qed.

Lemma kept_nodup : NoDup (filter (fun b => b <> 0) kept).
Proof.
  pose proof (st_nodup _ _ _ Hs ino Hino) as Hnd. unfold ino_blocks in Hnd. fold i in Hnd.
  unfold kept. destruct (size <? i_size i); [|done].
  rewrite filter_app, filter_zeros, app_nil_r.
  rewrite <-(take_drop keep_blocks (i_blocks i)), filter_app in Hnd. by apply NoDup_app in Hnd as [? _].
Qed.

Lemma kept_length : length kept = 12%nat.
Proof.
  pose proof (wi_nblocks _ (wf_inode_at fs v ino)) as Hl. fold i in Hl.
  change (Z.to_nat LOGFS_NDIR_BLOCKS) with 12%nat in Hl. unfold kept.
  destruct (size <? i_size i); [|done]. pose proof keep_blocks_12.
  rewrite length_app, length_take, length_replicate. lia.
Qed.

(** The blocks are given back, or there is nothing to give. *)
Definition shrunk a1 : Prop :=
  ((size <? i_size i) = true /\ dropped fs (drop keep_blocks (i_blocks i)) a a1 /\
   freed fs (c_view a1) (drop keep_blocks (i_blocks i))) \/
  ((size <? i_size i) = false /\ a1 = a).

Lemma shrunk_facts a1 :
  shrunk a1 ->
  step fs L' a a1 /\ mine fs L' a1 kept /\ inode_used fs (c_view a1) ino = true /\
  (forall b, in_data fs b -> c_view a1 b = c_view a b).
Proof.
  intros Hsh. pose proof Hfs as []. pose proof (proj2 (st_table _ _ _ Hs ino Hino)) as Hiu.
  assert (Hst : step fs L' a a1).
  { destruct Hsh as [(_ & D & _)|[_ Heq]]; [|rewrite Heq; apply step_refl]. eapply dropped_step; [done|done| |exact D].
    intros b Hbd%elem_drop Hne. by apply (target_blocks fs L _ ino). }
  assert (Hused : forall b, b ∈ kept -> b <> 0 -> block_used fs (c_view a1) b = true).
  { intros b Hbk Hne. destruct (elem_kept b Hbk Hne) as [Hbi Hnd].
    destruct (target_blocks fs L v ino b Hs Hino Hbi Hne) as (Hbd & Hu & _).
    destruct Hsh as [(E & D & _)|[_ Heq]]; [|by rewrite Heq]. rewrite (dr_used _ _ _ _ D); auto. }
  split; [done|]. split; [split|split].
  - apply kept_length.
  - intros b Hbk Hne. destruct (elem_kept b Hbk Hne) as [Hbi _].
    destruct (target_blocks fs L v ino b Hs Hino Hbi Hne) as (Hbd & _ & Hno).
    split; [done|]. split; [by apply Hused|]. intros Ho%(owned_keeps fs L' _ _ _ (proj2 Hst)). done.
  - apply kept_nodup.
  - destruct Hsh as [(_ & D & _)|[_ Heq]]; [|by rewrite Heq]. unfold inode_used. by rewrite (dr_view _ _ _ _ D) by lia.
  - intros b [? ?]. destruct Hsh as [(_ & D & _)|[_ Heq]]; [|by rewrite Heq]. apply (dr_view _ _ _ _ D). lia.
Qed.

Lemma truncate_body_spec : triple rep a (truncate_body fs ino size now (c_gen a)) truncate_post.
Proof.
  unfold truncate_body. eapply triple_outcome; [by apply (inode_read_spec fs Hfs a ino)| |].
  { intros rc Hc Hrc. split; [done|]. split; [done|apply step_refl]. }
  fold v. fold i. cbv zeta.
  assert (Hend : u64 (size + LOGFS_BLOCK_SIZE - 1) = size + LOGFS_BLOCK_SIZE - 1).
  { apply u64_small. unfold max_file_size, LOGFS_NDIR_BLOCKS, LOGFS_BLOCK_SIZE in *. lia. }
  rewrite Hend. fold keep_blocks.
  assert (Hfin : forall a1, shrunk a1 -> triple rep a1
    (logfs_inode_write (c_gen a) fs ino (set_size_mtime size now (set_blocks kept i))) truncate_post).
  { intros a1 Hsh. destruct (shrunk_facts a1 Hsh) as (Hst & Hm & Hiu & Hv).
    apply triple_whole. intros Hlen. rewrite <-(se_gen _ _ (proj1 Hst)).
    assert (Hfresh : fresh_from fs a (i_blocks i) kept)
      by (intros b Hbk Hne; left; by apply elem_kept).
    eapply triple_outcome_last.
    - apply (inode_write_spec fs Hfs a1); [by eapply step_blocks|done|done|].
      by apply (finish_wf fs Hfs L a ino now Hnow a1).
    - intros rc Hc Hrc. split; [by rewrite <-(se_calm _ _ (proj1 Hst))|done].
    - split; [by apply finish_file_only|]. split; [by apply (finish_inode fs Hfs L)|].
      split.
      { intros Hlt%Z.ltb_lt. destruct Hsh as [(_ & _ & Hfr)|[E _]]; [|congruence].
        eapply freed_bitmaps; [by apply write_inode_bitmaps|exact Hfr]. }
      intros x Hx. unfold file_byte. fold (block_index x). rewrite (nth_kept x Hx).
      destruct (Z.eqb_spec (nth (block_index x) (i_blocks i) 0) 0) as [|Hne]; [done|].
      assert (Hbi : nth (block_index x) (i_blocks i) 0 ∈ i_blocks i).
      { destruct (nth_in_or_default (block_index x) (i_blocks i) 0); [by apply list_elem_of_In|done]. }
      destruct (target_blocks fs L v ino _ Hs Hino Hbi Hne) as ([? ?] & _).
      rewrite write_inode_other by (done || lia). by rewrite Hv. }
  apply triple_bind. destruct (size <? i_size i) eqn:Elt.
  - eapply triple_wand.
    { apply (truncate_blocks_spec fs Hfs a i keep_blocks Hb); [apply wf_inode_at|apply keep_blocks_12| |].
      - by apply (st_nodup _ _ _ Hs).
      - intros b Hbi Hne. by apply (target_blocks fs L v ino b). }
    intros r a1 [D Hr]. destruct r as [i'|rc].
    + destruct Hr as [-> Hfr]. replace (take keep_blocks (i_blocks i) ++ _) with kept by (unfold kept; by rewrite Elt).
      apply Hfin. by left.
    + destruct Hr. split; [done|]. split; [done|]. eapply dropped_step; [done|done| |exact D].
      intros b Hbd%elem_drop Hne. by apply (target_blocks fs L _ ino).
  - apply triple_ret. assert (E : i = set_blocks kept i).
    { unfold kept. rewrite Elt. by destruct i. }
    rewrite E at 1. apply Hfin. by right.
Qed.
End truncate.
