(* ===== verification/FsListing.v ===== *)
(** [logfs_op_readdir]: the names of the directory's map. *)

From S2P Require Import Prelude.
From S2P Require Import Bytes.
From S2P Require Import DiskFormat.
From S2P Require Import TxnApi.
From S2P Require Import FsFormat.
From S2P Require Import Inode.
From S2P Require Import InodeSpec.
From S2P Require Import InodeDir.
From S2P Require Import InodeDirSpec.
From S2P Require Import InodeWalk.
From S2P Require Import FsOps.
From S2P Require Import FsTree.
From S2P Require Import FsImage.
From S2P Require Import FsPath.

(** The names in the order of the slots. *)
Definition listing (v : Z -> block) (blocks : list Z) : list (list byte) :=
  map (fun x => c_string x.1) (dir_entries v blocks).

Lemma omap_map {A B C} (f : A -> option B) (g : A -> option C) (h : B -> C) l :
  (forall x, g x = option_map h (f x)) -> omap g l = map h (omap f l).
Proof.
  intros Hg. induction l as [|x l IH]; [done|].
  change (omap g (x :: l)) with (match g x with Some y => y :: omap g l | None => omap g l end).
  change (omap f (x :: l)) with (match f x with Some y => y :: omap f l | None => omap f l end).
  rewrite Hg, IH. by destruct (f x).
Qed.

Lemma block_names_entries buf : block_names buf = map (fun x => c_string x.1) (block_entries buf).
Proof.
  apply omap_map. intros e. unfold entry_free, entry_of.
  by destruct (de_ino (dirent_at buf e) =? 0).
Qed.

Lemma listing_cons v b blocks :
  b <> 0 -> listing v (b :: blocks) = block_names (v b) ++ listing v blocks.
Proof.
  intros Hb. unfold listing, dir_entries. cbn [dir_blocks]. rewrite (proj2 (Z.eqb_neq _ _) Hb).
  cbn [map concat]. by rewrite map_app, block_names_entries.
Qed.

(** A name without NUL is listed as it is. *)
Lemma c_string_id l : Byte.x00 ∉ l -> c_string l = l.
Proof.
  induction l as [|c l IH]; intros Hn; [done|]. cbn [c_string].
  rewrite bool_decide_false by (intros ->; apply Hn, list_elem_of_here).
  f_equal. apply IH. intros Hin. by apply Hn, list_elem_of_further.
Qed.

(** The listing is the map's. *)
Lemma listing_map fs v ino :
  wf_dir fs v ino ->
  listing v (i_blocks (inode_at fs v ino))
  ≡ₚ map (fun x => c_string x.1) (map_to_list (the_dir fs v ino)).
Proof.
  intros Hd. unfold listing, the_dir, dir_map. apply Permutation_map. symmetry.
  by apply map_to_list_to_map, Hd.
Qed.

Section listing.
Context {S : Type} `{TxnLaws S} (fs : logfs_super) (Hfs : wf_fs fs).

Lemma readdir_loop_spec a room blocks :
  (forall b, b ∈ dir_blocks blocks -> c_block a b) ->
  triple rep a (readdir_loop room blocks)
    (fun r a' => a' = a /\ (r = Ok (take room (listing (c_view a) blocks)) \/ io_error a r)).
Proof.
  revert room. induction blocks as [|b blocks IH]; intros room Hb; cbn [readdir_loop].
  { apply triple_ret. split; [done|]. left. by destruct room. }
  cbn [dir_blocks] in Hb. destruct (Z.eqb_spec b 0) as [->|Hne].
  { apply triple_ret. split; [done|]. left. by destruct room. }
  rewrite listing_cons by done. apply triple_read; [apply Hb, list_elem_of_here| |].
  { intros rc Hc Hrc. split; [done|]. right. split; [done|by exists rc]. }
  cbv zeta. destruct (Nat.ltb_spec room (length (block_names (c_view a b)))) as [Hlt|Hge].
  { apply triple_ret. split; [done|]. left. by rewrite take_app_le by lia. }
  apply triple_bind. eapply triple_wand; [apply IH; intros b' Hb'; apply Hb, list_elem_of_further, Hb'|].
  intros r a' [-> [->|(Hc & rc & Hrc & ->)]].
  - apply triple_ret. split; [done|]. left. by rewrite take_app_ge by done.
  - split; [done|]. right. split; [done|by exists rc].
Qed.

(** The outcome of a listing, by what the path leads to. *)
Definition readdir_outcome (L : gset Z) (a : contents) (path : list byte) (room : nat) (r : result (list (list byte))) : Prop :=
  match resolve_path fs (c_view a) path with
  | Err rc => r = Err rc
  | Ok d =>
      d ∈ L /\
      match tree fs (c_view a) d with
      | None => r = Err (- ENOTDIR)
      | Some m => exists names, r = Ok (take room names) /\
                    names ≡ₚ map (fun x => c_string x.1) (map_to_list m)
      end
  end.

Lemma op_readdir_spec L a path room :
  fs_blocks fs a -> wf_image fs L (c_view a) ->
  triple rep a (logfs_op_readdir fs path room)
    (fun r a' => a' = a /\ (readdir_outcome L a path room r \/ io_error a r)).
Proof.
  intros Hb Hi. unfold logfs_op_readdir, readdir_outcome.
  assert (Hio : forall rc, c_calm a = false -> rc < 0 -> io_error a (Err (A := list (list byte)) rc))
    by (intros rc Hc Hrc; split; [done|by exists rc]).
  apply (triple_lookup fs Hfs L); [done|done| | |].
  - intros rc E. split; [done|]. left. by rewrite E.
  - intros rc Hc Hrc. split; [done|right; auto].
  - intros d Hd. rewrite Hd. pose proof (resolve_path_live fs Hfs L _ _ _ Hi Hd) as HdL.
    destruct (st_table _ _ _ (im_store _ _ _ Hi) d HdL) as [Ht _].
    eapply triple_outcome; [by apply inode_read_spec|split; [done|right; auto]|].
    unfold tree, is_dir. destruct (S_ISDIR _) eqn:Edir; cbn [negb].
    + pose proof (st_dirs _ _ _ (im_store _ _ _ Hi) d HdL Edir) as Hwf.
      pose proof (dir_data_client fs a d Hfs Hb Hwf) as Hc. rewrite Forall_forall in Hc.
      eapply triple_wand; [apply readdir_loop_spec; intros b Hbb; by apply Hc|].
      intros r a' [-> [->|Hr]]; (split; [done|]); [left|by right]. split; [done|].
      eexists. split; [reflexivity|]. by apply listing_map.
    + apply triple_fail. split; [done|]. left. done.
Qed.
End listing.
