(* ===== verification/FsOpsSpec.v ===== *)
(** The operations of [fs_ops.c] as wholes, from the path to the return
    code. *)

From S2P Require Import Prelude.
From S2P Require Import Bytes.
From S2P Require Import DiskFormat.
From S2P Require Import Blockdev.
From S2P Require Import TxnApi.
From S2P Require Import FsFormat.
From S2P Require Import Inode.
From S2P Require Import InodeSpec.
From S2P Require Import InodeDir.
From S2P Require Import InodeDirSpec.
From S2P Require Import InodeWalk.
From S2P Require Import FsOps.
From S2P Require Import FsTree.
From S2P Require Import FsImage.
From S2P Require Import FsStep.
From S2P Require Import FsPath.
From S2P Require Import FsChange.
From S2P Require Import FsCalls.
From S2P Require Import FsCreate.
From S2P Require Import FsRemove.
From S2P Require Import FsFile.
From S2P Require Import FsWrite.
From S2P Require Import FsTruncate.

Section ops.
Context {S : Type} `{TxnLaws S} (fs : logfs_super) (Hfs : wf_fs fs).
Implicit Types (L : gset Z) (a : contents).

(** A failed call of the kernel or the allocator. *)
Definition failed a (rc : Z) : Prop := c_calm a = false /\ rc < 0.

(** ** A name more *)

(** Why an addition is refused. *)
Definition create_refused a (path : list byte) (rc : Z) : Prop :=
  match target fs (c_view a) path with
  | Err e => rc = e
  | Ok (p, name) => add_refused fs a p name rc \/ rc = - ENOSPC
  end.

(** The lookup before the addition cannot fail, or there is nothing to find. *)
Definition create_safe a (path : list byte) : Prop :=
  forall p name, target fs (c_view a) path = Ok (p, name) -> lookup_safe fs a p name.

Definition create_post L a (path : list byte) (mode now : Z) (r : result Z) a' : Prop :=
  same_env a a' /\
  match r with
  | Ok n => exists p name, target fs (c_view a) path = Ok (p, name) /\
      inserted fs L (c_view a) (c_view a') p name n None /\
      inode_at fs (c_view a') n = new_file_inode mode (u64 now)
  | Err rc => unchanged fs L (c_view a) (c_view a') /\ (create_refused a path rc \/ failed a rc)
  end.

Lemma refused_why L a p name path rc a' :
  target fs (c_view a) path = Ok (p, name) -> refused fs L a p name rc a' ->
  unchanged fs L (c_view a) (c_view a') /\ (create_refused a path rc \/ failed a rc).
Proof.
  intros E [Hu Hrc]. split; [done|]. unfold create_refused. rewrite E.
  destruct Hrc as [Hr|[Hr|Hr]]; [left; by left|left; by right|by right].
Qed.

Lemma op_create_spec L a path mode now :
  table_room fs a -> fs_blocks fs a -> wf_image fs L (c_view a) -> create_safe a path ->
  triple rep a (logfs_op_create fs path mode now) (create_post L a path mode now).
Proof.
  intros Hw Hb Hi Hsafe. unfold logfs_op_create.
  apply (triple_target fs Hfs L a path (fun p name => with_handle (create_body fs p name mode (u64 now)))); [done|done| | |].
  - intros rc E. split; [done|]. split; [by apply unchanged_refl|]. left. unfold create_refused. by rewrite E.
  - intros rc Hc Hrc. split; [done|]. split; [by apply unchanged_refl|by right].
  - intros p name E. destruct (target_ok fs Hfs L _ _ _ _ Hi E) as [Hp Hn]. apply triple_handle.
    eapply triple_wand; [apply (create_body_spec fs Hfs L a p name Hw Hb Hi Hp Hn (Hsafe p name E)), u64_range|].
    intros r a' [He Hr]. split; [done|]. destruct r as [n|rc]; [|by eapply refused_why].
    destruct Hr. by exists p, name.
Qed.

Definition mkdir_post L a (path : list byte) (mode now : Z) (r : result unit) a' : Prop :=
  same_env a a' /\
  match r with
  | Ok _ => exists p name n nb, target fs (c_view a) path = Ok (p, name) /\
      inserted fs L (c_view a) (c_view a') p name n (Some (new_dir n p)) /\
      inode_at fs (c_view a') n = new_dir_inode mode (u64 now) nb /\
      i_nlink (inode_at fs (c_view a') p) = u32 (i_nlink (inode_at fs (c_view a) p) + 1)
  | Err rc =>
      unchanged fs L (c_view a) (c_view a') /\ (create_refused a path rc \/ failed a rc) \/
      failed a rc /\ exists p name n, target fs (c_view a) path = Ok (p, name) /\
        inserted fs L (c_view a) (c_view a') p name n (Some (new_dir n p))
  end.

Lemma op_mkdir_spec L a path mode now :
  table_room fs a -> fs_blocks fs a -> wf_image fs L (c_view a) -> create_safe a path ->
  triple rep a (logfs_op_mkdir fs path mode now) (mkdir_post L a path mode now).
Proof.
  intros Hw Hb Hi Hsafe. unfold logfs_op_mkdir.
  apply (triple_target fs Hfs L a path (fun p name => with_handle (mkdir_body fs p name mode (u64 now)))); [done|done| | |].
  - intros rc E. split; [done|]. left. split; [by apply unchanged_refl|]. left. unfold create_refused. by rewrite E.
  - intros rc Hc Hrc. split; [done|]. left. split; [by apply unchanged_refl|by right].
  - intros p name E. destruct (target_ok fs Hfs L _ _ _ _ Hi E) as [Hp Hn]. apply triple_handle.
    eapply triple_wand; [apply (mkdir_body_spec fs Hfs L a p name Hw Hb Hi Hp Hn (Hsafe p name E)), u64_range|].
    intros r a' [He Hr]. split; [done|]. destruct r as [u|rc].
    + destruct Hr as (n & nb & Hins & Hat & Hnl). by exists p, name, n, nb.
    + destruct Hr as [Hr|(Hc & Hrc & n & Hins)]; [left; by eapply refused_why|right].
      split; [done|]. by exists p, name, n.
Qed.

(** ** A name less *)

(** The answers for a name that cannot be removed. *)
Definition name_refused a (path : list byte) (rc : Z) : Prop :=
  match target fs (c_view a) path with
  | Err e => rc = e
  | Ok (p, name) =>
      match tree fs (c_view a) p with
      | None => rc = - ENOTDIR
      | Some m => m !! name = None /\ rc = - ENOENT
      end
  end.

(** The entry a path names. *)
Definition entry_at (v : Z -> block) (path : list byte) (p : Z) (name : list byte) (t ty : Z) : Prop :=
  target fs v path = Ok (p, name) /\ exists m, tree fs v p = Some m /\ m !! name = Some (t, ty).

Lemma triple_entry {B} L a path (k : Z -> list byte -> Z * Z -> M S B) (Q : result B -> contents -> Prop) :
  fs_blocks fs a -> wf_image fs L (c_view a) ->
  (forall rc, name_refused a path rc -> Q (Err rc) a) ->
  (forall rc, failed a rc -> Q (Err rc) a) ->
  (forall p name t ty, p ∈ L -> entry_at (c_view a) path p name t ty -> triple rep a (k p name (t, ty)) Q) ->
  triple rep a
    (pn ← lift (split_parent path PATH_MAX);
     parent_ino ← logfs_path_lookup fs pn.1;
     x ← logfs_dir_lookup fs parent_ino pn.2; k parent_ino pn.2 x) Q.
Proof.
  intros Hb Hi Href Hio Hk. unfold name_refused in Href.
  apply (triple_target fs Hfs L a path (fun p name => x ← logfs_dir_lookup fs p name; k p name x));
    [done|done| |by intros rc Hc Hrc; apply Hio|].
  - intros rc E. apply Href. by rewrite E.
  - intros p name E. rewrite E in Href. destruct (target_ok fs Hfs L _ _ _ _ Hi E) as [Hp Hn].
    apply triple_bind. pose proof (im_store _ _ _ Hi) as Hs. unfold entry_at in Hk. unfold tree in *.
    destruct (is_dir fs (c_view a) p) eqn:Hd.
    + eapply triple_wand; [apply (dir_lookup_spec fs Hfs a p name Hb); [by apply (st_dirs _ _ _ Hs)|done]|].
      intros r a' [-> Hr]. destruct (the_dir fs (c_view a) p !! name) as [[t ty]|] eqn:Hx.
      * destruct Hr as [->|(Hc & rc & Hrc & ->)]; [|by apply Hio].
        apply Hk; [done|]. split; [done|]. exists (the_dir fs (c_view a) p). by rewrite Hd.
      * destruct Hr as [->|(Hc & rc & Hrc & ->)]; [by apply Href|by apply Hio].
    + unfold logfs_dir_lookup, is_dir in *.
      eapply triple_outcome; [apply inode_read_spec; [done|done|by apply (st_table _ _ _ Hs)]| |].
      * intros rc Hc Hrc. by apply Hio.
      * rewrite Hd. cbn [negb]. apply triple_fail. by apply Href.
Qed.

Definition unlink_post L a (path : list byte) (r : result unit) a' : Prop :=
  same_env a a' /\
  match r with
  | Ok _ => exists p name t ty, entry_at (c_view a) path p name t ty /\
      removed fs L (c_view a) (c_view a') p name t /\
      (i_nlink (inode_at fs (c_view a) t) = 1 ->
       released fs (c_view a') t (i_blocks (inode_at fs (c_view a) t)))
  | Err rc =>
      unchanged fs L (c_view a) (c_view a') /\ (name_refused a path rc \/ failed a rc) \/
      failed a rc /\ exists p name t ty, entry_at (c_view a) path p name t ty /\
        removed fs L (c_view a) (c_view a') p name t
  end.

(** What the kernel checks before it calls: the name is not "." or "..",
    and it is a file's. *)
Definition unlink_allowed a (path : list byte) : Prop :=
  forall p name t ty, entry_at (c_view a) path p name t ty ->
    proper name /\ tree fs (c_view a) t = None.

Lemma op_unlink_spec L a path :
  fs_blocks fs a -> wf_image fs L (c_view a) -> unlink_allowed a path ->
  triple rep a (logfs_op_unlink fs path) (unlink_post L a path).
Proof.
  intros Hb Hi Hal. unfold logfs_op_unlink.
  apply (triple_entry L a path (fun p name x => with_handle (unlink_body fs p x.1 name))); [done|done| | |].
  - intros rc Hrc. split; [done|]. left. split; [by apply unchanged_refl|by left].
  - intros rc Hrc. split; [done|]. left. split; [by apply unchanged_refl|by right].
  - intros p name t ty Hp Hat. apply triple_handle. cbn [fst]. pose proof Hat as [E (m & Hm & Hx)].
    destruct (Hal p name t ty Hat) as [Hprop Hfile].
    eapply triple_wand; [apply (unlink_body_spec fs Hfs L a p name t ty Hb Hi)|].
    + split; [done|]. split; [done|]. split; [by exists m|]. intros m' Hm'. congruence.
    + intros r a' [He Hr]. split; [done|]. destruct r as [u|rc]; [by exists p, name, t, ty|].
      destruct Hr as (Hc & Hrc & [Hu|Hr]); [left|right].
      * split; [done|]. by right.
      * split; [done|]. by exists p, name, t, ty.
Qed.

(** [-ENOTDIR] for a file, [-ENOTEMPTY] for a directory with names. *)
Definition rmdir_refused a (path : list byte) (rc : Z) : Prop :=
  name_refused a path rc \/
  exists p name t ty, entry_at (c_view a) path p name t ty /\
    match tree fs (c_view a) t with
    | None => rc = - ENOTDIR
    | Some m => ~ dir_vacant m /\ rc = - ENOTEMPTY
    end.

Definition rmdir_post L a (path : list byte) (r : result unit) a' : Prop :=
  same_env a a' /\
  match r with
  | Ok _ => exists p name t ty m, entry_at (c_view a) path p name t ty /\
      tree fs (c_view a) t = Some m /\ dir_vacant m /\
      removed fs L (c_view a) (c_view a') p name t /\
      released fs (c_view a') t (i_blocks (inode_at fs (c_view a) t)) /\
      i_nlink (inode_at fs (c_view a') p) = u32 (i_nlink (inode_at fs (c_view a) p) - 1)
  | Err rc =>
      unchanged fs L (c_view a) (c_view a') /\ (rmdir_refused a path rc \/ failed a rc) \/
      failed a rc /\ exists p name t ty, entry_at (c_view a) path p name t ty /\
        wf_store fs (L ∖ {[t]}) (c_view a')
  end.

Definition rmdir_allowed a (path : list byte) : Prop :=
  forall p name t ty, entry_at (c_view a) path p name t ty -> proper name.

Lemma op_rmdir_spec L a path now :
  fs_blocks fs a -> wf_image fs L (c_view a) -> rmdir_allowed a path ->
  triple rep a (logfs_op_rmdir fs path now) (rmdir_post L a path).
Proof.
  intros Hb Hi Hal. unfold logfs_op_rmdir.
  assert (Herr : forall rc, rmdir_refused a path rc \/ failed a rc -> rmdir_post L a path (Err rc) a).
  { intros rc Hrc. split; [done|]. left. split; [by apply unchanged_refl|done]. }
  apply (triple_entry L a path (fun p name x =>
    if negb (x.2 =? LOGFS_FT_DIR) then fail (- ENOTDIR) else
    empty ← logfs_dir_is_empty fs x.1;
    if empty =? 0 then fail (- ENOTEMPTY) else with_handle (rmdir_body fs p x.1 name (u64 now))));
    [done|done| | |].
  - intros rc Hrc. apply Herr. left. by left.
  - intros rc Hrc. apply Herr. by right.
  - intros p name t ty Hp Hat. cbn [fst snd]. pose proof Hat as [E (m & Hm & Hx)].
    destruct (nm_names _ _ (im_names _ _ _ Hi) p m name (t, ty) Hp Hm Hx) as [Ht Hty]. cbn [fst snd] in Ht, Hty.
    pose proof (im_store _ _ _ Hi) as Hs. unfold tree at 1 in Hty.
    destruct (is_dir fs (c_view a) t) eqn:Hd; cbn [entry_type] in Hty; rewrite Hty.
    + change (negb (LOGFS_FT_DIR =? LOGFS_FT_DIR)) with false. cbv iota.
      assert (Htree : tree fs (c_view a) t = Some (the_dir fs (c_view a) t)) by (unfold tree; by rewrite Hd).
      apply triple_bind. eapply triple_wand;
        [apply (dir_is_empty_spec fs Hfs a t Hb); by apply (st_dirs _ _ _ Hs)|].
      intros r a' [-> [[-> Hvac]|[[-> Hvac]|(Hc & rc & Hrc & ->)]]].
      * change (1 =? 0) with false. cbv iota. apply triple_handle.
        eapply triple_wand; [apply (rmdir_body_spec fs Hfs L a p name t ty (u64 now) Hb Hi)|].
        -- split; [done|]. split; [by apply (Hal p name t ty)|]. split; [by exists m|].
           intros m' Hm'. rewrite Htree in Hm'. by injection Hm' as <-.
        -- apply u64_range.
        -- intros r a' [He Hr]. split; [done|]. destruct r as [u|rc].
           ++ destruct Hr as (Hr & Hrel & Hnl). exists p, name, t, ty, (the_dir fs (c_view a) t). done.
           ++ destruct Hr as (Hc & Hrc & Hst). right. split; [done|]. by exists p, name, t, ty.
      * change (0 =? 0) with true. cbv iota. apply triple_fail, Herr. left. right.
        exists p, name, t, ty. split; [done|]. by rewrite Htree.
      * apply Herr. right. by split.
    + change (negb (LOGFS_FT_REG =? LOGFS_FT_DIR)) with true. cbv iota. apply triple_fail, Herr. left. right.
      exists p, name, t, ty. split; [done|]. unfold tree. by rewrite Hd.
Qed.

(** ** Files *)

Definition op_write_post L a (fh : Z) (buf : list byte) (offset now : Z) (r : result Z) a' : Prop :=
  file_only fs L a (u32 fh) a' /\
  match r with
  | Ok n => n = Z.of_nat (length buf) /\ offset + n <= max_file_size /\
      exists blocks',
        let i := inode_at fs (c_view a) (u32 fh) in
        inode_at fs (c_view a') (u32 fh)
          = set_size_mtime (Z.max (i_size i) (offset + n)) (u64 now) (set_blocks blocks' i) /\
        written (c_view a) (c_view a') (i_blocks i) blocks' offset buf
  | Err rc =>
      inode_at fs (c_view a') (u32 fh) = inode_at fs (c_view a) (u32 fh) /\
      (rc = - EFBIG /\ max_file_size < offset + Z.of_nat (length buf) /\ a' = a \/ no_room a rc)
  end.

Lemma file_only_refl L a ino : wf_image fs L (c_view a) -> file_only fs L a ino a.
Proof. intros Hi. split; [done|]. split; [done|]. by split. Qed.

Lemma op_write_spec L a fh buf offset now :
  fs_blocks fs a -> wf_image fs L (c_view a) -> u32 fh ∈ L ->
  is_dir fs (c_view a) (u32 fh) = false -> writes_visible fs (L ∖ {[u32 fh]}) a ->
  0 <= offset -> offset + Z.of_nat (length buf) < 2 ^ 64 ->
  triple rep a (logfs_op_write fs fh buf offset now) (op_write_post L a fh buf offset now).
Proof.
  intros Hb Hi Hin Hd Hpl Hoff Hlen. unfold logfs_op_write.
  rewrite (u64_small offset), (u64_small (offset + _)) by lia. cbv zeta.
  destruct (Z.ltb_spec max_file_size (offset + Z.of_nat (length buf))) as [Hbig|Hfit].
  - apply triple_fail. split; [by apply file_only_refl|]. split; [done|]. by left.
  - apply triple_handle. eapply triple_wand;
      [apply (op_write_body_spec fs Hfs L a (u32 fh) offset buf (u64 now)); [done..|apply u64_range]|].
    intros r a' [Hf Hr]. split; [done|]. destruct r as [n|rc].
    + destruct Hr as (-> & blocks' & Hat & Hw). split; [done|]. split; [done|]. by exists blocks'.
    + destruct Hr as [Hat Hrc]. split; [done|]. by right.
Qed.

(** The inode to truncate: by handle, or by path. *)
Definition truncate_target a (fi : option Z) (path : list byte) : result Z :=
  match fi with
  | Some fh => Ok (u32 fh)
  | None => resolve_path fs (c_view a) path
  end.

Definition op_truncate_post L a fi path (size now : Z) (r : result unit) a' : Prop :=
  match r with
  | Ok _ => size <= max_file_size /\ exists ino, truncate_target a fi path = Ok ino /\
      file_only fs L a ino a' /\
      let i := inode_at fs (c_view a) ino in
      let blocks' := kept fs a ino size in
      inode_at fs (c_view a') ino = set_size_mtime size (u64 now) (set_blocks blocks' i) /\
      (size < i_size i -> freed fs (c_view a') (drop (keep_blocks size) (i_blocks i))) /\
      forall x, 0 <= x < size -> file_byte (c_view a') blocks' x = file_byte (c_view a) (i_blocks i) x
  | Err rc =>
      a' = a /\ (rc = - EFBIG /\ max_file_size < size \/ truncate_target a fi path = Err rc \/ failed a rc) \/
      failed a rc /\ exists ino, truncate_target a fi path = Ok ino /\ step fs (L ∖ {[ino]}) a a'
  end.

Lemma op_truncate_spec L a fi path size now :
  fs_blocks fs a -> wf_image fs L (c_view a) -> 0 <= size < 2 ^ 64 ->
  (forall ino, truncate_target a fi path = Ok ino -> ino ∈ L /\ is_dir fs (c_view a) ino = false) ->
  triple rep a (logfs_op_truncate fs fi path size now) (op_truncate_post L a fi path size now).
Proof.
  intros Hb Hi Hsize Hfile. unfold logfs_op_truncate. rewrite (u64_small size) by lia. cbv zeta.
  destruct (Z.ltb_spec max_file_size size) as [Hbig|Hfit].
  { apply triple_fail. left. split; [done|by left]. }
  assert (Hbody : forall ino, truncate_target a fi path = Ok ino ->
    triple rep a (with_handle (truncate_body fs ino size (u64 now)))
      (op_truncate_post L a fi path size now)).
  { intros ino E. destruct (Hfile ino E) as [Hin Hd]. apply triple_handle. eapply triple_wand;
      [apply (truncate_body_spec fs Hfs L a ino size (u64 now)); [done..|lia|apply u64_range]|].
    intros r a' Hr. destruct r as [u|rc].
    - destruct Hr as (Hf & Hat & Hfr & Hbytes). split; [done|]. by exists ino.
    - destruct Hr as (Hc & Hrc & Hst). right. split; [done|]. by exists ino. }
  destruct fi as [fh|].
  - apply triple_bind, triple_ret. by apply Hbody.
  - apply (triple_lookup fs Hfs L); [done|done| | |exact Hbody].
    + intros rc E. left. split; [done|]. right. by left.
    + intros rc Hc Hrc. left. split; [done|]. right. by right.
Qed.
End ops.
