(* ===== verification/FsMachine.v ===== *)
(** The mounted file system as a state machine: calls of [fs_ops.c] and turns
    of the commit thread, in any order, keep the image well-formed; what a
    power failure leaves is a well-formed image too. *)

From S2P Require Import Prelude.
From S2P Require Import Bytes.
From S2P Require Import DiskFormat.
From S2P Require Import Blockdev.
From S2P Require Import DiskOps.
From S2P Require Import Journal.
From S2P Require Import JournalLog.
From S2P Require Import JournalInv.
From S2P Require Import JournalRecover.
From S2P Require Import JournalSafety.
From S2P Require Import Txn.
From S2P Require Import TxnInv.
From S2P Require Import TxnSafety.
From S2P Require Import TxnCommit.
From S2P Require Import TxnView.
From S2P Require Import TxnApi.
From S2P Require Import TxnStore.
From S2P Require Import FsFormat.
From S2P Require Import Inode.
From S2P Require Import InodeSpec.
From S2P Require Import InodeDir.
From S2P Require Import InodeDirSpec.
From S2P Require Import InodeWalk.
From S2P Require Import FsOps.
From S2P Require Import FsTree.
From S2P Require Import FsImage.
From S2P Require Import FsStep.
From S2P Require Import FsPath.
From S2P Require Import FsChange.
From S2P Require Import FsCalls.
From S2P Require Import FsFile.
From S2P Require Import FsWrite.
From S2P Require Import FsTruncate.
From S2P Require Import FsListing.
From S2P Require Import FsOpsSpec.

(** ** The calls *)

(** The entries of [logfs_fuse_ops] that go through the transactions;
    [fsync] is a turn of the commit thread, [release] does nothing. *)
Inductive fs_call :=
  | CGetattr (path : list byte)
  | CReaddir (path : list byte) (room : nat)
  | CMkdir (path : list byte) (mode now : Z)
  | CRmdir (path : list byte) (now : Z)
  | CCreate (path : list byte) (mode now : Z)
  | COpen (path : list byte)
  | CRead (fh size offset : Z)
  | CWrite (fh : Z) (buf : list byte) (offset now : Z)
  | CTruncate (fi : option Z) (path : list byte) (size now : Z)
  | CUnlink (path : list byte).

Section calls.
Context {S : Type} `{TxnLaws S} (fs : logfs_super) (Hfs : wf_fs fs).
Implicit Types (L : gset Z) (a : contents).

Definition perform (c : fs_call) : M S unit :=
  match c with
  | CGetattr path => logfs_op_getattr fs path ;; mret tt
  | CReaddir path room => logfs_op_readdir fs path room ;; mret tt
  | CMkdir path mode now => logfs_op_mkdir fs path mode now
  | CRmdir path now => logfs_op_rmdir fs path now
  | CCreate path mode now => logfs_op_create fs path mode now ;; mret tt
  | COpen path => logfs_op_open fs path ;; mret tt
  | CRead fh size offset => logfs_op_read fs fh size offset ;; mret tt
  | CWrite fh buf offset now => logfs_op_write fs fh buf offset now ;; mret tt
  | CTruncate fi path size now => logfs_op_truncate fs fi path size now
  | CUnlink path => logfs_op_unlink fs path
  end.

(** The inodes a path can lead to. *)
Inductive live (v : Z -> block) : Z -> Prop :=
  | live_root : live v LOGFS_ROOT_INO
  | live_entry d m name x : live v d -> tree fs v d = Some m -> m !! name = Some x -> live v x.1.

Definition live_file (v : Z -> block) (ino : Z) : Prop := live v ino /\ tree fs v ino = None.

(** What the kernel guarantees of the calls it makes: no name is "." or
    "..", only files are unlinked, truncated, read and written, and only
    while they have a name; offsets and sizes do not wrap.  And what the code
    does not check: a new inode has a slot in the table. *)
Definition permitted a (c : fs_call) : Prop :=
  let v := c_view a in
  match c with
  | CMkdir _ _ _ | CCreate _ _ _ => table_room fs a
  | CRmdir path _ => rmdir_allowed fs a path
  | CUnlink path => unlink_allowed fs a path
  | CRead fh size offset => live_file v (u32 fh) /\ 0 <= size /\ u64 offset + size < 2 ^ 64
  | CWrite fh buf offset _ =>
      live_file v (u32 fh) /\ 0 <= offset /\ offset + Z.of_nat (length buf) < 2 ^ 64
  | CTruncate fi path size _ =>
      0 <= size < 2 ^ 64 /\ forall ino, truncate_target fs a fi path = Ok ino -> live_file v ino
  | _ => True
  end.

(** A calm file system in journal mode. *)
Record sound L a : Prop := {
  so_client : fs_blocks fs a;
  so_image : wf_image fs L (c_view a);
  so_calm : c_calm a = true;
  so_logs : c_logs a = true;
  so_data b : in_data fs b -> c_data a b;
}.

Lemma sound_env L L' a a' :
  sound L a -> same_env a a' -> wf_image fs L' (c_view a') -> sound L' a'.
Proof.
  intros [Hb Hi Hc Hl Hd] He Hi'. split; [by eapply fs_blocks_env|done| | |].
  - by rewrite (se_calm _ _ He).
  - by rewrite (se_logs _ _ He).
  - intros b Hb'. apply (se_data _ _ He); [by apply Hd|done].
Qed.

Lemma live_in L v i : wf_image fs L v -> live v i -> i ∈ L.
Proof.
  intros Hi Hl. induction Hl as [|d m name x Hl IH Hm Hx]; [apply (im_names _ _ _ Hi)|].
  by destruct (nm_names _ _ (im_names _ _ _ Hi) d m name x IH Hm Hx).
Qed.

Lemma live_file_in L v i : wf_image fs L v -> live_file v i -> i ∈ L /\ is_dir fs v i = false.
Proof. intros Hi [Hl Ht]. split; [by eapply live_in|by apply tree_file]. Qed.

Definition kept_sound a a' : Prop := same_env a a' /\ exists L', sound L' a'.

Lemma kept_intro L L' a a' :
  sound L a -> same_env a a' -> wf_image fs L' (c_view a') -> kept_sound a a'.
Proof. intros Hs He Hi. split; [done|]. exists L'. by eapply sound_env. Qed.

Lemma not_failed L a rc : sound L a -> ~ failed a rc.
Proof. intros Hs [Hc _]. by rewrite (so_calm _ _ Hs) in Hc. Qed.

(** Calls that change nothing. *)
Lemma perform_quiet {A} a (m : M S A) :
  triple rep a m (fun _ a' => a' = a) -> triple rep a (m ;; mret tt) (fun _ a' => a' = a).
Proof.
  intros Hm. apply triple_bind. eapply triple_wand; [exact Hm|]. intros r a' ->.
  destruct r; [by apply triple_ret|done].
Qed.

Lemma perform_keeps L a c :
  sound L a -> permitted a c -> triple rep a (perform c) (fun _ a' => kept_sound a a').
Proof.
  intros Hs. pose proof Hs as [Hb Hi Hcalm Hlogs Hdata].
  assert (Hquiet : forall (m : M S unit), triple rep a m (fun _ a' => a' = a) ->
    triple rep a m (fun _ a' => kept_sound a a')).
  { intros m Hm. eapply triple_wand; [exact Hm|]. intros r a' ->. by apply (kept_intro L L). }
  assert (Hsafe : forall path, create_safe fs a path) by (intros path p name _; by left).
  destruct c as [path|path room|path mode now|path now|path mode now|path|fh size offset
    |fh buf offset now|fi path size now|path]; cbn [perform permitted]; intros Hper.
  - apply Hquiet, perform_quiet. unfold logfs_op_getattr.
    apply (triple_lookup fs Hfs L); [done|done|done|done|]. intros ino Hino.
    pose proof (resolve_path_live fs Hfs L _ _ _ Hi Hino) as Hin.
    eapply triple_outcome; [apply inode_read_spec; [done|done|by apply (st_table _ _ _ (im_store _ _ _ Hi))]|done|].
    by apply triple_ret.
  - apply Hquiet, perform_quiet. eapply triple_wand; [by apply (op_readdir_spec fs Hfs L)|]. by intros r a' [-> _].
  - eapply triple_wand; [by apply (op_mkdir_spec fs Hfs L)|]. intros r a' [He Hr].
    destruct r as [u|rc].
    + destruct Hr as (p & name & n & nb & _ & Hins & _). eapply kept_intro; [exact Hs|exact He|apply Hins].
    + destruct Hr as [[Hu _]|[Hf _]]; [|by apply (not_failed L) in Hf].
      eapply kept_intro; [exact Hs|exact He|apply Hu].
  - eapply triple_wand; [by apply (op_rmdir_spec fs Hfs L)|]. intros r a' [He Hr].
    destruct r as [u|rc].
    + destruct Hr as (p & name & t & ty & m & _ & _ & _ & Hr & _).
      eapply kept_intro; [exact Hs|exact He|apply Hr].
    + destruct Hr as [[Hu _]|[Hf _]]; [|by apply (not_failed L) in Hf].
      eapply kept_intro; [exact Hs|exact He|apply Hu].
  - apply triple_bind. eapply triple_wand; [by apply (op_create_spec fs Hfs L)|]. intros r a' [He Hr].
    destruct r as [n|rc].
    + destruct Hr as (p & name & _ & Hins & _). apply triple_ret.
      eapply kept_intro; [exact Hs|exact He|apply Hins].
    + destruct Hr as [Hu _]. eapply kept_intro; [exact Hs|exact He|apply Hu].
  - apply Hquiet, perform_quiet. unfold logfs_op_open.
    eapply triple_wand; [apply (path_lookup_spec fs Hfs (fun i => i ∈ L)); [done|by apply image_tree]|].
    by intros r a' [-> _].
  - apply Hquiet, perform_quiet. destruct Hper as (Hlf & Hsz & Hmax).
    destruct (live_file_in L _ _ Hi Hlf) as [Hin Hd].
    eapply triple_wand; [apply (op_read_spec fs L a fh size offset); try done; apply Hi|]. by intros r a' [-> _].
  - destruct Hper as (Hlf & Hoff & Hmax). destruct (live_file_in L _ _ Hi Hlf) as [Hin Hd].
    apply triple_bind. eapply triple_wand.
    { apply (op_write_spec fs Hfs L a fh buf offset now); try done. intros b Hbd _. by apply Hdata. }
    intros r a' [(He & Hi' & _) _]. destruct r; [apply triple_ret|]; by eapply kept_intro.
  - destruct Hper as (Hsz & Hlf).
    eapply triple_wand; [apply (op_truncate_spec fs Hfs L a fi path size now); try done|].
    { intros ino E. apply live_file_in; [done|by apply Hlf]. }
    intros r a' Hr. destruct r as [u|rc].
    + destruct Hr as (_ & ino & _ & (He & Hi' & _) & _). by eapply kept_intro.
    + destruct Hr as [[-> _]|[Hf _]]; [by apply (kept_intro L L)|by apply (not_failed L) in Hf].
  - eapply triple_wand; [by apply (op_unlink_spec fs Hfs L)|]. intros r a' [He Hr].
    destruct r as [u|rc].
    + destruct Hr as (p & name & t & ty & _ & Hr). eapply kept_intro; [exact Hs|exact He|apply Hr].
    + destruct Hr as [[Hu _]|[Hf _]]; [|by apply (not_failed L) in Hf].
      eapply kept_intro; [exact Hs|exact He|apply Hu].
Qed.
End calls.

(** ** The state *)

Section machine.
Context (fs : logfs_super) (Hfs : wf_fs fs).
Implicit Types s : tst.

(** The blocks of the file system. *)
Definition fs_block (b : Z) : Prop := sb_inode_bitmap_start fs <= b < sb_total_blocks fs.

(** Only these count. *)
Lemma image_ext L v v' :
  wf_image fs L v -> (forall b, fs_block b -> v' b = v b) -> wf_image fs L v'.
Proof.
  intros Hi Hv. pose proof Hfs as []. pose proof (im_store _ _ _ Hi) as Hs.
  apply (image_keeps fs L v); [done|]. apply keeps_blocks_ext; [done|done|..].
  - intros b Hb. apply Hv. unfold fs_block. lia.
  - intros i _. unfold inode_used. rewrite Hv; [done|]. unfold fs_block. lia.
  - intros b Hb. destruct (owned_used fs L v b Hs Hb) as [_ Hu]. unfold block_used in *.
    rewrite Hv; [done|]. unfold fs_block. lia.
  - intros b Hb. destruct (owned_used fs L v b Hs Hb) as [[? ?] _]. apply Hv. unfold fs_block. lia.
Qed.

(** Whatever part of the cache survives a power failure, recovery finds the
    committed contents. *)
Definition settled s : Prop :=
  forall b c, ~ journal_block (tm_journal (mg s)) b ->
    allowed (b_disk (td s)) (ckpt_nodes (tm_ckpt (mg s))) b c -> c = committed s b.

(** A mounted file system in journal mode between two calls: the contents
    its clients see and the contents a power failure would leave are both
    well-formed images; only blocks of the file system are staged or waiting
    to be checkpointed; the device is the one the superblock describes. *)
Record mounted s : Prop := {
  mo_inv : mgr_inv s;
  mo_open : tm_freezing (mg s) = false;
  mo_mode : tm_mode (mg s) = LOGFS_MODE_JOURNAL;
  mo_client b : fs_block b -> stageable s b;
  mo_settled : settled s;
  mo_image : exists L, wf_image fs L (view s);
  mo_base : exists L, wf_image fs L (committed s);
  mo_staged b : is_Some (find_dirty (mg s) b) -> fs_block b;
  mo_ckpt w : w ∈ ckpt_nodes (tm_ckpt (mg s)) -> fs_block w.1;
  mo_nblocks : nblocks (b_disk (td s)) = sb_total_blocks fs;
  mo_region : j_first (tm_journal (mg s)) = sb_journal_start fs /\
              j_maxlen (tm_journal (mg s)) = sb_journal_len fs;
  mo_apart : LOGFS_SUPER_BLOCKNO < sb_inode_bitmap_start fs;
  mo_super : committed s LOGFS_SUPER_BLOCKNO = pad_block (encode_super fs);
}.

Definition calm s : Prop := sys (td s) = [] /\ heap (td s) = [].

(** The kernel's and the allocator's answers to come are no part of it. *)
Lemma mounted_device s answers allocs :
  mounted s -> mounted (mkTst (mg s) (mkBdev (b_disk (td s)) answers allocs)).
Proof.
  destruct s as [m d]. intros [H1 H2 H3 H4 H5 H6 H7 H8 H9 H10 H11 H12 H13]. split; [|done..].
  exact (mgr_inv_unmoved m d (mkBdev (b_disk d) answers allocs) eq_refl H1).
Qed.

(** What the file system, and no other block, sees of it. *)
Abbreviation fs_contents := (based_contents fs_block).

Lemma machine_rep s : mounted s -> calm s -> rep_mgr (fs_contents s) s.
Proof.
  intros Hm [Hs _]. apply rep_based_contents; [apply Hm| |apply Hm|apply Hm|].
  - rewrite Hs. apply not_elem_of_nil.
  - intros b Hb%(mo_staged _ Hm). split; [done|by apply (mo_client _ Hm)].
Qed.

Lemma mounted_sound L s : mounted s -> calm s -> wf_image fs L (view s) -> sound fs L (fs_contents s).
Proof.
  intros [H1 H2 H3 H4 H5 H6 H7 H8 H9 H10 H11 H12 H13] Hc Hi.
  split; cbn [based_contents contents_of c_view c_calm c_logs c_data c_block].
  - intros b Hb. split; [exact Hb|by apply H4].
  - exact Hi.
  - by apply bool_decide_eq_true.
  - by apply bool_decide_eq_true.
  - intros b _. by left.
Qed.

Lemma home_client s b : mounted s -> fs_block b -> ~ journal_block (tm_journal (mg s)) b.
Proof. intros Hm Hb. by apply (mo_client _ Hm). Qed.

(** What the calls of the file system leave. *)
Lemma mounted_after s s' a' :
  mounted s -> calm s -> rep_mgr a' s' -> kept_sound fs (fs_contents s) a' ->
  mounted s' /\ calm s' /\ beneath_of s' = beneath_of s.
Proof.
  intros Hm Hc Hrep [He [L' Hs']]. pose proof Hm as [H1 H2 H3 H4 H5 H6 H7 H8 H9 H10 H11 H12 H13].
  assert (Hbase : c_base a' = Some (beneath_of s)) by (by rewrite (se_base _ _ He)).
  destruct (rm_base _ _ Hrep _ Hbase) as (Hmode & Hdu & Hst). pose proof Hdu as [= Ej Eck Ed].
  assert (Hcom : forall b, committed s' b = committed s b) by (intros b; unfold committed; by rewrite Eck, Ed).
  split; [split|split; [apply (rm_calm _ _ Hrep), Hs'|exact Hdu]].
  - apply (rm_inv _ _ Hrep).
  - apply (rm_open _ _ Hrep).
  - exact Hmode.
  - intros b Hb. apply (rm_block _ _ Hrep), (so_client _ _ _ Hs'), Hb.
  - unfold settled. rewrite Ej, Eck, Ed. intros b c Hb Hal. rewrite Hcom. by apply (H5 b c).
  - exists L'. eapply image_ext; [apply Hs'|]. intros b _. symmetry. apply (rm_view _ _ Hrep).
  - destruct H7 as [L HL]. exists L. by eapply image_ext.
  - intros b Hb%Hst. rewrite (se_block _ _ He) in Hb. by destruct Hb.
  - rewrite Eck. exact H9.
  - rewrite Ed. exact H10.
  - rewrite Ej. exact H11.
  - exact H12.
  - rewrite Hcom. exact H13.
Qed.

Lemma perform_mounted s c :
  mounted s -> calm s -> permitted fs (fs_contents s) c ->
  mounted (perform fs c s).2 /\ calm (perform fs c s).2 /\
  beneath_of (perform fs c s).2 = beneath_of s.
Proof.
  intros Hm Hc Hp. destruct (mo_image _ Hm) as [L HL].
  destruct (perform_keeps fs Hfs L (fs_contents s) c (mounted_sound L s Hm Hc HL) Hp s)
    as (a' & Hrep & Hk); [by apply machine_rep|]. by eapply mounted_after.
Qed.

(** ** Turns of the commit thread *)

(** The superblock is neither in the journal nor among the blocks clients use. *)
Lemma super_apart s : mounted s -> ~ journal_block (tm_journal (mg s)) LOGFS_SUPER_BLOCKNO.
Proof.
  intros Hm. pose proof (geo_first _ _ (li_geo _ _ _ (mi_log _ (mo_inv _ Hm)))).
  unfold journal_block, in_log, LOGFS_SUPER_BLOCKNO, LOGFS_JSUPER_BLOCKNO. lia.
Qed.

(** No write that is staged or logged is to it. *)
Lemma super_unlogged s :
  mounted s -> latest (ckpt_nodes (tm_ckpt (mg s)) ++ staged_nodes (mg s)) LOGFS_SUPER_BLOCKNO = None.
Proof.
  intros Hm. assert (Hn : ~ fs_block LOGFS_SUPER_BLOCKNO).
  { intros [Hb _]. pose proof (mo_apart _ Hm). lia. }
  rewrite latest_app. destruct (latest (staged_nodes (mg s)) LOGFS_SUPER_BLOCKNO) as [c|] eqn:E.
  - exfalso. apply Hn, (mo_staged _ Hm). rewrite find_dirty_latest by apply Hm. by eexists.
  - apply latest_none. intros c Hin. by apply (mo_ckpt _ Hm) in Hin.
Qed.

Lemma super_view s : mounted s -> view s LOGFS_SUPER_BLOCKNO = committed s LOGFS_SUPER_BLOCKNO.
Proof.
  intros Hm. pose proof (super_unlogged s Hm) as E. unfold view, committed, overlay. rewrite E.
  rewrite latest_app in E. by destruct (latest (staged_nodes (mg s)) LOGFS_SUPER_BLOCKNO); [|rewrite E].
Qed.

(** What may survive a turn is what was staged and committed before it. *)
Lemma staged_allowed s b c :
  mounted s -> ~ journal_block (tm_journal (mg s)) b ->
  allowed (b_disk (td s)) (ckpt_nodes (tm_ckpt (mg s)) ++ staged_nodes (mg s)) b c -> c = view s b.
Proof.
  intros Hm Hb Hal. unfold view, overlay. unfold allowed in Hal.
  destruct (latest (ckpt_nodes (tm_ckpt (mg s)) ++ staged_nodes (mg s)) b) as [c'|] eqn:E; [done|].
  assert (E1 : latest (ckpt_nodes (tm_ckpt (mg s))) b = None).
  { rewrite latest_app in E. by destruct (latest (staged_nodes (mg s)) b). }
  rewrite (mo_settled _ Hm b c Hb); [|unfold allowed; by rewrite E1].
  unfold committed, overlay. by rewrite E1.
Qed.

Lemma turn_mounted s :
  mounted s -> ready s -> calm s ->
  exists s', commit_cycle s = (Ok tt, s') /\ turn_done s s' /\ mounted s' /\ calm s'.
Proof.
  intros Hm Hr [Hsys Hheap]. pose proof Hm as [H1 H2 H3 H4 H5 [L HL] _ H8 H9 H10 H11 H12 H13].
  assert (Hl : live_io (td s)) by (unfold live_io; rewrite Hsys; constructor).
  pose proof (commit_cycle_safe s H1 Hr Hl Hheap) as Hsafe. unfold crash_safe in Hsafe.
  destruct (commit_cycle s) as [r s'] eqn:E.
  destruct Hsafe as (_ & Hheap' & Hsys' & [([] & -> & Hd)|[[l Hdead] _]]);
    [|rewrite (Hsys' Hsys) in Hdead; done].
  assert (Hhome : forall b, ~ journal_block (tm_journal (mg s')) b <-> ~ journal_block (tm_journal (mg s)) b).
  { intros b. by rewrite (same_region_blocks _ _ _ (tn_region _ _ Hd)). }
  exists s'. split; [done|]. split; [done|]. split; [split|by split; [apply Hsys'|]].
  - apply Hd.
  - apply Hd.
  - by rewrite (tn_mode _ _ Hd).
  - intros b Hb. destruct (H4 b Hb) as [Hrange Hj]. split; [by rewrite (tn_nblocks _ _ Hd)|by apply Hhome].
  - intros b c Hb%Hhome Hal. rewrite (proj2 (tn_view _ _ Hd b Hb)).
    apply staged_allowed; [done|done|]. by apply (tn_narrows _ _ Hd).
  - exists L. apply (image_ext L (view s)); [done|]. intros b Hb. by apply (tn_view _ _ Hd), H4.
  - exists L. apply (image_ext L (view s)); [done|]. intros b Hb. by apply (tn_view _ _ Hd), H4.
  - intros b. rewrite find_dirty_latest, (tn_staged _ _ Hd) by apply Hd. by intros [].
  - intros w [Hw|Hw]%(tn_nodes _ _ Hd)%elem_of_app; [by apply H9|]. by apply H8, staged_dirty; [apply H1|].
  - by rewrite (tn_nblocks _ _ Hd).
  - destruct (tn_region _ _ Hd) as [E1 E2], H11 as [E3 E4]. split; congruence.
  - exact H12.
  - rewrite (proj2 (tn_view _ _ Hd _ (super_apart s Hm))). by rewrite super_view.
Qed.

(** ** Runs *)

(** Calls, each one permitted when it is made, and turns of the commit thread
    with room for what is staged. *)
Inductive reach (s0 : tst) : tst -> Prop :=
  | reach_start : reach s0 s0
  | reach_call s c : reach s0 s -> permitted fs (fs_contents s) c -> reach s0 (perform fs c s).2
  | reach_turn s : reach s0 s -> ready s -> reach s0 (commit_cycle s).2.

Lemma reach_mounted s0 s : mounted s0 -> calm s0 -> reach s0 s -> mounted s /\ calm s.
Proof.
  intros Hm Hc Hr. induction Hr as [|s c Hr [IHm IHc] Hp|s Hr [IHm IHc] Hready]; [done| |].
  - by destruct (perform_mounted s c IHm IHc Hp) as (? & ? & _).
  - destruct (turn_mounted s IHm Hready IHc) as (s' & -> & _ & ? & ?). done.
Qed.

(** ** Power failures *)

(** Between calls. *)
Lemma crash_between s img b :
  mounted s -> crash_image (b_disk (td s)) img -> ~ journal_block (tm_journal (mg s)) b ->
  recovered (tm_journal (mg s)) img b = committed s b.
Proof.
  intros Hm Hcr Hb. pose proof (log_survives _ _ _ _ (mi_log _ (mo_inv _ Hm)) Hcr) as Hsv.
  rewrite all_writes_ckpt in Hsv. by apply (mo_settled _ Hm b), Hsv.
Qed.

(** The image recovery finds, and which one it is. *)
Definition recovers_fs (v : Z -> block) (j : logfs_journal) (img : image) : Prop :=
  forall b, fs_block b -> recovered j img b = v b.

(** After a turn that found no failure nothing is in memory only. *)
Lemma crash_after_turn s s' img b :
  mounted s -> turn_done s s' -> mounted s' -> crash_image (b_disk (td s')) img -> fs_block b ->
  recovered (tm_journal (mg s')) img b = view s b.
Proof.
  intros Hm Hd Hm' Hcr Hb. rewrite (crash_between s' img b Hm' Hcr) by by apply home_client.
  by apply (tn_view _ _ Hd), home_client.
Qed.

(** In the middle of a turn. *)
Lemma crash_within s img :
  mounted s -> turn_crash s img -> exists v, (v = committed s \/ v = view s) /\
    forall b, ~ journal_block (tm_journal (mg s)) b -> recovered (tm_journal (mg s)) img b = v b.
Proof.
  intros Hm [Hsv|Hsv]; [exists (committed s)|exists (view s)]; (split; [by auto|]); intros b Hb.
  - by apply (mo_settled _ Hm b), Hsv.
  - by apply staged_allowed, Hsv.
Qed.

Lemma crash_in_turn s img :
  mounted s -> turn_crash s img ->
  recovers_fs (committed s) (tm_journal (mg s)) img \/ recovers_fs (view s) (tm_journal (mg s)) img.
Proof.
  intros Hm Ht. destruct (crash_within s img Hm Ht) as (v & [->| ->] & H); [left|right];
    intros b Hb; by apply H, home_client.
Qed.
End machine.
