(* ===== verification/FsLayout.v ===== *)
(** The layout [logfs_fs_format] computes: the regions follow each other and
    fit, the superblock survives the disk, and the tests of
    [logfs_fs_mount] accept it. *)

From S2P Require Import Prelude.
From S2P Require Import Bytes.
From S2P Require Import Crc32.
From S2P Require Import DiskFormat.
From S2P Require Import Journal.
From S2P Require Import JournalLog.
From S2P Require Import JournalSafety.
From S2P Require Import FsFormat.
From S2P Require Import Inode.
From S2P Require Import InodeBits.
From S2P Require Import InodeSpec.
From S2P Require Import Fs.

(** ** The superblock as a value of its C type *)

Record wf_super (sb : logfs_super) : Prop := {
  ws_32 : Forall (fun x => 0 <= x < 2 ^ 32)
            [sb_magic sb; sb_version sb; sb_block_size sb; sb_data_mode sb; sb_root_ino sb;
             sb_last_orphan sb; sb_checksum sb; sb_reserved sb];
  ws_64 : Forall (fun x => 0 <= x < 2 ^ 64)
            [sb_total_blocks sb; sb_journal_start sb; sb_journal_len sb;
             sb_inode_bitmap_start sb; sb_block_bitmap_start sb; sb_inode_table_start sb;
             sb_inode_table_len sb; sb_data_start sb; sb_total_inodes sb];
}.

Lemma decode_encode_super sb rest :
  wf_super sb -> decode_super (encode_super sb ++ rest) = sb.
Proof.
  intros [H32 H64]. repeat rewrite Forall_cons in H32. repeat rewrite Forall_cons in H64.
  destruct sb as [a1 a2 a3 a4 a5 a6 a7 a8 a9 a10 a11 a12 a13 a14 a15 a16 a17].
  unfold decode_super, encode_super.
  cbn [sb_magic sb_version sb_block_size sb_data_mode sb_total_blocks sb_journal_start
    sb_journal_len sb_inode_bitmap_start sb_block_bitmap_start sb_inode_table_start
    sb_inode_table_len sb_data_start sb_total_inodes sb_root_ino sb_last_orphan sb_checksum
    sb_reserved] in *.
  rewrite <-!app_assoc.
  f_equal; field; rewrite ?le_num_put32, ?le_num_put64;
    first [apply u32_small; tauto | apply u64_small; tauto].
Qed.

Lemma super_checksum_range sb : 0 <= super_checksum sb < 2 ^ 32.
Proof. apply logfs_crc32_final_range, logfs_crc32_update_range. unfold logfs_crc32_init. lia. Qed.

Lemma super_checksum_set c sb : super_checksum (set_checksum c sb) = super_checksum sb.
Proof.
  assert (E : set_checksum 0 (set_checksum c sb) = set_checksum 0 sb) by reflexivity.
  unfold super_checksum. rewrite E. reflexivity.
Qed.

(** A burst of damage outside the checksum changes it. *)
Lemma super_checksum_burst sb sb' pre x y post :
  encode_super (set_checksum 0 sb) = pre ++ x ++ post ->
  encode_super (set_checksum 0 sb') = pre ++ y ++ post ->
  length x = length y -> (length x <= 4)%nat -> x <> y ->
  super_checksum sb <> super_checksum sb'.
Proof.
  intros Hx Hy Hl H4 Hne. pose proof (logfs_crc32_burst pre x y post Hl H4 Hne) as H.
  unfold super_checksum. rewrite Hx, Hy. exact H.
Qed.

#[global] Opaque super_checksum.

Lemma wf_set_checksum c sb : 0 <= c < 2 ^ 32 -> wf_super sb -> wf_super (set_checksum c sb).
Proof.
  intros Hc [H32 H64]. split; [|exact H64]. repeat rewrite Forall_cons in *.
  cbn [set_checksum sb_magic sb_version sb_block_size sb_data_mode sb_root_ino sb_last_orphan
    sb_checksum sb_reserved]. tauto.
Qed.

Lemma encode_super_inj sb sb' :
  wf_super sb -> wf_super sb' -> encode_super sb = encode_super sb' -> sb = sb'.
Proof.
  intros H H' E. by rewrite <-(decode_encode_super sb [] H), <-(decode_encode_super sb' [] H'), E.
Qed.

(** ** The computed layout *)

(** What [logfs_fs_format] accepts, with sizes that fit a file. *)
Record formattable (total jlen : Z) : Prop := {
  fm_journal : 0 < jlen;
  fm_total : total < 2 ^ 51;
  fm_room : 3 + jlen + 2 + mkfs_inode_table_len (mkfs_total_inodes total) < total;
  fm_data : total - (3 + jlen + 2 + mkfs_inode_table_len (mkfs_total_inodes total)) <= 32768;
}.

Lemma mkfs_total_inodes_range total : 16 <= mkfs_total_inodes total < bitmap_bits.
Proof.
  unfold mkfs_total_inodes, LOGFS_FS_MAX_BITMAP_UNITS, bitmap_bits, LOGFS_BLOCK_SIZE. cbv zeta.
  repeat case_bool; zify_bool; lia.
Qed.

(** The table holds the bytes of its inodes. *)
Lemma mkfs_table_len n :
  16 <= n < bitmap_bits ->
  1 <= mkfs_inode_table_len n <= 1152 /\
  4096 * (mkfs_inode_table_len n - 1) < 144 * n <= 4096 * mkfs_inode_table_len n.
Proof.
  unfold mkfs_inode_table_len, bitmap_bits, sizeof_inode, LOGFS_BLOCK_SIZE. intros Hn.
  rewrite u64_small by lia. change (Z.of_nat 144) with 144.
  pose proof (Z.div_mod (n * 144 + 4096 - 1) 4096). pose proof (Z.mod_pos_bound (n * 144 + 4096 - 1) 4096).
  lia.
Qed.

Lemma mkfs_super_data_start total jlen mode :
  0 <= jlen < 2 ^ 51 ->
  sb_data_start (mkfs_super total jlen mode)
  = 3 + jlen + 2 + mkfs_inode_table_len (mkfs_total_inodes total).
Proof.
  intros Hj. pose proof (mkfs_table_len _ (mkfs_total_inodes_range total)) as [Hl _].
  unfold mkfs_super, LOGFS_JOURNAL_REGION_START. cbn [set_checksum sb_data_start].
  rewrite (u64_small (3 + jlen)), (u64_small (3 + jlen + 1)), (u64_small (3 + jlen + 1 + 1)) by lia.
  rewrite u64_small by lia. lia.
Qed.

Section layout.
Context (total jlen : Z) (mode : logfs_data_mode).
Hypothesis Hfm : formattable total jlen.

Abbreviation sb := (mkfs_super total jlen mode).
Abbreviation len := (mkfs_inode_table_len (mkfs_total_inodes total)).

Lemma mkfs_super_eq :
  sb = mkSuper LOGFS_SUPER_MAGIC LOGFS_FORMAT_VERSION LOGFS_BLOCK_SIZE (mode_num mode)
         total 3 jlen (3 + jlen) (3 + jlen + 1) (3 + jlen + 2) len (3 + jlen + 2 + len)
         (mkfs_total_inodes total) LOGFS_ROOT_INO 0 (super_checksum sb) 0.
Proof.
  destruct Hfm. pose proof (mkfs_table_len _ (mkfs_total_inodes_range total)) as [Hl _].
  unfold mkfs_super at 1. cbv zeta. unfold LOGFS_JOURNAL_REGION_START.
  rewrite (u64_small (3 + jlen)), (u64_small (3 + jlen + 1)), (u64_small (3 + jlen + 1 + 1)),
    (u64_small (3 + jlen + 1 + 1 + len)) by lia.
  unfold set_checksum. cbn [sb_magic sb_version sb_block_size sb_data_mode sb_total_blocks
    sb_journal_start sb_journal_len sb_inode_bitmap_start sb_block_bitmap_start
    sb_inode_table_start sb_inode_table_len sb_data_start sb_total_inodes sb_root_ino
    sb_last_orphan sb_checksum sb_reserved].
  unfold mkfs_super. cbv zeta. rewrite super_checksum_set. unfold LOGFS_JOURNAL_REGION_START.
  rewrite (u64_small (3 + jlen)), (u64_small (3 + jlen + 1)), (u64_small (3 + jlen + 1 + 1)),
    (u64_small (3 + jlen + 1 + 1 + len)) by lia.
  by replace (3 + jlen + 1 + 1) with (3 + jlen + 2) by lia.
Qed.

Lemma mkfs_wf_super : 0 <= mode_num mode < 2 ^ 32 -> wf_super sb.
Proof.
  intros Hm. pose proof (super_checksum_range sb) as Hc. rewrite mkfs_super_eq. destruct Hfm.
  pose proof (mkfs_total_inodes_range total) as Hi. unfold bitmap_bits, LOGFS_BLOCK_SIZE in Hi.
  pose proof (mkfs_table_len _ (mkfs_total_inodes_range total)) as [Hl _].
  split; repeat (apply Forall_cons; split); try apply Forall_nil; try done;
    cbn [sb_magic sb_version sb_block_size sb_data_mode sb_total_blocks sb_journal_start
    sb_journal_len sb_inode_bitmap_start sb_block_bitmap_start sb_inode_table_start
    sb_inode_table_len sb_data_start sb_total_inodes sb_root_ino sb_last_orphan sb_checksum
    sb_reserved]; try done; lia.
Qed.

Lemma mkfs_wf_fs : wf_fs sb.
Proof.
  rewrite mkfs_super_eq. destruct Hfm.
  pose proof (mkfs_total_inodes_range total) as Hi. unfold bitmap_bits, LOGFS_BLOCK_SIZE in Hi.
  pose proof (mkfs_table_len _ (mkfs_total_inodes_range total)) as [Hl _].
  split; cbn [sb_inode_bitmap_start sb_block_bitmap_start sb_inode_table_start sb_inode_table_len
    sb_data_start sb_total_blocks sb_total_inodes sb_root_ino];
    unfold bitmap_bits, LOGFS_BLOCK_SIZE; try lia; done.
Qed.

Lemma mkfs_geometry : wf_geometry (fresh_journal 3 jlen) total.
Proof.
  destruct Hfm. pose proof (mkfs_table_len _ (mkfs_total_inodes_range total)) as [Hl _].
  split; cbn [fresh_journal j_first j_maxlen]; lia.
Qed.

(** The journal and the file system share no block. *)
Lemma mkfs_not_journal b : sb_inode_bitmap_start sb <= b -> ~ journal_block (fresh_journal 3 jlen) b.
Proof.
  rewrite mkfs_super_eq. cbn [sb_inode_bitmap_start]. destruct Hfm.
  unfold journal_block, in_log, LOGFS_JSUPER_BLOCKNO. cbn [fresh_journal j_first j_maxlen]. lia.
Qed.

Lemma mkfs_root_in_table : in_table sb LOGFS_ROOT_INO.
Proof.
  rewrite mkfs_super_eq. pose proof (mkfs_total_inodes_range total).
  pose proof (mkfs_table_len _ (mkfs_total_inodes_range total)) as [Hl _].
  unfold in_table, LOGFS_ROOT_INO. cbn [sb_total_inodes sb_inode_table_len]. lia.
Qed.

Lemma mkfs_super_accepted : super_error sb total = None.
Proof.
  assert (Hc : sb_checksum sb = super_checksum sb) by by rewrite mkfs_super_eq at 1.
  unfold super_error. rewrite Hc, Z.eqb_refl, mkfs_super_eq.
  cbn [sb_magic sb_total_blocks]. by rewrite !Z.eqb_refl.
Qed.
End layout.
