(* ===== verification/FsMkfs.v ===== *)
(** The file system [logfs_fs_format] lays out: the operations it performs,
    under any kernel, and the tree they amount to - a root directory with
    nothing but "." and "..", every other inode free. *)

From S2P Require Import Prelude.
From S2P Require Import Bytes.
From S2P Require Import DiskFormat.
From S2P Require Import Blockdev.
From S2P Require Import DiskOps.
From S2P Require Import Journal.
From S2P Require Import JournalLog.
From S2P Require Import JournalInv.
From S2P Require Import JournalSafety.
From S2P Require Import TxnApi.
From S2P Require Import FsFormat.
From S2P Require Import Inode.
From S2P Require Import InodeBits.
From S2P Require Import InodeSpec.
From S2P Require Import InodeDir.
From S2P Require Import InodeDirSpec.
From S2P Require Import InodeWalk.
From S2P Require Import Fs.
From S2P Require Import FsOps.
From S2P Require Import FsTree.
From S2P Require Import FsNewDir.
From S2P Require Import FsImage.
From S2P Require Import FsLayout.

(** ** The tree of a fresh file system *)

(** The blocks of the file system just after mkfs. *)
Record fresh_view (sb : logfs_super) (now : Z) (v : Z -> block) : Prop := {
  fv_inode_bitmap : v (sb_inode_bitmap_start sb) = mkfs_inode_bitmap;
  fv_block_bitmap : v (sb_block_bitmap_start sb) = mkfs_block_bitmap;
  fv_table_first : v (sb_inode_table_start sb)
                   = pad_block (encode_inode (root_inode (sb_data_start sb) (u64 now)));
  fv_table b : sb_inode_table_start sb < b < sb_data_start sb -> v b = zero_block;
  fv_root : v (sb_data_start sb) = dir_block LOGFS_ROOT_INO LOGFS_ROOT_INO;
}.

Lemma wf_root_inode ds now : 0 <= ds < 2 ^ 64 -> wf_inode (root_inode ds (u64 now)).
Proof.
  intros Hd. pose proof (u64_range now). split; cbn [root_inode i_mode i_nlink i_uid i_gid i_size
    i_atime i_mtime i_ctime i_blocks]; [| | |reflexivity];
    repeat (apply Forall_cons; split); try apply Forall_nil; try done; unfold LOGFS_BLOCK_SIZE; lia.
Qed.

Lemma drop_zeros n m : drop n (replicate m Byte.x00) = replicate (m - n) Byte.x00.
Proof. apply drop_replicate. Qed.

(** A slot past the struct a block starts with reads as zeros. *)
Lemma slot_padded l i :
  length l = sizeof_inode -> (1 <= i)%nat ->
  exists m, slot sizeof_inode i (pad_block l) = replicate m Byte.x00.
Proof.
  intros Hl Hi. unfold slot, pad_block. rewrite drop_app_ge by (rewrite Hl; unfold sizeof_inode; lia).
  rewrite drop_zeros, take_replicate. by eexists.
Qed.

Lemma slot_padded_first l : length l = sizeof_inode -> slot sizeof_inode 0 (pad_block l) = l.
Proof. intros Hl. unfold slot, pad_block. rewrite Nat.mul_0_r, drop_0. by apply take_app_length'. Qed.

Lemma zeros_not_dir m : S_ISDIR (i_mode (decode_inode (replicate m Byte.x00))) = false.
Proof. unfold decode_inode. cbn [i_mode]. unfold get32. by rewrite get_zeros. Qed.

Lemma zero_block_bit i : test_bit zero_block i = false.
Proof.
  rewrite test_bit_spec. unfold bitmap_byte, zero_block. rewrite nth_lookup.
  destruct (replicate block_len Byte.x00 !! _) as [c|] eqn:E; cbn [default from_option id].
  - apply lookup_replicate_1 in E as [-> _]. apply Z.bits_0.
  - apply Z.bits_0.
Qed.

Section fresh.
Context (sb : logfs_super) (now : Z) (v : Z -> block).
Hypothesis Hfs : wf_fs sb.
Hypothesis Hroot : in_table sb LOGFS_ROOT_INO.
Hypothesis Hv : fresh_view sb now v.

Lemma data_start_range : 0 <= sb_data_start sb < 2 ^ 64.
Proof. destruct Hfs. lia. Qed.

Lemma fresh_root : inode_at sb v LOGFS_ROOT_INO = root_inode (sb_data_start sb) (u64 now).
Proof.
  unfold inode_at. rewrite inode_location_eq by done. change ((LOGFS_ROOT_INO - 1) / 28) with 0.
  change (Z.to_nat ((LOGFS_ROOT_INO - 1) mod 28)) with 0%nat. rewrite Z.add_0_r, (fv_table_first _ _ _ Hv).
  pose proof (wf_root_inode _ now data_start_range) as Hw.
  rewrite slot_padded_first by by apply length_encode_inode. by apply decode_encode_inode.
Qed.

Lemma fresh_other ino :
  in_table sb ino -> ino <> LOGFS_ROOT_INO -> S_ISDIR (i_mode (inode_at sb v ino)) = false.
Proof.
  intros Hin Hne. unfold inode_at. rewrite inode_location_eq by done.
  destruct (inode_block sb ino Hfs Hin) as [Hr _]. rewrite inode_location_eq in Hr by done. cbn [fst] in Hr.
  destruct Hin as [Hin _]. unfold LOGFS_ROOT_INO in Hne.
  destruct (decide ((ino - 1) / 28 = 0)) as [Hz|Hz].
  - rewrite Hz, Z.add_0_r, (fv_table_first _ _ _ Hv).
    pose proof (wf_root_inode _ now data_start_range) as Hw.
    destruct (slot_padded (encode_inode (root_inode (sb_data_start sb) (u64 now)))
      (Z.to_nat ((ino - 1) mod 28))) as [m ->]; [by apply length_encode_inode| |apply zeros_not_dir].
    pose proof (Z.div_mod (ino - 1) 28). pose proof (Z.mod_pos_bound (ino - 1) 28). lia.
  - rewrite (fv_table _ _ _ Hv) by (pose proof (Z.div_pos (ino - 1) 28); lia).
    unfold slot, zero_block. rewrite drop_zeros, take_replicate. apply zeros_not_dir.
Qed.

Lemma fresh_blocks : blocks_of sb v LOGFS_ROOT_INO = [sb_data_start sb].
Proof.
  unfold blocks_of. rewrite fresh_root. cbn [root_inode i_blocks dir_blocks].
  rewrite (proj2 (Z.eqb_neq _ _)); [done|]. destruct Hfs. lia.
Qed.

Lemma fresh_block_used b :
  in_data sb b -> block_used sb v b = bool_decide (b = sb_data_start sb).
Proof.
  intros [Hb1 Hb2]. unfold block_used. rewrite (fv_block_bitmap _ _ _ Hv). unfold mkfs_block_bitmap.
  rewrite test_set_bit by (apply length_zero_block || unfold bitmap_bits, LOGFS_BLOCK_SIZE; lia).
  case_decide as Hd; [rewrite bool_decide_true by lia; done|]. rewrite bool_decide_false by lia.
  apply zero_block_bit.
Qed.

Lemma fresh_inode_used ino :
  0 <= ino -> inode_used sb v ino = bool_decide (ino = 0 \/ ino = LOGFS_ROOT_INO).
Proof.
  intros Hi. unfold inode_used. rewrite (fv_inode_bitmap _ _ _ Hv). unfold mkfs_inode_bitmap, LOGFS_ROOT_INO.
  rewrite !test_set_bit by (rewrite ?length_set_bit; apply length_zero_block || unfold bitmap_bits, LOGFS_BLOCK_SIZE; lia).
  repeat case_decide; [by rewrite bool_decide_true by lia..|]. rewrite bool_decide_false by lia.
  apply zero_block_bit.
Qed.

Lemma fresh_root_dir :
  wf_dir sb v LOGFS_ROOT_INO /\ the_dir sb v LOGFS_ROOT_INO = new_dir LOGFS_ROOT_INO LOGFS_ROOT_INO.
Proof.
  assert (Hin : in_data sb (sb_data_start sb)) by (destruct Hfs; unfold in_data; lia).
  assert (Hmode : S_ISDIR (i_mode (inode_at sb v LOGFS_ROOT_INO)) = true) by (by rewrite fresh_root).
  assert (Hblocks : i_blocks (inode_at sb v LOGFS_ROOT_INO) = sb_data_start sb :: replicate 11 0)
    by (by rewrite fresh_root).
  assert (Hu : block_used sb v (sb_data_start sb) = true)
    by (rewrite fresh_block_used by done; by apply bool_decide_true).
  pose proof (fv_root _ _ _ Hv) as Hr. split.
  - by apply (new_dir_wf sb v LOGFS_ROOT_INO LOGFS_ROOT_INO (sb_data_start sb)).
  - by apply (new_dir_map sb v LOGFS_ROOT_INO LOGFS_ROOT_INO (sb_data_start sb)).
Qed.

Lemma fresh_tree : tree sb v LOGFS_ROOT_INO = Some (new_dir LOGFS_ROOT_INO LOGFS_ROOT_INO).
Proof. unfold tree, is_dir. rewrite fresh_root. by rewrite <-(proj2 fresh_root_dir). Qed.

(** The image of a fresh file system: the root alone. *)
Lemma fresh_image : wf_image sb {[LOGFS_ROOT_INO]} v.
Proof.
  destruct fresh_root_dir as [Hwf Hmap]. pose proof fresh_blocks as Hbs.
  assert (Hib : ino_blocks sb v LOGFS_ROOT_INO = [sb_data_start sb]) by (by rewrite ino_blocks_dir).
  assert (Hin : in_data sb (sb_data_start sb)) by (destruct Hfs; unfold in_data; lia).
  assert (Hu : block_used sb v (sb_data_start sb) = true)
    by (rewrite fresh_block_used by done; by apply bool_decide_true).
  split; split.
  - intros i ->%elem_of_singleton. split; [apply Hwf|].
    rewrite fresh_inode_used by (unfold LOGFS_ROOT_INO; lia). by apply bool_decide_true; right.
  - intros i b ->%elem_of_singleton. rewrite Hib. by intros ->%list_elem_of_singleton.
  - intros i ->%elem_of_singleton. rewrite Hib. apply NoDup_singleton.
  - by intros i1 i2 b ->%elem_of_singleton ->%elem_of_singleton.
  - by intros i ->%elem_of_singleton _.
  - intros i ->%elem_of_singleton Hd. by rewrite (dir_isdir _ _ _ Hwf : is_dir sb v _ = true) in Hd.
  - split; [by apply elem_of_singleton|]. by rewrite fresh_tree.
  - intros d m name x ->%elem_of_singleton. rewrite fresh_tree. intros [= <-] Hx.
    apply new_dir_entry in Hx as [->| ->];
      (split; [by apply elem_of_singleton|]; cbn [fst snd]; by rewrite fresh_tree).
  - intros d1 m1 n1 d2 m2 n2 x1 x2 ->%elem_of_singleton. rewrite fresh_tree. intros [= <-] Hx Hp.
    by destruct (new_dir_proper _ _ _ _ Hx).
  - intros d m name x ->%elem_of_singleton. rewrite fresh_tree. intros [= <-] Hx Hp.
    by destruct (new_dir_proper _ _ _ _ Hx).
  - intros d m ->%elem_of_singleton. rewrite fresh_tree. intros [= <-].
    split; [apply new_dir_dots|]. exists LOGFS_ROOT_INO. split; [apply new_dir_dots|by left].
Qed.
End fresh.
