(* ===== verification/FsMount.v ===== *)
(** [logfs_fs_format] and [logfs_fs_mount] on a device: what mkfs writes under
    any kernel, and that a formatted device mounts as the fresh file system. *)

From S2P Require Import Prelude.
From S2P Require Import Bytes.
From S2P Require Import DiskFormat.
From S2P Require Import Blockdev.
From S2P Require Import DiskOps.
From S2P Require Import Journal.
From S2P Require Import JournalLog.
From S2P Require Import JournalInv.
From S2P Require Import JournalReplay.
From S2P Require Import JournalSafety.
From S2P Require Import Txn.
From S2P Require Import TxnInv.
From S2P Require Import TxnSafety.
From S2P Require Import TxnView.
From S2P Require Import TxnApi.
From S2P Require Import TxnStore.
From S2P Require Import FsFormat.
From S2P Require Import Inode.
From S2P Require Import InodeBits.
From S2P Require Import InodeSpec.
From S2P Require Import Fs.
From S2P Require Import FsOps.
From S2P Require Import FsTree.
From S2P Require Import FsNewDir.
From S2P Require Import FsImage.
From S2P Require Import FsMachine.
From S2P Require Import FsLayout.
From S2P Require Import FsMkfs.

(** ** The operations of mkfs *)

Definition zero_writes (start : Z) (n : nat) : list (Z * block) :=
  map (fun i => (start + Z.of_nat i, zero_block)) (seq 0 n).

(** Every block but the journal's superblock and, last, the superblock. *)
Definition mkfs_writes (sb : logfs_super) (now : Z) : list (Z * block) :=
  (sb_inode_bitmap_start sb, mkfs_inode_bitmap) ::
  (sb_block_bitmap_start sb, mkfs_block_bitmap) ::
  zero_writes (sb_inode_table_start sb) (Z.to_nat (sb_inode_table_len sb)) ++
  [(sb_inode_table_start sb, pad_block (encode_inode (root_inode (sb_data_start sb) (u64 now))));
   (sb_data_start sb, dir_block LOGFS_ROOT_INO LOGFS_ROOT_INO)].

Definition mkfs_ops (sb : logfs_super) (now : Z) : list dop :=
  format_ops (sb_journal_start sb) (sb_journal_len sb) ++ dwrites (mkfs_writes sb now).

Definition super_ops (sb : logfs_super) : list dop :=
  [DWrite LOGFS_SUPER_BLOCKNO (pad_block (encode_super sb)); DFlush].

Lemma zero_writes_S start n :
  zero_writes start (S n) = (start, zero_block) :: zero_writes (start + 1) n.
Proof.
  unfold zero_writes. cbn [seq map]. rewrite Z.add_0_r. f_equal.
  rewrite <-seq_shift, map_map. apply map_ext. intros i. f_equal. lia.
Qed.

Lemma dwrites_app ws1 ws2 : dwrites (ws1 ++ ws2) = dwrites ws1 ++ dwrites ws2.
Proof. apply map_app. Qed.

(** A sequence of whole-block writes. *)
Lemma performs_writes_cons {A} b c ws (f : unit -> M bdev A) d Q :
  b < nblocks (b_disk d) -> length c = block_len -> wf_disk (b_disk d) -> whole_io d ->
  (forall d1, whole_io d1 -> wf_disk (b_disk d1) -> nblocks (b_disk d1) = nblocks (b_disk d) ->
     performs (fun d => d) (f tt) d1 ws Q) ->
  performs (fun d => d) (logfs_bdev_write b c ≫= f) d (DWrite b c :: ws) Q.
Proof.
  intros Hb Hc Hk Hw Hf. change (DWrite b c :: ws) with ([DWrite b c] ++ ws).
  eapply performs_bind; [by apply performs_write|]. cbn beta. intros [] d1 _ Hw1 Hd1.
  apply Hf; [done| |].
  - rewrite Hd1. by apply wf_run; [|repeat constructor].
  - by rewrite Hd1.
Qed.

Lemma performs_write_zeros start n d :
  0 <= start -> start + Z.of_nat n <= nblocks (b_disk d) -> nblocks (b_disk d) < 2 ^ 63 ->
  wf_disk (b_disk d) -> whole_io d ->
  performs (fun d => d) (write_zeros start n) d (dwrites (zero_writes start n)) (fun _ _ => True).
Proof.
  revert start d. induction n as [|n IH]; intros start d Hs Hn Hnb Hk Hw; cbn [write_zeros].
  { by apply performs_ret. }
  rewrite zero_writes_S. apply (performs_writes_cons start zero_block); [lia|apply length_zero_block|done|done|].
  intros d1 Hw1 Hk1 Hn1. rewrite u64_small by lia. apply IH; try done; lia.
Qed.

Section mkfs.
Context (sb : logfs_super) (now : Z).
Hypothesis Hfs : wf_fs sb.
Hypothesis Hjs : 0 < sb_journal_start sb.

Lemma length_mkfs_inode_bitmap : length mkfs_inode_bitmap = block_len.
Proof. unfold mkfs_inode_bitmap. rewrite !length_set_bit. apply length_zero_block. Qed.

Lemma length_mkfs_block_bitmap : length mkfs_block_bitmap = block_len.
Proof. unfold mkfs_block_bitmap. rewrite length_set_bit. apply length_zero_block. Qed.

Lemma length_mkfs_root :
  length (pad_block (encode_inode (root_inode (sb_data_start sb) (u64 now)))) = block_len.
Proof.
  apply length_pad_block. rewrite length_encode_inode; [unfold sizeof_inode; blia|].
  apply wf_root_inode. destruct Hfs. lia.
Qed.

Lemma length_mkfs_dir : length (dir_block LOGFS_ROOT_INO LOGFS_ROOT_INO) = block_len.
Proof. by apply dir_block_spec. Qed.

Lemma performs_mkfs_write d :
  nblocks (b_disk d) = sb_total_blocks sb -> wf_disk (b_disk d) -> whole_io d ->
  performs (fun d => d) (mkfs_write sb now) d (mkfs_ops sb now) (fun _ _ => True).
Proof.
  intros Hn Hk Hw. pose proof Hfs as []. unfold mkfs_write, mkfs_ops.
  eapply performs_bind; [apply performs_format; [lia|done|done]|].
  cbn beta. intros [] d1 _ Hw1 Hd1.
  assert (Hk1 : wf_disk (b_disk d1)).
  { rewrite Hd1. apply wf_run; [done|]. constructor; [apply length_encode_jsuper|by repeat constructor]. }
  assert (Hn1 : nblocks (b_disk d1) = sb_total_blocks sb) by by rewrite Hd1, nblocks_run.
  unfold mkfs_writes, dwrites. cbn [map fst snd]. rewrite map_app. cbn [map fst snd].
  apply performs_writes_cons; [lia|apply length_mkfs_inode_bitmap|done|done|].
  intros d2 Hw2 Hk2 Hn2. cbn [fst snd].
  apply performs_writes_cons; [lia|apply length_mkfs_block_bitmap|done|done|].
  intros d3 Hw3 Hk3 Hn3.
  eapply performs_bind; [apply performs_write_zeros; try done; lia|].
  cbn beta. intros [] d4 _ Hw4 Hd4.
  assert (Hk4 : wf_disk (b_disk d4)).
  { rewrite Hd4. apply wf_run; [done|]. unfold dwrites, zero_writes. rewrite map_map.
    apply Forall_map, Forall_true. intros i. apply length_zero_block. }
  assert (Hn4 : nblocks (b_disk d4) = sb_total_blocks sb) by (rewrite Hd4, nblocks_run; lia).
  apply performs_writes_cons; [lia|apply length_mkfs_root|done|done|].
  intros d5 Hw5 Hk5 Hn5.
  eapply performs_wand; [apply performs_write; [lia|apply length_mkfs_dir|done|done]|done].
Qed.
Lemma mkfs_writes_home b c :
  (b, c) ∈ mkfs_writes sb now -> sb_inode_bitmap_start sb <= b /\ length c = block_len.
Proof.
  pose proof Hfs as [].
  unfold mkfs_writes, zero_writes. rewrite !elem_of_cons, elem_of_app, list_elem_of_fmap, !elem_of_cons.
  intros [[= -> ->]|[[= -> ->]|[(i & [= -> ->] & _)|[[= -> ->]|[[= -> ->]|Hin]]]]].
  - split; [lia|apply length_mkfs_inode_bitmap].
  - split; [lia|apply length_mkfs_block_bitmap].
  - split; [lia|apply length_zero_block].
  - split; [lia|by apply length_mkfs_root].
  - split; [lia|apply length_mkfs_dir].
  - by apply elem_of_nil in Hin.
Qed.

End mkfs.

(** ** What they leave on the device *)

Lemma latest_zero_writes start n b :
  latest (zero_writes start n) b
  = if bool_decide (start <= b < start + Z.of_nat n) then Some zero_block else None.
Proof.
  revert start. induction n as [|n IH]; intros start.
  - rewrite bool_decide_false by lia. done.
  - rewrite zero_writes_S. cbn [latest]. rewrite IH. destruct (Z.eqb_spec start b) as [->|Hne].
    + rewrite bool_decide_false, bool_decide_true by lia. done.
    + destruct (decide (start + 1 <= b < start + 1 + Z.of_nat n)).
      * rewrite !bool_decide_true by lia. done.
      * rewrite !bool_decide_false by lia. done.
Qed.

Definition full_ops (sb : logfs_super) (now : Z) : list dop := mkfs_ops sb now ++ super_ops sb.

Lemma full_ops_writes sb now :
  op_writes (full_ops sb now)
  = (LOGFS_JSUPER_BLOCKNO,
     jsuper_encode (fresh_journal (sb_journal_start sb) (sb_journal_len sb)) LOGFS_JOURNAL_EMPTY 0)
    :: mkfs_writes sb now ++ [(LOGFS_SUPER_BLOCKNO, pad_block (encode_super sb))].
Proof.
  unfold full_ops, mkfs_ops. rewrite !op_writes_app, op_writes_dwrites. reflexivity.
Qed.

(** Deciding a chain of comparisons of block numbers. *)
Ltac eqb_cases :=
  repeat match goal with
  | |- context [?x =? ?y] => destruct (Z.eqb_spec x y); [try (exfalso; lia)|try (exfalso; lia)]
  end; reflexivity.

Section image.
Context (sb : logfs_super) (now : Z) (k : disk).
Hypothesis Hfs : wf_fs sb.
Hypothesis Hjs : 2 < sb_inode_bitmap_start sb.

Abbreviation after := (content (run (full_ops sb now) k)).

Lemma after_eq b :
  after b = default (content k b) (latest (op_writes (full_ops sb now)) b).
Proof. apply content_run. Qed.

Lemma after_super : after LOGFS_SUPER_BLOCKNO = pad_block (encode_super sb).
Proof. rewrite after_eq, full_ops_writes, app_comm_cons, latest_app. reflexivity. Qed.

(** The last write of a block of the file system. *)
Lemma after_home b c :
  sb_inode_bitmap_start sb <= b -> latest (mkfs_writes sb now) b = Some c -> after b = c.
Proof.
  intros Hb Hc. rewrite after_eq, full_ops_writes. cbn [latest]. rewrite latest_app. cbn [latest].
  rewrite (proj2 (Z.eqb_neq LOGFS_SUPER_BLOCKNO b)) by (unfold LOGFS_SUPER_BLOCKNO; lia).
  by rewrite Hc.
Qed.

Lemma latest_mkfs b :
  latest (mkfs_writes sb now) b
  = if b =? sb_data_start sb then Some (dir_block LOGFS_ROOT_INO LOGFS_ROOT_INO)
    else if b =? sb_inode_table_start sb
    then Some (pad_block (encode_inode (root_inode (sb_data_start sb) (u64 now))))
    else if bool_decide (sb_inode_table_start sb <= b < sb_data_start sb) then Some zero_block
    else if b =? sb_block_bitmap_start sb then Some mkfs_block_bitmap
    else if b =? sb_inode_bitmap_start sb then Some mkfs_inode_bitmap else None.
Proof.
  unfold mkfs_writes. cbn [latest]. rewrite latest_app, latest_zero_writes. cbn [latest].
  destruct Hfs. rewrite Z2Nat.id, <-wf_data by lia. rewrite !(Z.eqb_sym b).
  destruct (Z.eqb_spec (sb_data_start sb) b); [done|].
  destruct (Z.eqb_spec (sb_inode_table_start sb) b); [done|].
  destruct (bool_decide _); [done|].
  by destruct (sb_block_bitmap_start sb =? b), (sb_inode_bitmap_start sb =? b).
Qed.

Lemma after_fresh : fresh_view sb now after.
Proof.
  pose proof Hfs as []. split.
  - apply after_home; [lia|]. rewrite latest_mkfs, bool_decide_false by lia. eqb_cases.
  - apply after_home; [lia|]. rewrite latest_mkfs, bool_decide_false by lia. eqb_cases.
  - apply after_home; [lia|]. rewrite latest_mkfs. eqb_cases.
  - intros b Hb. apply after_home; [lia|]. rewrite latest_mkfs, bool_decide_true by lia. eqb_cases.
  - apply after_home; [lia|]. rewrite latest_mkfs. eqb_cases.
Qed.
End image.

(** ** Opening the backing file *)

(** A system call that moves no data. *)
Lemma syscall_any d :
  whole_io d ->
  exists r d', syscall d = (r, d') /\ whole_io d' /\ later d d' /\ b_disk d' = b_disk d /\
    (r = Ok tt \/ sys d <> [] /\ exists rc, rc < 0 /\ r = Err rc).
Proof.
  intros Hw. pose proof (performs_syscall d Hw) as H1. unfold performs in H1.
  destruct (syscall d) as [r d']. exists r, d'. split; [done|].
  destruct r as [[]|rc]; [destruct H1 as (? & ? & ? & _); eauto 6|].
  destruct H1 as (? & Hl1 & ? & Hio & dn & Hp & Hd). apply prefix_nil_inv in Hp. subst dn.
  split_and!; [done|done|exact Hd|]. right. split; [|by exists rc].
  eapply io_failure_nonempty; [apply Hl1|done].
Qed.

Lemma bdev_open_create size n d :
  0 < n < 2 ^ 51 -> whole_io d ->
  exists r d', logfs_bdev_open size n true d = (r, d') /\ whole_io d' /\ later d d' /\
    (r = Ok tt /\ b_disk d' = disk_resize n (n * LOGFS_BLOCK_SIZE) (b_disk d) \/
     sys d <> [] /\ b_disk d' = b_disk d /\ exists rc, rc < 0 /\ r = Err rc).
Proof.
  intros Hn Hw. unfold logfs_bdev_open. cbn [negb andb].
  rewrite (proj2 (Z.eqb_neq n 0)) by lia. cbv zeta. rewrite u64_small by (unfold LOGFS_BLOCK_SIZE; lia).
  rewrite (proj2 (Z.leb_gt _ _)) by (unfold LOGFS_BLOCK_SIZE; lia).
  destruct (syscall_any d Hw) as (r1 & d1 & E1 & Hw1 & Hl1 & Hd1 & [->|(Hne & rc & Hrc & ->)]).
  2: { rewrite (bind_err _ _ _ _ _ E1). eexists _, _. split; [done|]. eauto 8. }
  rewrite (bind_ok _ _ _ _ _ E1).
  destruct (syscall_any d1 Hw1) as (r2 & d2 & E2 & Hw2 & Hl2 & Hd2 & [->|(Hne & rc & Hrc & ->)]).
  2: { rewrite (bind_err _ _ _ _ _ E2). eexists _, _. split; [done|]. split_and!; [done|by etrans|].
       right. split_and!; [|by rewrite Hd2|eauto]. intros Hs. by apply Hne, (later_nil _ _ Hl1). }
  rewrite (bind_ok _ _ _ _ _ E2). eexists _, _. split; [done|].
  split_and!; [done|split; etrans; [apply Hl2|apply Hl1|apply Hl2|apply Hl1]|].
  left. split; [done|]. cbn [set_disk b_disk]. by rewrite Hd2, Hd1.
Qed.

Lemma content_resize n k b :
  0 <= b < n -> content (disk_resize n (n * LOGFS_BLOCK_SIZE) k) b = content k b.
Proof.
  intros Hb. unfold LOGFS_BLOCK_SIZE. assert (Hlat : forall ws, latest (filter (fun p : Z * block => p.1 * 4096 < n * 4096) ws) b = latest ws b).
  { induction ws as [|[b' c] ws IH]; [done|].
    destruct (decide (b' * 4096 < n * 4096)) as [Hlt|Hge].
    - rewrite filter_cons_True by done. cbn [latest]. by rewrite IH.
    - rewrite filter_cons_False by done. cbn [latest]. rewrite IH.
      rewrite (proj2 (Z.eqb_neq b' b)) by lia. by destruct (latest ws b). }
  unfold content, persisted, disk_resize, LOGFS_BLOCK_SIZE. cbn [durable pending]. rewrite Hlat. f_equal. f_equal.
  destruct (durable k !! b) as [c|] eqn:E.
  - apply map_lookup_filter_Some. split; [done|]. simpl. lia.
  - apply map_lookup_filter_None. by left.
Qed.

Lemma wf_disk_resize n size k : wf_disk k -> wf_disk (disk_resize n size k).
Proof.
  intros [Hd Hp]. split; cbn [disk_resize durable pending].
  - intros b c [Hb _]%map_lookup_filter_Some. by apply (Hd b).
  - apply Forall_forall. intros p [_ Hin]%list_elem_of_filter. rewrite Forall_forall in Hp. by apply Hp.
Qed.

(** Opening a file of whole blocks changes nothing. *)
Lemma bdev_open_existing k :
  logfs_bdev_open (Some (nblocks k * LOGFS_BLOCK_SIZE)) 0 false (mkBdev k [] [])
  = (Ok tt, mkBdev k [] []).
Proof.
  unfold logfs_bdev_open. rewrite bool_decide_false by done. cbn [negb andb].
  unfold mbind, M_bind, syscall, modify. cbn [sys default from_option id set_disk b_disk heap].
  unfold set_nblocks. rewrite Z.div_mul by done. by destruct k.
Qed.

Lemma bdev_flush_clean k :
  pending k = [] -> logfs_bdev_flush (mkBdev k [] []) = (Ok tt, mkBdev k [] []).
Proof.
  intros Hk. unfold logfs_bdev_flush, mbind, M_bind, syscall, modify.
  cbn [sys set_disk b_disk heap]. unfold disk_flush.
  destruct k as [n du pe]. cbn [pending] in Hk. by subst pe.
Qed.

(** ** [logfs_fs_format] *)

(** The device between opening the file and the first write. *)
Definition opened (total : Z) (k : disk) : disk := disk_resize total (total * LOGFS_BLOCK_SIZE) k.

Section format.
Context (total jlen now : Z) (mode : logfs_data_mode) (size : option Z).
Hypothesis Hfm : formattable total jlen.

Abbreviation sb := (mkfs_super total jlen mode).

Lemma performs_mkfs d :
  nblocks (b_disk d) = total -> wf_disk (b_disk d) -> whole_io d ->
  performs (fun d => d) (mkfs_write sb now ;; write_super sb) d (full_ops sb now) (fun _ _ => True).
Proof.
  intros Hn Hk Hw. pose proof (mkfs_wf_fs total jlen mode Hfm) as Hfs.
  pose proof (mkfs_super_eq total jlen mode Hfm) as Heq.
  assert (Ht : sb_total_blocks sb = total) by by rewrite Heq.
  unfold full_ops. eapply performs_bind.
  { apply performs_mkfs_write; [done|by rewrite Ht|done|done]. }
  cbn beta. intros [] d1 _ Hw1 Hd1. unfold write_super, super_ops.
  eapply performs_wand; [apply performs_write_fua|done].
  - rewrite Hd1, nblocks_run, Hn. destruct Hfm. unfold LOGFS_SUPER_BLOCKNO.
    pose proof (mkfs_table_len _ (mkfs_total_inodes_range total)). lia.
  - apply length_pad_block. rewrite length_encode_super. unfold sizeof_super. blia.
  - rewrite Hd1. apply wf_run; [done|]. unfold mkfs_ops. apply Forall_app_2.
    + constructor; [apply length_encode_jsuper|by repeat constructor].
    + unfold dwrites, mkfs_writes. apply Forall_map. cbn [fst snd].
      repeat (apply Forall_cons; split); [apply length_mkfs_inode_bitmap|apply length_mkfs_block_bitmap|].
      apply Forall_app_2.
      * unfold zero_writes. apply Forall_map, Forall_true. intros i. apply length_zero_block.
      * repeat (apply Forall_cons; split); [by apply length_mkfs_root|apply length_mkfs_dir|by apply Forall_nil].
  - done.
Qed.

(** The whole call: an error before anything was written, a prefix of the
    writes, or all of them. *)
Lemma format_run d :
  wf_disk (b_disk d) -> whole_io d ->
  exists r d', logfs_fs_format size total jlen mode now d = (r, d') /\
    (r = Ok tt /\ b_disk d' = run (full_ops sb now) (opened total (b_disk d)) \/
     sys d <> [] /\ (exists rc, rc < 0 /\ r = Err rc) /\
     (b_disk d' = b_disk d \/
      exists done, done `prefix_of` full_ops sb now /\ b_disk d' = run done (opened total (b_disk d)))).
Proof.
  intros Hk Hw. pose proof Hfm as [Hj Ht Hroom Hdata].
  pose proof (mkfs_table_len _ (mkfs_total_inodes_range total)) as [Htl _].
  pose proof (mkfs_super_eq total jlen mode Hfm) as Heq.
  unfold logfs_fs_format. unfold LOGFS_JOURNAL_REGION_START.
  rewrite (u64_small (3 + jlen + 4)) by lia. rewrite (proj2 (Z.ltb_ge _ _)) by lia.
  destruct (bdev_open_create size total d ltac:(lia) Hw)
    as (r0 & d0 & E0 & Hw0 & Hl0 & [[-> Hd0]|(Hne & Hd0 & rc & Hrc & ->)]).
  2: { rewrite (bind_err _ _ _ _ _ E0). eexists _, _. split; [done|]. right. eauto 6. }
  rewrite (bind_ok _ _ _ _ _ E0). cbv zeta.
  assert (Hds : sb_data_start sb = 3 + jlen + 2 + mkfs_inode_table_len (mkfs_total_inodes total))
    by by rewrite Heq.
  rewrite Hds. rewrite (proj2 (Z.leb_gt _ _)) by lia.
  rewrite u64_small by lia. rewrite (proj2 (Z.ltb_ge _ _))
    by (unfold LOGFS_FS_MAX_BITMAP_UNITS, LOGFS_BLOCK_SIZE; lia).
  assert (Hk0 : wf_disk (b_disk d0)) by (rewrite Hd0; by apply wf_disk_resize).
  assert (Hn0 : nblocks (b_disk d0) = total) by by rewrite Hd0.
  pose proof (performs_mkfs d0 Hn0 Hk0 Hw0) as Hp. unfold performs in Hp. rewrite Hd0 in Hp.
  destruct ((mkfs_write sb now ;; write_super sb) d0) as [[[]|rc] d1] eqn:E1.
  - eexists _, _. split; [reflexivity|]. left. split; [done|]. apply Hp.
  - destruct Hp as (_ & Hl1 & Hrc & Hio & dn & Hpre & Hd1).
    eexists _, _. split; [reflexivity|]. right.
    split; [|split; [exists rc; split; [exact Hrc|reflexivity]|right; exists dn; split; [exact Hpre|exact Hd1]]].
    intros Hs. eapply (io_failure_nonempty (sys d0)); [apply Hl1|done|]. by apply (later_nil _ _ Hl0).
Qed.
End format.

(** ** [logfs_fs_mount] of what mkfs left *)

Lemma prefix_refl_ops (l : list dop) : l `prefix_of` l.
Proof. by exists []; rewrite app_nil_r. Qed.

Section mount.
Context (total jlen now : Z) (mode : logfs_data_mode) (k : disk).
Hypothesis Hfm : formattable total jlen.
Hypothesis Hk : wf_disk k.
Hypothesis Hnk : nblocks k = total.
(** The journal region holds no commit block, as in a new file. *)
Hypothesis Hblank : forall b, 3 <= b < 3 + jlen -> old_block 1 (content k b).

Abbreviation sb := (mkfs_super total jlen mode).
Abbreviation formatted := (run (full_ops sb now) k).

Lemma mkfs_journal_fields : sb_journal_start sb = 3 /\ sb_journal_len sb = jlen.
Proof. by rewrite (mkfs_super_eq total jlen mode Hfm). Qed.

Lemma formatted_log : log_inv (fresh_journal 3 jlen) formatted [].
Proof.
  unfold full_ops, mkfs_ops. destruct mkfs_journal_fields as [-> ->]. rewrite !run_app.
  apply log_inv_home_ops; [apply log_inv_home_ops; [apply log_inv_format|]|].
  - rewrite Hnk. by apply mkfs_geometry.
  - done.
  - intros b Hb. by apply Hblank.
  - unfold dwrites. apply Forall_map, Forall_forall. intros [b c] Hin.
    apply mkfs_writes_home in Hin as [Hb Hc]; [|by apply mkfs_wf_fs]. split; [exact Hc|]. by eapply mkfs_not_journal.
  - apply Forall_cons. split; [|by repeat constructor]. split.
    + apply length_pad_block. rewrite length_encode_super. unfold sizeof_super. blia.
    + destruct Hfm. unfold journal_block, in_log, LOGFS_JSUPER_BLOCKNO, LOGFS_SUPER_BLOCKNO.
      cbn [fresh_journal j_first j_maxlen]. lia.
Qed.

Lemma formatted_pending : pending formatted = [].
Proof. unfold full_ops. by rewrite run_app. Qed.

Lemma formatted_nblocks : nblocks formatted = total.
Proof. by rewrite nblocks_run. Qed.

Lemma formatted_view : fresh_view sb now (content formatted).
Proof.
  apply after_fresh; [by apply mkfs_wf_fs|]. rewrite (mkfs_super_eq total jlen mode Hfm).
  cbn [sb_inode_bitmap_start]. destruct Hfm. lia.
Qed.

(** The manager the mount starts. *)
Definition mounted_mgr (ov : Z) : txn_mgr :=
  logfs_txnmgr_create (fresh_journal 3 jlen)
    (num_mode (if ov <? 0 then mode_num mode else ov)).

Lemma mount_formatted ov :
  0 <= mode_num mode < 2 ^ 32 ->
  logfs_fs_mount (Some (total * LOGFS_BLOCK_SIZE)) ov (mkBdev formatted [] [])
  = (Ok (sb, mounted_mgr ov), mkBdev formatted [] []).
Proof.
  intros Hm. set (d := mkBdev formatted [] []).
  pose proof formatted_log as Hinv.
  assert (Hp : powered (content (b_disk d)) d).
  { split; [reflexivity|reflexivity|apply formatted_pending|apply Hinv|reflexivity]. }
  assert (Hopen : logfs_bdev_open (Some (total * LOGFS_BLOCK_SIZE)) 0 false d = (Ok tt, d)).
  { rewrite <-formatted_nblocks. apply bdev_open_existing. }
  unfold logfs_fs_mount. rewrite (bind_ok _ _ _ _ _ Hopen).
  assert (Hread : logfs_bdev_read LOGFS_SUPER_BLOCKNO d = (Ok (pad_block (encode_super sb)), d)).
  { rewrite (read_ok LOGFS_SUPER_BLOCKNO d); [|reflexivity|apply Hinv|].
    - f_equal. f_equal. apply after_super.
    - cbn [d b_disk]. rewrite formatted_nblocks. destruct Hfm.
      pose proof (mkfs_table_len _ (mkfs_total_inodes_range total)). unfold LOGFS_SUPER_BLOCKNO. lia. }
  rewrite (bind_ok _ _ _ _ _ Hread). unfold pad_block.
  rewrite (decode_encode_super sb) by by apply mkfs_wf_super. cbv zeta.
  unfold mbind at 1, M_bind at 1, gets. cbn [d b_disk]. rewrite formatted_nblocks.
  rewrite (mkfs_super_accepted total jlen mode Hfm). destruct mkfs_journal_fields as [-> ->].
  fold d. rewrite (bind_ok _ _ _ _ _ (mount_fresh 3 jlen d Hinv Hp)).
  assert (Hflush : logfs_bdev_flush d = (Ok tt, d)).
  { apply bdev_flush_clean, formatted_pending. }
  rewrite (bind_ok _ _ _ _ _ Hflush).
  assert (Hmn : sb_data_mode sb = mode_num mode) by by rewrite (mkfs_super_eq total jlen mode Hfm).
  rewrite Hmn. fold (mounted_mgr ov).
  assert (Hstart : txnmgr_start (fresh_journal 3 jlen) (num_mode (if ov <? 0 then mode_num mode else ov)) d
    = (Ok (mounted_mgr ov), d)).
  { unfold txnmgr_start, mbind, M_bind, malloc, attempt, syscall. cbn [d heap sys negb is_ok].
    by destruct (bool_decide _). }
  by rewrite (bind_ok _ _ _ _ _ Hstart).
Qed.

(** The mounted file system, as its clients see it. *)
Lemma mounted_rep ov :
  let s := mkTst (mounted_mgr ov) (mkBdev formatted [] []) in
  mgr_inv s /\ rep_mgr (contents_of s) s /\ fs_blocks sb (contents_of s) /\
  (forall b, view s b = content formatted b).
Proof.
  intros s. assert (Hinv : mgr_inv s) by (apply mgr_inv_create; [apply formatted_log|reflexivity]).
  split_and!; [done| | |].
  - apply rep_contents_of; [done|set_solver|reflexivity].
  - intros b Hb. unfold contents_of, stageable. cbn [c_block s td b_disk mg mounted_mgr logfs_txnmgr_create tm_journal].
    rewrite formatted_nblocks. pose proof (mkfs_super_eq total jlen mode Hfm) as Heq.
    split; [|eapply mkfs_not_journal; [done|apply Hb]].
    rewrite Heq in Hb. cbn [sb_inode_bitmap_start sb_total_blocks] in Hb. destruct Hfm. lia.
  - intros b. assert (E : staged_nodes (mg s) = []) by reflexivity.
    unfold view, overlay. rewrite E. reflexivity.
Qed.

Lemma mounted_view ov : fresh_view sb now (view (mkTst (mounted_mgr ov) (mkBdev formatted [] []))).
Proof.
  pose proof formatted_view as [H1 H2 H3 H4 H5]. destruct (mounted_rep ov) as (_ & _ & _ & Hv).
  split; intros; rewrite Hv; auto.
Qed.

(** In journal mode, calls can follow. *)
Lemma fresh_mounted ov :
  num_mode (if ov <? 0 then mode_num mode else ov) = LOGFS_MODE_JOURNAL ->
  mounted sb (mkTst (mounted_mgr ov) (mkBdev formatted [] [])).
Proof.
  intros Hmode. pose proof (mkfs_wf_fs total jlen mode Hfm) as Hfs.
  destruct (mounted_rep ov) as (Hinv & _ & Hb & Hv). pose proof (mounted_view ov) as Hfv.
  assert (Hi : wf_image sb {[LOGFS_ROOT_INO]} (view (mkTst (mounted_mgr ov) (mkBdev formatted [] [])))).
  { eapply fresh_image; [exact Hfs|by apply mkfs_root_in_table|exact Hfv]. }
  pose proof (mkfs_super_eq total jlen mode Hfm) as Heq.
  split; [exact Hinv|reflexivity|exact Hmode|exact Hb| |by eexists|..].
  - intros b c _ Hal. exact (allowed_clean _ _ _ _ formatted_pending Hal).
  - eexists. exact (image_ext sb Hfs _ _ _ Hi (fun b _ => eq_sym (Hv b))).
  - intros b Hd. exfalso. rewrite (find_dirty_latest _ b (mi_staging _ Hinv)) in Hd.
    exact (is_Some_None Hd).
  - intros w Hw. exfalso. exact (not_elem_of_nil w Hw).
  - assert (Ht : sb_total_blocks sb = total) by (rewrite Heq; reflexivity). rewrite Ht. exact formatted_nblocks.
  - destruct mkfs_journal_fields as [E1 E2]. split; symmetry; assumption.
  - rewrite Heq. destruct Hfm. cbn [sb_inode_bitmap_start]. unfold LOGFS_SUPER_BLOCKNO. lia.
  - apply after_super.
Qed.
End mount.
