(* ===== verification/FsRemount.v ===== *)
(** Power failures and mounts: what survives a power failure, between two
    calls or within a turn of the commit thread, mounts again as the committed
    file system or as the one the clients saw; and calls, commits, power
    failures and mounts follow each other any number of times. *)

From S2P Require Import Prelude.
From S2P Require Import Bytes.
From S2P Require Import DiskFormat.
From S2P Require Import Blockdev.
From S2P Require Import DiskOps.
From S2P Require Import Journal.
From S2P Require Import JournalLog.
From S2P Require Import JournalInv.
From S2P Require Import JournalRecover.
From S2P Require Import JournalReplay.
From S2P Require Import JournalSafety.
From S2P Require Import JournalTorn.
From S2P Require Import Txn.
From S2P Require Import TxnInv.
From S2P Require Import TxnSafety.
From S2P Require Import TxnCommit.
From S2P Require Import TxnTorn.
From S2P Require Import TxnView.
From S2P Require Import TxnApi.
From S2P Require Import TxnStore.
From S2P Require Import FsFormat.
From S2P Require Import InodeSpec.
From S2P Require Import Fs.
From S2P Require Import FsOps.
From S2P Require Import FsTree.
From S2P Require Import FsImage.
From S2P Require Import FsCalls.
From S2P Require Import FsFile.
From S2P Require Import FsMachine.
From S2P Require Import FsLayout.
From S2P Require Import FsMount.

Section remount.
Context (fs : logfs_super) (Hfs : wf_fs fs).
(** The superblock is one mkfs writes. *)
Hypothesis Hsuper : wf_super fs.
Hypothesis Haccept : super_error fs (sb_total_blocks fs) = None.
Implicit Types s : tst.

(** The log on disk says where its numbering goes on: it holds a transaction,
    or has never held one.  An emptied log starts over at 1. *)
Definition numbered s : Prop :=
  tm_ckpt (mg s) = [] ->
  tm_journal (mg s) = fresh_journal (sb_journal_start fs) (sb_journal_len fs).

Lemma perform_numbered s c :
  mounted fs s -> calm s -> permitted fs (based_contents (fs_block fs) s) c -> numbered s ->
  numbered (perform fs c s).2.
Proof.
  intros Hm Hc Hp Hn. destruct (perform_mounted fs Hfs s c Hm Hc Hp) as (_ & _ & [= Ej Ec _]).
  unfold numbered. by rewrite Ej, Ec.
Qed.

Lemma turn_numbered s s' : turn_done s s' -> numbered s -> numbered s'.
Proof. intros Hd Hn Hck. destruct (tn_ckpt _ _ Hd Hck) as (_ & Hck0 & ->). by apply Hn. Qed.

(** What a power failure left of the disk of [s]: its superblock is there, and
    on any machine its journal mounts, which leaves the contents [v]. *)
Definition survivor (v : Z -> block) s (img : image) : Prop :=
  forall d, powered img d -> nblocks (b_disk d) = sb_total_blocks fs ->
    img LOGFS_SUPER_BLOCKNO = pad_block (encode_super fs) /\
    exists j' d', mount_journal (sb_journal_start fs) (sb_journal_len fs) d = (Ok j', d') /\
      log_inv j' (b_disk d') [] /\ powered (content (b_disk d')) d' /\
      (same_region (tm_journal (mg s)) j' /\ nblocks (b_disk d') = sb_total_blocks fs) /\
      forall b, ~ journal_block (tm_journal (mg s)) b -> content (b_disk d') b = v b.

Lemma mounted_region s j :
  mounted fs s -> same_region (tm_journal (mg s)) j ->
  j_first j = sb_journal_start fs /\ j_maxlen j = sb_journal_len fs.
Proof. intros Hm [<- <-]. apply (mo_region _ _ Hm). Qed.

Lemma surviving_super s img :
  mounted fs s -> crash_image (b_disk (td s)) img ->
  img LOGFS_SUPER_BLOCKNO = pad_block (encode_super fs).
Proof.
  intros Hm Hcr. rewrite <-(mo_super _ _ Hm). apply (mo_settled _ _ Hm); [by apply (super_apart fs)|].
  pose proof (super_unlogged fs s Hm) as E. rewrite latest_app in E. unfold allowed.
  destruct (latest (staged_nodes (mg s)) LOGFS_SUPER_BLOCKNO); [done|]. rewrite E. apply Hcr.
Qed.

Lemma torn_journal s ws img d :
  mounted fs s -> log_torn s ws img -> home_writes (tm_journal (mg s)) (nblocks (b_disk (td s))) ws ->
  powered img d -> nblocks (b_disk d) = sb_total_blocks fs ->
  exists j' d', mount_journal (sb_journal_start fs) (sb_journal_len fs) d = (Ok j', d') /\
    log_inv j' (b_disk d') [] /\ powered (content (b_disk d')) d' /\
    (same_region (tm_journal (mg s)) j' /\ nblocks (b_disk d') = sb_total_blocks fs) /\
    forall b, ~ journal_block (tm_journal (mg s)) b ->
      content (b_disk d') b = recovered (tm_journal (mg s)) img b.
Proof.
  intros Hm Ht Hh Hp Hnb. destruct (mo_region _ _ Hm) as [Hf Hml]. rewrite <-(mo_nblocks _ _ Hm) in Hnb.
  destruct (torn_mount _ _ _ _ _ Ht Hh Hp Hnb) as (j' & d' & Hrun & Hl & Hp' & Hreg & Hc).
  rewrite Hf, Hml in Hrun. rewrite (mo_nblocks _ _ Hm) in Hreg. exists j', d'.
  split; [exact Hrun|split; [exact Hl|split; [exact Hp'|split; [exact Hreg|]]]].
  intros b Hb. apply Hc. intros ->. apply Hb. by left.
Qed.

(** Power failed between two calls. *)
Lemma survivor_between s img :
  mounted fs s -> numbered s -> crash_image (b_disk (td s)) img -> survivor (committed s) s img.
Proof.
  intros Hm Hn Hcr d Hp Hnb. split; [by apply (surviving_super s)|].
  pose proof (mo_inv _ _ Hm) as Hinv. pose proof (mi_log _ Hinv) as Hlog.
  pose proof (fun b Hb => crash_between fs s img b Hm Hcr Hb) as Hcom.
  destruct (decide (tm_ckpt (mg s) = [])) as [Hck|Hck].
  - assert (Hback : log_inv (tm_journal (mg s)) (b_disk d) []).
    { rewrite Hck in Hlog. eapply log_inv_back; [exact Hlog|done| |].
      - rewrite (mo_nblocks _ _ Hm), <-Hnb. by apply powered_back.
      - intros b Hb. apply (crash_image_stable _ _ _ Hcr). intros c Hin. by eapply (li_quiet _ _ _ Hlog). }
    rewrite (Hn Hck) in Hback |- *. exists (fresh_journal (sb_journal_start fs) (sb_journal_len fs)), d.
    split; [apply mount_fresh; [exact Hback|destruct Hp; by split]|]. split; [exact Hback|].
    split; [destruct Hp; by split|]. split; [done|]. intros b Hb. rewrite (pw_content _ _ Hp).
    rewrite (Hn Hck) in Hcom. rewrite <-Hcom by done. symmetry. rewrite Hck in Hlog.
    rewrite (overlay_recovers _ _ [] b); [done|]. rewrite (Hn Hck) in Hlog.
    eapply log_inv_recovers; [exact Hlog|exact Hcr].
  - pose proof (torn_quiet _ _ _ img Hlog ltac:(by destruct (tm_ckpt (mg s))) Hcr) as Ht.
    rewrite all_writes_ckpt in Ht. pose proof (mi_home _ Hinv) as Hh. unfold home_writes in Hh.
    apply Forall_app in Hh as [Hh _].
    destruct (torn_journal s _ img d Hm Ht Hh Hp Hnb) as (j' & d' & Hrun & Hl & Hp' & Hreg & Hc).
    exists j', d'. split; [exact Hrun|split; [exact Hl|split; [exact Hp'|split; [exact Hreg|]]]].
    intros b Hb. rewrite Hc by done. by apply Hcom.
Qed.

(** Power failed in a turn of the commit thread. *)
Lemma survivor_within s img :
  mounted fs s -> turn_crash s img ->
  log_torn s (ckpt_nodes (tm_ckpt (mg s)) ++ staged_nodes (mg s)) img ->
  exists v, (v = committed s \/ v = view s) /\ survivor v s img.
Proof.
  intros Hm Hcrash Ht. destruct (crash_within fs s img Hm Hcrash) as (v & Hv & Hrec).
  exists v. split; [exact Hv|]. intros d Hp Hnb. pose proof (powered_back _ _ Hp) as Hk.
  rewrite Hnb, <-(mo_nblocks _ _ Hm) in Hk.
  assert (Hsup : v LOGFS_SUPER_BLOCKNO = pad_block (encode_super fs)).
  { rewrite <-(mo_super _ _ Hm). destruct Hv as [->| ->]; [done|]. by apply (super_view fs). }
  split.
  - rewrite <-Hsup, <-Hrec by by apply (super_apart fs). symmetry.
    apply (torn_unlogged _ _ _ _ _ _ Ht Hk). by apply (super_unlogged fs).
  - destruct (torn_journal s _ img d Hm Ht (mi_home _ (mo_inv _ _ Hm)) Hp Hnb)
      as (j' & d' & Hrun & Hl & Hp' & Hreg & Hc).
    exists j', d'. split; [exact Hrun|split; [exact Hl|split; [exact Hp'|split; [exact Hreg|]]]].
    intros b Hb. rewrite Hc by done. by apply Hrec.
Qed.

(** The manager a mount starts on it. *)
Definition remounted (j : logfs_journal) (ov : Z) : txn_mgr :=
  logfs_txnmgr_create j (num_mode (if ov <? 0 then sb_data_mode fs else ov)).

Lemma mount_runs img d ov j' d' :
  img LOGFS_SUPER_BLOCKNO = pad_block (encode_super fs) -> LOGFS_SUPER_BLOCKNO < sb_total_blocks fs ->
  powered img d -> nblocks (b_disk d) = sb_total_blocks fs ->
  mount_journal (sb_journal_start fs) (sb_journal_len fs) d = (Ok j', d') ->
  powered (content (b_disk d')) d' ->
  logfs_fs_mount (Some (sb_total_blocks fs * LOGFS_BLOCK_SIZE)) ov d = (Ok (fs, remounted j' ov), d').
Proof.
  intros Hsup Hlt Hp Hnb Hj Hp'. destruct d as [k answers allocs].
  pose proof Hp as [E1 E2 Hpend Hwf Hcont]. cbn [sys heap b_disk] in *. subst answers allocs.
  cbn [b_disk] in Hnb. unfold logfs_fs_mount. rewrite <-Hnb. rewrite (bind_ok _ _ _ _ _ (bdev_open_existing k)).
  assert (Hread : logfs_bdev_read LOGFS_SUPER_BLOCKNO (mkBdev k [] [])
    = (Ok (pad_block (encode_super fs)), mkBdev k [] [])).
  { rewrite (read_ok LOGFS_SUPER_BLOCKNO (mkBdev k [] [])); [|done|done|].
    - f_equal. f_equal. cbn [b_disk]. by rewrite Hcont.
    - cbn [b_disk]. by rewrite Hnb. }
  rewrite (bind_ok _ _ _ _ _ Hread). unfold pad_block. rewrite (decode_encode_super fs) by done. cbv zeta.
  unfold mbind at 1, M_bind at 1, gets. cbn [b_disk]. rewrite Hnb, Haccept.
  rewrite (bind_ok _ _ _ _ _ Hj). destruct d' as [k' answers allocs]. pose proof Hp' as [E1 E2 Hpend' _ _].
  cbn [sys heap b_disk] in *. subst answers allocs.
  rewrite (bind_ok _ _ _ _ _ (bdev_flush_clean k' Hpend')). fold (remounted j' ov).
  assert (Hstart : txnmgr_start j' (num_mode (if ov <? 0 then sb_data_mode fs else ov)) (mkBdev k' [] [])
    = (Ok (remounted j' ov), mkBdev k' [] [])).
  { unfold txnmgr_start, mbind, M_bind, malloc, attempt, syscall. cbn [heap sys negb is_ok].
    by destruct (bool_decide _). }
  by rewrite (bind_ok _ _ _ _ _ Hstart).
Qed.

(** A manager just started on an emptied log. *)
Lemma started_mounted L v j d ov s :
  mounted fs s -> wf_image fs L v -> v LOGFS_SUPER_BLOCKNO = pad_block (encode_super fs) ->
  log_inv j (b_disk d) [] -> powered (content (b_disk d)) d ->
  same_region (tm_journal (mg s)) j /\ nblocks (b_disk d) = sb_total_blocks fs ->
  (forall b, ~ journal_block (tm_journal (mg s)) b -> content (b_disk d) b = v b) ->
  num_mode (if ov <? 0 then sb_data_mode fs else ov) = LOGFS_MODE_JOURNAL ->
  let s' := mkTst (remounted j ov) d in
  mounted fs s' /\ calm s' /\ forall b, fs_block fs b -> view s' b = v b.
Proof.
  intros Hm HL Hsup Hl Hp [Hreg Hnb] Hc Hmode s'.
  pose proof Hp as [Hsys Hheap Hpend Hwf _].
  assert (Hinv : mgr_inv s').
  { apply mgr_inv_create; [done|]. pose proof (li_head _ _ _ Hl). cbn in *. lia. }
  assert (Hv : forall b, view s' b = content (b_disk d) b) by reflexivity.
  assert (Hcom : forall b, fs_block fs b -> content (b_disk d) b = v b).
  { intros b Hb. by apply Hc, (home_client fs). }
  assert (Hi : wf_image fs L (content (b_disk d))) by by apply (image_ext fs Hfs L v).
  split; [|split; [by split|intros b Hb; rewrite Hv; by apply Hcom]].
  split; [done|done|exact Hmode|..].
  - intros b Hb. destruct (mo_client _ _ Hm b Hb) as [Hr Hj]. split.
    + cbn [s' td]. rewrite Hnb, <-(mo_nblocks _ _ Hm). exact Hr.
    + cbn [s' mg remounted logfs_txnmgr_create tm_journal]. by rewrite <-(same_region_blocks _ _ _ Hreg).
  - intros b c _ Hal. exact (allowed_clean _ _ _ _ Hpend Hal).
  - by exists L.
  - by exists L.
  - intros b. rewrite (find_dirty_latest _ b (mi_staging _ Hinv)). intros Hd. by apply is_Some_None in Hd.
  - intros w Hw. by apply elem_of_nil in Hw.
  - exact Hnb.
  - by apply (mounted_region s).
  - apply Hm.
  - rewrite <-Hsup. apply Hc. by apply (super_apart fs).
Qed.

(** What a power failure left mounts as a file system with the contents that
    survived. *)
Lemma survivor_mounts L v s img d ov :
  mounted fs s -> wf_image fs L v -> v LOGFS_SUPER_BLOCKNO = pad_block (encode_super fs) ->
  survivor v s img -> powered img d -> nblocks (b_disk d) = sb_total_blocks fs ->
  num_mode (if ov <? 0 then sb_data_mode fs else ov) = LOGFS_MODE_JOURNAL ->
  exists m d', logfs_fs_mount (Some (sb_total_blocks fs * LOGFS_BLOCK_SIZE)) ov d = (Ok (fs, m), d') /\
    mounted fs (mkTst m d') /\ calm (mkTst m d') /\
    forall b, fs_block fs b -> view (mkTst m d') b = v b.
Proof.
  intros Hm Hi Hsup Hs Hp Hnb Hmode.
  destruct (Hs d Hp Hnb) as [Himg (j' & d' & Hrun & Hl & Hp' & Hreg & Hc)].
  exists (remounted j' ov), d'. split; [|by apply (started_mounted L v j' d' ov s)].
  apply (mount_runs img d ov j' d'); try done. pose proof (mo_apart _ _ Hm). destruct Hfs. lia.
Qed.

Lemma remount_mounted s img d ov :
  mounted fs s -> numbered s -> crash_image (b_disk (td s)) img -> powered img d ->
  nblocks (b_disk d) = sb_total_blocks fs ->
  num_mode (if ov <? 0 then sb_data_mode fs else ov) = LOGFS_MODE_JOURNAL ->
  exists m d', logfs_fs_mount (Some (sb_total_blocks fs * LOGFS_BLOCK_SIZE)) ov d = (Ok (fs, m), d') /\
    mounted fs (mkTst m d') /\ calm (mkTst m d') /\
    forall b, fs_block fs b -> view (mkTst m d') b = committed s b.
Proof.
  intros Hm Hn Hcr Hp Hnb Hmode. destruct (mo_base _ _ Hm) as [L HL].
  apply (survivor_mounts L (committed s) s img); try done; [apply Hm|by apply survivor_between].
Qed.

(** What is on the disk when the power fails in a turn of the commit thread,
    or right after it, with [answers] from the kernel up to then. *)
Record torn_turn (s : tst) (answers : list sysret) (img : image) : Prop := {
  tt_ready : ready s;
  tt_roomy : roomy s;
  tt_answers : Forall live_answer answers;
  tt_crash : crash_image (b_disk (td (commit_cycle (with_answers answers [] s)).2)) img;
}.

Lemma torn_turn_survivor s answers img :
  mounted fs s -> torn_turn s answers img ->
  exists v, (v = committed s \/ v = view s) /\ survivor v s img.
Proof.
  intros Hm [Hr Hro Ha Hcr]. set (s1 := with_answers answers [] s) in *.
  assert (Hm1 : mounted fs s1) by by apply mounted_device.
  assert (Hr1 : ready s1) by by destruct Hr; split.
  assert (Hro1 : roomy s1) by by destruct Hro; split.
  destruct (turn_leaves s1 (mo_inv _ _ Hm1) Hr1 Hro1 (mo_mode _ _ Hm1) img Ha eq_refl Hcr) as [H1 H2].
  exact (survivor_within s1 img Hm1 H1 H2).
Qed.

Lemma torn_turn_mounts s answers img d ov :
  mounted fs s -> torn_turn s answers img -> powered img d ->
  nblocks (b_disk d) = sb_total_blocks fs ->
  num_mode (if ov <? 0 then sb_data_mode fs else ov) = LOGFS_MODE_JOURNAL ->
  exists v m d', (v = committed s \/ v = view s) /\
    logfs_fs_mount (Some (sb_total_blocks fs * LOGFS_BLOCK_SIZE)) ov d = (Ok (fs, m), d') /\
    mounted fs (mkTst m d') /\ calm (mkTst m d') /\
    forall b, fs_block fs b -> view (mkTst m d') b = v b.
Proof.
  intros Hm Ht Hp Hnb Hmode. destruct (torn_turn_survivor s answers img Hm Ht) as (v & Hv & Hs).
  assert (Hi : exists L, wf_image fs L v) by (destruct Hv as [->| ->]; apply Hm).
  assert (Hsup : v LOGFS_SUPER_BLOCKNO = pad_block (encode_super fs)).
  { rewrite <-(mo_super _ _ Hm). destruct Hv as [->| ->]; [done|]. by apply (super_view fs). }
  destruct Hi as [L Hi].
  destruct (survivor_mounts L v s img d ov Hm Hi Hsup Hs Hp Hnb Hmode) as (m & d' & H).
  by exists v, m, d'.
Qed.

(** ** The life of a file system *)

(** Calls, turns of the commit thread, power failures between two of them or
    within a turn, each followed by a mount. *)
Inductive life (s0 : tst) : tst -> Prop :=
  | life_start : life s0 s0
  | life_call s c :
      life s0 s -> permitted fs (based_contents (fs_block fs) s) c -> life s0 (perform fs c s).2
  | life_turn s : life s0 s -> ready s -> life s0 (commit_cycle s).2
  | life_power s img d ov m d' :
      life s0 s -> numbered s -> crash_image (b_disk (td s)) img -> powered img d ->
      nblocks (b_disk d) = sb_total_blocks fs ->
      num_mode (if ov <? 0 then sb_data_mode fs else ov) = LOGFS_MODE_JOURNAL ->
      logfs_fs_mount (Some (sb_total_blocks fs * LOGFS_BLOCK_SIZE)) ov d = (Ok (fs, m), d') ->
      life s0 (mkTst m d')
  | life_torn s answers img d ov m d' :
      life s0 s -> torn_turn s answers img -> powered img d ->
      nblocks (b_disk d) = sb_total_blocks fs ->
      num_mode (if ov <? 0 then sb_data_mode fs else ov) = LOGFS_MODE_JOURNAL ->
      logfs_fs_mount (Some (sb_total_blocks fs * LOGFS_BLOCK_SIZE)) ov d = (Ok (fs, m), d') ->
      life s0 (mkTst m d').

Lemma life_mounted s0 s : mounted fs s0 -> calm s0 -> life s0 s -> mounted fs s /\ calm s.
Proof.
  intros Hm Hc Hl. induction Hl as [|s c _ [IHm IHc] Hp|s _ [IHm IHc] Hr
    |s img d ov m d' _ [IHm IHc] Hn Hcr Hp Hnb Hmode Hrun
    |s answers img d ov m d' _ [IHm IHc] Ht Hp Hnb Hmode Hrun]; [done|..].
  - by destruct (perform_mounted fs Hfs s c IHm IHc Hp) as (? & ? & _).
  - by destruct (turn_mounted fs Hfs s IHm Hr IHc) as (s' & -> & _ & ? & ?).
  - destruct (remount_mounted s img d ov IHm Hn Hcr Hp Hnb Hmode) as (m1 & d1 & Hrun1 & H1 & H2 & _).
    rewrite Hrun in Hrun1. by injection Hrun1 as -> ->.
  - destruct (torn_turn_mounts s answers img d ov IHm Ht Hp Hnb Hmode)
      as (v & m1 & d1 & _ & Hrun1 & H1 & H2 & _).
    rewrite Hrun in Hrun1. by injection Hrun1 as -> ->.
Qed.
End remount.
