(* ===== verification/FsDemo.v ===== *)
(** The file system the witnesses of the file system's properties run on: 64
    blocks with a log of 16, formatted on a new file and mounted. *)

From S2P Require Import Prelude.
From S2P Require Import Bytes.
From S2P Require Import Crc32.
From S2P Require Import DiskFormat.
From S2P Require Import Blockdev.
From S2P Require Import DiskOps.
From S2P Require Import Journal.
From S2P Require Import JournalLog.
From S2P Require Import JournalInv.
From S2P Require Import JournalReplay.
From S2P Require Import JournalSafety.
From S2P Require Import Txn.
From S2P Require Import TxnInv.
From S2P Require Import TxnView.
From S2P Require Import TxnApi.
From S2P Require Import TxnStore.
From S2P Require Import FsFormat.
From S2P Require Import Inode.
From S2P Require Import InodeBits.
From S2P Require Import InodeSpec.
From S2P Require Import InodeDir.
From S2P Require Import InodeDirSpec.
From S2P Require Import InodeWalk.
From S2P Require Import Fs.
From S2P Require Import FsOps.
From S2P Require Import FsTree.
From S2P Require Import FsNewDir.
From S2P Require Import FsImage.
From S2P Require Import FsCalls.
From S2P Require Import FsMachine.
From S2P Require Import FsLayout.
From S2P Require Import FsMkfs.
From S2P Require Import FsMount.

Lemma formattable_64 : formattable 64 16.
Proof. by split; vm_compute. Qed.

(** A new file. *)
Definition blank_dev (answers : list sysret) : bdev := mkBdev (mkDisk 0 ∅ []) answers [].

Lemma wf_blank_disk n : wf_disk (mkDisk n ∅ []).
Proof. split; [apply map_Forall_empty|constructor]. Qed.

Lemma blank_log n first : old_block 1 (content (mkDisk n ∅ []) first).
Proof.
  intros H. exfalso. revert H. change (content _ _) with zero_block. by vm_compute.
Qed.

Definition demo_super : logfs_super := mkfs_super 64 16 LOGFS_MODE_JOURNAL.

Lemma wf_demo_super : wf_super demo_super.
Proof. apply (mkfs_wf_super 64 16); [apply formattable_64|split; vm_compute; congruence]. Qed.

Definition demo_image : disk := run (full_ops demo_super 7) (opened 64 (mkDisk 0 ∅ [])).

(** Mounted, under a kernel and an allocator with these answers. *)
Definition demo_fs (answers : list sysret) (allocs : list bool) : tst :=
  mkTst (mounted_mgr 16 LOGFS_MODE_JOURNAL (-1)) (mkBdev demo_image answers allocs).

Lemma demo_wf_fs : wf_fs demo_super.
Proof. apply (mkfs_wf_fs 64 16), formattable_64. Qed.

Lemma demo_root : in_table demo_super LOGFS_ROOT_INO.
Proof. apply (mkfs_root_in_table 64 16), formattable_64. Qed.

(** Each of its inodes has a slot. *)
Lemma demo_table_room a : table_room demo_super a.
Proof. apply (table_room_whole demo_super demo_wf_fs). vm_compute. congruence. Qed.

(** Any file is blank enough. *)
Lemma demo_blank b : 3 <= b < 3 + 16 -> old_block 1 (content (opened 64 (mkDisk 0 ∅ [])) b).
Proof. intros Hb. unfold opened. rewrite content_resize by lia. apply blank_log. Qed.

Lemma demo_wf_disk : wf_disk (opened 64 (mkDisk 0 ∅ [])).
Proof. apply wf_disk_resize, wf_blank_disk. Qed.

(** Between two calls, with no failure to come. *)
Lemma demo_mounted_state : mounted demo_super (demo_fs [] []).
Proof.
  exact (fresh_mounted 64 16 7 LOGFS_MODE_JOURNAL _ formattable_64 demo_wf_disk eq_refl demo_blank
    (-1) eq_refl).
Qed.

Lemma demo_calm : calm (demo_fs [] []).
Proof. by split. Qed.

Section demo.
Context (answers : list sysret) (allocs : list bool).

Abbreviation s := (demo_fs answers allocs).
Abbreviation a := (contents_of s).

Lemma demo_mounted :
  mgr_inv s /\ fs_blocks demo_super a /\ fresh_view demo_super 7 (c_view a).
Proof.
  pose proof demo_blank as Hbl. pose proof demo_wf_disk as Hwf.
  destruct (mounted_rep 64 16 7 LOGFS_MODE_JOURNAL _ formattable_64 Hwf eq_refl Hbl (-1))
    as (Hinv & _ & Hb & _).
  pose proof (mounted_view 64 16 7 LOGFS_MODE_JOURNAL _ formattable_64 Hwf eq_refl Hbl (-1)) as Hv.
  split; [|split; [exact Hb|exact Hv]].
  exact (mgr_inv_unmoved _ (mkBdev demo_image [] []) (mkBdev demo_image answers allocs) eq_refl Hinv).
Qed.

Lemma demo_rep : SRet O ∉ answers -> rep_mgr a s.
Proof. intros Hk. apply rep_contents_of; [apply demo_mounted|exact Hk|reflexivity]. Qed.

Lemma demo_blocks : fs_blocks demo_super a.
Proof. apply demo_mounted. Qed.

Lemma demo_fresh : fresh_view demo_super 7 (c_view a).
Proof. apply demo_mounted. Qed.

Lemma demo_root_dir : wf_dir demo_super (c_view a) LOGFS_ROOT_INO.
Proof. eapply fresh_root_dir; [apply demo_wf_fs|apply demo_root|apply demo_fresh]. Qed.

Lemma demo_root_map :
  the_dir demo_super (c_view a) LOGFS_ROOT_INO = new_dir LOGFS_ROOT_INO LOGFS_ROOT_INO.
Proof. eapply fresh_root_dir; [apply demo_wf_fs|apply demo_root|apply demo_fresh]. Qed.

Lemma demo_wf_image : wf_image demo_super {[LOGFS_ROOT_INO]} (c_view a).
Proof. eapply fresh_image; [apply demo_wf_fs|apply demo_root|apply demo_fresh]. Qed.

Lemma demo_root_tree :
  tree demo_super (c_view a) LOGFS_ROOT_INO = Some (new_dir LOGFS_ROOT_INO LOGFS_ROOT_INO).
Proof. eapply fresh_tree; [apply demo_wf_fs|apply demo_root|apply demo_fresh]. Qed.
End demo.

(** ** A file, a directory *)

Definition demo_file : list byte := [Byte.x2f; Byte.x66].
Definition demo_dir : list byte := [Byte.x2f; Byte.x64].

Abbreviation fs_contents := (based_contents (fs_block demo_super)).

Definition after_call (c : fs_call) : tst := (perform demo_super c (demo_fs [] [])).2.

Lemma after_call_mounted c :
  permitted demo_super (fs_contents (demo_fs [] [])) c ->
  mounted demo_super (after_call c) /\ calm (after_call c).
Proof.
  intros Hc. destruct (perform_mounted demo_super demo_wf_fs _ c
    demo_mounted_state demo_calm Hc) as (Hm & Hca & _). split; [exact Hm|exact Hca].
Qed.

(** The file "/f" with inode 2. *)
Definition demo_made : tst := after_call (CCreate demo_file 0x1a4 7).

Lemma demo_made_mounted : mounted demo_super demo_made /\ calm demo_made.
Proof. apply after_call_mounted, demo_table_room. Qed.

Lemma demo_made_live : live_file demo_super (view demo_made) 2.
Proof.
  split; [|vm_compute; reflexivity].
  assert (Hd : is_dir demo_super (view demo_made) LOGFS_ROOT_INO = true) by (vm_compute; reflexivity).
  apply (live_entry demo_super _ LOGFS_ROOT_INO (the_dir demo_super (view demo_made) LOGFS_ROOT_INO)
    [Byte.x66] (2, LOGFS_FT_REG)); [constructor|unfold tree; by rewrite Hd|vm_compute; reflexivity].
Qed.

(** What its clients may rely on. *)
Lemma mounted_facts s :
  mounted demo_super s -> calm s -> exists L, sound demo_super L (fs_contents s).
Proof.
  intros Hm Hc. destruct (mo_image _ _ Hm) as [L HL]. exists L. by apply mounted_sound.
Qed.

Lemma client_rep s : mounted demo_super s -> calm s -> rep (fs_contents s) s.
Proof. intros Hm Hc. exact (machine_rep demo_super s Hm Hc). Qed.

(** The directory "/d" with inode 2. *)
Definition demo_made_dir : tst := after_call (CMkdir demo_dir 0x1ed 7).

Lemma demo_made_dir_mounted : mounted demo_super demo_made_dir /\ calm demo_made_dir.
Proof. apply after_call_mounted, demo_table_room. Qed.
