(* ===== verification/FsProps.v ===== *)
(** Properties of mkfs and mount, each with a run on the file system of
    [FsDemo]. *)

From S2P Require Import Prelude.
From S2P Require Import Bytes.
From S2P Require Import Crc32.
From S2P Require Import DiskFormat.
From S2P Require Import Blockdev.
From S2P Require Import DiskOps.
From S2P Require Import Journal.
From S2P Require Import JournalLog.
From S2P Require Import JournalInv.
From S2P Require Import JournalReplay.
From S2P Require Import JournalSafety.
From S2P Require Import Txn.
From S2P Require Import TxnInv.
From S2P Require Import TxnView.
From S2P Require Import TxnApi.
From S2P Require Import TxnStore.
From S2P Require Import FsFormat.
From S2P Require Import Inode.
From S2P Require Import InodeBits.
From S2P Require Import InodeSpec.
From S2P Require Import InodeDir.
From S2P Require Import InodeDirSpec.
From S2P Require Import InodeWalk.
From S2P Require Import Fs.
From S2P Require Import FsOps.
From S2P Require Import FsTree.
From S2P Require Import FsNewDir.
From S2P Require Import FsImage.
From S2P Require Import FsLayout.
From S2P Require Import FsMkfs.
From S2P Require Import FsMount.
From S2P Require Import FsDemo.

(** ** mkfs, then mount *)

(** C9: [mkfs] and a mount of what it wrote, on any file that holds no old log
    blocks where the log goes, with sizes that fit ([formattable]).  Under any
    kernel [logfs_fs_format] returns 0 or an error, an error only if a call
    failed; when it returned 0 the mount returns 0 and changes nothing, its
    manager has the invariant, and the tree it shows is well-formed and holds
    one directory with ["."] and [".."]; exactly the root's block and inode are
    allocated. *)
Theorem mkfs_then_mount total jlen now mode size ov d :
  formattable total jlen -> 0 <= mode_num mode < 2 ^ 32 ->
  wf_disk (b_disk d) -> whole_io d ->
  (forall b, 3 <= b < 3 + jlen -> old_block 1 (content (b_disk d) b)) ->
  let (r, d') := logfs_fs_format size total jlen mode now d in
  (r = Ok tt \/ sys d <> [] /\ exists rc, rc < 0 /\ r = Err rc) /\
  (r = Ok tt -> exists fs mgr,
    let d1 := mkBdev (b_disk d') [] [] in
    let s := mkTst mgr d1 in
    logfs_fs_mount (Some (total * LOGFS_BLOCK_SIZE)) ov d1 = (Ok (fs, mgr), d1) /\
    rep_mgr (contents_of s) s /\ wf_fs fs /\ fs_blocks fs (contents_of s) /\
    wf_image fs {[LOGFS_ROOT_INO]} (view s) /\
    tree fs (view s) LOGFS_ROOT_INO = Some (new_dir LOGFS_ROOT_INO LOGFS_ROOT_INO) /\
    (forall b, in_data fs b -> block_used fs (view s) b = bool_decide (b = sb_data_start fs)) /\
    (forall ino, 0 <= ino ->
       inode_used fs (view s) ino = bool_decide (ino = 0 \/ ino = LOGFS_ROOT_INO))).
Proof.
  intros Hfm Hm Hk Hw Hblank.
  destruct (format_run total jlen now mode size Hfm d Hk Hw) as (r & d' & -> & Hr).
  split; [destruct Hr as [[-> _]|(Hs & Hrc & _)]; auto|]. intros ->.
  destruct Hr as [[_ Hd']|(_ & (rc & _ & [=]) & _)]. rewrite Hd'.
  set (k := opened total (b_disk d)).
  assert (Hwf : wf_disk k) by by apply wf_disk_resize.
  assert (Hbl : forall b, 3 <= b < 3 + jlen -> old_block 1 (content k b)).
  { intros b Hb. unfold k, opened. rewrite content_resize; [by apply Hblank|].
    destruct Hfm. pose proof (mkfs_table_len _ (mkfs_total_inodes_range total)). lia. }
  set (fs := mkfs_super total jlen mode). set (mgr := mounted_mgr jlen mode ov). exists fs, mgr.
  cbv zeta. set (s := mkTst mgr _).
  destruct (mounted_rep total jlen now mode k Hfm Hwf eq_refl Hbl ov) as (Hinv & Hrep & Hb & _).
  assert (Hfs : wf_fs fs) by by apply mkfs_wf_fs.
  assert (Hroot : in_table fs LOGFS_ROOT_INO) by by apply mkfs_root_in_table.
  assert (Hv : fresh_view fs now (view s)) by by apply mounted_view.
  split; [by apply mount_formatted|]. split; [exact Hrep|]. split; [exact Hfs|]. split; [exact Hb|].
  split; [by eapply fresh_image|]. split; [by eapply fresh_tree|].
  split; intros; [by eapply fresh_block_used|by eapply fresh_inode_used].
Qed.

Lemma mkfs_then_mount_witness :
  let (r, d') := logfs_fs_format None 64 16 LOGFS_MODE_ORDERED 7 (blank_dev []) in
  r = Ok tt /\
  exists fs mgr,
    let d1 := mkBdev (b_disk d') [] [] in
    logfs_fs_mount (Some (64 * LOGFS_BLOCK_SIZE)) (-1) d1 = (Ok (fs, mgr), d1) /\
    tree fs (view (mkTst mgr d1)) LOGFS_ROOT_INO = Some (new_dir LOGFS_ROOT_INO LOGFS_ROOT_INO).
Proof.
  assert (Hm : 0 <= mode_num LOGFS_MODE_ORDERED < 2 ^ 32) by (split; vm_compute; congruence).
  pose proof (mkfs_then_mount 64 16 7 LOGFS_MODE_ORDERED None (-1) (blank_dev []) formattable_64 Hm
    (wf_blank_disk 0) (List.Forall_nil _) (fun b _ => blank_log 0 b)) as H.
  destruct (logfs_fs_format _ _ _ _ _ _) as [r d'].
  destruct H as [[Hr|[Hs _]] Hok]; [|by destruct Hs]. split; [exact Hr|].
  destruct (Hok Hr) as (fs & mgr & Hmount & _ & _ & _ & _ & Hdir & _).
  exists fs, mgr. split; [exact Hmount|exact Hdir].
Defined.

(** ** What mkfs refuses *)

(** [logfs_fs_format] refuses a file system without room for the log and
    the tables before it touches the file, and one without a data block, or
    with more than one bitmap block covers, before it writes a block. *)
Theorem mkfs_refuses size total jlen mode now d :
  0 <= jlen < 2 ^ 51 -> 0 < total < 2 ^ 51 -> whole_io d ->
  let data_start := 3 + jlen + 2 + mkfs_inode_table_len (mkfs_total_inodes total) in
  let (r, d') := logfs_fs_format size total jlen mode now d in
  (total < 3 + jlen + 4 -> r = Err (- EINVAL) /\ d' = d) /\
  (3 + jlen + 4 <= total ->
   total <= data_start \/ LOGFS_FS_MAX_BITMAP_UNITS < total - data_start ->
   (b_disk d' = b_disk d \/ b_disk d' = opened total (b_disk d)) /\
   (sys d = [] -> r = Err (if decide (total <= data_start) then - ENOSPC else - EFBIG))).
Proof.
  intros Hj Ht Hw data_start. unfold logfs_fs_format, LOGFS_JOURNAL_REGION_START.
  pose proof (mkfs_table_len _ (mkfs_total_inodes_range total)) as [Hl _].
  assert (Hpos : 0 <= data_start) by (unfold data_start; lia).
  rewrite (u64_small (3 + jlen + 4)) by lia.
  destruct (Z.ltb_spec total (3 + jlen + 4)) as [Hlt|Hge]; [split; [done|lia]|].
  destruct (bdev_open_create size total d ltac:(lia) Hw)
    as (r0 & d0 & E0 & _ & _ & [[-> Hd0]|(Hne & Hd0 & rc & Hrc & ->)]).
  2: { rewrite (bind_err _ _ _ _ _ E0). split; [lia|]. intros _ _. split; [by left|]. intros Hs. by destruct Hne. }
  rewrite (bind_ok _ _ _ _ _ E0). cbv zeta.
  assert (Hds : sb_data_start (mkfs_super total jlen mode) = data_start)
    by (apply mkfs_super_data_start; lia).
  rewrite Hds. destruct (decide (total <= data_start)) as [Hle|Hgt].
  - rewrite (proj2 (Z.leb_le _ _) Hle). split; [lia|]. intros _ _. split; [by right|done].
  - rewrite (proj2 (Z.leb_gt _ _)) by lia. rewrite u64_small by lia.
    destruct (Z.ltb_spec LOGFS_FS_MAX_BITMAP_UNITS (total - data_start)).
    2: { lazymatch goal with |- let (_, _) := ?x in _ => destruct x as [r d'] end. split; [lia|intros _ [?|?]; exfalso; lia]. }
    split; [lia|]. intros _ _. split; [by right|done].
Qed.

Lemma mkfs_refuses_witness :
  let (r, d') := logfs_fs_format None 40000 16 LOGFS_MODE_JOURNAL 7 (blank_dev []) in
  r = Err (- EFBIG) /\ (b_disk d' = b_disk (blank_dev []) \/ b_disk d' = opened 40000 (mkDisk 0 ∅ [])).
Proof.
  pose proof (mkfs_refuses None 40000 16 LOGFS_MODE_JOURNAL 7 (blank_dev []) ltac:(lia) ltac:(lia)
    (List.Forall_nil _)) as H.
  cbv zeta in H. destruct (logfs_fs_format _ _ _ _ _ _) as [r d'].
  destruct (proj2 H) as [Hd Hr]; [lia|right; by vm_compute|]. split; [exact (Hr eq_refl)|exact Hd].
Defined.

(** ** The superblock comes last *)

Lemma mkfs_ops_super total jlen now mode :
  formattable total jlen ->
  latest (op_writes (mkfs_ops (mkfs_super total jlen mode) now)) LOGFS_SUPER_BLOCKNO = None.
Proof.
  intros Hfm. apply latest_none. intros c. unfold mkfs_ops.
  rewrite op_writes_app, op_writes_dwrites, elem_of_app. intros [Hin|Hin].
  - by apply list_elem_of_singleton in Hin.
  - apply mkfs_writes_home in Hin as [Hin _]; [|by apply mkfs_wf_fs].
    rewrite mkfs_super_eq in Hin by done. cbn [sb_inode_bitmap_start] in Hin.
    destruct Hfm. unfold LOGFS_SUPER_BLOCKNO in Hin. lia.
Qed.

Lemma prefix_two {A} (l : list A) x y : l `prefix_of` [x; y] -> l = [] \/ l = [x] \/ l = [x; y].
Proof. destruct l as [|a [|b [|c l]]]; intros [k [=]]; subst; auto. Qed.

(** The last operation is a flush. *)
Lemma full_ops_flushed sb now k : pending (run (full_ops sb now) k) = [].
Proof. unfold full_ops, super_ops. by rewrite run_app. Qed.

(** C33: with sizes that fit ([formattable]) mkfs writes the superblock last:
    while the machine stays up, whatever call fails and wherever mkfs is killed,
    what the file reads as is its old superblock or the complete file system;
    and once mkfs returned 0, every power failure leaves the complete file
    system, whatever part of the disk's cache survives it.  A power failure
    before that can leave the new superblock alone: [mkfs_reordering_accepted]. *)
Theorem mkfs_super_last total jlen now mode size d :
  formattable total jlen -> wf_disk (b_disk d) -> whole_io d ->
  let (r, d') := logfs_fs_format size total jlen mode now d in
  let k' := b_disk d' in
  let whole := run (full_ops (mkfs_super total jlen mode) now) (opened total (b_disk d)) in
  (content k' LOGFS_SUPER_BLOCKNO = content (b_disk d) LOGFS_SUPER_BLOCKNO \/
   forall b, content k' b = content whole b) /\
  (r = Ok tt -> forall img, crash_image k' img -> forall b, img b = content whole b).
Proof.
  intros Hfm Hk Hw. cbv zeta.
  destruct (format_run total jlen now mode size Hfm d Hk Hw) as (r & d' & -> & Hr).
  destruct Hr as [[_ ->]|(_ & (rc & _ & ->) & Hd')].
  { split; [by right|]. intros _ img Hcr b. apply (crash_image_stable _ _ _ Hcr).
    intros c. rewrite full_ops_flushed. apply not_elem_of_nil. }
  split; [|done]. destruct Hd' as [->|(dn & Hpre & ->)]; [by left|].
  pose proof (mkfs_ops_super total jlen now mode Hfm) as Hnone.
  assert (Hold : content (opened total (b_disk d)) LOGFS_SUPER_BLOCKNO
                 = content (b_disk d) LOGFS_SUPER_BLOCKNO).
  { apply content_resize. destruct Hfm. unfold LOGFS_SUPER_BLOCKNO.
    pose proof (mkfs_table_len _ (mkfs_total_inodes_range total)). lia. }
  unfold full_ops in Hpre |- *. apply prefix_app_inv in Hpre as [ [l Hpre] | (l & -> & Hl) ].
  - left. rewrite Hpre, op_writes_app, latest_app in Hnone. rewrite content_run.
    destruct (latest (op_writes l) _); [done|]. by rewrite Hnone.
  - apply prefix_two in Hl as [El|[El|El]]; subst l; [left|right|by right].
    + by rewrite app_nil_r, content_run, Hnone.
    + intros b. by rewrite !content_run, !op_writes_app.
Qed.

Lemma mkfs_super_last_witness :
  let run_with answers := logfs_fs_format None 64 16 LOGFS_MODE_JOURNAL 7 (blank_dev answers) in
  let whole := run (full_ops (mkfs_super 64 16 LOGFS_MODE_JOURNAL) 7) (opened 64 (mkDisk 0 ∅ [])) in
  (let k' := b_disk (run_with [SRet 4096; SErr 5]).2 in
   content k' LOGFS_SUPER_BLOCKNO = zero_block \/ forall b, content k' b = content whole b) /\
  (run_with []).1 = Ok tt /\
  forall img, crash_image (b_disk (run_with []).2) img -> forall b, img b = content whole b.
Proof.
  intros run_with whole.
  assert (H : forall answers, Forall whole_answer answers -> let (r, d') := run_with answers in
    (content (b_disk d') LOGFS_SUPER_BLOCKNO = zero_block \/ forall b, content (b_disk d') b = content whole b) /\
    (r = Ok tt -> forall img, crash_image (b_disk d') img -> forall b, img b = content whole b)).
  { intros answers Ha. apply (mkfs_super_last 64 16 7 LOGFS_MODE_JOURNAL None (blank_dev answers)
      formattable_64 (wf_blank_disk 0) Ha). }
  split.
  - specialize (H [SRet 4096; SErr 5] ltac:(repeat constructor)).
    destruct (run_with [SRet 4096; SErr 5]) as [r d']. apply H.
  - specialize (H [] ltac:(constructor)). assert (E : (run_with []).1 = Ok tt) by (vm_compute; reflexivity).
    destruct (run_with []) as [r d']. split; [exact E|]. apply H. exact E.
Defined.

(** ** What mount refuses *)

(** A device whose superblock is [sb]: the mount answers with its error and
    leaves every block alone. *)
Lemma mount_super_error size ov k sb rest e :
  wf_disk k -> wf_super sb -> content k LOGFS_SUPER_BLOCKNO = encode_super sb ++ rest ->
  LOGFS_SUPER_BLOCKNO < size / LOGFS_BLOCK_SIZE ->
  super_error sb (size / LOGFS_BLOCK_SIZE) = Some e ->
  logfs_fs_mount (Some size) ov (mkBdev k [] [])
  = (Err (- e), mkBdev (set_nblocks (size / LOGFS_BLOCK_SIZE) k) [] []).
Proof.
  intros Hk Hw Hc Hn He. set (d := mkBdev (set_nblocks (size / LOGFS_BLOCK_SIZE) k) [] []).
  assert (Hopen : logfs_bdev_open (Some size) 0 false (mkBdev k [] []) = (Ok tt, d)) by reflexivity.
  unfold logfs_fs_mount. rewrite (bind_ok _ _ _ _ _ Hopen).
  assert (Hread : logfs_bdev_read LOGFS_SUPER_BLOCKNO d = (Ok (encode_super sb ++ rest), d)).
  { rewrite <-Hc. by apply (read_ok LOGFS_SUPER_BLOCKNO d). }
  rewrite (bind_ok _ _ _ _ _ Hread). rewrite (decode_encode_super sb) by done. cbv zeta.
  unfold mbind, M_bind, gets. cbn [d b_disk set_nblocks nblocks]. by rewrite He.
Qed.

(** C35: a superblock that was damaged within four consecutive bytes outside
    its checksum, or whose file has another length than mkfs recorded, is
    refused - [-EINVAL] when the magic number is gone or the length is wrong,
    [-EUCLEAN] otherwise - and the mount has written nothing. *)
Theorem mount_refuses size ov k sb sb' pre x y post rest :
  wf_disk k -> wf_super sb -> wf_super sb' -> sb_checksum sb = super_checksum sb -> sb_checksum sb' = sb_checksum sb ->
  encode_super (set_checksum 0 sb) = pre ++ x ++ post ->
  encode_super (set_checksum 0 sb') = pre ++ y ++ post ->
  length x = length y -> (length x <= 4)%nat ->
  content k LOGFS_SUPER_BLOCKNO = encode_super sb' ++ rest ->
  LOGFS_SUPER_BLOCKNO < size / LOGFS_BLOCK_SIZE ->
  x <> y \/ sb_total_blocks sb <> size / LOGFS_BLOCK_SIZE ->
  exists e, e ∈ [EINVAL; EUCLEAN] /\
    (e = EUCLEAN -> sb_magic sb' = LOGFS_SUPER_MAGIC /\ x <> y) /\
    logfs_fs_mount (Some size) ov (mkBdev k [] [])
    = (Err (- e), mkBdev (set_nblocks (size / LOGFS_BLOCK_SIZE) k) [] []).
Proof.
  intros Hk Hwf Hw Hsum Hsame Hx Hy Hxy Hlen Hc Hn Hbad.
  assert (He : exists e, super_error sb' (size / LOGFS_BLOCK_SIZE) = Some e /\
    (e = EINVAL \/ e = EUCLEAN /\ sb_magic sb' = LOGFS_SUPER_MAGIC /\ x <> y)).
  { unfold super_error. destruct (Z.eqb_spec (sb_magic sb') LOGFS_SUPER_MAGIC); cbn [negb]; [|eauto].
    destruct (decide (x = y)) as [->|Hne].
    - assert (Heq : set_checksum 0 sb' = set_checksum 0 sb)
        by (apply encode_super_inj; [by apply wf_set_checksum..|congruence]).
      assert (Hc' : sb_checksum sb' = super_checksum sb').
      { by rewrite Hsame, Hsum, <-(super_checksum_set 0 sb'), Heq, super_checksum_set. }
      rewrite (proj2 (Z.eqb_eq _ _) Hc'). cbn [negb].
      apply (f_equal sb_total_blocks) in Heq. cbn [set_checksum sb_total_blocks] in Heq.
      rewrite Heq. destruct Hbad as [|Ht]; [done|]. rewrite (proj2 (Z.eqb_neq _ _) Ht). eauto.
    - rewrite (proj2 (Z.eqb_neq _ _)); [eauto 6|]. rewrite Hsame, Hsum.
      by apply (super_checksum_burst sb sb' pre x y post). }
  destruct He as (e & He & Hcase). exists e. split; [destruct Hcase as [->|[-> _]]; set_solver|].
  split; [intros ->; destruct Hcase as [H|[_ H]]; [discriminate H|exact H]|].
  by eapply mount_super_error.
Qed.

(** The same with a bit of the root's inode number flipped. *)
Definition demo_damaged : logfs_super :=
  mkSuper (sb_magic demo_super) (sb_version demo_super) (sb_block_size demo_super)
    (sb_data_mode demo_super) (sb_total_blocks demo_super) (sb_journal_start demo_super)
    (sb_journal_len demo_super) (sb_inode_bitmap_start demo_super)
    (sb_block_bitmap_start demo_super) (sb_inode_table_start demo_super)
    (sb_inode_table_len demo_super) (sb_data_start demo_super) (sb_total_inodes demo_super)
    3 (sb_last_orphan demo_super) (sb_checksum demo_super) (sb_reserved demo_super).

Lemma wf_demo_damaged : wf_super demo_damaged.
Proof.
  destruct wf_demo_super as [H32 H64]. split; [|exact H64]. repeat rewrite Forall_cons in *.
  cbn [demo_damaged sb_magic sb_version sb_block_size sb_data_mode sb_root_ino sb_last_orphan
    sb_checksum sb_reserved]. intuition lia.
Qed.

Lemma mount_refuses_witness :
  let k := mkDisk 64 {[ 1 := pad_block (encode_super demo_damaged) ]} [] in
  let size := 64 * LOGFS_BLOCK_SIZE in
  exists e, e ∈ [EINVAL; EUCLEAN] /\
    (e = EUCLEAN -> sb_magic demo_damaged = LOGFS_SUPER_MAGIC /\ [Byte.x01] <> [Byte.x03]) /\
    logfs_fs_mount (Some size) (-1) (mkBdev k [] [])
    = (Err (- e), mkBdev (set_nblocks (size / LOGFS_BLOCK_SIZE) k) [] []).
Proof.
  intros k size.
  apply (mount_refuses size (-1) k demo_super demo_damaged
    (take 88 (encode_super (set_checksum 0 demo_super))) [Byte.x01] [Byte.x03]
    (drop 89 (encode_super (set_checksum 0 demo_super)))
    (replicate (block_len - length (encode_super demo_damaged)) Byte.x00)).
  - split; [|constructor]. apply map_Forall_singleton, length_pad_block.
    rewrite length_encode_super. unfold sizeof_super. blia.
  - apply wf_demo_super.
  - apply wf_demo_damaged.
  - vm_compute. reflexivity.
  - reflexivity.
  - vm_compute. reflexivity.
  - vm_compute. reflexivity.
  - reflexivity.
  - simpl. lia.
  - reflexivity.
  - reflexivity.
  - left. intros H. discriminate H.
Defined.

(** ** Layout *)

(** C34: the layout mkfs computes for sizes that fit ([formattable]: a log of at
    least one block, all regions and at least one data block inside the file,
    less than 2^51 blocks, data blocks for one bitmap; for sizes that wrap
    around see [mkfs_journal_len_wraps]): the superblocks, the log, the two
    bitmap blocks, the inode table and at least one data block follow each other
    without overlap inside the file, no number wraps around, the table has the
    bytes of its inodes - a slot for at least 63 of 64 of them, 28 to a block,
    but not always for all: [inode_past_table] - and one bitmap block covers
    each of the two bitmaps.  An inode whose slot is in the table lies wholly
    inside one of its blocks, and no two share a slot. *)
Theorem mkfs_layout total jlen mode :
  formattable total jlen ->
  let fs := mkfs_super total jlen mode in
  LOGFS_SUPER_BLOCKNO < LOGFS_JSUPER_BLOCKNO < sb_journal_start fs /\
  sb_journal_start fs + sb_journal_len fs = sb_inode_bitmap_start fs /\
  sb_inode_bitmap_start fs + 1 = sb_block_bitmap_start fs /\
  sb_block_bitmap_start fs + 1 = sb_inode_table_start fs /\
  sb_inode_table_start fs + sb_inode_table_len fs = sb_data_start fs /\
  sb_data_start fs < sb_total_blocks fs /\ sb_total_blocks fs = total /\
  sb_total_inodes fs * Z.of_nat sizeof_inode <= sb_inode_table_len fs * LOGFS_BLOCK_SIZE /\
  63 * sb_total_inodes fs <= 64 * (28 * sb_inode_table_len fs) /\
  16 <= sb_total_inodes fs < bitmap_bits /\
  sb_total_blocks fs - sb_data_start fs <= bitmap_bits /\
  (forall i1 i2, in_table fs i1 -> in_table fs i2 ->
     sb_inode_table_start fs <= (inode_location fs i1).1 < sb_data_start fs /\
     (sizeof_inode * S (inode_location fs i1).2 <= block_len)%nat /\
     (inode_location fs i1 = inode_location fs i2 -> i1 = i2)).
Proof.
  intros Hfm fs. assert (Hfs : wf_fs fs) by by apply mkfs_wf_fs.
  pose proof (mkfs_super_eq total jlen mode Hfm) as E. fold fs in E.
  pose proof (mkfs_total_inodes_range total) as Hi. pose proof (mkfs_table_len _ Hi) as [Hl Ht].
  pose proof Hfs as []. pose proof Hfm as [].
  assert (Htot : sb_total_blocks fs = total) by by rewrite E.
  assert (Hino : sb_total_inodes fs = mkfs_total_inodes total) by by rewrite E.
  assert (Hlen : sb_inode_table_len fs = mkfs_inode_table_len (mkfs_total_inodes total)) by by rewrite E.
  assert (Hj : sb_journal_start fs = 3 /\ sb_journal_len fs = jlen /\ sb_inode_bitmap_start fs = 3 + jlen)
    by (split; [|split]; rewrite E; reflexivity).
  unfold LOGFS_SUPER_BLOCKNO, LOGFS_JSUPER_BLOCKNO, LOGFS_BLOCK_SIZE.
  repeat (split; [unfold sizeof_inode; lia|]).
  intros i1 i2 H1 H2. destruct (inode_block fs i1 Hfs H1) as [Hr Hs].
  split; [exact Hr|]. split; [lia|]. by apply inode_location_inj.
Qed.

Lemma mkfs_layout_witness :
  let fs := mkfs_super 64 16 LOGFS_MODE_JOURNAL in
  sb_journal_start fs + sb_journal_len fs = sb_inode_bitmap_start fs /\
  (inode_location fs 3 = inode_location fs 5 -> 3 = 5).
Proof.
  pose proof (mkfs_layout 64 16 LOGFS_MODE_JOURNAL formattable_64) as H. cbv zeta in H.
  destruct H as (_ & H & _ & _ & _ & _ & _ & _ & _ & _ & _ & Hinj). split; [exact H|].
  apply (Hinj 3 5); repeat split; vm_compute; congruence.
Defined.

(** ** Defects *)

(** The table is sized by bytes (one more block for every 4096), but
    slots do not straddle blocks: the table has only 28 slots a block.  Where
    mkfs allows more inodes than that, the next one lives on the root
    directory's block. *)
Theorem inode_past_table total jlen mode :
  formattable total jlen ->
  let fs := mkfs_super total jlen mode in
  let ino := 28 * sb_inode_table_len fs + 1 in
  ino <= sb_total_inodes fs ->
  (ino =? 0) || (sb_total_inodes fs <? ino) = false /\
  inode_location fs ino = (sb_data_start fs, 0%nat) /\
  (forall now k, content (run (full_ops fs now) k) (inode_location fs ino).1
                 = dir_block LOGFS_ROOT_INO LOGFS_ROOT_INO).
Proof.
  intros Hfm fs ino Hino. assert (Hfs : wf_fs fs) by by apply mkfs_wf_fs.
  assert (Hloc : inode_location fs ino = (sb_data_start fs, 0%nat)).
  { pose proof Hfs as []. unfold inode_location. rewrite inodes_per_block_eq.
    unfold bitmap_bits, LOGFS_BLOCK_SIZE in *. unfold ino in *.
    rewrite u32_small by lia.
    replace (28 * sb_inode_table_len fs + 1 - 1) with (sb_inode_table_len fs * 28) by lia.
    rewrite Z.div_mul, Z.mod_mul by done. by rewrite u64_small, wf_data by lia. }
  split; [apply orb_false_iff; split; [apply Z.eqb_neq|apply Z.ltb_ge]; destruct Hfs; lia|].
  split; [exact Hloc|]. intros now k. rewrite Hloc. cbn [fst].
  apply (fv_root fs now), after_fresh; [done|]. unfold fs. rewrite mkfs_super_eq by done.
  cbn [sb_inode_bitmap_start]. destruct Hfm. lia.
Qed.

Lemma inode_past_table_witness :
  let fs := mkfs_super 1024 64 LOGFS_MODE_ORDERED in
  sb_total_inodes fs = 256 /\ sb_inode_table_len fs = 9 /\
  inode_location fs 253 = (sb_data_start fs, 0%nat).
Proof.
  assert (Hfm : formattable 1024 64) by by split; vm_compute.
  split; [reflexivity|]. split; [reflexivity|].
  apply (inode_past_table 1024 64 LOGFS_MODE_ORDERED Hfm). vm_compute. congruence.
Defined.

(** [write_super] flushes after the superblock, not before it: when the
    machine loses power inside that flush, a disk that reorders its cache may
    keep the superblock without the root directory, and the mount accepts
    it. *)
Theorem mkfs_reordering_accepted :
  let (r, d') := logfs_fs_format None 64 16 LOGFS_MODE_JOURNAL 7
                   (blank_dev (replicate 10 (SRet 4096) ++ [SCrash])) in
  is_ok r = false /\
  exists img, crash_image (b_disk d') img /\
    super_error (decode_super (img LOGFS_SUPER_BLOCKNO)) 64 = None /\
    img (sb_data_start demo_super) = zero_block.
Proof.
  rewrite (surjective_pairing (logfs_fs_format _ _ _ _ _ _)). split; [reflexivity|].
  set (k := b_disk _). exists (fun b => if b =? 1 then content k 1 else persisted k b).
  split; [|split; vm_compute; reflexivity].
  intros b. destruct (Z.eqb_spec b 1) as [->|]; [|by left]. right. unfold content.
  destruct (latest (pending k) 1) as [c|] eqn:E; [by apply latest_in|].
  exfalso. revert E. vm_compute. discriminate.
Qed.

(** The sums with [journal_len] wrap around: a log of 2^64 - 1 blocks
    passes the size check, the inode bitmap lands on the journal's superblock
    and mkfs reports success for a file system that cannot be mounted. *)
Theorem mkfs_journal_len_wraps :
  let fs := mkfs_super 64 (2 ^ 64 - 1) LOGFS_MODE_JOURNAL in
  let (r, d') := logfs_fs_format None 64 (2 ^ 64 - 1) LOGFS_MODE_JOURNAL 7 (blank_dev []) in
  r = Ok tt /\ sb_inode_bitmap_start fs = LOGFS_JSUPER_BLOCKNO /\
  (logfs_fs_mount (Some (64 * LOGFS_BLOCK_SIZE)) (-1) d').1 = Err (- EINVAL).
Proof. vm_compute. split; [|split]; reflexivity. Qed.
