(* ===== verification/InodeProps.v ===== *)
(** Properties of [inode.c] over any implementation of [TxnApi] with its
    laws, applied to the transaction manager on the file system of
    [FsDemo]. *)

From S2P Require Import Prelude.
From S2P Require Import Bytes.
From S2P Require Import DiskFormat.
From S2P Require Import Blockdev.
From S2P Require Import TxnApi.
From S2P Require Import TxnStore.
From S2P Require Import FsFormat.
From S2P Require Import Inode.
From S2P Require Import InodeBits.
From S2P Require Import InodeSpec.
From S2P Require Import InodeDir.
From S2P Require Import InodeDirSpec.
From S2P Require Import InodeDirAdd.
From S2P Require Import InodeWalk.
From S2P Require Import Fs.
From S2P Require Import FsOps.
From S2P Require Import FsTree.
From S2P Require Import FsImage.
From S2P Require Import FsPath.
From S2P Require Import FsMkfs.
From S2P Require Import FsDemo.

(** ** The inode table *)

Section table.
Context {S : Type} `{TxnLaws S} (fs : logfs_super).

(** C30: the inode table is a map: what was written to an inode is read back
    whole, every other inode reads as before and no block outside the table
    changes; or a call failed, and then its error is returned. *)
Theorem inode_write_read a h ino ino' inode :
  wf_fs fs -> fs_blocks fs a -> h = c_gen a -> wf_inode inode ->
  in_table fs ino -> in_table fs ino' ->
  triple rep a (logfs_inode_write h fs ino inode ;; logfs_inode_read fs ino')
    (fun r a' =>
       r = Ok (if decide (ino = ino') then inode else inode_at fs (c_view a) ino') /\
       (forall b, ~ (sb_inode_table_start fs <= b < sb_data_start fs) -> c_view a' b = c_view a b) \/
       c_calm a = false /\ exists rc, rc < 0 /\ r = Err rc).
Proof.
  intros Hfs Hb Hh Hw Hi Hi'. apply triple_whole. intros Hlen.
  eapply triple_outcome; [by apply inode_write_spec|eauto 6|].
  set (a1 := write_inode fs ino inode a).
  assert (Hse : same_env a a1) by apply same_env_write_inode.
  eapply triple_outcome_last;
    [apply inode_read_spec; [done|by apply (fs_blocks_env fs a)|done]|..].
  - intros rc Hc Hrc. right. rewrite (se_calm _ _ Hse) in Hc. eauto.
  - left. split; [f_equal; by apply inode_at_write|].
    intros b Hb'. by apply write_inode_other.
Qed.
End table.

Lemma inode_write_read_witness :
  let s := demo_fs [SErr 4] [true] in
  let i := root_inode 30 (u64 9) in
  exists a', rep_mgr a' ((logfs_inode_write 1 demo_super 5 i ;; logfs_inode_read demo_super 5) s).2.
Proof.
  intros s i. assert (Hin : in_table demo_super 5) by (repeat split; vm_compute; congruence).
  destruct (inode_write_read demo_super (contents_of s) 1 5 5 i demo_wf_fs (demo_blocks _ _) eq_refl
    (wf_root_inode 30 9 ltac:(lia)) Hin Hin s) as (a' & Hrep & _); [|by exists a'].
  apply demo_rep. set_solver.
Defined.

(** ** Allocation *)

Section allocator.
Context {S : Type} `{TxnLaws S} (fs : logfs_super).

(** C29: [logfs_alloc_block] returns the lowest free data block and marks
    exactly it; [-ENOSPC] is returned only when every data block is in use.
    Nothing but the bitmap block changes. *)
Theorem alloc_block_lowest a h :
  wf_fs fs -> fs_blocks fs a -> h = c_gen a ->
  triple rep a (logfs_alloc_block h fs)
    (fun r a' =>
       (forall b, b <> sb_block_bitmap_start fs -> c_view a' b = c_view a b) /\
       match r with
       | Ok nb =>
           in_data fs nb /\ block_used fs (c_view a) nb = false /\
           (forall b, sb_data_start fs <= b < nb -> block_used fs (c_view a) b = true) /\
           (forall b, in_data fs b ->
              block_used fs (c_view a') b = bool_decide (b = nb) || block_used fs (c_view a) b)
       | Err rc =>
           (rc = - ENOSPC /\ (forall b, in_data fs b -> block_used fs (c_view a) b = true) \/
            c_calm a = false /\ rc < 0) /\
           (forall b, c_view a' b = c_view a b)
       end).
Proof.
  intros Hfs Hb Hh. apply triple_whole. intros Hlen.
  eapply triple_wand; [by apply alloc_block_spec|]. intros r a'. unfold alloc_outcome.
  pose proof (find_clear_spec (c_view a (sb_block_bitmap_start fs)) 0
    (Z.to_nat (sb_total_blocks fs - sb_data_start fs))) as Hs. fold (free_block_no fs a) in Hs.
  assert (Hdata : forall b, in_data fs b -> 
    0 <= b - sb_data_start fs < 0 + Z.of_nat (Z.to_nat (sb_total_blocks fs - sb_data_start fs)))
    by (unfold in_data; lia).
  destruct (free_block_no fs a) as [i|] eqn:Ef.
  - destruct Hs as (Hi & Hclear & Hlow).
    intros [[-> ->]|[(Hc & rc & Hrc & ->) ->]]; [|by split; [|split; [right|]]].
    destruct (free_block_no_spec fs a i Hfs Ef) as (Hr & Hin & Hfree).
    split; [intros b Hne; by apply take_bit_other|]. split; [done|]. split; [done|]. split.
    + intros b Hb'. apply Hlow. lia.
    + intros b Hb'. unfold block_used. rewrite take_bit_view; [|done|done|specialize (Hdata b Hb'); lia].
      case_decide; [rewrite bool_decide_true by lia|rewrite bool_decide_false by lia]; done.
  - intros [[-> ->]|[(Hc & rc & Hrc & ->) ->]]; (split; [done|]); (split; [|done]); [left|by right].
    split; [done|]. intros b Hb'. apply Hs. specialize (Hdata b Hb'). lia.
Qed.

(** [logfs_alloc_inode] returns the lowest free inode number from 1 on,
    never 0, and marks exactly it; [-ENOSPC] only when all are in use. *)
Theorem alloc_inode_lowest a h :
  wf_fs fs -> fs_blocks fs a -> h = c_gen a ->
  triple rep a (logfs_alloc_inode h fs)
    (fun r a' =>
       (forall b, b <> sb_inode_bitmap_start fs -> c_view a' b = c_view a b) /\
       match r with
       | Ok n =>
           1 <= n <= sb_total_inodes fs /\ inode_used fs (c_view a) n = false /\
           (forall i, 1 <= i < n -> inode_used fs (c_view a) i = true) /\
           (forall i, 0 <= i ->
              inode_used fs (c_view a') i = bool_decide (i = n) || inode_used fs (c_view a) i)
       | Err rc =>
           (rc = - ENOSPC /\ (forall i, 1 <= i <= sb_total_inodes fs ->
                                inode_used fs (c_view a) i = true) \/
            c_calm a = false /\ rc < 0) /\
           (forall b, c_view a' b = c_view a b)
       end).
Proof.
  intros Hfs Hb Hh. apply triple_whole. intros Hlen.
  eapply triple_wand; [by apply alloc_inode_spec|]. intros r a'. unfold alloc_outcome.
  pose proof (find_clear_spec (c_view a (sb_inode_bitmap_start fs)) 1
    (Z.to_nat (sb_total_inodes fs))) as Hs. fold (free_inode_no fs a) in Hs.
  destruct (free_inode_no fs a) as [n|] eqn:Ef.
  - destruct Hs as (Hi & Hclear & Hlow).
    intros [[-> ->]|[(Hc & rc & Hrc & ->) ->]]; [|by split; [|split; [right|]]].
    assert (Hn : 1 <= n <= sb_total_inodes fs) by (destruct Hfs; lia).
    split; [intros b Hne; by apply take_bit_other|]. split; [done|]. split; [done|]. split.
    + intros i Hi'. apply Hlow. lia.
    + intros i Hi'. unfold inode_used. rewrite take_bit_view; [|done|destruct Hfs; lia|done].
      case_decide; [rewrite bool_decide_true by lia|rewrite bool_decide_false by lia]; done.
  - intros [[-> ->]|[(Hc & rc & Hrc & ->) ->]]; (split; [done|]); (split; [|done]); [left|by right].
    split; [done|]. intros i Hi. apply Hs. destruct Hfs. lia.
Qed.
End allocator.

Lemma alloc_block_lowest_witness :
  let s := demo_fs [] [] in
  exists a', rep_mgr a' (logfs_alloc_block 1 demo_super s).2 /\
    (logfs_alloc_block 1 demo_super s).1 = Ok 23 /\
    block_used demo_super (c_view a') 23 = true.
Proof.
  intros s. assert (Hrep : rep_mgr (contents_of s) s) by (apply demo_rep; set_solver).
  destruct (alloc_block_lowest demo_super (contents_of s) 1 demo_wf_fs (demo_blocks _ _) eq_refl s)
    as (a' & Hrep' & _ & Hr); [exact Hrep|].
  exists a'. split; [exact Hrep'|].
  assert (E : (logfs_alloc_block 1 demo_super s).1 = Ok 23) by (vm_compute; reflexivity).
  rewrite E in Hr. split; [exact E|]. destruct Hr as (Hin & _ & _ & Hu).
  rewrite (Hu 23 Hin). reflexivity.
Defined.

Lemma alloc_inode_lowest_witness :
  let s := demo_fs [] [] in
  exists a', rep_mgr a' (logfs_alloc_inode 1 demo_super s).2 /\
    (logfs_alloc_inode 1 demo_super s).1 = Ok 2 /\
    inode_used demo_super (c_view a') 2 = true.
Proof.
  intros s. assert (Hrep : rep_mgr (contents_of s) s) by (apply demo_rep; set_solver).
  destruct (alloc_inode_lowest demo_super (contents_of s) 1 demo_wf_fs (demo_blocks _ _) eq_refl s)
    as (a' & Hrep' & _ & Hr); [exact Hrep|].
  exists a'. split; [exact Hrep'|].
  assert (E : (logfs_alloc_inode 1 demo_super s).1 = Ok 2) by (vm_compute; reflexivity).
  rewrite E in Hr. split; [exact E|]. destruct Hr as (_ & _ & _ & Hu).
  rewrite (Hu 2 ltac:(lia)). reflexivity.
Defined.

(** ** Directories *)

Section directories.
Context {S : Type} `{TxnLaws S} (fs : logfs_super).

(** A directory is a finite map from names to inode numbers and types:
    [logfs_dir_lookup] answers with the map's entry, or [-ENOENT], or the
    error of a failed call, and changes nothing. *)
Theorem dir_lookup_refines a dino name :
  wf_fs fs -> fs_blocks fs a -> wf_dir fs (c_view a) dino -> bad_name name = false ->
  triple rep a (logfs_dir_lookup fs dino name)
    (fun r a' => a' = a /\
       (r = match the_dir fs (c_view a) dino !! name with
            | Some x => Ok x
            | None => Err (- ENOENT)
            end \/ io_error a r)).
Proof.
  intros Hfs Hb Hd Hname. eapply triple_wand; [by apply dir_lookup_spec|].
  intros r a' [-> Hr]. split; [done|]. by destruct (the_dir fs (c_view a) dino !! name).
Qed.

(** C25: [logfs_dir_add] of a name of legal length that the directory lacks, or
    of any name while no call fails, inserts into that map - in a free slot, in
    a slot a removal left, or in a fresh block - and returns 0; a name the
    directory has is refused with [-EEXIST]; otherwise the error is [-ENOSPC] or
    that of a failed call and the map is as it was.  (A name that is there and
    whose lookup fails gets a second entry:
    [FsRunProps.failed_lookup_adds_twice].) The directory stays well-formed, and
    no other inode, the inode bitmap or any block in use by others changes. *)
Theorem dir_add_refines a h dino name ino type :
  wf_fs fs -> fs_blocks fs a -> h = c_gen a -> wf_dir fs (c_view a) dino ->
  bad_name name = false -> 0 < ino < 2 ^ 32 -> 0 <= type < 2 ^ 8 ->
  the_dir fs (c_view a) dino !! name = None \/ c_calm a = true ->
  triple rep a (logfs_dir_add h fs dino name ino type)
    (fun r a' =>
       dir_frame fs dino (c_view a) (c_view a') /\ wf_dir fs (c_view a') dino /\
       match r with
       | Ok _ => the_dir fs (c_view a) dino !! name = None /\
                 the_dir fs (c_view a') dino = <[name := (ino, type)]> (the_dir fs (c_view a) dino)
       | Err rc => the_dir fs (c_view a') dino = the_dir fs (c_view a) dino /\
                   (rc = - EEXIST /\ the_dir fs (c_view a) dino !! name <> None \/
                    rc = - ENOSPC \/ c_calm a = false /\ rc < 0)
       end).
Proof.
  intros Hfs Hb Hh Hd Hname Hino Htype Hor.
  destruct (the_dir fs (c_view a) dino !! name) as [x|] eqn:E.
  - destruct Hor as [|Hcalm]; [done|].
    eapply triple_wand; [by eapply dir_add_exists|]. intros r a' [-> ->].
    split; [apply dir_frame_refl|]. split; [done|]. split; [done|]. by left.
  - eapply triple_wand; [by apply dir_add_spec|]. intros r a' (_ & Hfr & Hd' & Hr).
    split; [done|]. split; [done|]. destruct r as [u|rc]; [done|]. destruct Hr as [? ?]. auto.
Qed.

(** C31: [logfs_dir_remove] deletes from that map and returns 0, or returns
    [-ENOENT] exactly when the name is absent; the frame is the same. *)
Theorem dir_remove_refines a h dino name :
  wf_fs fs -> fs_blocks fs a -> h = c_gen a -> wf_dir fs (c_view a) dino ->
  triple rep a (logfs_dir_remove h fs dino name)
    (fun r a' =>
       dir_frame fs dino (c_view a) (c_view a') /\ wf_dir fs (c_view a') dino /\
       match r with
       | Ok _ => the_dir fs (c_view a) dino !! name <> None /\
                 the_dir fs (c_view a') dino = delete name (the_dir fs (c_view a) dino)
       | Err rc => the_dir fs (c_view a') dino = the_dir fs (c_view a) dino /\
                   (rc = - ENOENT /\ the_dir fs (c_view a) dino !! name = None \/
                    c_calm a = false /\ rc < 0)
       end).
Proof.
  intros Hfs Hb Hh Hd. eapply triple_wand; [by apply dir_remove_spec|].
  intros r a' (_ & Hf & Hd' & _ & Hr). done.
Qed.

(** [logfs_dir_is_empty] answers whether the map has names other than
    ["."] and [".."]. *)
Theorem dir_is_empty_refines a dino :
  wf_fs fs -> fs_blocks fs a -> wf_dir fs (c_view a) dino ->
  triple rep a (logfs_dir_is_empty fs dino)
    (fun r a' => a' = a /\
       (r = Ok 1 /\ dir_vacant (the_dir fs (c_view a) dino) \/
        r = Ok 0 /\ ~ dir_vacant (the_dir fs (c_view a) dino) \/ io_error a r)).
Proof. intros Hfs Hb Hd. by apply dir_is_empty_spec. Qed.

(** C26: [logfs_path_lookup] walks the tree of these maps along the path's
    non-empty components: it ends for every path, with the inode they lead
    to, or [-EINVAL], [-ENAMETOOLONG], [-ENOTDIR], [-ENOENT] as [resolve_path]
    says, or the error of a failed call. *)
Theorem path_lookup_resolves L a path :
  wf_fs fs -> fs_blocks fs a -> wf_image fs L (c_view a) ->
  triple rep a (logfs_path_lookup fs path)
    (fun r a' => a' = a /\ (r = resolve_path fs (c_view a) path \/ io_error a r)).
Proof. intros Hfs Hb Hi. by apply (path_lookup_spec fs Hfs (fun i => i ∈ L)), image_tree. Qed.
End directories.

Lemma dir_lookup_refines_witness :
  let s := demo_fs [] [] in
  (logfs_dir_lookup demo_super LOGFS_ROOT_INO dot s).1 = Ok (LOGFS_ROOT_INO, LOGFS_FT_DIR).
Proof.
  intros s. destruct (dir_lookup_refines demo_super (contents_of s) LOGFS_ROOT_INO dot demo_wf_fs
    (demo_blocks _ _) (demo_root_dir _ _) eq_refl s) as (a' & _ & _ & [Hr|[Hc _]]);
    [apply demo_rep; set_solver| |discriminate Hc].
  subst s. rewrite demo_root_map in Hr. exact Hr.
Defined.

Definition demo_name : list byte := [Byte.x61].

Lemma dir_add_refines_witness :
  let s := demo_fs [] [] in
  exists a', rep_mgr a' (logfs_dir_add 1 demo_super LOGFS_ROOT_INO demo_name 2 LOGFS_FT_REG s).2 /\
    the_dir demo_super (c_view a') LOGFS_ROOT_INO !! demo_name = Some (2, LOGFS_FT_REG).
Proof.
  intros s. assert (Hrep : rep_mgr (contents_of s) s) by (apply demo_rep; set_solver).
  destruct (dir_add_refines demo_super (contents_of s) 1 LOGFS_ROOT_INO demo_name 2 LOGFS_FT_REG
    demo_wf_fs (demo_blocks _ _) eq_refl (demo_root_dir _ _) eq_refl ltac:(lia)
    ltac:(unfold LOGFS_FT_REG; lia) (or_intror eq_refl) s) as (a' & Hrep' & _ & _ & Hr); [exact Hrep|].
  exists a'. split; [exact Hrep'|].
  assert (E : (logfs_dir_add 1 demo_super LOGFS_ROOT_INO demo_name 2 LOGFS_FT_REG s).1 = Ok tt)
    by (vm_compute; reflexivity).
  rewrite E in Hr. destruct Hr as [_ Hr]. rewrite Hr. apply lookup_insert_eq.
Defined.

Lemma dir_remove_refines_witness :
  let s := demo_fs [] [] in
  (logfs_dir_remove 1 demo_super LOGFS_ROOT_INO demo_name s).1 = Err (- ENOENT).
Proof.
  intros s. destruct (dir_remove_refines demo_super (contents_of s) 1 LOGFS_ROOT_INO demo_name
    demo_wf_fs (demo_blocks _ _) eq_refl (demo_root_dir _ _) s) as (a' & _ & _ & _ & Hr);
    [apply demo_rep; set_solver|].
  destruct (logfs_dir_remove 1 demo_super LOGFS_ROOT_INO demo_name s).1 as [u|rc].
  - exfalso. apply (proj1 Hr). subst s. rewrite demo_root_map. reflexivity.
  - destruct Hr as [_ [[Hrc _]|[Hc _]]]; [by rewrite Hrc|discriminate Hc].
Defined.

Lemma dir_is_empty_refines_witness :
  let s := demo_fs [] [] in (logfs_dir_is_empty demo_super LOGFS_ROOT_INO s).1 = Ok 1.
Proof.
  intros s. destruct (dir_is_empty_refines demo_super (contents_of s) LOGFS_ROOT_INO demo_wf_fs
    (demo_blocks _ _) (demo_root_dir _ _) s) as (a' & _ & _ & [[Hr _]|[[_ Hn]|[Hc _]]]);
    [apply demo_rep; set_solver|exact Hr| |discriminate Hc].
  exfalso. apply Hn. subst s. rewrite demo_root_map. intros name x Hx.
  pose proof (new_dir_proper _ _ _ _ Hx) as Hp. destruct (decide (name = dot)); [by left|].
  right. destruct (decide (name = dotdot)); [done|]. by destruct Hp.
Defined.

Lemma path_lookup_resolves_witness :
  let s := demo_fs [] [] in
  (logfs_path_lookup demo_super [slash; slash; Byte.x2e; slash; Byte.x2e; Byte.x2e] s).1 = Ok 1.
Proof.
  intros s.
  destruct (path_lookup_resolves demo_super {[LOGFS_ROOT_INO]} (contents_of s)
    [slash; slash; Byte.x2e; slash; Byte.x2e; Byte.x2e] demo_wf_fs
    (demo_blocks _ _) (demo_wf_image _ _) s) as (a' & _ & _ & [Hr|[Hc _]]);
    [apply demo_rep; set_solver| |discriminate Hc].
  rewrite Hr. vm_compute. reflexivity.
Defined.
