(* ===== verification/FsOpsProps.v ===== *)
(** Properties of the calls of [fs_ops.c] as a caller sees them - through
    paths, directory maps and file contents - each with a run on the file
    system of [FsDemo]. *)

From S2P Require Import Prelude.
From S2P Require Import Bytes.
From S2P Require Import DiskFormat.
From S2P Require Import Blockdev.
From S2P Require Import Txn.
From S2P Require Import TxnInv.
From S2P Require Import TxnView.
From S2P Require Import TxnApi.
From S2P Require Import TxnStore.
From S2P Require Import FsFormat.
From S2P Require Import Inode.
From S2P Require Import InodeSpec.
From S2P Require Import InodeDir.
From S2P Require Import InodeDirSpec.
From S2P Require Import InodeDirAdd.
From S2P Require Import InodeWalk.
From S2P Require Import FsOps.
From S2P Require Import FsTree.
From S2P Require Import FsImage.
From S2P Require Import FsStep.
From S2P Require Import FsPath.
From S2P Require Import FsChange.
From S2P Require Import FsCalls.
From S2P Require Import FsFile.
From S2P Require Import FsWrite.
From S2P Require Import FsTruncate.
From S2P Require Import FsListing.
From S2P Require Import FsOpsSpec.
From S2P Require Import FsMachine.
From S2P Require Import FsDemo.

(** ** Names *)

Section names.
Context {S : Type} `{TxnLaws S} (fs : logfs_super).

(** C12: [logfs_op_create], as long as the next free inode has a slot in the
    table ([table_room]) and the name is absent or no call fails
    ([create_safe]): on success the parent directory has the new name, for an
    empty file with a fresh inode that the path now leads to; every other
    directory and file is as it was.  An error leaves tree and files alone
    and says why: the path, the directory, the name taken, no space, or a
    failed call.  Without the first condition the new inode lands on a data
    block ([FsProps.inode_past_table]), without the second a taken name can get
    a second entry ([FsRunProps.failed_lookup_adds_twice]). *)
Theorem create_adds L a path mode now :
  wf_fs fs -> table_room fs a -> fs_blocks fs a -> wf_image fs L (c_view a) -> create_safe fs a path ->
  triple rep a (logfs_op_create fs path mode now) (fun r a' =>
    let v := c_view a in let v' := c_view a' in
    files_kept fs L v v' /\
    match r with
    | Ok n => exists p name, target fs v path = Ok (p, name) /\ inserted fs L v v' p name n None /\
        resolve_path fs v' path = Ok n /\ file_data fs v' n = [] /\
        inode_at fs v' n = new_file_inode mode (u64 now)
    | Err rc => unchanged fs L v v' /\ (create_refused fs a path rc \/ failed a rc)
    end).
Proof.
  intros Hfs Hw Hb Hi Hsafe. eapply triple_wand; [by apply (op_create_spec fs Hfs L)|].
  intros r a' [_ Hr]. cbv zeta. destruct r as [n|rc].
  - destruct Hr as (p & name & Ht & Hins & Hat). split; [apply files_kept_same, Hins|].
    exists p, name. split; [done|]. split; [done|]. split; [by eapply inserted_resolves|].
    split; [|done]. unfold file_data. by rewrite Hat.
  - split; [apply files_kept_same, Hr|exact Hr].
Qed.

(** C13: [logfs_op_mkdir], under the conditions of [create_adds] - the next
    free inode has a slot in the table, and the name is absent or no call
    fails: on success the parent has the new name and one link more, and the
    name is a directory that holds "." and ".." and that the path leads to;
    every other directory and file is as it was.  An error leaves the tree
    alone, unless the last write of the parent's attributes failed: then the
    directory is there. *)
Theorem mkdir_adds L a path mode now :
  wf_fs fs -> table_room fs a -> fs_blocks fs a -> wf_image fs L (c_view a) -> create_safe fs a path ->
  triple rep a (logfs_op_mkdir fs path mode now) (fun r a' =>
    let v := c_view a in let v' := c_view a' in
    let made p name n := target fs v path = Ok (p, name) /\
      inserted fs L v v' p name n (Some (new_dir n p)) /\ resolve_path fs v' path = Ok n in
    files_kept fs L v v' /\
    match r with
    | Ok _ => exists p name n, made p name n /\
        i_nlink (inode_at fs v' p) = u32 (i_nlink (inode_at fs v p) + 1) /\
        i_nlink (inode_at fs v' n) = 2
    | Err rc =>
        unchanged fs L v v' /\ (create_refused fs a path rc \/ failed a rc) \/
        failed a rc /\ exists p name n, made p name n
    end).
Proof.
  intros Hfs Hw Hb Hi Hsafe. eapply triple_wand; [by apply (op_mkdir_spec fs Hfs L)|].
  intros r a' [_ Hr]. cbv zeta. destruct r as [[]|rc].
  - destruct Hr as (p & name & n & nb & Ht & Hins & Hat & Hnl). split; [apply files_kept_same, Hins|].
    exists p, name, n. split; [|by rewrite Hat].
    split; [done|]. split; [done|]. by eapply inserted_resolves.
  - destruct Hr as [Hr|(Hf & p & name & n & Ht & Hins)].
    + split; [apply files_kept_same, Hr|by left].
    + split; [apply files_kept_same, Hins|]. right. split; [done|]. exists p, name, n.
      split; [done|]. split; [done|]. by eapply inserted_resolves.
Qed.

(** C14: [logfs_op_unlink] of a file: the name is gone from its directory and the
    path leads nowhere, everything else is as it was, and if it was the only
    link the inode and its blocks are free.  An error says why; it leaves the tree alone or, when the
    inode could not be freed, without the name. *)
Theorem unlink_removes L a path :
  wf_fs fs -> fs_blocks fs a -> wf_image fs L (c_view a) -> unlink_allowed fs a path ->
  triple rep a (logfs_op_unlink fs path) (fun r a' =>
    let v := c_view a in let v' := c_view a' in
    let gone t := exists p name ty, entry_at fs v path p name t ty /\
      removed fs L v v' p name t /\ files_kept fs (L ∖ {[t]}) v v' /\
      resolve_path fs v' path = Err (- ENOENT) in
    match r with
    | Ok _ => exists t, gone t /\
        (i_nlink (inode_at fs v t) = 1 -> released fs v' t (i_blocks (inode_at fs v t)))
    | Err rc =>
        unchanged fs L v v' /\ (name_refused fs a path rc \/ failed a rc) \/
        failed a rc /\ exists t, gone t
    end).
Proof.
  intros Hfs Hb Hi Hal. eapply triple_wand; [by apply (op_unlink_spec fs Hfs L)|].
  assert (Hgone : forall a' p name t ty, entry_at fs (c_view a) path p name t ty ->
    removed fs L (c_view a) (c_view a') p name t ->
    exists p name ty, entry_at fs (c_view a) path p name t ty /\
      removed fs L (c_view a) (c_view a') p name t /\ files_kept fs (L ∖ {[t]}) (c_view a) (c_view a') /\
      resolve_path fs (c_view a') path = Err (- ENOENT)).
  { intros a' p name t ty Hat Hr. exists p, name, ty. split; [done|]. split; [done|].
    split; [apply files_kept_same, Hr|]. eapply removed_resolves; [done|apply Hat|done]. }
  intros r a' [_ Hr]. cbv zeta. destruct r as [[]|rc].
  - destruct Hr as (p & name & t & ty & Hat & Hr & Hrel). exists t. split; [by eapply Hgone|done].
  - destruct Hr as [Hr|(Hf & p & name & t & ty & Hat & Hr)]; [by left|]. right.
    split; [done|]. exists t. by eapply Hgone.
Qed.

(** C15: [logfs_op_rmdir]: only a directory with no name but "." and ".." is
    removed, with its inode, its blocks and one link of the parent; a file is
    refused with [-ENOTDIR], a directory with names with [-ENOTEMPTY]. *)
Theorem rmdir_removes L a path now :
  wf_fs fs -> fs_blocks fs a -> wf_image fs L (c_view a) -> rmdir_allowed fs a path ->
  triple rep a (logfs_op_rmdir fs path now) (fun r a' =>
    let v := c_view a in let v' := c_view a' in
    match r with
    | Ok _ => exists p name t ty m, entry_at fs v path p name t ty /\
        tree fs v t = Some m /\ dir_vacant m /\
        removed fs L v v' p name t /\ files_kept fs (L ∖ {[t]}) v v' /\
        resolve_path fs v' path = Err (- ENOENT) /\
        released fs v' t (i_blocks (inode_at fs v t)) /\
        i_nlink (inode_at fs v' p) = u32 (i_nlink (inode_at fs v p) - 1)
    | Err rc =>
        unchanged fs L v v' /\ (rmdir_refused fs a path rc \/ failed a rc) \/
        failed a rc /\ exists t, wf_store fs (L ∖ {[t]}) v'
    end).
Proof.
  intros Hfs Hb Hi Hal. eapply triple_wand; [by apply (op_rmdir_spec fs Hfs L)|].
  intros r a' [_ Hr]. cbv zeta. destruct r as [[]|rc].
  - destruct Hr as (p & name & t & ty & m & Hat & Hm & Hvac & Hr & Hrel & Hnl).
    exists p, name, t, ty, m. split; [done|]. split; [done|]. split; [done|]. split; [done|].
    split; [apply files_kept_same, Hr|]. split; [|by split]. eapply removed_resolves; [done|apply Hat|done].
  - destruct Hr as [Hr|(Hf & p & name & t & ty & Hat & Hr)]; [by left|]. right.
    split; [done|]. by exists t.
Qed.

(** C19: [logfs_op_readdir] lists each name of the directory once, as many as the
    caller has room for, and changes nothing; a file is refused with
    [-ENOTDIR]. *)
Theorem readdir_lists L a path room :
  wf_fs fs -> fs_blocks fs a -> wf_image fs L (c_view a) ->
  triple rep a (logfs_op_readdir fs path room) (fun r a' =>
    a' = a /\
    (match resolve_path fs (c_view a) path with
     | Err rc => r = Err rc
     | Ok d =>
         match tree fs (c_view a) d with
         | None => r = Err (- ENOTDIR)
         | Some m => (forall name x, m !! name = Some x -> Byte.x00 ∉ name) ->
             exists names, r = Ok (take room names) /\ NoDup names /\
               forall name, name ∈ names <-> is_Some (m !! name)
         end
     end \/ io_error a r)).
Proof.
  intros Hfs Hb Hi. eapply triple_wand; [by apply (op_readdir_spec fs Hfs L)|].
  intros r a' [-> Hr]. split; [done|]. destruct Hr as [Hr|Hr]; [left|by right].
  unfold readdir_outcome in Hr. destruct (resolve_path fs (c_view a) path) as [d|rc]; [|done].
  destruct Hr as [_ Hr]. destruct (tree fs (c_view a) d) as [m|]; [|done]. intros Hnul.
  destruct Hr as (names & -> & Hp). exists names. split; [done|].
  assert (E : map (fun x : list byte * (Z * Z) => c_string x.1) (map_to_list m) = (map_to_list m).*1).
  { apply map_ext_in. intros [name x] Hin%list_elem_of_In%elem_of_map_to_list.
    apply c_string_id. by eapply Hnul. }
  rewrite E in Hp. split; [rewrite Hp; apply NoDup_fst_map_to_list|].
  intros name. rewrite Hp, list_elem_of_fmap. split.
  - intros ([nm x] & -> & Hin%elem_of_map_to_list). by exists x.
  - intros [x Hx]. exists (name, x). split; [done|]. by apply elem_of_map_to_list.
Qed.
End names.

(** The runs: on the fresh file system, or after one call. *)
Lemma create_adds_witness :
  let s := demo_fs [] [] in
  let op := logfs_op_create demo_super demo_file 0x1a4 7 in
  (op s).1 = Ok 2 /\ exists a', rep_mgr a' (op s).2 /\
    resolve_path demo_super (c_view a') demo_file = Ok 2 /\ file_data demo_super (c_view a') 2 = [].
Proof.
  intros s op. destruct (mounted_facts s demo_mounted_state demo_calm) as [L Hs].
  assert (E : (op s).1 = Ok 2) by (vm_compute; reflexivity). split; [exact E|].
  destruct (create_adds demo_super L (fs_contents s) demo_file 0x1a4 7 demo_wf_fs (demo_table_room _)
    (so_client _ _ _ Hs) (so_image _ _ _ Hs) (fun p name _ => or_introl (so_calm _ _ _ Hs))
    s (client_rep _ demo_mounted_state demo_calm)) as (a' & Hrep & _ & Hr).
  fold op in Hr, Hrep. rewrite E in Hr. destruct Hr as (p & name & _ & _ & Hres & Hdata & _).
  exists a'. split; [exact Hrep|]. split; [exact Hres|exact Hdata].
Defined.

Lemma mkdir_adds_witness :
  let s := demo_fs [] [] in
  let op := logfs_op_mkdir demo_super demo_dir 0x1ed 7 in
  (op s).1 = Ok tt /\ exists a' n, rep_mgr a' (op s).2 /\
    resolve_path demo_super (c_view a') demo_dir = Ok n /\ i_nlink (inode_at demo_super (c_view a') n) = 2.
Proof.
  intros s op. destruct (mounted_facts s demo_mounted_state demo_calm) as [L Hs].
  assert (E : (op s).1 = Ok tt) by (vm_compute; reflexivity). split; [exact E|].
  destruct (mkdir_adds demo_super L (fs_contents s) demo_dir 0x1ed 7 demo_wf_fs (demo_table_room _)
    (so_client _ _ _ Hs) (so_image _ _ _ Hs) (fun p name _ => or_introl (so_calm _ _ _ Hs))
    s (client_rep _ demo_mounted_state demo_calm)) as (a' & Hrep & _ & Hr).
  fold op in Hr, Hrep. rewrite E in Hr. destruct Hr as (p & name & n & (_ & _ & Hres) & _ & Hl).
  exists a', n. split; [exact Hrep|]. split; [exact Hres|exact Hl].
Defined.

(** The name a path of the runs ends in. *)
Lemma demo_entry path v p name t ty :
  entry_at demo_super v path p name t ty ->
  match split_parent path PATH_MAX with
  | Ok (parent, nm) => resolve_path demo_super v parent = Ok p /\ name = nm
  | Err _ => False
  end.
Proof.
  intros [E _]. unfold target in E. destruct (split_parent path PATH_MAX) as [[parent nm]|]; [|done].
  destruct (resolve_path demo_super v parent) as [q|]; [|done]. by injection E as -> ->.
Qed.

Lemma demo_file_entry : unlink_allowed demo_super (fs_contents demo_made) demo_file.
Proof.
  intros p name t ty Hat. pose proof (demo_entry _ _ _ _ _ _ Hat) as H.
  change (split_parent demo_file PATH_MAX) with (Ok (A := list byte * list byte) ([slash], [Byte.x66])) in H.
  destruct H as [Hp ->]. split; [by split; vm_compute|].
  assert (E : resolve_path demo_super (view demo_made) demo_file = Ok 2) by (vm_compute; reflexivity).
  destruct Hat as [Ht (m & Hm & Hx)].
  destruct (target_names _ _ _ _ _ Ht) as (names & Hb & Hn & Hpath).
  change (c_view (fs_contents demo_made)) with (view demo_made) in *.
  rewrite Hpath, resolve_app, Hn, (resolve_name _ _ _ _ _ Hb Hm), Hx in E. injection E as ->.
  apply demo_made_live.
Qed.

Lemma demo_dir_entry : rmdir_allowed demo_super (fs_contents demo_made_dir) demo_dir.
Proof.
  intros p name t ty Hat. pose proof (demo_entry _ _ _ _ _ _ Hat) as H.
  change (split_parent demo_dir PATH_MAX) with (Ok (A := list byte * list byte) ([slash], [Byte.x64])) in H.
  destruct H as [_ ->]. by split; vm_compute.
Qed.

Lemma unlink_removes_witness :
  let op := logfs_op_unlink demo_super demo_file in
  (op demo_made).1 = Ok tt /\ exists a', rep_mgr a' (op demo_made).2 /\
    resolve_path demo_super (c_view a') demo_file = Err (- ENOENT).
Proof.
  intros op. destruct demo_made_mounted as [Hm Hc]. destruct (mounted_facts _ Hm Hc) as [L Hs].
  assert (E : (op demo_made).1 = Ok tt) by (vm_compute; reflexivity). split; [exact E|].
  destruct (unlink_removes demo_super L (fs_contents demo_made) demo_file demo_wf_fs
    (so_client _ _ _ Hs) (so_image _ _ _ Hs) demo_file_entry
    demo_made (client_rep _ Hm Hc)) as (a' & Hrep & Hr).
  fold op in Hr, Hrep. rewrite E in Hr. destruct Hr as (t & (p & name & ty & _ & _ & _ & Hres) & _).
  exists a'. split; [exact Hrep|exact Hres].
Defined.

Lemma rmdir_removes_witness :
  let op := logfs_op_rmdir demo_super demo_dir 8 in
  (op demo_made_dir).1 = Ok tt /\ exists a', rep_mgr a' (op demo_made_dir).2 /\
    resolve_path demo_super (c_view a') demo_dir = Err (- ENOENT).
Proof.
  intros op. destruct demo_made_dir_mounted as [Hm Hc]. destruct (mounted_facts _ Hm Hc) as [L Hs].
  assert (E : (op demo_made_dir).1 = Ok tt) by (vm_compute; reflexivity). split; [exact E|].
  destruct (rmdir_removes demo_super L (fs_contents demo_made_dir) demo_dir 8 demo_wf_fs
    (so_client _ _ _ Hs) (so_image _ _ _ Hs) demo_dir_entry
    demo_made_dir (client_rep _ Hm Hc)) as (a' & Hrep & Hr).
  fold op in Hr, Hrep. rewrite E in Hr. destruct Hr as (p & name & t & ty & m & _ & _ & _ & _ & _ & Hres & _).
  exists a'. split; [exact Hrep|exact Hres].
Defined.

Lemma readdir_lists_witness :
  let op := logfs_op_readdir demo_super [slash] 10 in
  exists a', rep_mgr a' (op demo_made).2 /\ a' = fs_contents demo_made /\
    (op demo_made).1 = Ok [[Byte.x2e]; [Byte.x2e; Byte.x2e]; [Byte.x66]].
Proof.
  intros op. destruct demo_made_mounted as [Hm Hc]. destruct (mounted_facts _ Hm Hc) as [L Hs].
  destruct (readdir_lists demo_super L (fs_contents demo_made) [slash] 10 demo_wf_fs
    (so_client _ _ _ Hs) (so_image _ _ _ Hs) demo_made (client_rep _ Hm Hc)) as (a' & Hrep & Ha & _).
  exists a'. split; [exact Hrep|]. split; [exact Ha|]. vm_compute. reflexivity.
Defined.

(** ** Files *)

Section files.
Context {S : Type} `{TxnLaws S} (fs : logfs_super).

(** C18: [logfs_op_read] returns the bytes of the file from [offset] on, as many
    as asked for or as there are, and changes nothing. *)
Theorem read_slices L a fh size offset :
  wf_fs fs -> fs_blocks fs a -> wf_store fs L (c_view a) ->
  u32 fh ∈ L -> is_dir fs (c_view a) (u32 fh) = false ->
  0 <= size -> u64 offset + size < 2 ^ 64 ->
  triple rep a (logfs_op_read fs fh size offset) (fun r a' =>
    a' = a /\
    (r = Ok (take (Z.to_nat size)
              (drop (Z.to_nat (u64 offset)) (file_data fs (c_view a) (u32 fh)))) \/
     io_error a r)).
Proof. intros. by apply (op_read_spec fs L). Qed.

(** The new contents of a file that is written at [offset]. *)
Definition wrote_file v v' (ino : Z) (buf : list byte) (offset : Z) : Prop :=
  let old := file_data fs v ino in
  let new := file_data fs v' ino in
  let n := length buf in
  length new = Nat.max (length old) (Z.to_nat offset + n) /\
  take n (drop (Z.to_nat offset) new) = buf /\
  (dense (i_blocks (inode_at fs v ino)) (i_size (inode_at fs v ino)) ->
   (Z.to_nat offset <= length old)%nat ->
   new = take (Z.to_nat offset) old ++ buf ++ drop (Z.to_nat offset + n) old /\
   dense (i_blocks (inode_at fs v' ino)) (i_size (inode_at fs v' ino))).

Lemma wrote_file_intro v v' ino blocks' buf offset now :
  let i := inode_at fs v ino in
  0 <= offset -> 0 <= i_size i ->
  inode_at fs v' ino
    = set_size_mtime (Z.max (i_size i) (offset + Z.of_nat (length buf))) now (set_blocks blocks' i) ->
  written v v' (i_blocks i) blocks' offset buf -> wrote_file v v' ino buf offset.
Proof.
  intros i Hoff Hsz Hat W. unfold wrote_file, file_data. rewrite Hat. fold i.
  cbn [set_size_mtime set_blocks i_size i_blocks]. rewrite !length_bytes_at. split; [lia|]. split.
  - rewrite bytes_at_slice, Z.add_0_l, Z2Nat.id by done.
    rewrite Nat.min_l by lia. by eapply written_slice.
  - intros Hd Hle. destruct (written_dense v v' _ _ (i_size i) offset buf ltac:(lia) Hd W) as [Hd' ->].
    split; [|done]. by replace (Z.to_nat (offset + _)) with (Z.to_nat offset + length buf)%nat by lia.
Qed.

Lemma file_only_kept L a ino a' :
  file_only fs L a ino a' ->
  wf_image fs L (c_view a') /\ files_kept fs (L ∖ {[ino]}) (c_view a) (c_view a') /\
  forall k, k ∈ L -> tree fs (c_view a') k = tree fs (c_view a) k.
Proof.
  intros (_ & Hi & Ht & Hf). split; [done|]. split; [|done].
  apply files_kept_same. intros k [Hk Hne]%elem_rest _. by apply Hf.
Qed.

Lemma size_nonneg v ino : 0 <= i_size (inode_at fs v ino).
Proof.
  pose proof (wi_64 _ (wf_inode_at fs v ino)) as H64. apply Forall_cons in H64 as [Hsz _]. lia.
Qed.

(** C11: [logfs_op_write], where data writes are visible at once
    ([writes_visible]: journal mode, or ordered mode as long as no free block
    and none of the file's has a staged copy or one that waits to be
    checkpointed), returns the number of bytes of the buffer: they are in the
    file from [offset] on, the file has grown as far as needed, and when it
    had no holes its other bytes are as they were.  No other file and no
    directory changes.  [-EFBIG] is returned for what twelve blocks cannot
    hold, [-ENOSPC] or the error of a failed call otherwise, with the inode as
    it was.  In writeback mode readers do not see the write until the queue is
    written out, and over an old journaled copy they never do
    ([TxnProps.reused_block_overwritten]). *)
Theorem write_splices L a fh buf offset now :
  wf_fs fs -> fs_blocks fs a -> wf_image fs L (c_view a) -> u32 fh ∈ L ->
  is_dir fs (c_view a) (u32 fh) = false -> writes_visible fs (L ∖ {[u32 fh]}) a ->
  0 <= offset -> offset + Z.of_nat (length buf) < 2 ^ 64 ->
  triple rep a (logfs_op_write fs fh buf offset now) (fun r a' =>
    let v := c_view a in let v' := c_view a' in
    wf_image fs L v' /\ files_kept fs (L ∖ {[u32 fh]}) v v' /\
    (forall k, k ∈ L -> tree fs v' k = tree fs v k) /\
    match r with
    | Ok n => n = Z.of_nat (length buf) /\ offset + n <= max_file_size /\
        wrote_file v v' (u32 fh) buf offset
    | Err rc =>
        inode_at fs v' (u32 fh) = inode_at fs v (u32 fh) /\
        (rc = - EFBIG /\ max_file_size < offset + Z.of_nat (length buf) /\ a' = a \/ no_room a rc)
    end).
Proof.
  intros Hfs Hb Hi Hin Hd Hpl Hoff Hlen. eapply triple_wand; [by apply (op_write_spec fs Hfs L)|].
  intros r a' [Hf Hr]. cbv zeta. destruct (file_only_kept _ _ _ _ Hf) as (H1 & H2 & H3).
  split; [done|]. split; [done|]. split; [done|]. destruct r as [n|rc]; [|done].
  destruct Hr as (-> & Hmax & blocks' & Hat & W). split; [done|]. split; [done|].
  eapply wrote_file_intro; [done|apply size_nonneg|done|done].
Qed.

(** C10: what [logfs_op_write] stored at an offset, inside the size twelve
    blocks can hold, [logfs_op_read] returns, where data writes are visible at
    once - in journal mode, and in ordered mode as long as no free block and
    none of the file's has a staged copy or one that waits to be checkpointed -
    or the write or the read fails for want of space or because a call failed. *)
Theorem write_then_read L a fh buf offset now :
  wf_fs fs -> fs_blocks fs a -> wf_image fs L (c_view a) -> u32 fh ∈ L ->
  is_dir fs (c_view a) (u32 fh) = false -> writes_visible fs (L ∖ {[u32 fh]}) a ->
  0 <= offset -> offset + Z.of_nat (length buf) <= max_file_size ->
  triple rep a
    (n ← logfs_op_write fs fh buf offset now; logfs_op_read fs fh n offset)
    (fun r a' => r = Ok buf \/ exists rc, r = Err rc /\ no_room a rc).
Proof.
  intros Hfs Hb Hi Hin Hd Hpl Hoff Hlen. apply triple_bind.
  assert (Hmax : max_file_size = 49152) by done.
  eapply triple_wand; [apply (op_write_spec fs Hfs L); try done; lia|].
  intros r a' [Hf Hr]. pose proof (file_only_kept _ _ _ _ Hf) as (Hi' & _ & Ht).
  pose proof Hf as [He _]. destruct r as [n|rc].
  2: { right. exists rc. split; [done|]. destruct Hr as [_ [(_ & ? & _)|Hr]]; [lia|done]. }
  destruct Hr as (-> & _ & blocks' & Hat & W).
  pose proof (wrote_file_intro _ _ _ _ _ _ _ Hoff (size_nonneg _ _) Hat W) as (_ & Hslice & _).
  eapply triple_wand; [apply (op_read_spec fs L); try done|].
  - by apply (fs_blocks_env fs a).
  - apply Hi'.
  - rewrite <-Hd. apply tree_is_dir. by apply Ht.
  - lia.
  - rewrite u64_small; lia.
  - intros r' a'' [-> [->|(Hc & rc & Hrc & ->)]].
    + left. f_equal. by rewrite Nat2Z.id, (u64_small offset) by lia.
    + right. exists rc. split; [done|]. right. rewrite (se_calm _ _ He) in Hc. done.
Qed.

(** C17: [logfs_op_truncate]: the file has the new length and its bytes up to
    there are what they were, the blocks past them are free; no other file and
    no directory changes. *)
Theorem truncate_cuts L a fi path size now :
  wf_fs fs -> fs_blocks fs a -> wf_image fs L (c_view a) -> 0 <= size < 2 ^ 64 ->
  (forall ino, truncate_target fs a fi path = Ok ino -> ino ∈ L /\ is_dir fs (c_view a) ino = false) ->
  triple rep a (logfs_op_truncate fs fi path size now) (fun r a' =>
    let v := c_view a in let v' := c_view a' in
    match r with
    | Ok _ => exists ino, truncate_target fs a fi path = Ok ino /\
        wf_image fs L v' /\ files_kept fs (L ∖ {[ino]}) v v' /\
        (forall k, k ∈ L -> tree fs v' k = tree fs v k) /\
        length (file_data fs v' ino) = Z.to_nat size /\
        take (length (file_data fs v ino)) (file_data fs v' ino)
        = take (Z.to_nat size) (file_data fs v ino) /\
        (size < i_size (inode_at fs v ino) ->
         freed fs v' (drop (keep_blocks size) (i_blocks (inode_at fs v ino))))
    | Err rc =>
        a' = a /\ (rc = - EFBIG /\ max_file_size < size \/ truncate_target fs a fi path = Err rc \/
                   failed a rc) \/
        failed a rc /\ exists ino, truncate_target fs a fi path = Ok ino /\
          step fs (L ∖ {[ino]}) a a'
    end).
Proof.
  intros Hfs Hb Hi Hsz Hfile. eapply triple_wand; [by apply (op_truncate_spec fs Hfs L)|].
  intros r a' Hr. cbv zeta. destruct r as [[]|rc]; [|done].
  destruct Hr as (_ & ino & Ht & Hf & Hat & Hfr & Hbytes). exists ino.
  destruct (file_only_kept _ _ _ _ Hf) as (H1 & H2 & H3). split; [done|]. split; [done|].
  split; [done|]. split; [done|]. unfold file_data. rewrite Hat.
  cbn [set_size_mtime set_blocks i_size i_blocks]. rewrite !length_bytes_at. split; [done|].
  split; [|exact Hfr]. rewrite !bytes_at_take. rewrite Nat.min_comm. apply bytes_at_ext. intros x Hx. apply Hbytes. lia.
Qed.
End files.

(** In which modes data writes are visible at once. *)
Lemma modes_with_visible_writes fs L s :
  tm_mode (mg s) = LOGFS_MODE_JOURNAL \/
  tm_mode (mg s) = LOGFS_MODE_ORDERED /\
  (forall b, in_data fs b -> ~ owned fs L (view s) b ->
     find_dirty (mg s) b = None /\ find_checkpointed (mg s) b = None) ->
  writes_visible fs L (contents_of s).
Proof.
  intros [Hj|[Ho Hclean]] b Hb Hnot; [by left|]. right. split; [exact Ho|]. by apply Hclean.
Qed.

(** The runs: on the file "/f", inode 2. *)
Lemma demo_file_facts :
  exists L, sound demo_super L (fs_contents demo_made) /\ 2 ∈ L /\
    is_dir demo_super (view demo_made) 2 = false /\
    writes_visible demo_super (L ∖ {[2]}) (fs_contents demo_made).
Proof.
  destruct demo_made_mounted as [Hm Hc]. destruct (mounted_facts _ Hm Hc) as [L Hs]. exists L.
  destruct (live_file_in demo_super L _ 2 (so_image _ _ _ Hs) demo_made_live) as [Hin Hd].
  split; [exact Hs|]. split; [exact Hin|]. split; [exact Hd|].
  intros b Hb _. by apply (so_data _ _ _ Hs).
Qed.

Definition demo_made_rep : rep (fs_contents demo_made) demo_made :=
  client_rep _ (proj1 demo_made_mounted) (proj2 demo_made_mounted).

Lemma read_slices_witness :
  let op := logfs_op_read demo_super 2 10 0 in
  exists a', rep_mgr a' (op demo_made).2 /\ a' = fs_contents demo_made /\ (op demo_made).1 = Ok [].
Proof.
  intros op. destruct demo_file_facts as (L & Hs & Hin & Hd & _).
  destruct (read_slices demo_super L (fs_contents demo_made) 2 10 0 demo_wf_fs
    (so_client _ _ _ Hs) (im_store _ _ _ (so_image _ _ _ Hs)) Hin Hd ltac:(lia) ltac:(by vm_compute)
    demo_made demo_made_rep) as (a' & Hrep & Ha & _).
  exists a'. split; [exact Hrep|]. split; [exact Ha|]. vm_compute. reflexivity.
Defined.

Definition demo_text : list byte := [Byte.x41; Byte.x42; Byte.x43].

Lemma write_splices_witness :
  let op := logfs_op_write demo_super 2 demo_text 4094 8 in
  (op demo_made).1 = Ok 3 /\ exists a', rep_mgr a' (op demo_made).2 /\
    length (file_data demo_super (c_view a') 2) = 4097%nat /\
    take 3 (drop 4094 (file_data demo_super (c_view a') 2)) = demo_text.
Proof.
  intros op. destruct demo_file_facts as (L & Hs & Hin & Hd & Hpl).
  assert (E : (op demo_made).1 = Ok 3) by (vm_compute; reflexivity). split; [exact E|].
  destruct (write_splices demo_super L (fs_contents demo_made) 2 demo_text 4094 8 demo_wf_fs
    (so_client _ _ _ Hs) (so_image _ _ _ Hs) Hin Hd Hpl ltac:(lia) ltac:(by vm_compute)
    demo_made demo_made_rep) as (a' & Hrep & _ & _ & _ & Hr).
  fold op in Hr, Hrep. rewrite E in Hr. destruct Hr as (_ & _ & Hlen & Htext & _).
  exists a'. split; [exact Hrep|]. split; [|exact Htext].
  etransitivity; [exact Hlen|vm_compute; reflexivity].
Defined.

Lemma write_then_read_witness :
  let op := (n ← logfs_op_write demo_super 2 demo_text 4094 8; logfs_op_read demo_super 2 n 4094) in
  exists a', rep_mgr a' (op demo_made).2 /\ (op demo_made).1 = Ok demo_text.
Proof.
  intros op. destruct demo_file_facts as (L & Hs & Hin & Hd & Hpl).
  destruct (write_then_read demo_super L (fs_contents demo_made) 2 demo_text 4094 8 demo_wf_fs
    (so_client _ _ _ Hs) (so_image _ _ _ Hs) Hin Hd Hpl ltac:(lia) ltac:(by vm_compute)
    demo_made demo_made_rep) as (a' & Hrep & Hr).
  exists a'. split; [exact Hrep|]. destruct Hr as [Hr|(rc & Hr & _)]; [exact Hr|].
  vm_compute in Hr. discriminate Hr.
Defined.

Lemma demo_handle (L : gset Z) a ino :
  2 ∈ L /\ is_dir demo_super (c_view a) 2 = false ->
  truncate_target demo_super a (Some 2) [] = Ok ino ->
  ino ∈ L /\ is_dir demo_super (c_view a) ino = false.
Proof.
  intros H E. assert (Hi : Ok 2 = Ok ino) by exact E. injection Hi as <-. exact H.
Qed.

Lemma truncate_cuts_witness :
  let op := logfs_op_truncate demo_super (Some 2) [] 5 8 in
  (op demo_made).1 = Ok tt /\ exists a', rep_mgr a' (op demo_made).2 /\
    length (file_data demo_super (c_view a') 2) = 5%nat.
Proof.
  intros op. destruct demo_file_facts as (L & Hs & Hin & Hd & _).
  assert (E : (op demo_made).1 = Ok tt) by (vm_compute; reflexivity). split; [exact E|].
  destruct (truncate_cuts demo_super L (fs_contents demo_made) (Some 2) [] 5 8 demo_wf_fs
    (so_client _ _ _ Hs) (so_image _ _ _ Hs) ltac:(lia)
    (fun ino => demo_handle L (fs_contents demo_made) ino (conj Hin Hd))
    demo_made demo_made_rep) as (a' & Hrep & Hr).
  fold op in Hr, Hrep. rewrite E in Hr. destruct Hr as (ino & Hino & _ & _ & _ & Hlen & _).
  assert (Hi : Ok 2 = Ok ino) by exact Hino. injection Hi as <-.
  exists a'. split; [exact Hrep|]. rewrite Hlen. vm_compute. reflexivity.
Defined.

(** ** Where the code does not keep what it means to *)

(** [logfs_op_rmdir] frees the directory's inode before it removes its name:
    when the removal fails for want of memory, the path still leads to an inode
    that is free; the next file gets it, and both paths lead there. *)
Theorem failed_rmdir_leaves_name :
  let s1 := (commit_cycle demo_made_dir).2 in
  let r2 := logfs_op_rmdir demo_super demo_dir 8 (with_answers [] [true; true; false] s1) in
  let r3 := logfs_op_create demo_super demo_file 0x1a4 9 (with_answers [] [] r2.2) in
  r2.1 = Err (- ENOMEM) /\ resolve_path demo_super (view r2.2) demo_dir = Ok 2 /\
  inode_used demo_super (view r2.2) 2 = false /\
  r3.1 = Ok 2 /\ resolve_path demo_super (view r3.2) demo_dir = Ok 2.
Proof. vm_compute. repeat (apply conj; [reflexivity|]). reflexivity. Qed.

(** A block that a file gets is not cleared around the bytes written: here
    the file "/f" of the deleted file's block reads the deleted bytes where it
    was never written, and truncating it and extending it again brings bytes
    back. *)
Theorem holes_show_old_bytes :
  let write buf offset := logfs_op_write demo_super 2 buf offset 8 in
  let gone := (write (replicate block_len Byte.x41) 0 ;; logfs_op_unlink demo_super demo_file ;;
               commit_cycle ;; logfs_op_create demo_super demo_file 0x1a4 9 ;;
               write [Byte.x42] 100 ;; logfs_op_read demo_super 2 3 98) demo_made in
  let back := (write demo_text 0 ;; logfs_op_truncate demo_super (Some 2) [] 1 9 ;;
               logfs_op_truncate demo_super (Some 2) [] 3 9 ;;
               logfs_op_read demo_super 2 3 0) demo_made in
  gone.1 = Ok [Byte.x41; Byte.x41; Byte.x42] /\ back.1 = Ok demo_text.
Proof. vm_compute. split; reflexivity. Qed.

(** [logfs_op_create] allocates the inode before it finds that the name is
    taken, and does not give it back. *)
Theorem refused_create_leaks_inode :
  let r := logfs_op_create demo_super demo_file 0x1a4 8 demo_made in
  r.1 = Err (- EEXIST) /\ resolve_path demo_super (view r.2) demo_file = Ok 2 /\
  inode_used demo_super (view demo_made) 3 = false /\ inode_used demo_super (view r.2) 3 = true.
Proof. vm_compute. repeat (apply conj; [reflexivity|]). reflexivity. Qed.
