(* ===== verification/FsRunProps.v ===== *)
(** Properties of the mounted file system over time - calls, commits, power
    failures - each with a run on the file system of [FsDemo]. *)

From S2P Require Import Prelude.
From S2P Require Import Bytes.
From S2P Require Import DiskFormat.
From S2P Require Import Blockdev.
From S2P Require Import DiskOps.
From S2P Require Import Journal.
From S2P Require Import JournalLog.
From S2P Require Import JournalInv.
From S2P Require Import JournalRecover.
From S2P Require Import JournalSafety.
From S2P Require Import Txn.
From S2P Require Import TxnInv.
From S2P Require Import TxnSafety.
From S2P Require Import TxnCommit.
From S2P Require Import TxnView.
From S2P Require Import TxnApi.
From S2P Require Import TxnStore.
From S2P Require Import FsFormat.
From S2P Require Import InodeSpec.
From S2P Require Import InodeDir.
From S2P Require Import InodeDirSpec.
From S2P Require Import InodeWalk.
From S2P Require Import Fs.
From S2P Require Import FsOps.
From S2P Require Import FsTree.
From S2P Require Import FsImage.
From S2P Require Import FsFile.
From S2P Require Import FsCalls.
From S2P Require Import FsMachine.
From S2P Require Import FsLayout.
From S2P Require Import FsRemount.
From S2P Require Import FsDemo.
From S2P Require Import FsOpsProps.

Section runs.
Context (fs : logfs_super).
Implicit Types s : tst.

(** What recovery finds in [img] is the image [v], and it is well-formed. *)
Definition recovers_image (v : Z -> block) s (img : image) : Prop :=
  let j := tm_journal (mg s) in
  recovers_fs fs v j img /\ exists L, wf_image fs L (recovered j img).

Lemma recovers_image_intro L v s img :
  wf_fs fs -> wf_image fs L v -> recovers_fs fs v (tm_journal (mg s)) img -> recovers_image v s img.
Proof. intros Hfs Hi Hr. split; [exact Hr|]. exists L. by apply (image_ext fs Hfs L v). Qed.

(** C3: in journal mode, while no system call or allocation fails: however
    [permitted] calls and turns of the commit thread that are [ready] follow
    each other, the clients see a well-formed image; and whatever part of the
    disk's cache survives a power failure between two of them, recovery finds a
    well-formed image: the one last committed.  [permitted] asks of a [create]
    or [mkdir] that the next free inode has a slot in the table - where mkfs
    laid out fewer slots than inodes, the call after the last slot destroys the
    tree ([FsProps.inode_past_table]) - and [ready] that the generation fits
    the log.  A call that fails can leave a broken tree:
    [FsOpsProps.failed_rmdir_leaves_name]. *)
Theorem runs_crash_consistent s0 s :
  wf_fs fs -> mounted fs s0 -> calm s0 -> reach fs s0 s ->
  (exists L, wf_image fs L (view s)) /\
  forall img, crash_image (b_disk (td s)) img -> recovers_image (committed s) s img.
Proof.
  intros Hfs Hm Hc Hr. destruct (reach_mounted fs Hfs s0 s Hm Hc Hr) as [Hm' Hc'].
  split; [apply (mo_image _ _ Hm')|]. intros img Hcr. destruct (mo_base _ _ Hm') as [L HL].
  eapply recovers_image_intro; [exact Hfs|exact HL|]. intros b Hb.
  apply (crash_between fs); [done|done|]. by apply (home_client fs).
Qed.

(** C5: a power failure in the middle of a commit, in journal mode and with a
    generation that fits the log: recovery finds the last committed image or
    the one the clients saw when the turn began, whole. *)
Theorem commit_crash_consistent s answers :
  wf_fs fs -> mounted fs s -> ready s -> Forall live_answer answers ->
  let (r, s') := commit_cycle (with_answers answers [] s) in
  (r = Ok tt /\ forall b, fs_block fs b -> view s' b = view s b /\ committed s' b = view s b) \/
  (dead (td s') /\ forall img, crash_image (b_disk (td s')) img ->
     recovers_image (committed s) s img \/ recovers_image (view s) s img).
Proof.
  intros Hfs Hm Hr Hans. set (s1 := with_answers answers [] s).
  assert (Hm1 : mounted fs s1) by by apply mounted_device.
  assert (Hr1 : ready s1) by by destruct Hr; split.
  pose proof (commit_cycle_safe s1 (mo_inv _ _ Hm1) Hr1 Hans eq_refl) as Hsafe. unfold crash_safe in Hsafe.
  destruct (commit_cycle s1) as [r s']. destruct Hsafe as (_ & _ & _ & [([] & -> & Hd)|[Hdead Himg]]).
  - left. split; [done|]. intros b Hb. apply (tn_view _ _ Hd). by apply (home_client fs s1).
  - right. split; [exact Hdead|]. intros img Hcr.
    destruct (mo_image _ _ Hm) as [L HL], (mo_base _ _ Hm) as [L0 HL0].
    destruct (crash_in_turn fs s1 img Hm1 (Himg img Hcr)) as [H|H]; [left|right];
      by eapply recovers_image_intro.
Qed.

Lemma mounted_requested s : mounted fs s -> mounted fs (set_mgr (set_requested true) s).
Proof.
  destruct s as [m d]. intros [Hi%mgr_inv_requested ? ? ? ? ? ? ? ? ? ? ? ?]. by split.
Qed.

(** [fsync] sleeps: the running generation is not complete, and nobody is
    shutting the manager down. *)
Record unsynced s : Prop := {
  us_running : tm_completed_through (mg s) < tm_generation_seq (mg s);
  us_serving : tm_shutdown (mg s) = false;
}.

Lemma unsynced_waits s : unsynced s -> commit_sync_done (tm_generation_seq (mg s)) (mg s) = false.
Proof. intros [H1 H2]. unfold commit_sync_done. by rewrite (proj2 (Z.ltb_lt _ _) H1), H2. Qed.

(** The first test fails, and the caller sleeps. *)
Lemma fsync_sleeps s wakes :
  unsynced s ->
  logfs_op_fsync wakes s =
  match wakes with
  | [] => fail BLOCKED
  | others :: wakes => others ;; commit_sync_wait (tm_generation_seq (mg s)) wakes
  end (set_mgr (set_requested true) s).
Proof.
  intros Hu%unsynced_waits. unfold logfs_op_fsync, logfs_txn_commit_sync.
  assert (Hreq : commit_sync_request s = (Ok (tm_generation_seq (mg s)), set_mgr (set_requested true) s))
    by reflexivity.
  rewrite (bind_ok _ _ _ _ _ Hreq). unfold commit_sync_wait at 1. destruct wakes as [|others wakes];
    fold commit_sync_wait; unfold mbind at 1, M_bind at 1, gets;
    change (commit_sync_done ?t (mg (set_mgr (set_requested true) s))) with (commit_sync_done t (mg s));
    by rewrite Hu.
Qed.

(** The turn it waits for ends the wait. *)
Lemma fsync_turn s rest :
  wf_fs fs -> mounted fs s -> ready s -> calm s -> unsynced s ->
  exists s', logfs_op_fsync (commit_cycle :: rest) s = (Ok tt, s') /\
    turn_done (set_mgr (set_requested true) s) s' /\ mounted fs s' /\ calm s'.
Proof.
  intros Hfs Hm Hr Hc Hu. set (s1 := set_mgr (set_requested true) s).
  destruct (turn_mounted fs Hfs s1 (mounted_requested s Hm) (ready_requested s Hr) Hc)
    as (s' & E & Hd & Hm' & Hc').
  exists s'. split; [|by split]. rewrite fsync_sleeps by done. fold s1.
  rewrite (bind_ok _ _ _ _ _ E).
  assert (Hdone : commit_sync_done (tm_generation_seq (mg s)) (mg s') = true).
  { unfold commit_sync_done. rewrite (tn_completed _ _ Hd).
    change (tm_generation_seq (mg s1)) with (tm_generation_seq (mg s)). by rewrite Z.ltb_irrefl. }
  unfold commit_sync_wait. destruct rest; unfold mbind at 1, M_bind at 1, gets; by rewrite Hdone.
Qed.

(** A machine with power again, its disk the image [img], on which the mount
    asks for journal mode. *)
Record restarted (img : image) (d : bdev) (ov : Z) : Prop := {
  rs_power : powered img d;
  rs_blocks : nblocks (b_disk d) = sb_total_blocks fs;
  rs_mode : num_mode (if ov <? 0 then sb_data_mode fs else ov) = LOGFS_MODE_JOURNAL;
}.

(** Mounting [d] gives a mounted file system with the contents [v]. *)
Definition mounts_as (v : Z -> block) (d : bdev) (ov : Z) : Prop :=
  exists m d', logfs_fs_mount (Some (sb_total_blocks fs * LOGFS_BLOCK_SIZE)) ov d = (Ok (fs, m), d') /\
    mounted fs (mkTst m d') /\ calm (mkTst m d') /\
    forall b, fs_block fs b -> view (mkTst m d') b = v b.

(** The superblock is one the mount accepts. *)
Record valid_super : Prop := {
  vs_wf : wf_super fs;
  vs_accepted : super_error fs (sb_total_blocks fs) = None;
}.

(** C2: a file system in journal mode lives through any sequence of [permitted]
    calls, commit turns, power failures and mounts: its clients see a
    well-formed image; whatever part of the disk's cache survives one more power
    failure, the disk mounts again, with exactly the committed contents; and
    when the power fails anywhere within a commit turn, with those or with
    exactly what the clients saw.  The only calls that fail are those of a turn
    the power failure ends.  Every [create] and [mkdir] finds a slot in the
    inode table for the next free inode ([table_room]; else
    [FsProps.inode_past_table]); every turn starts with no handle open and a
    generation that fits the log, its counters below 2^63 ([ready]); power fails
    within a turn only when the log already holds a transaction and has room for
    the generation beside it ([roomy]), and between turns only when the log
    holds a transaction or has held none since mkfs ([numbered]): a log that was
    emptied starts its numbering over, with old transactions still in its region
    ([JournalProps.stale_txn_replayed]). *)
Theorem life_consistent s0 s :
  wf_fs fs -> valid_super -> mounted fs s0 -> calm s0 -> life fs s0 s ->
  (exists L, wf_image fs L (view s)) /\
  (forall img d ov, numbered fs s -> crash_image (b_disk (td s)) img -> restarted img d ov ->
     mounts_as (committed s) d ov) /\
  forall answers img d ov, torn_turn s answers img -> restarted img d ov ->
    mounts_as (committed s) d ov \/ mounts_as (view s) d ov.
Proof.
  intros Hfs [Hsw Hsa] Hm Hc Hl. destruct (life_mounted fs Hfs Hsw Hsa s0 s Hm Hc Hl) as [Hm' Hc'].
  split; [apply (mo_image _ _ Hm')|split].
  - intros img d ov Hn Hcr [Hp Hnb Hmode]. by apply (remount_mounted fs Hfs Hsw Hsa s img d ov).
  - intros answers img d ov Ht [Hp Hnb Hmode].
    destruct (torn_turn_mounts fs Hfs Hsw Hsa s answers img d ov Hm' Ht Hp Hnb Hmode)
      as (v & m & d' & [->| ->] & H); [left|right]; by exists m, d'.
Qed.

(** C27: in every state of such a life - journal mode, no call failing but at a
    power failure within a turn, a slot in the inode table for every inode
    [create] and [mkdir] take, and the conditions of [life_consistent] on turns
    and power failures - the tree is well-typed: a name in a live directory
    leads to a live inode that lies in the inode table and is marked used, and
    the type the entry records is the inode's; each block of a live inode is a
    data block, is marked used, and is no other live inode's. *)
Theorem live_types s0 s :
  wf_fs fs -> valid_super -> mounted fs s0 -> calm s0 -> life fs s0 s ->
  (forall d m name x, live fs (view s) d -> tree fs (view s) d = Some m -> m !! name = Some x ->
     live fs (view s) x.1 /\ in_table fs x.1 /\ inode_used fs (view s) x.1 = true /\
     x.2 = if is_dir fs (view s) x.1 then LOGFS_FT_DIR else LOGFS_FT_REG) /\
  (forall i b, live fs (view s) i -> b ∈ ino_blocks fs (view s) i ->
     in_data fs b /\ block_used fs (view s) b = true /\
     forall i', live fs (view s) i' -> b ∈ ino_blocks fs (view s) i' -> i' = i).
Proof.
  intros Hfs [Hsw Hsa] Hm Hc Hl. destruct (life_mounted fs Hfs Hsw Hsa s0 s Hm Hc Hl) as [Hm' _].
  destruct (mo_image _ _ Hm') as [L Hi]. pose proof (im_store _ _ _ Hi) as Hs. split.
  - intros d m name x Hd Ht Hx. pose proof (live_entry fs _ d m name x Hd Ht Hx) as Hlx.
    split; [exact Hlx|]. pose proof (live_in fs L _ _ Hi Hd) as Hin.
    destruct (nm_names _ _ (im_names _ _ _ Hi) d m name x Hin Ht Hx) as [Hxin Hty].
    destruct (st_table _ _ _ Hs _ Hxin) as [H1 H2]. split; [exact H1|split; [exact H2|]].
    rewrite Hty. unfold tree. by destruct (is_dir fs (view s) x.1).
  - intros i b Hi' Hb. pose proof (live_in fs L _ _ Hi Hi') as Hin.
    destruct (st_used _ _ _ Hs i b Hin Hb) as [H1 H2]. split; [exact H1|split; [exact H2|]].
    intros i2 Hl2 Hb2. by apply (st_disjoint _ _ _ Hs i2 i b); [eapply live_in|..].
Qed.

(** C4: [fsync], in journal mode, while the running generation is not
    complete: it does not return before the commit thread has taken a turn;
    with the turn it returns 0, and when power fails afterwards, whatever part
    of the disk's cache survives, the next mount in journal mode shows the file
    system the callers saw, block for block.  The turn must have room for the
    generation ([ready]), no call fails, and when nothing was staged the log
    must still say where its numbering goes on ([numbered]).  Where the
    generation counts as complete, [fsync] returns at once:
    [fsync_returns_too_early]. *)
Theorem fsync_survives_power s rest :
  wf_fs fs -> valid_super -> mounted fs s -> ready s -> calm s -> unsynced s ->
  staged_nodes (mg s) <> [] \/ numbered fs s ->
  (logfs_op_fsync [] s).1 = Err BLOCKED /\
  exists s', logfs_op_fsync (commit_cycle :: rest) s = (Ok tt, s') /\
    forall img d ov, crash_image (b_disk (td s')) img -> restarted img d ov -> mounts_as (view s) d ov.
Proof.
  intros Hfs [Hsw Hsa] Hm Hr Hc Hu Hne. split; [by rewrite fsync_sleeps|].
  pose proof (mounted_requested s Hm) as Hm1.
  destruct (fsync_turn s rest Hfs Hm Hr Hc Hu) as (s' & E & Hd & Hm' & Hc').
  exists s'. split; [exact E|]. intros img d ov Hcr [Hp Hnb Hmode].
  assert (Hn : numbered fs s').
  { intros Hck. destruct (tn_ckpt _ _ Hd Hck) as (Hst & Hck0 & ->). destruct Hne as [Hne|Hn]; [done|].
    by apply Hn. }
  destruct (remount_mounted fs Hfs Hsw Hsa s' img d ov Hm' Hn Hcr Hp Hnb Hmode)
    as (m & d' & Hrun & Hm2 & Hc2 & Hv).
  exists m, d'. split; [exact Hrun|split; [exact Hm2|split; [exact Hc2|]]]. intros b Hb.
  rewrite Hv by done. by apply (tn_view _ _ Hd), (home_client fs _ b Hm1).
Qed.
End runs.

(** ** Runs *)

(** After [mkdir], [create] and a write, with everything in memory. *)
Lemma demo_made_ready : ready demo_made.
Proof.
  split; [vm_compute; reflexivity|vm_compute; congruence| |vm_compute; reflexivity|vm_compute; reflexivity].
  split; [vm_compute; congruence|..]; apply (bool_decide_unpack _); vm_compute; exact I.
Qed.

(** [create], then a turn of the commit thread. *)
Lemma runs_crash_consistent_witness :
  let s := (commit_cycle demo_made).2 in
  resolve_path demo_super (committed s) demo_file = Ok 2 /\
  forall img, crash_image (b_disk (td s)) img -> recovers_image demo_super (committed s) s img.
Proof.
  intros s. split; [vm_compute; reflexivity|].
  apply (runs_crash_consistent demo_super (demo_fs [] []) s).
  - apply demo_wf_fs.
  - apply demo_mounted_state.
  - apply demo_calm.
  - apply reach_turn; [|apply demo_made_ready].
    apply (reach_call demo_super (demo_fs [] []) (demo_fs [] []) (CCreate demo_file 0x1a4 7));
      [apply reach_start|apply demo_table_room].
Defined.

(** The machine stops while the third block of the commit is written. *)
Lemma commit_crash_consistent_witness :
  let answers := [SRet block_len; SRet block_len; SCrash] in
  let (r, s') := commit_cycle (with_answers answers [] demo_made) in
  (r = Ok tt /\ forall b, fs_block demo_super b ->
     view s' b = view demo_made b /\ committed s' b = view demo_made b) \/
  (dead (td s') /\ forall img, crash_image (b_disk (td s')) img ->
     recovers_image demo_super (committed demo_made) demo_made img \/
     recovers_image demo_super (view demo_made) demo_made img).
Proof.
  apply (commit_crash_consistent demo_super demo_made [SRet block_len; SRet block_len; SCrash]
    demo_wf_fs (proj1 demo_made_mounted) demo_made_ready).
  repeat constructor.
Defined.

(** The disk a power failure leaves when nothing of its cache survives. *)
Definition switched_on (k : disk) : bdev := mkBdev (mkDisk (nblocks k) (durable k) []) [] [].

Lemma switched_on_powered k : wf_disk k -> powered (persisted k) (switched_on k).
Proof. intros [Hd _]. split; [done|done|done|by split|]. by intros b. Qed.

Lemma persisted_crash k : crash_image k (persisted k).
Proof. by intros b; left. Qed.

Lemma demo_valid_super : valid_super demo_super.
Proof. split; [apply wf_demo_super|vm_compute; reflexivity]. Qed.

Lemma demo_restarted s :
  mounted demo_super s ->
  restarted demo_super (persisted (b_disk (td s))) (switched_on (b_disk (td s))) (-1).
Proof.
  intros Hm. split; [|exact (mo_nblocks _ _ Hm)|vm_compute; reflexivity].
  apply switched_on_powered, (li_disk _ _ _ (mi_log _ (mo_inv _ _ Hm))).
Qed.

(** [create] and a turn of the commit thread, then another [create]. *)
Definition demo_first_turn : tst := (commit_cycle demo_made).2.

Definition demo_second : tst := (perform demo_super (CCreate demo_dir 0x1a4 8) demo_first_turn).2.

Lemma demo_second_life : life demo_super (demo_fs [] []) demo_second.
Proof.
  apply (life_call demo_super (demo_fs [] []) demo_first_turn (CCreate demo_dir 0x1a4 8)); [|apply demo_table_room].
  apply life_turn; [|apply demo_made_ready].
  apply (life_call demo_super (demo_fs [] []) (demo_fs [] []) (CCreate demo_file 0x1a4 7));
    [apply life_start|apply demo_table_room].
Qed.

(** The power fails at the second write of the next turn, and nothing that was
    cached survives. *)
Definition demo_cut : list sysret := [SRet block_len; SCrash].

Definition demo_torn : disk := b_disk (td (commit_cycle (with_answers demo_cut [] demo_second)).2).

Lemma demo_torn_turn : torn_turn demo_second demo_cut (persisted demo_torn).
Proof.
  split; [| |by repeat constructor|by intros b; left].
  - split; [vm_compute; reflexivity|vm_compute; congruence| |vm_compute; reflexivity|vm_compute; reflexivity].
    split; [vm_compute; congruence|..]; apply (bool_decide_unpack _); vm_compute; exact I.
  - split; [vm_compute; congruence|vm_compute; congruence].
Qed.

Lemma life_consistent_witness :
  resolve_path demo_super (committed demo_second) demo_file = Ok 2 /\
  resolve_path demo_super (view demo_second) demo_dir = Ok 3 /\
  mounts_as demo_super (committed demo_second) (switched_on (b_disk (td demo_second))) (-1) /\
  (mounts_as demo_super (committed demo_second) (switched_on demo_torn) (-1) \/
   mounts_as demo_super (view demo_second) (switched_on demo_torn) (-1)).
Proof.
  split; [vm_compute; reflexivity|]. split; [vm_compute; reflexivity|].
  pose proof demo_second_life as Hl.
  assert (Hm : mounted demo_super demo_second).
  { apply (life_mounted demo_super demo_wf_fs wf_demo_super
      (vs_accepted _ demo_valid_super) (demo_fs [] []) demo_second demo_mounted_state demo_calm Hl). }
  destruct (life_consistent demo_super (demo_fs [] []) demo_second demo_wf_fs
    demo_valid_super demo_mounted_state demo_calm Hl) as (_ & Hbetween & Hwithin).
  split.
  - apply (Hbetween (persisted (b_disk (td demo_second))) (switched_on (b_disk (td demo_second))) (-1)).
    + intros Hck. exfalso. revert Hck. vm_compute. congruence.
    + apply persisted_crash.
    + exact (demo_restarted demo_second Hm).
  - apply (Hwithin demo_cut (persisted demo_torn) (switched_on demo_torn) (-1)); [exact demo_torn_turn|].
    split; [apply switched_on_powered|vm_compute; reflexivity|vm_compute; reflexivity].
    split.
    + apply (bool_decide_unpack _). vm_compute. exact I.
    + apply (bool_decide_unpack _). vm_compute. exact I.
Defined.

Lemma live_types_witness :
  live demo_super (view demo_made) 2 /\
  LOGFS_FT_REG = if is_dir demo_super (view demo_made) 2 then LOGFS_FT_DIR else LOGFS_FT_REG.
Proof.
  assert (Hl : life demo_super (demo_fs [] []) demo_made).
  { apply (life_call demo_super (demo_fs [] []) (demo_fs [] []) (CCreate demo_file 0x1a4 7));
      [apply life_start|apply demo_table_room]. }
  destruct (live_types demo_super (demo_fs [] []) demo_made demo_wf_fs demo_valid_super
    demo_mounted_state demo_calm Hl) as [Ht _].
  assert (Hd : is_dir demo_super (view demo_made) LOGFS_ROOT_INO = true) by (vm_compute; reflexivity).
  destruct (Ht LOGFS_ROOT_INO (the_dir demo_super (view demo_made) LOGFS_ROOT_INO) [Byte.x66] (2, LOGFS_FT_REG))
    as (H1 & _ & _ & H2).
  - constructor.
  - unfold tree. by rewrite Hd.
  - vm_compute. reflexivity.
  - split; [exact H1|exact H2].
Defined.

Lemma demo_made_unsynced : unsynced demo_made.
Proof. split; vm_compute; reflexivity. Qed.

Lemma fsync_survives_power_witness :
  (logfs_op_fsync [] demo_made).1 = Err BLOCKED /\
  exists s', logfs_op_fsync [commit_cycle] demo_made = (Ok tt, s') /\
    forall img d ov, crash_image (b_disk (td s')) img -> restarted demo_super img d ov ->
      mounts_as demo_super (view demo_made) d ov.
Proof.
  apply (fsync_survives_power demo_super demo_made [] demo_wf_fs demo_valid_super
    (proj1 demo_made_mounted) demo_made_ready (proj2 demo_made_mounted) demo_made_unsynced).
  left. vm_compute. congruence.
Defined.

(** A turn that finds nothing staged marks the running generation complete:
    an [fsync] after the next change returns at once, with the change in
    memory only. *)
Theorem fsync_returns_too_early :
  let s := ((commit_cycle ;; logfs_op_create demo_super demo_file 0x1a4 7) (demo_fs [] [])).2 in
  let (r, s') := logfs_op_fsync [] s in
  r = Ok tt /\ resolve_path demo_super (view s') demo_file = Ok 2 /\
  resolve_path demo_super (committed s') demo_file = Err (- ENOENT).
Proof. vm_compute. repeat (apply conj; [reflexivity|]). reflexivity. Qed.

(** An I/O error can make a second entry with a name the directory has: after
    [create] of "/f", a commit and a mount, one failed read lets [create] of
    "/f" succeed again. *)
Definition create_and_list (answers : list sysret) (fs : logfs_super) (m : txn_mgr) (k : disk)
    : result Z * result (list (list byte)) :=
  let create : M tst Z := logfs_op_create fs demo_file 0x1a4 9 in
  let readdir : M tst (list (list byte)) := logfs_op_readdir fs [Byte.x2f] 10 in
  let (r, s) := create (mkTst m (mkBdev k answers [])) in (r, (readdir s).1).

Definition mount_and_create (answers : list sysret) (d : bdev) : result Z * result (list (list byte)) :=
  match logfs_fs_mount (Some (64 * LOGFS_BLOCK_SIZE)) (-1) d with
  | (Ok (fs, m), d') => create_and_list answers fs m (b_disk d')
  | (Err rc, _) => (Err rc, Err rc)
  end.

Theorem failed_lookup_adds_twice :
  mount_and_create [SRet block_len; SRet block_len; SErr 5] (switched_on (b_disk (td demo_first_turn)))
  = (Ok 3, Ok [[Byte.x2e]; [Byte.x2e; Byte.x2e]; [Byte.x66]; [Byte.x66]]).
Proof. vm_compute. reflexivity. Qed.
