(* ===== verification/Tools.v ===== *)
(** [src/mkfs.c] and [src/main.c]: the command line tools, from their
    arguments to their exit codes.  Definitions only.

    [argv] is a list of byte strings, its first element the program's name.
    What a tool writes to its output streams is a list of [message]s; the path
    of the image is looked up in [size_of], which gives the size of the file it
    names, if there is one, and the device is that file's.  [fuse_main] is the
    FUSE library: it makes the calls of the file system's clients and returns
    when the file system is unmounted. *)

From S2P Require Import Prelude.
From S2P Require Import Bytes.
From S2P Require Import DiskFormat.
From S2P Require Import Blockdev.
From S2P Require Import Journal.
From S2P Require Import Txn.
From S2P Require Import FsFormat.
From S2P Require Import Fs.

(** ** The C library *)

Abbreviation cstring := (list byte).

Definition str (s : string) : cstring := String.list_byte_of_string s.

(** [strcmp(s, t) == 0] *)
Definition streq (s t : cstring) : bool := bool_decide (s = t).

(** [strncmp(s, t, strlen(t)) == 0] *)
Definition starts_with (t s : cstring) : bool := bool_decide (take (length t) s = t).

(** [isspace] in the C locale. *)
Definition isspace (b : byte) : bool :=
  let n := Z.of_N (Byte.to_N b) in (n =? 32) || ((9 <=? n) && (n <=? 13)).

(** The digit a character is. *)
Definition digit (b : byte) : option Z :=
  let n := Z.of_N (Byte.to_N b) in if (48 <=? n) && (n <=? 57) then Some (n - 48) else None.

Fixpoint skip_spaces (s : cstring) : cstring :=
  match s with
  | b :: s' => if isspace b then skip_spaces s' else s
  | [] => []
  end.

(** The number the leading digits make, on top of those already read. *)
Fixpoint read_digits (acc : Z) (s : cstring) : Z :=
  match s with
  | b :: s => match digit b with Some n => read_digits (10 * acc + n) s | None => acc end
  | [] => acc
  end.

Definition ULLONG_MAX : Z := 2 ^ 64 - 1.

(** [strtoull(s, NULL, 10)]: white space, a sign, digits; 0 when there are
    none, the largest number when they make a larger one. *)
Definition strtoull (s : cstring) : Z :=
  let s := skip_spaces s in
  let (neg, s) := match s with
                  | b :: s' => if streq [b] (str "-") then (true, s')
                               else if streq [b] (str "+") then (false, s') else (false, s)
                  | [] => (false, [])
                  end in
  let n := read_digits 0 s in
  if ULLONG_MAX <? n then ULLONG_MAX else if neg then u64 (- n) else n.

(** [%llu] *)
Fixpoint digits_of (fuel : nat) (n : Z) : cstring :=
  match fuel with
  | O => []
  | S fuel =>
      let d := default Byte.x30 (Byte.of_N (Z.to_N (48 + n mod 10))) in
      if n <? 10 then [d] else digits_of fuel (n / 10) ++ [d]
  end.

(** Twenty digits are enough for 64 bits. *)
Definition print_u64 (n : Z) : cstring := digits_of 20 n.

(** ** What the tools print *)

Inductive message :=
  | Usage
  | UnrecognizedMode (value : cstring)
  | UnrecognizedOption (arg : cstring)
  | FormatFailed (errno : Z)
  | MountFailed (image : cstring) (errno : Z)
  | Formatted (image total_blocks mib journal_blocks mode : cstring).

(** Exit code and messages. *)
Abbreviation exit := (Z * list message)%type.

(** ** mkfs *)

Definition mkfs_parse_mode (s : cstring) : option logfs_data_mode :=
  if streq s (str "ordered") then Some LOGFS_MODE_ORDERED
  else if streq s (str "writeback") then Some LOGFS_MODE_WRITEBACK
  else if streq s (str "journal") then Some LOGFS_MODE_JOURNAL
  else None.

(** The loop over the options: the mode, the journal's size and the arguments
    that are left, or what is wrong with the first bad one. *)
Fixpoint mkfs_options (args : list cstring) (mode : logfs_data_mode) (journal_blocks : Z)
    : list message + (logfs_data_mode * Z * list cstring) :=
  match args with
  | [] => inr (mode, journal_blocks, [])
  | arg :: rest =>
      if negb (starts_with (str "--") arg) then inr (mode, journal_blocks, args)
      else if starts_with (str "--mode=") arg then
        match mkfs_parse_mode (drop 7 arg) with
        | Some mode => mkfs_options rest mode journal_blocks
        | None => inl [UnrecognizedMode (drop 7 arg); Usage]
        end
      else if starts_with (str "--journal-blocks=") arg then
        mkfs_options rest mode (strtoull (drop 17 arg))
      else inl [UnrecognizedOption arg; Usage]
  end.

Definition mode_name (mode : logfs_data_mode) : cstring :=
  match mode with
  | LOGFS_MODE_ORDERED => str "ordered"
  | LOGFS_MODE_WRITEBACK => str "writeback"
  | _ => str "journal"
  end.

Definition mkfs_report (image : cstring) (total_blocks journal_blocks : Z) (mode : logfs_data_mode)
    : message :=
  Formatted image (print_u64 total_blocks)
    (print_u64 (u64 (total_blocks * LOGFS_BLOCK_SIZE) / (1024 * 1024)))
    (print_u64 journal_blocks) (mode_name mode).

Definition mkfs_main (size_of : cstring -> option Z) (now : Z) (argv : list cstring) : M bdev exit :=
  match mkfs_options (tail argv) LOGFS_MODE_ORDERED 1024 with
  | inl messages => mret (2, messages)
  | inr (mode, journal_blocks, [image_path; total]) =>
      let total_blocks := strtoull total in
      r ← attempt (logfs_fs_format (size_of image_path) total_blocks journal_blocks mode now);
      mret (match r with
            | Err rc => (1, [FormatFailed (- rc)])
            | Ok _ => (0, [mkfs_report image_path total_blocks journal_blocks mode])
            end)
  | inr _ => mret (2, [Usage])
  end.

(** ** logfs *)

Definition main_parse_mode (s : cstring) : option logfs_data_mode :=
  if streq s (str "ordered") then Some LOGFS_MODE_ORDERED
  else if streq s (str "writeback") then Some LOGFS_MODE_WRITEBACK
  else if streq s (str "journal") then Some LOGFS_MODE_JOURNAL
  else None.

(** The mode override and the arguments after it. *)
Definition main_options (args : list cstring) : list message + (Z * list cstring) :=
  match args with
  | arg :: rest =>
      if starts_with (str "--mode=") arg then
        match main_parse_mode (drop 7 arg) with
        | Some m => inr (mode_num m, rest)
        | None => inl [UnrecognizedMode (drop 7 arg); Usage]
        end
      else inr (-1, args)
  | [] => inr (-1, [])
  end.

(** Running the mounted file system on the device. *)
Definition on_mounted {A} (mgr : txn_mgr) (m : M tst A) : M bdev A := fun d =>
  let (r, s) := m (mkTst mgr d) in (r, td s).

(** From a successful mount to the end: [fuse_argv] is the program's name and
    everything from the mount point on. *)
Definition main_serve (fuse_main : list cstring -> logfs_super -> M tst Z) (fs : logfs_super)
    (mgr : txn_mgr) (argv0 : cstring) (args : list cstring) : M bdev exit :=
  ok ← malloc;
  on_mounted mgr
    (if ok : bool then
       fuse_rc ← fuse_main (argv0 :: args) fs;
       logfs_fs_unmount ;;
       mret (fuse_rc, [])
     else logfs_fs_unmount ;; mret (1, [])).

Definition logfs_main (fuse_main : list cstring -> logfs_super -> M tst Z)
    (size_of : cstring -> option Z) (argv : list cstring) : M bdev exit :=
  match main_options (tail argv) with
  | inl messages => mret (2, messages)
  | inr (mode_override, image_path :: ((_ :: _) as args)) =>
      r ← attempt (logfs_fs_mount (size_of image_path) mode_override);
      match r with
      | Err rc => mret (1, [MountFailed image_path (- rc)])
      | Ok (fs, mgr) => main_serve fuse_main fs mgr (default [] (head argv)) args
      end
  | inr _ => mret (2, [Usage])
  end.
