(* ===== verification/ToolsProps.v ===== *)
(** The theorems about the command line tools. *)

From S2P Require Import Prelude.
From S2P Require Import Bytes.
From S2P Require Import DiskFormat.
From S2P Require Import Blockdev.
From S2P Require Import DiskOps.
From S2P Require Import Journal.
From S2P Require Import JournalLog.
From S2P Require Import JournalSafety.
From S2P Require Import Txn.
From S2P Require Import TxnInv.
From S2P Require Import TxnView.
From S2P Require Import TxnApi.
From S2P Require Import TxnStore.
From S2P Require Import FsFormat.
From S2P Require Import Inode.
From S2P Require Import InodeSpec.
From S2P Require Import InodeWalk.
From S2P Require Import Fs.
From S2P Require Import FsOps.
From S2P Require Import FsImage.
From S2P Require Import FsMachine.
From S2P Require Import FsLayout.
From S2P Require Import FsMkfs.
From S2P Require Import FsMount.
From S2P Require Import FsDemo.
From S2P Require Import Tools.

(** ** Numbers on the command line *)

Lemma digit_chars :
  forallb (fun n => match Byte.of_N (48 + N.of_nat n) with
                    | Some b => negb (isspace b) && negb (streq [b] (str "-")) &&
                                negb (streq [b] (str "+")) &&
                                bool_decide (digit b = Some (Z.of_nat n))
                    | None => false
                    end) (seq 0 10) = true.
Proof. vm_compute. reflexivity. Qed.

(** A character the parser takes for a digit and nothing else. *)
Record numeral (b : byte) (n : Z) : Prop := {
  nu_space : isspace b = false;
  nu_minus : streq [b] (str "-") = false;
  nu_plus : streq [b] (str "+") = false;
  nu_digit : digit b = Some n;
}.

Lemma digit_char n :
  0 <= n < 10 -> exists b, Byte.of_N (Z.to_N (48 + n)) = Some b /\ numeral b n.
Proof.
  intros Hn. pose proof digit_chars as H. rewrite forallb_forall in H.
  specialize (H (Z.to_nat n) ltac:(apply in_seq; lia)).
  replace (Z.to_N (48 + n)) with (48 + N.of_nat (Z.to_nat n))%N by lia.
  destruct (Byte.of_N _) as [b|]; [|done]. exists b. split; [done|].
  rewrite !andb_true_iff, !negb_true_iff, bool_decide_eq_true, Z2Nat.id in H by lia.
  destruct H as [[[? ?] ?] ?]. by split.
Qed.

Lemma read_digits_app acc s t :
  Forall (fun b => exists n, numeral b n) s ->
  read_digits acc (s ++ t) = read_digits (read_digits acc s) t.
Proof.
  intros H. revert acc. induction H as [|b s (n & Hn) _ IH]; intros acc; [done|].
  cbn [app read_digits]. rewrite (nu_digit _ _ Hn). apply IH.
Qed.

(** What is printed are digits, and they make the number. *)
Lemma digits_of_read fuel n :
  (0 < fuel)%nat -> 0 <= n < 10 ^ Z.of_nat fuel ->
  digits_of fuel n <> [] /\ Forall (fun b => exists k, numeral b k) (digits_of fuel n) /\
  read_digits 0 (digits_of fuel n) = n.
Proof.
  revert n. induction fuel as [|fuel IH]; intros n Hf Hn; [lia|]. cbn [digits_of].
  pose proof (Z.mod_pos_bound n 10 ltac:(lia)) as Hmod.
  destruct (digit_char (n mod 10) Hmod) as (b & -> & Hb). cbn [default from_option id].
  destruct (Z.ltb_spec n 10) as [Hlt|Hge].
  - split_and!; [done|repeat constructor; by eexists|].
    cbn [read_digits]. rewrite (nu_digit _ _ Hb), Z.mod_small by lia. lia.
  - rewrite Nat2Z.inj_succ, Z.pow_succ_r in Hn by lia.
    assert (Hfuel : (0 < fuel)%nat) by (destruct fuel; [simpl in Hn; lia|lia]).
    destruct (IH (n / 10) Hfuel) as (H1 & H2 & H3).
    { split; [apply Z.div_pos; lia|apply Z.div_lt_upper_bound; lia]. }
    split_and!.
    + by destruct (digits_of fuel (n / 10)).
    + apply Forall_app. split; [done|]. repeat constructor. by eexists.
    + rewrite read_digits_app, H3 by done. cbn [read_digits]. rewrite (nu_digit _ _ Hb).
      pose proof (Z.div_mod n 10 ltac:(lia)). lia.
Qed.

Lemma strtoull_print n : 0 <= n < 2 ^ 64 -> strtoull (print_u64 n) = n.
Proof.
  intros Hn. unfold print_u64.
  destruct (digits_of_read 20 n) as (H1 & H2 & H3); [lia|lia|].
  destruct (digits_of 20 n) as [|b s]; [done|].
  pose proof (Forall_inv H2) as (k & Hb). unfold strtoull. cbn [skip_spaces].
  rewrite (nu_space _ _ Hb), (nu_minus _ _ Hb), (nu_plus _ _ Hb), H3. unfold ULLONG_MAX.
  by rewrite (proj2 (Z.ltb_ge _ _)) by lia.
Qed.

(** ** mkfs, then logfs *)

(** An argument that is not taken for an option. *)
Lemma not_mode arg :
  starts_with (str "--") arg = false -> starts_with (str "--mode=") arg = false.
Proof.
  unfold starts_with. rewrite !bool_decide_eq_false. intros H Hm. apply H.
  rewrite <-(firstn_skipn 7 arg). change (length (str "--mode=")) with 7%nat in Hm.
  by rewrite Hm.
Qed.

Definition known_mode (mode : logfs_data_mode) : Prop :=
  match mode with LOGFS_MODE_OTHER _ => False | _ => True end.

Lemma parse_mode_name mode : known_mode mode -> mkfs_parse_mode (mode_name mode) = Some mode.
Proof. destruct mode; try done; intros _; vm_compute; reflexivity. Qed.

(** The options of a complete command line. *)
Lemma mkfs_options_given mode jlen image total :
  known_mode mode -> 0 <= jlen < 2 ^ 64 -> starts_with (str "--") image = false ->
  mkfs_options [str "--journal-blocks=" ++ print_u64 jlen; str "--mode=" ++ mode_name mode; image; total]
    LOGFS_MODE_ORDERED 1024 = inr (mode, jlen, [image; total]).
Proof.
  intros Hm Hj Hi. cbn [mkfs_options].
  assert (E1 : forall x, starts_with (str "--") (str "--journal-blocks=" ++ x) = true /\
    starts_with (str "--mode=") (str "--journal-blocks=" ++ x) = false /\
    starts_with (str "--journal-blocks=") (str "--journal-blocks=" ++ x) = true /\
    drop 17 (str "--journal-blocks=" ++ x) = x) by (intros x; split_and!; reflexivity).
  assert (E2 : forall x, starts_with (str "--") (str "--mode=" ++ x) = true /\
    starts_with (str "--mode=") (str "--mode=" ++ x) = true /\
    drop 7 (str "--mode=" ++ x) = x) by (intros x; split_and!; reflexivity).
  destruct (E1 (print_u64 jlen)) as (-> & -> & -> & ->). destruct (E2 (mode_name mode)) as (-> & -> & ->).
  cbn [negb]. rewrite parse_mode_name, strtoull_print, Hi by done. reflexivity.
Qed.

Lemma attempt_run {S A} (m : M S A) s r s' : m s = (r, s') -> attempt m s = (Ok r, s').
Proof. intros E. unfold attempt. by rewrite E. Qed.

(** From the mount to the exit, where the argument vector can be allocated. *)
Lemma serve_runs fuse_main fs mgr argv0 args k rc s2 s3 :
  fuse_main (argv0 :: args) fs (mkTst mgr (mkBdev k [] [])) = (Ok rc, s2) ->
  logfs_fs_unmount s2 = (Ok tt, s3) ->
  main_serve fuse_main fs mgr argv0 args (mkBdev k [] []) = (Ok (rc, []), td s3).
Proof.
  intros Hfuse Hun. unfold main_serve.
  assert (Hm : malloc (mkBdev k [] []) = (Ok true, mkBdev k [] [])) by reflexivity.
  rewrite (bind_ok _ _ _ _ _ Hm). unfold on_mounted.
  by rewrite (bind_ok _ _ _ _ _ Hfuse), (bind_ok _ _ _ _ _ Hun).
Qed.

(** C16: the two tools together: with sizes that fit ([formattable], so not the
    ones of [journal_size_unchecked]) and the mode written on its command line,
    mkfs exits with 0, or with 1 and an error number if a call failed.  [logfs]
    on the image it wrote hands the file system to FUSE with its own name, the
    mount point and the options after it - without the image - on a manager with
    the invariant in that mode, the mounted fresh file system when the mode is
    [journal]; when FUSE returns it unmounts, prints nothing and exits with what
    FUSE returned.  The log's region must hold no old log blocks, and no call of
    the second program's mount fails. *)
Theorem mkfs_then_serve total jlen now mode image mkfs_name name mountpoint options size_of d
    (fuse_main : list cstring -> logfs_super -> M tst Z) :
  formattable total jlen -> known_mode mode -> starts_with (str "--") image = false ->
  wf_disk (b_disk d) -> whole_io d ->
  (forall b, 3 <= b < 3 + jlen -> old_block 1 (content (b_disk d) b)) ->
  let (r, d') := mkfs_main size_of now
    [mkfs_name; str "--journal-blocks=" ++ print_u64 jlen; str "--mode=" ++ mode_name mode;
     image; print_u64 total] d in
  (r = Ok (0, [mkfs_report image total jlen mode]) \/
   sys d <> [] /\ exists e, 0 < e /\ r = Ok (1, [FormatFailed e])) /\
  (r = Ok (0, [mkfs_report image total jlen mode]) ->
    let fs := mkfs_super total jlen mode in
    let mgr := mounted_mgr jlen mode (-1) in
    let s1 := mkTst mgr (mkBdev (b_disk d') [] []) in
    mgr_inv s1 /\ tm_mode mgr = mode /\ (mode = LOGFS_MODE_JOURNAL -> mounted fs s1) /\
    forall rc s2 s3, fuse_main (name :: mountpoint :: options) fs s1 = (Ok rc, s2) ->
      logfs_fs_unmount s2 = (Ok tt, s3) ->
      logfs_main fuse_main (fun _ => Some (total * LOGFS_BLOCK_SIZE))
        (name :: image :: mountpoint :: options) (td s1) = (Ok (rc, []), td s3)).
Proof.
  intros Hfm Hmode Himg Hk Hw Hblank. pose proof Hfm as [Hj Ht Hroom Hdata].
  assert (Hnum : 0 <= mode_num mode < 2 ^ 32) by (destruct mode; try done; split; done).
  pose proof (mkfs_table_len _ (mkfs_total_inodes_range total)) as [Htl _].
  assert (Hjl : 0 <= jlen < 2 ^ 64) by lia. assert (Htot : 0 <= total < 2 ^ 64) by lia.
  unfold mkfs_main. cbn [tail]. rewrite mkfs_options_given by done.
  cbv zeta. rewrite strtoull_print by done. unfold mbind at 1, M_bind at 1, attempt.
  destruct (format_run total jlen now mode (size_of image) Hfm d Hk Hw) as (r & d' & -> & Hr).
  destruct Hr as [[-> Hd']|(Hs & (rc & Hrc & ->) & _)].
  2: { split; [right; split; [done|]; exists (- rc); split; [lia|done]|done]. }
  split; [by left|]. intros _. rewrite Hd'. set (k := opened total (b_disk d)).
  assert (Hwf : wf_disk k) by by apply wf_disk_resize.
  assert (Hbl : forall b, 3 <= b < 3 + jlen -> old_block 1 (content k b)).
  { intros b Hb. unfold k, opened. rewrite content_resize; [by apply Hblank|].
    pose proof (mkfs_table_len _ (mkfs_total_inodes_range total)). lia. }
  cbv zeta.
  assert (Hback : num_mode (if -1 <? 0 then mode_num mode else -1) = mode) by by destruct mode.
  split; [|split; [|split]].
  - apply (mounted_rep total jlen now mode k Hfm Hwf eq_refl Hbl (-1)).
  - exact Hback.
  - intros ->. by apply (fresh_mounted total jlen now LOGFS_MODE_JOURNAL k Hfm Hwf eq_refl Hbl (-1)).
  - intros rc s2 s3 Hfuse Hun. unfold logfs_main. cbn [tail main_options]. rewrite not_mode by done.
    rewrite (bind_ok _ _ _ _ _ (attempt_run _ _ _ _
      (mount_formatted total jlen now mode k Hfm Hwf eq_refl Hbl (-1) Hnum))).
    by apply serve_runs with (s2 := s2).
Qed.

(** Once the file system is mounted the tool itself prints nothing. *)
Lemma serve_silent fuse_main fs mgr argv0 args d code messages :
  (main_serve fuse_main fs mgr argv0 args d).1 = Ok (code, messages) -> messages = [].
Proof.
  destruct (main_serve _ _ _ _ _ d) as [r d'] eqn:E. cbn [fst]. intros ->.
  unfold main_serve in E. apply bind_ok_inv in E as (ok & d1 & _ & E). unfold on_mounted in E.
  destruct ok.
  - destruct ((_ : M tst exit) (mkTst mgr d1)) as [r s] eqn:E1. injection E as -> _.
    apply bind_ok_inv in E1 as (rc & s1 & _ & E1). by apply bind_ok_inv in E1 as (? & ? & _ & [= _ <- _]).
  - destruct ((_ : M tst exit) (mkTst mgr d1)) as [r s] eqn:E1. injection E as -> _.
    by apply bind_ok_inv in E1 as (? & ? & _ & [= _ <- _]).
Qed.

(** A command line one of the tools does not understand changes nothing on
    the device, mounts nothing, and ends with exit code 2. *)
Theorem bad_usage_harmless size_of now argv d
    (fuse_main : list cstring -> logfs_super -> M tst Z) :
  (forall code messages, (mkfs_main size_of now argv d).1 = Ok (code, messages) -> Usage ∈ messages ->
     mkfs_main size_of now argv d = (Ok (2, messages), d)) /\
  (forall code messages, (logfs_main fuse_main size_of argv d).1 = Ok (code, messages) ->
     Usage ∈ messages -> logfs_main fuse_main size_of argv d = (Ok (2, messages), d)).
Proof.
  split; intros code messages.
  - unfold mkfs_main. destruct (mkfs_options _ _ _) as [ms|[[mode jb] rest]]; [by intros [= _ ->] _|].
    destruct rest as [|image [|total [|? ?]]]; try by intros [= _ ->] _.
    unfold mbind, M_bind, attempt. destruct (logfs_fs_format _ _ _ _ _ d) as [[[]|rc] d1];
      intros [= _ <-] Hin; apply list_elem_of_singleton in Hin; done.
  - unfold logfs_main. destruct (main_options _) as [ms|[ov rest]]; [by intros [= _ ->] _|].
    destruct rest as [|image [|mnt opts]]; try by intros [= _ ->] _.
    unfold mbind, M_bind, attempt.
    destruct (logfs_fs_mount _ _ d) as [[[fs mgr]|rc] d1].
    + intros Hm Hin. apply serve_silent in Hm. subst messages. by apply elem_of_nil in Hin.
    + intros [= _ <-] Hin. apply list_elem_of_singleton in Hin. done.
Qed.

(** ** Runs *)

Definition demo_argv : list cstring :=
  [str "mkfs.logfs"; str "--journal-blocks=" ++ print_u64 16; str "--mode=" ++ mode_name LOGFS_MODE_JOURNAL;
   str "disk.img"; print_u64 64].

(** A client that makes one file and unmounts. *)
Definition demo_client (argv : list cstring) (fs : logfs_super) : M tst Z :=
  logfs_op_create fs demo_file 0x1a4 8 ;; mret 0.

Lemma mkfs_then_serve_witness :
  let out := mkfs_main (fun _ => None) 7 demo_argv (blank_dev []) in
  out.1 = Ok (0, [mkfs_report (str "disk.img") 64 16 LOGFS_MODE_JOURNAL]) /\
  let s1 := mkTst (mounted_mgr 16 LOGFS_MODE_JOURNAL (-1)) (mkBdev (b_disk out.2) [] []) in
  mounted demo_super s1 /\
  (logfs_main demo_client (fun _ => Some (64 * LOGFS_BLOCK_SIZE))
    [str "logfs"; str "disk.img"; str "/mnt"; str "-f"] (td s1)).1 = Ok (0, []).
Proof.
  intros out.
  assert (Hout : out.1 = Ok (0, [mkfs_report (str "disk.img") 64 16 LOGFS_MODE_JOURNAL]))
    by (vm_compute; reflexivity).
  split; [exact Hout|]. intros s1.
  assert (Hfuse : (demo_client [str "logfs"; str "/mnt"; str "-f"] demo_super s1).1 = Ok 0)
    by (vm_compute; reflexivity).
  assert (Hun : (logfs_fs_unmount (demo_client [str "logfs"; str "/mnt"; str "-f"] demo_super s1).2).1
    = Ok tt) by (vm_compute; reflexivity).
  pose proof (mkfs_then_serve 64 16 7 LOGFS_MODE_JOURNAL (str "disk.img") (str "mkfs.logfs") (str "logfs")
    (str "/mnt") [str "-f"] (fun _ => None) (blank_dev []) demo_client formattable_64 I eq_refl
    (wf_blank_disk 0) (Forall_nil_2 _) (fun b _ => blank_log 0 b)) as H.
  fold demo_argv in H. unfold s1, out in *. destruct (mkfs_main _ 7 demo_argv (blank_dev [])) as [r d'].
  cbn [fst snd] in *. destruct H as [_ H]. destruct (H Hout) as (_ & _ & H3 & H4).
  split; [exact (H3 eq_refl)|].
  rewrite (H4 0 _ _ (injective_projections _ (Ok 0, _) Hfuse eq_refl)
    (injective_projections _ (Ok tt, _) Hun eq_refl)). reflexivity.
Defined.

Lemma bad_usage_harmless_witness :
  let argv := [str "mkfs.logfs"; str "--mode=fast"; str "disk.img"; str "64"] in
  mkfs_main (fun _ => None) 7 argv (blank_dev [])
  = (Ok (2, [UnrecognizedMode (str "fast"); Usage]), blank_dev []).
Proof.
  intros argv.
  apply (proj1 (bad_usage_harmless (fun _ => None) 7 argv (blank_dev []) demo_client) 2).
  - vm_compute. reflexivity.
  - by right; left.
Defined.

(** A journal size that is no number is taken for 0: mkfs reports success, the
    image mounts, and on it every commit fails for lack of log space; the
    generation is dropped, and [fsync] returns 0 for a file that is gone. *)
Definition bad_size : result exit * bdev :=
  mkfs_main (fun _ => None) 7
    [str "mkfs.logfs"; str "--mode=journal"; str "--journal-blocks=none"; str "disk.img"; str "64"]
    (blank_dev []).

Definition bad_size_run : bool * result unit * result Z * result Z :=
  match logfs_fs_mount (Some (64 * LOGFS_BLOCK_SIZE)) (-1) (mkBdev (b_disk bad_size.2) [] []) with
  | (Ok (fs, mgr), d) =>
      let (r, s) := (logfs_op_create fs demo_file 0x1a4 8 ;;
                     logfs_op_fsync [commit_cycle]) (mkTst mgr d) in
      (true, r, resolve_path fs (view s) demo_file, resolve_path fs (committed s) demo_file)
  | (Err rc, _) => (false, Err rc, Err rc, Err rc)
  end.

Theorem journal_size_unchecked :
  (exists report, bad_size.1 = Ok (0, [report])) /\
  bad_size_run = (true, Ok tt, Err (- ENOENT), Err (- ENOENT)).
Proof. split; [eexists|]; vm_compute; reflexivity. Qed.
